(* ===== verification/_CoqProject ===== *)
-Q . S2P
Prelude.v
Labels.v
Store.v
StoreRefinement.v
FsTypes.v
Objects.v
Fs.v
FsGuarantee.v
FsMediation.v
FsReads.v
FsDirs.v
FsGates.v
FsTheorems.v
FsTyping.v
FsTyped.v
Observer.v
FsSecure.v
Paths.v
Syscalls.v
Blobstore.v
Message.v
SysServer.v
SysGuarantee.v
SysTheorems.v
SysSafety.v
SysCalls.v
Authority.v
AuthoritySys.v
SysTyping.v
SysSecure.v
Noninterference.v
LocalRM.v
SchedRM.v
Scheduler.v
SchedProgress.v
Worker.v
Machine.v
Conversation.v
AuthorityTask.v
TaskRun.v
Cluster.v
Deployment.v
CommandLine.v
Firerunner.v
Singlevm.v
Startup.v
Metrics.v
Bootstrap.v
Webfront.v
WebTheorems.v
AuthorityWeb.v
WebServer.v
Integrity.v
AdminTools.v
HttpServer.v
Tools.v
Clap2.v
Sfclient.v
Sffs.v
Webhook.v
WebhookMain.v
Mains.v
Instances.v
FsWitness.v
SysWitness.v
SchedWitness.v
ClusterWitness.v
WorkerWitness.v
MachineWitness.v
DeploymentWitness.v
VmWitness.v
WebWitness.v
AuthorityWitness.v
AdminWitness.v
HookWitness.v
ToolsWitness.v
