(* ===== verification/Prelude.v ===== *)
(** * A verification of the Faasten function-as-a-service system

    Faasten runs functions in virtual machines over a file system with information flow labels.
    This library models the Rust code of [src/snapfaas/] and [src/frontends/] and proves the
    properties its security and its scheduling rest on.  This file holds what the others share: bytes and
    big-endian integers, results and stateful computations that may panic, the guarantee and
    result calculi ([Guar], [Returns]) with their automation, and invariants of step relations.

    ** The program and its model

    A request enters through the web frontend, which checks its token, or as a [LabeledInvoke]
    message.  The scheduler queues it, picks an idle worker
    on some node and sends it the task.  The worker takes a cached VM for the function or makes
    one, and a system call processor serves the function's calls: it reads and writes labeled
    objects, opens blobs and invokes gates, which go back to the scheduler.  What the function
    returns is the result of the task.

    - Labels.v: the interface to the [labeled] crate (Buckle labels), with the laws the code
      relies on.
    - Store.v, StoreRefinement.v: the trait [BackingStore] of [fs/mod.rs] as a class, and its
      implementations [fs/lmdb.rs] and [fs/tikv.rs] over the client libraries.
    - FsTypes.v, Objects.v, Fs.v: [fs/mod.rs], [fs/utils.rs], [fs/errors.rs], [fs/function.rs].
      Objects are typed references; [Objects.World] is the store with the two thread-local
      variables [CURRENT_LABEL] and [PRIVILEGE], the random numbers to come, and what other
      threads do to the store between two accesses.  [Objects.v] has one definition per method
      of [ObjectRef] and [Labeled], [Fs.v] one per method of [FS] and function of [utils].
    - Paths.v: [fs/path.rs].
    - Syscalls.v: the messages of [syscalls.proto] and [sched/messages.proto], and the
      conversions of [syscalls.rs] and [fs/function.rs].
    - Blobstore.v: [blobstore/mod.rs], files named by the digest of their contents.
    - Message.v: framing and remote procedure calls of [sched/message.rs], [sched/rpc.rs] and
      the channel of [vm.rs].
    - SysServer.v: [syscall_server.rs].  [SysState] is one [SyscallProcessor] with the global
      environment it borrows; [do_syscall] is the dispatch, [run] the loop.
    - LocalRM.v: [resource_manager.rs], the VMs and the memory of one machine.
    - SchedRM.v, Scheduler.v: [sched/resource_manager.rs], [sched/rpc_server.rs] and
      [schedule] of [sched/mod.rs].  [sched_step] is the interleaving of the connection threads
      and the scheduling thread, at the granularity of the locks they take; [parked] says that
      the latter waits on the condition variable, and [notify_one] wakes it.
    - Worker.v: [worker.rs], [Vm::launch] of [vm.rs], [FunctionConfig] of [configs.rs].
    - Machine.v: the workers that [bins/multivm] starts, interleaved at the lock of the resource
      manager ([worker_step] is one worker's, [machine_step] anyone's).
    - Cluster.v: the scheduler with workers on its connections, each in a phase of its
      conversation ([Phase]); [cluster_step] adds what the workers read and write to the steps of
      Scheduler.v, [perform] is the same as a function of a choice.  Conversation.v proves that
      the code of Worker.v and SysServer.v holds that conversation, TaskRun.v that a task of
      Worker.v is a sequence of steps of its machine and of that conversation ([serves]).
    - Deployment.v: the workers of Cluster.v on the machines of Machine.v, each of which does on
      its machine what its task asks for.
    - Startup.v: [lib.rs], [Worker::new], [ResourceManager::new] and the main of [bins/multivm].
    - CommandLine.v, Firerunner.v, Singlevm.v: the options of [cli.rs] and the parser's
      contract; [bins/firerunner] with [firecracker_wrapper.rs], from a command line to the
      actions asked of the virtual machine monitor; [bins/singlevm].
    - Bootstrap.v: [fs/bootstrap.rs], over the file system and the blob store together.
    - Webfront.v, WebTheorems.v, WebServer.v: [frontends/webfront], one definition per route;
      its main, and the server on whose threads requests are served.
    - Authority.v, AuthoritySys.v, AuthorityTask.v, AuthorityWeb.v, Integrity.v: what the
      callers' authority allows in the file system, in a function's run, in a worker's turn and
      in the frontend, and all of them on one store ([Integrity.System], [own], [others]).
    - AdminTools.v: [bins/admin_fstools], one definition per subcommand.
    - HttpServer.v, Webhook.v, Tools.v, Metrics.v: [frontends/httpserver], [frontends/webhook],
      [bins/sfdb], [bins/sfblob] and [metrics.rs], which are not built at present.
    - Clap2.v, Sfclient.v, Sffs.v, WebhookMain.v, Mains.v: the older builder of command lines;
      [bins/sfclient] and [bins/sffs], which are not built either and call functions that are
      gone; the mains of [frontends/webhook], [bins/scheduler] and [bins/garbage-collector].
    - Instances.v and the files ending in Witness: one instance of every interface, and each
      theorem with hypotheses applied to a concrete state.

    A method that can panic or loop is a computation [SM S A]: it takes the state and returns a
    value, a panic or the exhaustion of its fuel, with the state reached.  [Result] is [result]
    and [?] is the notation [?←].  [u64] and [u32] are [Z] with the wrap-around written out
    ([wrap_u64], [wrap_u32]), as the release profile has it.

    ** What is proved

    - Information flow in the file system (FsGuarantee.v, FsMediation.v, FsReads.v,
      FsTheorems.v): the label of a thread only rises; a value changes only where the label
      check allows it, keeps its label, and no gate or service gets more privilege than its
      maker has; whatever a read returns has tainted the reader.  The first two are proved for
      arbitrary sequences of calls, the first one under arbitrary interference.
    - The same at the system call interface (SysGuarantee.v, SysTheorems.v, SysSafety.v), by an
      interface of primitives ([FsPrimitives], [SysPrimitives]) that both relations implement;
      over a whole run; with the two exceptions, the response and the invocation of a service.
    - Noninterference (Observer.v, FsSecure.v, SysSecure.v, Noninterference.v): two runs of a
      function on stores that an observer at some label cannot tell apart.  [seen] is what flows
      to the observer, [alike] relates the stores, and [Secure] relates two runs of a
      computation that either go the same way or have both been tainted beyond the observer;
      every method of the objects and of the file system, every system call and the loop over
      them are shown to keep it.  A run ends with nothing new to be seen
      ([run_noninterference]), except which facets of a faceted directory exist, which is not
      protected ([facet_covert_channel]).
    - Integrity of the whole system (Authority*.v, Integrity.v): a store is [closed] for an
      authority when its gates and services give those who may use them nothing more.  From
      such a store, whatever requests, invocations and system calls of that authority are
      interleaved with each other and with the rest of the world, what is guarded by another
      integrity changes only by others' doing, and no function is started with more privilege
      ([integrity_end_to_end]).  Its parts are theorems of their own: a function's run
      ([run_held]), a worker's turn ([turn_within]) and a session with the frontend
      ([frontend_sessions_within]).  Each is proved by the rules of [FsPrimitives] and
      [SysPrimitives], for the relation [Held].
    - Concurrency of directories (FsDirs.v): [link] and [unlink] are linearizable, and terminate
      after at most one attempt per intervention of another thread, plus one.
    - Functional behaviour: path resolution refines a pure lookup; creation never overwrites an
      object; facets are found or created; gates are resolved with the clearance of the whole
      chain (FsGates.v); gate and service invocations (SysCalls.v); descriptors are never reused.
    - Types (FsTyping.v, FsTyped.v, SysTyping.v): a well-formed store, in which every reference
      is to an object of its type, stays so, no [unwrap] of the file system panics, and the
      descriptors of a function never dangle ([store_stays_typed], [descriptors_never_dangle]).
    - Stores: every session with LMDB or TiKV is one with a finite map.
    - Data: paths are parsed exactly by a grammar that is stated without the parser
      ([path_text], [Path_parse_grammar]); wire conversions, frames and blobs round trip,
      whatever file operation fails or is short.
    - Memory and VMs: memory is conserved by every interleaving of workers, no VM is in two
      hands, a launched VM is connected ([vm_exclusive]), and a task gives back the VM it takes
      before it reports ([task_served]); when memory can be had, and when the eviction loop never
      ends.
    - Scheduling: tasks start in the order accepted; what is written when a task is reported is
      its result, to the asker, at most once ([replies_routed]); the
      retry loop ends; choosing a worker never panics in a reachable state; what a worker reports;
      with enough workers the queue drains, if the thread is woken when it waits, which it does
      at most once for every record of a cached VM (SchedProgress.v, [queue_drains]).
    - Scheduler and workers together (Cluster.v): a task is with one worker at most, is reported
      at most once and does not disappear ([tasks_in_custody]), and what a worker reads is what
      it waits for ([conversations_in_step]); both as long as no asynchronous invocation meets
      a full queue, for which a run that loses a task is given ([full_queue_loses_task]).  A
      turn of the worker's loop is one exchange of that conversation ([turn_follows_protocol]).
    - A whole deployment (Deployment.v): a VM at work is of the function of a task that is
      accepted and not reported ([vm_serves_task]); a machine that lost no worker has all its
      memory, and all of it can be had again when the tasks given out are reported
      ([memory_comes_back]).
    - Starting: the memory read from [/proc/meminfo], the pool and its workers
      ([machine_memory_read], [pool_started]).
    - Launching: what the worker puts on a command line is what [firerunner] reads from it, or
      is refused ([launch_understood]), and what the monitor is told and has answered when the
      process ends well ([launch_boots]).
    - The outside: no HTTP request and no run of the administrator's tool changes the file system
      beyond the authority it comes with ([handle_confined], [admin_confined]); delegated tokens
      only weaken; a request for a gate is one invocation and one answer on the connection to the
      scheduler, and what a function gave, a success or a failure, is released only if its label
      may flow to that of the thread ([released_response]), which
      the caller may choose ([chosen_label_released]); errors of a path are answered without
      such a check ([path_errors_tell]); a session of [singlevm] is
      confined to its login; the webhook accepts only signed events.
    - HTTP: requests are read exactly whatever the pieces they arrive in, and answered in order.
    - Tools: [sfdb -a] lists exactly the keys with a prefix ([scan_lists_prefix]), numbers and
      blobs are read back as they were stored ([int_roundtrip], [sfblob_roundtrip]);
      [sfclient] shows only what may flow to its principal ([shown_to_clearance]) and, as does
      [sffs], never panics for want of an argument ([arguments_suffice], [mk_command_spec]).
    - Where the code departs from its comments or from the protocol, a theorem states what it
      does: [gate_cycle_diverges], [sync_reply_lost], [queue_full_reply], [find_idle_blocked],
      [vm_reuse_ignores_taint], [launch_failure_spins], [dent_list_always_succeeds],
      [dent_link_reply], [read_path_facet_first], [stale_label_blocks_fsutil],
      [json_label_dropped], [parked_beside_idle], [taint_with_label_panics],
      [singlevm_unlaunched], [signature_panics], [full_queue_loses_task],
      [facet_covert_channel], [flush_repeats] and others.

    ** Fuel

    Loops that the code does not bound take fuel.  Redirects of a gate: a chain of [n] redirects
    needs [n + 1] ([resolve_gate_clearance]); a cycle exhausts any.  Compare-and-swap loops: the
    number of interventions plus one ([link_linearizable],
    [unlink_linearizable]), which is the
    fuel [dir_link] and [dir_unlink] use.  Eviction: the number of cached VMs
    ([try_allocate_memory_spec]).  The scheduler's retries: the number of idle workers
    ([dispatch_terminates]).  Reading a request: its bytes ([read_body]).  [std::io::copy]: the
    bytes to copy.  [write_all]: one more than the operations that may be short.
    Attempts at a task: five once the VM is launched ([attempts_bounded]), without bound before.
    The loops that serve requests forever ([serve], [wait_and_process]) are fuelled by messages.
    The draws of a uid are bounded by the random numbers of the state.

    ** Parameters

    Not under [src/], hence classes or arguments with laws: the label crate ([LabelOps]), the
    LMDB and TiKV clients ([LmdbLib], [TikvLib]), serde ([SerdeOps]), prost ([Message]), the
    digest and hexadecimal crates ([DigestOps], [HexOps]), uuid ([UuidOps]), reqwest and strfmt
    ([HttpClient]), connections and VM channels ([Conn], [SyscallChannel]), process creation
    ([Launcher]), JSON of the resource report ([info_to_vec]), hash map order ([first_key]), the
    argument parser ([Clap]), the virtual machine monitor ([Vmm]), tokens, MIME types and JSON of
    the web frontend ([WebLib]), the identity providers ([Providers]), local files and the YAML
    configuration ([local_file], [read_config]), httparse and the http crate ([HttpLib]), HMAC
    and JSON of the webhook ([HookLib]) and the request module of [snapfaas] that it imports and
    that does not exist ([Snapfaas]), the cursors of LMDB ([LmdbCursor]), the sockets and
    names in the file system ([Sockets], [Files]), what the scheduler has heard on a connection
    ([Heard], whose instance must agree with [Conn]), the older argument parser ([Clap2]), the
    environment, key files and thread pool of the web frontend, and what the tools out of the
    build call and is gone: the functions of [utils] and the sockets of [sfclient] ([OldUtils],
    [Dial], [ClientLib]), [labeled_fs] and [dclabel] of [sffs] ([LabeledFs], [DcLabelLib]) and
    [collect_garbage].

    ** Not modelled

    Set-up that is only input and output: opening databases, spawning threads, connection pools
    (but for their check of a connection, [is_valid]), the [Drop] instances and the error values
    they log.  [webhook/src/server.rs] is the same text as [httpserver/src/lib.rs], and nothing
    includes it; the tests in [metrics.rs] are not code of the program.  What a function does inside its virtual machine is any sequence of system
    calls.  What is private to an observer who can see how long a call takes, or that it never
    ends, is outside the statement of noninterference, which is about one function: what the
    functions of a deployment tell each other goes through labels of invocations that the
    scheduler does not check, so that only integrity is stated for all of them together. *)

From stdpp Require Import base tactics option list gmap strings countable.
From Stdlib Require Import ZArith Lia Strings.Byte.
From Stdlib Require Export Strings.Byte.

(** ** Bytes *)

Abbreviation bytes := (list byte).

#[global] Instance byte_eq_dec : EqDecision byte := Byte.byte_eq_dec.
#[global] Program Instance byte_countable : Countable byte :=
  inj_countable Byte.to_N Byte.of_N _.
Next Obligation. intros b. apply Byte.of_to_N. Qed.

(** ** Big-endian integers ([to_be_bytes], [from_be_bytes] of Rust's [u32] and [u64]) *)

Definition byte_of_Z (z : Z) : byte :=
  default x00 (Byte.of_N (Z.to_N (z mod 256))).
Definition Z_of_byte (b : byte) : Z := Z.of_N (Byte.to_N b).

Fixpoint to_be (n : nat) (z : Z) : bytes :=
  match n with
  | O => []
  | S m => byte_of_Z (z / 256 ^ Z.of_nat m) :: to_be m z
  end.

Fixpoint of_be (l : bytes) : Z :=
  match l with
  | [] => 0
  | b :: l => Z_of_byte b * 256 ^ Z.of_nat (length l) + of_be l
  end.

Definition u32_mod : Z := 2 ^ 32.
Definition u64_mod : Z := 2 ^ 64.
(** Wrap-around of the release profile's [u64] arithmetic and of [as u32]/[as u64] casts. *)
Definition wrap_u64 (z : Z) : Z := z mod u64_mod.
Definition wrap_u32 (z : Z) : Z := z mod u32_mod.

Lemma Z_of_byte_range b : (0 <= Z_of_byte b < 256)%Z.
Proof. unfold Z_of_byte. pose proof (Byte.to_N_bounded b). lia. Qed.

Lemma Z_of_byte_of_Z z : Z_of_byte (byte_of_Z z) = (z mod 256)%Z.
Proof.
  unfold Z_of_byte, byte_of_Z.
  pose proof (Z.mod_pos_bound z 256 ltac:(lia)) as Hb.
  destruct (Byte.of_N (Z.to_N (z mod 256))) as [b|] eqn:E; simpl.
  - apply Byte.to_of_N in E. rewrite E. lia.
  - apply Byte.of_N_None_iff in E. lia.
Qed.

Lemma byte_of_Z_of_byte b : byte_of_Z (Z_of_byte b) = b.
Proof.
  unfold byte_of_Z. pose proof (Z_of_byte_range b).
  rewrite Z.mod_small by done. unfold Z_of_byte. rewrite N2Z.id.
  by rewrite Byte.of_to_N.
Qed.

Lemma length_to_be n z : length (to_be n z) = n.
Proof. induction n; simpl; congruence. Qed.

Lemma of_be_range l : (0 <= of_be l < 256 ^ Z.of_nat (length l))%Z.
Proof.
  induction l as [|b l IH]; cbn [of_be length]; [lia|].
  rewrite Nat2Z.inj_succ, Z.pow_succ_r by lia.
  pose proof (Z_of_byte_range b). nia.
Qed.

Lemma pow256_pos n : (0 < 256 ^ Z.of_nat n)%Z.
Proof. apply Z.pow_pos_nonneg; lia. Qed.

Lemma of_be_to_be n z : of_be (to_be n z) = (z mod 256 ^ Z.of_nat n)%Z.
Proof.
  induction n as [|n IH]; cbn [to_be of_be].
  - by rewrite Z.mod_1_r.
  - rewrite IH, length_to_be, Z_of_byte_of_Z, Nat2Z.inj_succ, Z.pow_succ_r by lia.
    pose proof (pow256_pos n).
    rewrite (Z.mul_comm 256), Z.rem_mul_r by lia. lia.
Qed.

Lemma to_be_mod n z k : (n <= k)%nat -> to_be n (z mod 256 ^ Z.of_nat k) = to_be n z.
Proof.
  revert z; induction n as [|n IH]; intros z Hk; cbn [to_be]; [done|].
  rewrite IH by lia. f_equal.
  unfold byte_of_Z. do 3 f_equal.
  pose proof (pow256_pos n).
  replace (Z.of_nat k) with (Z.of_nat n + Z.of_nat (k - n))%Z by lia.
  rewrite Z.pow_add_r by lia.
  pose proof (pow256_pos (k - n)).
  rewrite Z.rem_mul_r by lia.
  rewrite Z.mul_comm, Z.div_add by lia.
  rewrite (Z.div_small (z mod _)) by (apply Z.mod_pos_bound; lia).
  rewrite Z.add_0_l.
  rewrite Z.mod_mod_divide; [done|].
  exists (256 ^ Z.of_nat (k - n - 1))%Z.
  rewrite Z.mul_comm, <- Z.pow_succ_r by lia. f_equal; lia.
Qed.

Lemma to_be_of_be l : to_be (length l) (of_be l) = l.
Proof.
  induction l as [|b l IH]; cbn [of_be length to_be]; [done|].
  pose proof (of_be_range l). pose proof (pow256_pos (length l)).
  f_equal.
  - rewrite Z.add_comm, Z.div_add, (Z.div_small (of_be l)) by lia.
    apply byte_of_Z_of_byte.
  - rewrite <- (to_be_mod _ _ (length l)) by lia.
    rewrite Z.add_comm, Z.mod_add, Z.mod_small by lia. done.
Qed.

Lemma to_be_inj n a b :
  (0 <= a < 256 ^ Z.of_nat n)%Z -> (0 <= b < 256 ^ Z.of_nat n)%Z ->
  to_be n a = to_be n b -> a = b.
Proof.
  intros Ha Hb E. apply (f_equal of_be) in E.
  rewrite !of_be_to_be, !Z.mod_small in E by done. done.
Qed.

(** ** Results and fallible stateful computations

    Rust's [Result] is [result]; a computation that may panic ([unwrap], [expect], [panic!],
    [todo!]) or that a fuelled loop cuts short returns an [outcome].  A panic keeps the state
    reached so far, because the stores the code writes to outlive the thread. *)

Inductive result (A E : Type) : Type :=
  | Ok (a : A)
  | Err (e : E).
Arguments Ok {A E} a.
Arguments Err {A E} e.

Inductive outcome (A : Type) : Type :=
  | Val (a : A)
  | Panic
  | NoFuel.
Arguments Val {A} a.
Arguments Panic {A}.
Arguments NoFuel {A}.

Definition SM (S A : Type) : Type := S -> outcome A * S.

#[global] Instance SM_ret S : MRet (SM S) := fun A a s => (Val a, s).
#[global] Instance SM_bind S : MBind (SM S) := fun A B f m s =>
  match m s with
  | (Val a, s') => f a s'
  | (Panic, s') => (Panic, s')
  | (NoFuel, s') => (NoFuel, s')
  end.

Definition panic {S A} : SM S A := fun s => (Panic, s).
Definition nofuel {S A} : SM S A := fun s => (NoFuel, s).
Definition gets {S A} (f : S -> A) : SM S A := fun s => (Val (f s), s).
Definition modify {S} (f : S -> S) : SM S unit := fun s => (Val tt, f s).
(** [Option::unwrap] and [Option::expect]. *)
Definition unwrap {S A} (o : option A) : SM S A :=
  match o with Some a => mret a | None => panic end.

(** The [?] operator on [Result]. *)
Definition try_bind {S A B E} (m : SM S (result A E)) (f : A -> SM S (result B E)) :
    SM S (result B E) :=
  m ≫= fun r => match r with Ok a => f a | Err e => mret (Err e) end.
Definition map_err {A E F} (f : E -> F) (r : result A E) : result A F :=
  match r with Ok a => Ok a | Err e => Err (f e) end.

Declare Scope faasten_scope.
Delimit Scope faasten_scope with faasten.
Notation "x ?← m ; k" := (try_bind m (fun x => k))
  (at level 20, m at level 100, k at level 200, right associativity) : faasten_scope.
Notation "' x ?← m ; k" := (try_bind m (fun x => k))
  (at level 20, x pattern, m at level 100, k at level 200, only parsing) : faasten_scope.
Open Scope faasten_scope.

(** Runs a computation on one field of a larger state. *)
Definition zoom {S T A} (get : S -> T) (set : T -> S -> S) (m : SM T A) : SM S A :=
  fun s => let '(a, t) := m (get s) in (a, set t s).

Lemma bind_val {S A B} (m : SM S A) (f : A -> SM S B) s b s'' :
  (m ≫= f) s = (Val b, s'') <->
  exists a s', m s = (Val a, s') /\ f a s' = (Val b, s'').
Proof.
  unfold mbind, SM_bind. split.
  - destruct (m s) as [[a| |] s']; [eauto|done..].
  - intros (a & s' & -> & E). done.
Qed.

Lemma bind_step {S A B} (m : SM S A) (f : A -> SM S B) s a s' :
  m s = (Val a, s') -> (m ≫= f) s = f a s'.
Proof. unfold mbind, SM_bind. by intros ->. Qed.

(** Computations that agree agree after the same start. *)
Lemma bind_ext {S A B} (m : SM S A) (f g : A -> SM S B) s :
  (forall a s', f a s' = g a s') -> (m ≫= f) s = (m ≫= g) s.
Proof. intros H. unfold mbind, SM_bind. by destruct (m s) as [[a| |] s']. Qed.

(** ** Guarantees

    [Guar R m]: every run of [m], also one that panics, takes the state along the preorder [R].
    The closure lemmas below are the [guar] hint database, by which the guarantee of an
    operation follows from those of the operations it calls. *)

Definition Guar {S A} (R : relation S) (m : SM S A) : Prop := forall s, R s (m s).2.

Create HintDb guar discriminated.

Section guar.
Context {S : Type} {R : relation S} `{!PreOrder R}.

Lemma guar_ret {A} (a : A) : Guar R (mret a).
Proof. intros s; simpl; reflexivity. Qed.
Lemma guar_panic {A} : Guar R (panic (A:=A)).
Proof. intros s; simpl; reflexivity. Qed.
Lemma guar_nofuel {A} : Guar R (nofuel (A:=A)).
Proof. intros s; simpl; reflexivity. Qed.
Lemma guar_gets {A} (f : S -> A) : Guar R (gets f).
Proof. intros s; simpl; reflexivity. Qed.
Lemma guar_unwrap {A} (o : option A) : Guar R (unwrap o).
Proof. destruct o; [apply guar_ret | apply guar_panic]. Qed.
Lemma guar_bind {A B} (m : SM S A) (f : A -> SM S B) :
  Guar R m -> (forall a, Guar R (f a)) -> Guar R (m ≫= f).
Proof.
  intros Hm Hf s. specialize (Hm s). unfold mbind, SM_bind.
  destruct (m s) as [[a| |] s']; simpl in *; [|done..].
  etrans; [exact Hm | apply Hf].
Qed.
Lemma guar_try {A B E} (m : SM S (result A E)) (f : A -> SM S (result B E)) :
  Guar R m -> (forall a, Guar R (f a)) -> Guar R (try_bind m f).
Proof.
  intros Hm Hf. apply guar_bind; [done|]. intros [a|e]; [apply Hf | apply guar_ret].
Qed.
Lemma guar_fmap_pure {A B} (m : SM S A) (f : A -> B) :
  Guar R m -> Guar R (m ≫= fun a => mret (f a)).
Proof. intros Hm. apply guar_bind; [done|]. intros a. apply guar_ret. Qed.

(** The guarantee at one state, when the first computation of a sequence is known there. *)
Lemma at_bind {A B} (m : SM S A) (f : A -> SM S B) s r s' :
  m s = (r, s') -> R s s' -> (forall a, r = Val a -> R s' (f a s').2) -> R s ((m ≫= f) s).2.
Proof.
  intros E H Hf. unfold mbind, SM_bind. rewrite E. destruct r as [a| |]; [|done..].
  etrans; [exact H | by apply Hf].
Qed.

(** The guarantee at one state, the continuation guaranteeing it everywhere. *)
Lemma at_then {A B} (m : SM S A) (f : A -> SM S B) s :
  R s (m s).2 -> (forall a, Guar R (f a)) -> R s ((m ≫= f) s).2.
Proof.
  intros Hm Hf. destruct (m s) as [r s'] eqn:E. apply (at_bind _ _ _ _ _ E Hm).
  intros a _. apply Hf.
Qed.

(** The same when the first computation leaves the state alone. *)
Lemma at_pure {A B} (m : SM S A) (f : A -> SM S B) s a :
  m s = (Val a, s) -> R s (f a s).2 -> R s ((m ≫= f) s).2.
Proof. intros E Hf. by rewrite (bind_step _ _ _ _ _ E). Qed.
End guar.

Lemma guar_weaken {S A} (R R' : relation S) (m : SM S A) :
  (forall s s', R s s' -> R' s s') -> Guar R m -> Guar R' m.
Proof. intros H Hm s. apply H, Hm. Qed.

#[export] Hint Resolve guar_ret guar_panic guar_nofuel guar_gets guar_unwrap : guar.
#[export] Hint Extern 1 (PreOrder _) => apply _ : guar.

(** One syntactic step of a guarantee proof: sequence, case analysis, or a hint. *)
Ltac guar_step :=
  match goal with
  | |- forall _, _ => intros ?
  | |- Guar _ (match ?x with _ => _ end) => destruct x
  | |- Guar _ (let '_ := ?x in _) => destruct x
  | |- Guar _ (if ?x then _ else _) => destruct x
  | |- Guar _ _ => solve [auto with guar nocore]
  | |- Guar _ (_ ≫= _) => apply guar_bind
  | |- Guar _ (try_bind _ _) => apply guar_try
  end.
Ltac solve_guar := repeat guar_step; auto with guar.

(** ** Results

    [Returns Q m]: whatever the state, a result that [m] returns satisfies [Q]. *)

Definition Returns {S A} (Q : A -> Prop) (m : SM S A) : Prop :=
  forall s a s', m s = (Val a, s') -> Q a.

Lemma returns_fst {S A} (Q : A -> Prop) (m : SM S A) s a :
  Returns Q m -> (m s).1 = Val a -> Q a.
Proof. intros Hm. destruct (m s) as [r s'] eqn:E. cbn. intros ->. by eapply Hm. Qed.
Lemma returns_ret {S A} (Q : A -> Prop) a : Q a -> Returns (S:=S) Q (mret a).
Proof. by intros HQ s b s' [= <- <-]. Qed.
Lemma returns_panic {S A} (Q : A -> Prop) : Returns (S:=S) Q panic.
Proof. by intros s b s' [=]. Qed.
Lemma returns_nofuel {S A} (Q : A -> Prop) : Returns (S:=S) Q nofuel.
Proof. by intros s b s' [=]. Qed.
Lemma returns_bind {S A B} (P : A -> Prop) (Q : B -> Prop) (m : SM S A) f :
  Returns P m -> (forall a, P a -> Returns Q (f a)) -> Returns Q (m ≫= f).
Proof. intros Hm Hf s b s' (a & s1 & E1 & E2)%bind_val. eapply Hf; [by eapply Hm|exact E2]. Qed.
Lemma returns_any {S A} (m : SM S A) : Returns (fun _ => True) m.
Proof. done. Qed.
Lemma returns_then {S A B} (Q : B -> Prop) (m : SM S A) f :
  (forall a, Returns Q (f a)) -> Returns Q (m ≫= f).
Proof. intros Hf. by apply (returns_bind (fun _ => True)). Qed.
Lemma returns_try {S A B E} (Q : result B E -> Prop) (m : SM S (result A E)) f :
  (forall a, Returns Q (f a)) -> (forall e, Q (Err e)) -> Returns Q (try_bind m f).
Proof. intros Hf He. apply returns_then. intros [a|e]; [done|]. by apply returns_ret. Qed.

(** ** Steps of a transition system *)

Section reach.
Context {S : Type} (step : relation S).

(** An invariant that every step preserves holds in every reachable state. *)
Lemma rtc_invariant (I : S -> Prop) s s' :
  (forall x y, I x -> step x y -> I y) -> rtc step s s' -> I s -> I s'.
Proof. intros Hstep Hr. induction Hr; eauto. Qed.
End reach.

(** Destructs the outcome of the first computation of a sequence in a hypothesis. *)
Ltac inv_run H :=
  repeat match type of H with
  | (_ ≫= _) _ = (Val _, _) =>
      let a := fresh "a" in let s := fresh "s" in
      let H1 := fresh "H" in
      apply bind_val in H as (a & s & H1 & H)
  end.
