(* ===== verification/Labels.v ===== *)
(** * The interface to the [labeled] crate (Buckle labels)

    The crate is a git dependency of the repository, so its operations are the members of the
    class [LabelOps] and what the code relies on is the class [LabelLaws].  The data types are
    the ones the repository itself constructs and matches on ([Component::DCFalse],
    [Component::DCFormula], [Clause] and the public fields of [Buckle], in
    [snapfaas/src/syscalls.rs], [snapfaas/src/syscall_server.rs] and
    [snapfaas/src/fs/utils.rs]). *)

From stdpp Require Import base tactics option list gmap strings countable.
From S2P Require Import Prelude.

(** A principal is a path of delegations ([Vec<String>]); a clause is a disjunction of
    principals; a formula is a conjunction of clauses. *)
Abbreviation Principal := (list string).
Abbreviation Clause := (gset Principal).

Inductive Component : Type :=
  | DCFalse
  | DCFormula (set : gset Clause).

Record Buckle : Type := MkBuckle { secrecy : Component; integrity : Component }.

#[global] Instance Component_eq_dec : EqDecision Component.
Proof. solve_decision. Defined.
#[global] Program Instance Component_countable : Countable Component :=
  inj_countable' (fun c => match c with DCFalse => None | DCFormula s => Some s end)
                 (fun o => match o with None => DCFalse | Some s => DCFormula s end) _.
Next Obligation. by intros []. Qed.

#[global] Instance Buckle_eq_dec : EqDecision Buckle.
Proof. solve_decision. Defined.
#[global] Program Instance Buckle_countable : Countable Buckle :=
  inj_countable' (fun b => (secrecy b, integrity b)) (fun p => MkBuckle p.1 p.2) _.
Next Obligation. by intros []. Qed.

Class LabelOps := {
  dc_true : Component;
  dc_false : Component;
  (** [a.implies(&b)] *)
  implies : Component -> Component -> bool;
  (** [a & b] *)
  conj : Component -> Component -> Component;
  (** [Buckle::public()] *)
  public : Buckle;
  (** [a.lub(b)] *)
  lub : Buckle -> Buckle -> Buckle;
  (** [a.can_flow_to(&b)] *)
  can_flow_to : Buckle -> Buckle -> bool;
  (** [a.can_flow_to_with_privilege(&b, &p)] *)
  can_flow_to_with_privilege : Buckle -> Buckle -> Component -> bool;
  (** [a.downgrade(&p)] *)
  downgrade : Buckle -> Component -> Buckle;
  (** [Buckle::parse(s)], the error dropped: every caller in the repository drops it too or
      only prints it *)
  buckle_parse : string -> option Buckle;
  (** The iteration order of sets of labels ([Ord for Buckle]), clauses and principals *)
  buckle_iter : gset Buckle -> list Buckle;
  clause_iter : gset Clause -> list Clause;
  principal_iter : Clause -> list Principal;
}.

(** Logical implication is a preorder with conjunction as meet; the label order and its
    privileged version are the ones of the Buckle model: secrecy may only grow, integrity may
    only shrink, and a privilege is conjoined to the side it helps. *)
Class LabelLaws {L : LabelOps} : Prop := {
  implies_refl c : implies c c = true;
  implies_trans a b c : implies a b = true -> implies b c = true -> implies a c = true;
  implies_true c : implies c dc_true = true;
  false_implies c : implies dc_false c = true;
  implies_conj a b c : implies a (conj b c) = implies a b && implies a c;
  conj_implies_l a b : implies (conj a b) a = true;
  conj_implies_r a b : implies (conj a b) b = true;
  flow_spec a b :
    can_flow_to a b =
      implies (secrecy b) (secrecy a) && implies (integrity a) (integrity b);
  flow_lub a b c : can_flow_to (lub a b) c = can_flow_to a c && can_flow_to b c;
  flow_priv_spec a b p :
    can_flow_to_with_privilege a b p =
      implies (conj (secrecy b) p) (secrecy a) && implies (conj (integrity a) p) (integrity b);
  downgrade_flow a p : can_flow_to_with_privilege a (downgrade a p) p = true;
  downgrade_le a p : can_flow_to (downgrade a p) a = true;
  public_spec : public = MkBuckle dc_true dc_true;
  buckle_iter_perm s : buckle_iter s ≡ₚ elements s;
  clause_iter_perm s : clause_iter s ≡ₚ elements s;
  principal_iter_perm s : principal_iter s ≡ₚ elements s;
}.

(** [Buckle::new(s, i)] *)
Definition Buckle_new (s i : Component) : Buckle := MkBuckle s i.

(** ** Consequences of the laws *)

Section laws.
Context `{LabelLaws}.

(** [Flows a b]: information labelled [a] may move to [b]. *)
Definition Flows (a b : Buckle) : Prop := can_flow_to a b = true.
Definition FlowsP (p : Component) (a b : Buckle) : Prop :=
  can_flow_to_with_privilege a b p = true.
Definition Implies (a b : Component) : Prop := implies a b = true.

#[global] Instance Implies_preorder : PreOrder Implies.
Proof. split; [intros c; apply implies_refl | intros a b c; apply implies_trans]. Qed.

Lemma Implies_conj a b c : Implies a (conj b c) <-> Implies a b /\ Implies a c.
Proof. unfold Implies. by rewrite implies_conj, andb_true_iff. Qed.

Lemma conj_mono a a' b b' : Implies a a' -> Implies b b' -> Implies (conj a b) (conj a' b').
Proof.
  intros Ha Hb. apply Implies_conj. split; (etrans; [|eassumption]);
    [apply conj_implies_l | apply conj_implies_r].
Qed.

Lemma Flows_spec a b :
  Flows a b <-> Implies (secrecy b) (secrecy a) /\ Implies (integrity a) (integrity b).
Proof. unfold Flows, Implies. by rewrite flow_spec, andb_true_iff. Qed.

Lemma FlowsP_spec p a b :
  FlowsP p a b <->
  Implies (conj (secrecy b) p) (secrecy a) /\ Implies (conj (integrity a) p) (integrity b).
Proof. unfold FlowsP, Implies. by rewrite flow_priv_spec, andb_true_iff. Qed.

#[global] Instance Flows_preorder : PreOrder Flows.
Proof.
  split; [intros a | intros a b c]; rewrite ?Flows_spec; [done|].
  intros [H1 H2] [H3 H4]. split; etrans; eassumption.
Qed.

Lemma Flows_lub a b c : Flows (lub a b) c <-> Flows a c /\ Flows b c.
Proof. unfold Flows. by rewrite flow_lub, andb_true_iff. Qed.
Lemma Flows_lub_l a b : Flows a (lub a b).
Proof. by apply (proj1 (Flows_lub a b (lub a b))). Qed.
Lemma Flows_lub_r a b : Flows b (lub a b).
Proof. by apply (proj1 (Flows_lub a b (lub a b))). Qed.

(** A less tainted computation may write wherever a more tainted one may. *)
Lemma FlowsP_mono p a a' b : Flows a a' -> FlowsP p a' b -> FlowsP p a b.
Proof.
  rewrite Flows_spec, !FlowsP_spec. intros [Hs Hi] [Hs' Hi']. split.
  - by etrans.
  - etrans; [|exact Hi']. by apply conj_mono.
Qed.

(** A stronger privilege may write wherever a weaker one may. *)
Lemma FlowsP_stronger p q a b : Implies q p -> FlowsP p a b -> FlowsP q a b.
Proof.
  intros Hq. rewrite !FlowsP_spec. intros [Hs Hi].
  split; (etrans; [|eassumption]); by apply conj_mono.
Qed.

Lemma Flows_FlowsP p a b : Flows a b -> FlowsP p a b.
Proof.
  rewrite Flows_spec, FlowsP_spec. intros [Hs Hi]. split.
  - etrans; [apply conj_implies_l | done].
  - etrans; [apply conj_implies_l | done].
Qed.
End laws.

Create HintDb labels discriminated.
#[export] Hint Resolve Flows_lub_l Flows_lub_r Flows_FlowsP : labels.
#[export] Hint Extern 1 (Flows ?a ?a) => reflexivity : labels.
