(* ===== verification/Store.v ===== *)
(** * Backing stores ([snapfaas/src/fs/mod.rs] trait [BackingStore], [lmdb.rs], [tikv.rs])

    [BackingStore] is the trait; [BackingStoreLaws] is what the file system relies on: the five
    operations act on one finite map, [add] and [cas] test and update it atomically.  The LMDB
    and the TiKV implementations are translated over the operations of the two client
    libraries ([LmdbLib], [TikvLib]) and proved to satisfy the interface. *)

From stdpp Require Import base tactics option list gmap strings countable.
From S2P Require Import Prelude.

Class BackingStore (St : Type) := {
  bs_get : bytes -> SM St (option bytes);
  bs_put : bytes -> bytes -> SM St unit;
  bs_add : bytes -> bytes -> SM St bool;
  bs_cas : bytes -> option bytes -> bytes -> SM St (result unit (option bytes));
  bs_del : bytes -> SM St unit;
}.

(** Keys are the eight big-endian bytes of an object's uid. *)
Definition key_ok (k : bytes) : Prop := length k = 8%nat.

(** [bs_ok]: the store answers; [bs_view]: the map it holds. *)
Class BackingStoreLaws (St : Type) {B : BackingStore St} := {
  bs_ok : St -> Prop;
  bs_view : St -> gmap bytes bytes;
  get_law s k : bs_ok s -> key_ok k -> bs_get k s = (Val (bs_view s !! k), s);
  put_law s k v : bs_ok s -> key_ok k ->
    exists s', bs_put k v s = (Val tt, s') /\ bs_ok s' /\ bs_view s' = <[k:=v]> (bs_view s);
  add_law s k v : bs_ok s -> key_ok k ->
    exists s', bs_add k v s = (Val (bool_decide (bs_view s !! k = None)), s') /\ bs_ok s' /\
      bs_view s' = if decide (bs_view s !! k = None) then <[k:=v]> (bs_view s) else bs_view s;
  cas_law s k old v : bs_ok s -> key_ok k ->
    exists s', bs_cas k old v s =
        (Val (if decide (bs_view s !! k = old) then Ok tt else Err (bs_view s !! k)), s') /\
      bs_ok s' /\
      bs_view s' = if decide (bs_view s !! k = old) then <[k:=v]> (bs_view s) else bs_view s;
  del_law s k : bs_ok s -> key_ok k ->
    exists s', bs_del k s = (Val tt, s') /\ bs_ok s' /\ bs_view s' = delete k (bs_view s);
}.
#[global] Hint Mode BackingStoreLaws + - : typeclass_instances.

(** ** References and boxes ([impl BackingStore for &B] and for [Box<B>]): what they refer to *)

Definition ref_store {St} (B : BackingStore St) : BackingStore St := {|
  bs_get k := bs_get k; bs_put k v := bs_put k v; bs_add k v := bs_add k v;
  bs_cas k expected v := bs_cas k expected v; bs_del k := bs_del k;
|}.
Definition box_store {St} (B : BackingStore St) : BackingStore St := {|
  bs_get k := bs_get k; bs_put k v := bs_put k v; bs_add k v := bs_add k v;
  bs_cas k expected v := bs_cas k expected v; bs_del k := bs_del k;
|}.

(** ** The map itself as a store: the specification the implementations are measured against *)

#[global] Instance map_store : BackingStore (gmap bytes bytes) := {
  bs_get k := fun m => (Val (m !! k), m);
  bs_put k v := fun m => (Val tt, <[k:=v]> m);
  bs_add k v := fun m =>
    if decide (m !! k = None) then (Val true, <[k:=v]> m) else (Val false, m);
  bs_cas k old v := fun m =>
    if decide (m !! k = old) then (Val (Ok tt), <[k:=v]> m) else (Val (Err (m !! k)), m);
  bs_del k := fun m => (Val tt, delete k m);
}.

#[global] Program Instance map_store_laws : BackingStoreLaws (gmap bytes bytes) := {
  bs_ok _ := True;
  bs_view m := m;
}.
Solve Obligations with
  (intros; cbn; repeat (case_decide || case_bool_decide); eauto; naive_solver).

(** ** LMDB *)

(** The calls of [lmdb-rkv]: opening the default database, starting and committing a
    transaction, and the reads and writes inside it; [false] and [None] are its errors. *)
Class LmdbLib (Env : Type) := {
  open_db : Env -> bool;
  begin_ro_txn : Env -> bool;
  begin_rw_txn : Env -> bool;
  commit : Env -> bool;
  txn_get : Env -> bytes -> option bytes;
  (** the last argument is [WriteFlags::NO_OVERWRITE] *)
  txn_put : Env -> bytes -> bytes -> bool -> bool * Env;
  txn_del : Env -> bytes -> bool * Env;
}.

(** Documented behaviour on an environment whose files are usable and whose map has room:
    opens, transactions and commits succeed, a put of a key of valid size succeeds unless
    [NO_OVERWRITE] is set and the key exists. *)
Class LmdbLaws (Env : Type) {L : LmdbLib Env} := {
  env_ok : Env -> Prop;
  env_map : Env -> gmap bytes bytes;
  open_ok e : env_ok e -> open_db e = true;
  ro_ok e : env_ok e -> begin_ro_txn e = true;
  rw_ok e : env_ok e -> begin_rw_txn e = true;
  commit_ok e : env_ok e -> commit e = true;
  txn_get_spec e k : env_ok e -> txn_get e k = env_map e !! k;
  txn_put_spec e k v : env_ok e -> key_ok k ->
    exists e', txn_put e k v false = (true, e') /\ env_ok e' /\
      env_map e' = <[k:=v]> (env_map e);
  txn_put_no_overwrite e k v : env_ok e -> key_ok k ->
    exists e', txn_put e k v true = (bool_decide (env_map e !! k = None), e') /\ env_ok e' /\
      env_map e' = if decide (env_map e !! k = None) then <[k:=v]> (env_map e) else env_map e;
  txn_del_spec e k : env_ok e -> key_ok k ->
    exists b e', txn_del e k = (b, e') /\ env_ok e' /\ env_map e' = delete k (env_map e);
}.
#[global] Hint Mode LmdbLaws + - : typeclass_instances.

Section lmdb.
Context {Env : Type} `{!LmdbLib Env}.

Definition lmdb_get (k : bytes) : SM Env (option bytes) := fun e =>
  if open_db e && begin_ro_txn e then
    let res := txn_get e k in
    (Val (if commit e then res else None), e)
  else (Val None, e).

(** A read-write transaction: [unwrap] on opening, starting and committing it. *)
Definition rw_txn {A} (body : Env -> A * Env) : SM Env A := fun e =>
  if open_db e && begin_rw_txn e then
    let '(a, e') := body e in
    if commit e' then (Val a, e') else (Panic, e)
  else (Panic, e).

Definition lmdb_put (k v : bytes) : SM Env unit :=
  rw_txn (fun e => let '(_, e') := txn_put e k v false in (tt, e')).

Definition lmdb_add (k v : bytes) : SM Env bool :=
  rw_txn (fun e => txn_put e k v true).

Definition lmdb_cas (k : bytes) (expected : option bytes) (v : bytes) :
    SM Env (result unit (option bytes)) :=
  rw_txn (fun e =>
    let old := txn_get e k in
    if decide (expected = old)
    then let '(_, e') := txn_put e k v false in (Ok tt, e')
    else (Err old, e)).

Definition lmdb_del (k : bytes) : SM Env unit :=
  rw_txn (fun e => let '(_, e') := txn_del e k in (tt, e')).

#[global] Instance lmdb_store : BackingStore Env := {
  bs_get := lmdb_get; bs_put := lmdb_put; bs_add := lmdb_add; bs_cas := lmdb_cas;
  bs_del := lmdb_del;
}.
End lmdb.

Section lmdb_correct.
Context {Env : Type} `{LmdbLaws Env}.

Lemma rw_txn_ok {A} (body : Env -> A * Env) e a e' :
  env_ok e -> body e = (a, e') -> env_ok e' -> rw_txn body e = (Val a, e').
Proof.
  intros He Hb He'. unfold rw_txn.
  by rewrite open_ok, rw_ok, Hb, commit_ok.
Qed.

(** The laws of the trait, for the LMDB environment. *)
Definition lmdb_laws : BackingStoreLaws Env.
Proof.
  refine {| bs_ok := env_ok; bs_view := env_map |}; cbn.
  - intros s k Hs Hk. unfold lmdb_get.
    by rewrite open_ok, ro_ok, commit_ok, txn_get_spec.
  - intros s k v Hs Hk. destruct (txn_put_spec s k v Hs Hk) as (e' & E & He & Hv).
    exists e'. split; [|done]. apply rw_txn_ok; [done| |done]. by rewrite E.
  - intros s k v Hs Hk. destruct (txn_put_no_overwrite s k v Hs Hk) as (e' & E & He & Hv).
    exists e'. split; [|done]. by apply rw_txn_ok.
  - intros s k old v Hs Hk. unfold lmdb_cas.
    destruct (txn_put_spec s k v Hs Hk) as (e' & E & He & Hv).
    destruct (decide (env_map s !! k = old)) as [<-|Hne].
    + exists e'. split; [|done]. apply rw_txn_ok; [done| |done].
      by rewrite txn_get_spec, decide_True, E.
    + exists s. split; [|done]. apply rw_txn_ok; [done| |done].
      by rewrite txn_get_spec, decide_False.
  - intros s k Hs Hk. destruct (txn_del_spec s k Hs Hk) as (b & e' & E & He & Hv).
    exists e'. split; [|done]. apply rw_txn_ok; [done| |done]. by rewrite E.
Defined.
End lmdb_correct.

(** ** TiKV *)

(** The calls of [tikv_client::RawClient]; [None] is a failed request. *)
Class TikvLib (Db : Type) := {
  raw_get : Db -> bytes -> option (option bytes);
  raw_put : Db -> bytes -> bytes -> option Db;
  raw_delete : Db -> bytes -> option Db;
  (** the previous value and whether the swap happened *)
  raw_compare_and_swap : Db -> bytes -> option bytes -> bytes -> option (option bytes * bool * Db);
}.

Class TikvLaws (Db : Type) {T : TikvLib Db} := {
  db_ok : Db -> Prop;
  db_map : Db -> gmap bytes bytes;
  raw_get_spec d k : db_ok d -> raw_get d k = Some (db_map d !! k);
  raw_put_spec d k v : db_ok d ->
    exists d', raw_put d k v = Some d' /\ db_ok d' /\ db_map d' = <[k:=v]> (db_map d);
  raw_delete_spec d k : db_ok d ->
    exists d', raw_delete d k = Some d' /\ db_ok d' /\ db_map d' = delete k (db_map d);
  raw_cas_spec d k old v : db_ok d ->
    exists d', raw_compare_and_swap d k old v =
        Some (db_map d !! k, bool_decide (db_map d !! k = old), d') /\ db_ok d' /\
      db_map d' = if decide (db_map d !! k = old) then <[k:=v]> (db_map d) else db_map d;
}.
#[global] Hint Mode TikvLaws + - : typeclass_instances.

Section tikv.
Context {Db : Type} `{!TikvLib Db}.

Definition tikv_get (k : bytes) : SM Db (option bytes) := fun d =>
  match raw_get d k with Some r => (Val r, d) | None => (Panic, d) end.
Definition tikv_put (k v : bytes) : SM Db unit := fun d =>
  match raw_put d k v with Some d' => (Val tt, d') | None => (Panic, d) end.
Definition tikv_cas (k : bytes) (expected : option bytes) (v : bytes) :
    SM Db (result unit (option bytes)) := fun d =>
  match raw_compare_and_swap d k expected v with
  | Some (orig, success, d') => (Val (if (success : bool) then Ok tt else Err orig), d')
  | None => (Panic, d)
  end.
Definition tikv_add (k v : bytes) : SM Db bool :=
  r ← tikv_cas k None v; mret (match r with Ok _ => true | Err _ => false end).
Definition tikv_del (k : bytes) : SM Db unit := fun d =>
  match raw_delete d k with Some d' => (Val tt, d') | None => (Panic, d) end.

Definition tikv_store : BackingStore Db := {|
  bs_get := tikv_get; bs_put := tikv_put; bs_add := tikv_add; bs_cas := tikv_cas;
  bs_del := tikv_del;
|}.
End tikv.

Section tikv_correct.
Context {Db : Type} `{TikvLaws Db}.

Lemma tikv_cas_run d k old v :
  db_ok d ->
  exists d', tikv_cas k old v d =
      (Val (if decide (db_map d !! k = old) then Ok tt else Err (db_map d !! k)), d') /\
    db_ok d' /\
    db_map d' = if decide (db_map d !! k = old) then <[k:=v]> (db_map d) else db_map d.
Proof.
  intros Hd. destruct (raw_cas_spec d k old v Hd) as (d' & E & Hd' & Hm).
  exists d'. split; [|done]. unfold tikv_cas. rewrite E.
  cbn. by repeat (case_bool_decide || case_decide).
Qed.

(** The laws of the trait, for the TiKV client. *)
Definition tikv_laws : @BackingStoreLaws Db tikv_store.
Proof.
  refine (@Build_BackingStoreLaws Db tikv_store db_ok db_map _ _ _ _ _); cbn.
  - intros s k Hs Hk. unfold tikv_get. by rewrite raw_get_spec.
  - intros s k v Hs Hk. destruct (raw_put_spec s k v Hs) as (d' & E & Hd).
    exists d'. unfold tikv_put. by rewrite E.
  - intros s k v Hs Hk. destruct (tikv_cas_run s k None v Hs) as (d' & E & Hd & Hm).
    exists d'. rewrite Hm. split; [|split; [done|]].
    + unfold tikv_add. rewrite (bind_step _ _ _ _ _ E).
      by repeat (case_bool_decide || case_decide).
    + by repeat case_decide.
  - intros s k old v Hs Hk. by apply tikv_cas_run.
  - intros s k Hs Hk. destruct (raw_delete_spec s k Hs) as (d' & E & Hd).
    exists d'. unfold tikv_del. by rewrite E.
Defined.
End tikv_correct.
