(* ===== verification/StoreRefinement.v ===== *)
(** * The backing stores refine a finite map

    A session with a backing store is a sequence of calls and their replies.  Every session
    with the LMDB or the TiKV store is a session with the map [map_store]: the same replies,
    and the same contents at every step. *)

From stdpp Require Import base tactics option list gmap strings countable.
From S2P Require Import Prelude Store.

Inductive StoreCall : Type :=
  | CallGet (k : bytes)
  | CallPut (k v : bytes)
  | CallAdd (k v : bytes)
  | CallCas (k : bytes) (expected : option bytes) (v : bytes)
  | CallDel (k : bytes).

Inductive StoreReply : Type :=
  | ReplyGet (v : option bytes)
  | ReplyDone
  | ReplyAdd (added : bool)
  | ReplyCas (r : result unit (option bytes)).

Definition call_key (c : StoreCall) : bytes :=
  match c with
  | CallGet k | CallPut k _ | CallAdd k _ | CallCas k _ _ | CallDel k => k
  end.

Section sessions.
Context {St : Type} `{BS : !BackingStore St}.

Definition store_call (c : StoreCall) : SM St StoreReply :=
  match c with
  | CallGet k => v ← bs_get k; mret (ReplyGet v)
  | CallPut k v => _ ← bs_put k v; mret ReplyDone
  | CallAdd k v => b ← bs_add k v; mret (ReplyAdd b)
  | CallCas k e v => r ← bs_cas k e v; mret (ReplyCas r)
  | CallDel k => _ ← bs_del k; mret ReplyDone
  end.

Fixpoint session (cs : list StoreCall) : SM St (list StoreReply) :=
  match cs with
  | [] => mret []
  | c :: cs => r ← store_call c; rs ← session cs; mret (r :: rs)
  end.
End sessions.

Section simulation.
Context {St : Type} `{BW : BackingStoreLaws St}.

(** One call is simulated by the same call of the map. *)
Lemma call_simulated c s :
  bs_ok s -> key_ok (call_key c) ->
  exists r s', store_call c s = (Val r, s') /\ bs_ok s' /\
    store_call (St := gmap bytes bytes) c (bs_view s) = (Val r, bs_view s').
Proof.
  intros Hs Hk. destruct c as [k|k v|k v|k e v|k]; cbn [call_key] in Hk; cbn [store_call].
  - exists (ReplyGet (bs_view s !! k)), s.
    by rewrite (bind_step _ _ _ _ _ (get_law s k Hs Hk)).
  - destruct (put_law s k v Hs Hk) as (s' & E & Hs' & Hv). exists ReplyDone, s'.
    by rewrite (bind_step _ _ _ _ _ E), Hv.
  - destruct (add_law s k v Hs Hk) as (s' & E & Hs' & Hv). eexists _, s'.
    rewrite (bind_step _ _ _ _ _ E), Hv. split_and!; [done..|].
    unfold mbind, SM_bind; cbn. by repeat (case_decide || case_bool_decide).
  - destruct (cas_law s k e v Hs Hk) as (s' & E & Hs' & Hv). eexists _, s'.
    rewrite (bind_step _ _ _ _ _ E), Hv. split_and!; [done..|].
    unfold mbind, SM_bind; cbn. by repeat case_decide.
  - destruct (del_law s k Hs Hk) as (s' & E & Hs' & Hv). exists ReplyDone, s'.
    by rewrite (bind_step _ _ _ _ _ E), Hv.
Qed.

Lemma session_simulated cs s :
  bs_ok s -> Forall (fun c => key_ok (call_key c)) cs ->
  exists rs s', session cs s = (Val rs, s') /\ bs_ok s' /\
    session (St := gmap bytes bytes) cs (bs_view s) = (Val rs, bs_view s').
Proof.
  intros Hs Hcs; revert s Hs; induction Hcs as [|c cs Hc Hcs IH]; intros s Hs.
  - by exists [], s.
  - destruct (call_simulated c s Hs Hc) as (r & s1 & E & Hs1 & E').
    destruct (IH s1 Hs1) as (rs & s2 & E2 & Hs2 & E2').
    exists (r :: rs), s2. cbn [session].
    by rewrite (bind_step _ _ _ _ _ E), (bind_step _ _ _ _ _ E2),
      (bind_step _ _ _ _ _ E'), (bind_step _ _ _ _ _ E2').
Qed.
End simulation.

(** C21: the LMDB store refines the map.  On a usable environment every sequence of gets, puts,
    adds, compare-and-swaps and deletes of eight-byte keys ends without a panic, with the
    replies the map gives, and leaves in the database what it leaves in the map. *)
Theorem lmdb_refines_map {Env : Type} `{LmdbLaws Env} cs (e : Env) :
  env_ok e -> Forall (fun c => key_ok (call_key c)) cs ->
  exists rs e', session (BS := lmdb_store) cs e = (Val rs, e') /\ env_ok e' /\
    session (St := gmap bytes bytes) cs (env_map e) = (Val rs, env_map e').
Proof. exact (session_simulated (BW := lmdb_laws) cs e). Qed.

(** The TiKV store refines the map, in the same sense; [add] is a compare-and-swap from
    the absent value. *)
Theorem tikv_refines_map {Db : Type} `{TikvLaws Db} cs (d : Db) :
  db_ok d -> Forall (fun c => key_ok (call_key c)) cs ->
  exists rs d', session (BS := tikv_store) cs d = (Val rs, d') /\ db_ok d' /\
    session (St := gmap bytes bytes) cs (db_map d) = (Val rs, db_map d').
Proof. exact (session_simulated (BW := tikv_laws) cs d). Qed.
