(* ===== verification/FsTypes.v ===== *)
(** * Data of the labeled file system ([snapfaas/src/fs/mod.rs], [errors.rs], [function.rs])

    Objects are named by typed references (a [u64] uid and a phantom type, here an index in
    [ObjTy]) and live in the backing store as serialized values.  Serialization is
    [serde_json]'s, so it is the class [SerdeOps] with the laws [SerdeLaws]. *)

From stdpp Require Import base tactics option list gmap strings countable.
From S2P Require Import Prelude Labels Store.

(** ** Object references *)

Inductive ObjTy : Set := TDirectory | TFile | TFaceted | TGate | TService | TBlob.
#[global] Instance ObjTy_eq_dec : EqDecision ObjTy.
Proof. solve_decision. Defined.

(** [ObjectRef<T>]: the uid, the type being a phantom. *)
Record ObjectRef (t : ObjTy) : Type := ObjRef { uid : Z }.
Arguments ObjRef {t} uid.
Arguments uid {t} _.
#[global] Instance ObjectRef_eq_dec t : EqDecision (ObjectRef t).
Proof. solve_decision. Defined.

Definition ROOT_REF : ObjectRef TDirectory := ObjRef 0.

(** The storage key of an object: [self.uid.to_be_bytes()]. *)
Definition ukey {t} (r : ObjectRef t) : bytes := to_be 8 (uid r).

(** ** Directory entries and object contents *)

Module DirEntry.
Inductive DirEntry : Type :=
  | Directory (r : ObjectRef TDirectory)
  | File (r : ObjectRef TFile)
  | FacetedDirectory (r : ObjectRef TFaceted)
  | Gate (r : ObjectRef TGate)
  | Service (r : ObjectRef TService)
  | Blob (r : ObjectRef TBlob).
End DirEntry.
Abbreviation DirEntry := DirEntry.DirEntry.
#[global] Instance DirEntry_eq_dec : EqDecision DirEntry.
Proof. solve_decision. Defined.

Inductive HttpVerb : Set := HEAD | GET | POST | PUT | DELETE.
#[global] Instance HttpVerb_eq_dec : EqDecision HttpVerb.
Proof. solve_decision. Defined.

(** [reqwest::Method]: the constants, and any other method. *)
Module Method.
Inductive Method : Set :=
  | OPTIONS | GET | POST | PUT | DELETE | HEAD | TRACE | CONNECT | PATCH
  | Extension (name : string).
End Method.

(** [From<HttpVerb>] for [reqwest::Method], and back *)
Definition method_from_verb (v : HttpVerb) : Method.Method :=
  match v with
  | HEAD => Method.HEAD
  | GET => Method.GET
  | POST => Method.POST
  | PUT => Method.PUT
  | DELETE => Method.DELETE
  end.
Definition verb_from_method {S} (m : Method.Method) : SM S HttpVerb :=
  match m with
  | Method.GET => mret GET
  | Method.POST => mret POST
  | Method.PUT => mret PUT
  | Method.DELETE => mret DELETE
  | _ => panic
  end.

(** The way back knows every verb but [HEAD], for which it panics. *)
Lemma verb_method_roundtrip {S} v (s : S) :
  verb_from_method (method_from_verb v) s = if decide (v = HEAD) then (Panic, s) else (Val v, s).
Proof. by destruct v. Qed.

Record Function : Type := MkFunction {
  memory : Z;
  app_image : string;
  runtime_image : string;
  kernel : string;
}.
#[global] Instance Function_eq_dec : EqDecision Function.
Proof. solve_decision. Defined.
#[global] Program Instance Function_countable : Countable Function :=
  inj_countable' (fun f => (memory f, app_image f, runtime_image f, kernel f))
                 (fun '(m, a, r, k) => MkFunction m a r k) _.
Next Obligation. by intros []. Qed.

Record Labeled (T : Type) : Type := MkLabeled { label : Buckle; data : T }.
Arguments MkLabeled {T} label data.
Arguments label {T} _.
Arguments data {T} _.

Record Directory : Type := MkDirectory { entries : gmap string DirEntry }.
Abbreviation File := bytes.
Abbreviation Blob := string.

Record FacetedDirectory : Type := MkFaceted {
  facets : list (Buckle * ObjectRef TDirectory)
}.

Record Service : Type := MkService {
  svc_privilege : Component;
  svc_invoker_integrity_clearance : Component;
  taint : Buckle;
  url : string;
  verb : HttpVerb;
  headers : gmap string string;
}.

Record DirectGate : Type := MkDirectGate {
  privilege : Component;
  invoker_integrity_clearance : Component;
  declassify : Component;
  function : Function;
}.

Record RedirectGate : Type := MkRedirectGate {
  rd_privilege : Component;
  rd_invoker_integrity_clearance : Component;
  rd_declassify : Component;
  rd_gate : ObjectRef TGate;
}.

Module Gate.
Inductive Gate : Type :=
  | Direct (d : DirectGate)
  | Redirect (r : RedirectGate).
End Gate.
Abbreviation Gate := Gate.Gate.

#[global] Instance Labeled_eq_dec `{EqDecision T} : EqDecision (Labeled T).
Proof. solve_decision. Defined.
#[global] Instance Directory_eq_dec : EqDecision Directory.
Proof. solve_decision. Defined.
#[global] Instance FacetedDirectory_eq_dec : EqDecision FacetedDirectory.
Proof. solve_decision. Defined.
#[global] Instance Service_eq_dec : EqDecision Service.
Proof. solve_decision. Defined.
#[global] Instance DirectGate_eq_dec : EqDecision DirectGate.
Proof. solve_decision. Defined.
#[global] Instance RedirectGate_eq_dec : EqDecision RedirectGate.
Proof. solve_decision. Defined.
#[global] Instance Gate_eq_dec : EqDecision Gate.
Proof. solve_decision. Defined.

(** The unlabeled contents behind a labeled object of each type. *)
Definition payload (t : ObjTy) : Type :=
  match t with
  | TDirectory => Directory
  | TFile => File
  | TFaceted => FacetedDirectory
  | TGate => Gate
  | TService => Service
  | TBlob => Blob
  end.

(** What the store holds for a reference of each type: everything is [Labeled<_>] except a
    faceted directory, whose facets carry the labels. *)
Definition obj_data (t : ObjTy) : Type :=
  match t with TFaceted => FacetedDirectory | _ => Labeled (payload t) end.

(** ** Serialization *)

Class SerdeOps := {
  (** [serde_json::to_vec(value).unwrap()] *)
  to_vec : forall {t}, obj_data t -> bytes;
  (** [serde_json::from_slice(bs).ok()], an [Option<T>] whose [null] is also [None] *)
  from_slice : forall t, bytes -> option (obj_data t);
}.

(** Deserialization inverts serialization; the JSON shapes of the six object types are
    disjoint; the empty placeholder value is no JSON document. *)
Class SerdeLaws {S : SerdeOps} : Prop := {
  from_to_vec t (x : obj_data t) : from_slice t (to_vec x) = Some x;
  from_slice_ty t t' (x : obj_data t) y : from_slice t' (to_vec x) = Some y -> t' = t;
  from_slice_nil t : from_slice t [] = None;
}.

(** ** Errors ([errors.rs]) *)

Module LabelError.
Inductive LabelError : Set := CannotRead | CannotWrite.
End LabelError.
Abbreviation LabelError := LabelError.LabelError.

Module PrivilegeError.
Inductive PrivilegeError : Set := CannotDelegate.
End PrivilegeError.
Abbreviation PrivilegeError := PrivilegeError.PrivilegeError.

Module LinkError.
Inductive LinkError : Set := LabelError (e : LabelError) | Exists.
End LinkError.
Abbreviation LinkError := LinkError.LinkError.

Module UnlinkError.
Inductive UnlinkError : Set := LabelError (e : LabelError) | DoesNotExists.
End UnlinkError.
Abbreviation UnlinkError := UnlinkError.UnlinkError.

Module GateError.
Inductive GateError : Set := CannotDelegate | CannotInvoke | Corrupted.
End GateError.
Abbreviation GateError := GateError.GateError.

Module FacetError.
Inductive FacetError : Set :=
  Unallocated | LabelError (e : LabelError) | NoneValue | Corrupted.
End FacetError.
Abbreviation FacetError := FacetError.FacetError.

Module ServiceError.
Inductive ServiceError : Set := CannotDelegate | CannotInvoke | Corrupted.
End ServiceError.
Abbreviation ServiceError := ServiceError.ServiceError.

Module FsError.
Inductive FsError : Set :=
  | BadPath
  | NotADir
  | NotAFacetedDir
  | NotAFile
  | NotABlob
  | NotAGate
  | NotAService
  | MalformedRedirectTarget
  | ClearanceError
  | LabelError (e : LabelError)
  | PrivilegeError (e : PrivilegeError)
  | GateError (e : GateError)
  | LinkError (e : LinkError)
  | UnlinkError (e : UnlinkError)
  | FacetError (e : FacetError)
  | ServiceError (e : ServiceError)
  | NameExists
  | InvalidFd.
End FsError.
Abbreviation FsError := FsError.FsError.

(** ** Paths as values ([path.rs]) *)

Module PathComponent.
Inductive PathComponent : Type :=
  | Dscrp (s : string)
  | Facet (f : Buckle).
End PathComponent.
Abbreviation PathComponent := PathComponent.PathComponent.
#[global] Instance PathComponent_eq_dec : EqDecision PathComponent.
Proof. solve_decision. Defined.

(** [Path { components: VecDeque<PathComponent> }]: [pop_front] is the match on the list. *)
Abbreviation Path := (list PathComponent).
