(* ===== verification/Objects.v ===== *)
(** * Objects of the labeled file system ([snapfaas/src/fs/mod.rs], first half)

    The thread's state is [World]: the backing store, the two thread-local variables
    [CURRENT_LABEL] and [PRIVILEGE], the numbers [rand::random] will return, and what other
    threads do to the store between two accesses of this one ([interference], one store
    transformation per access; the empty list is a run without concurrency).

    A method of [ObjectRef<Labeled<T>>] is named after [T]: [dir_link] is
    [ObjectRef<Labeled<Directory>>::link]. *)

From stdpp Require Import base tactics option list gmap strings countable.
From S2P Require Import Prelude Labels Store FsTypes.

Record World (St : Type) : Type := MkWorld {
  backing : St;
  interference : list (St -> St);
  entropy : list Z;
  current_label : Buckle;
  thread_privilege : Component;
}.
Arguments MkWorld {St} _ _ _ _ _.
Arguments backing {St} _.
Arguments interference {St} _.
Arguments entropy {St} _.
Arguments current_label {St} _.
Arguments thread_privilege {St} _.

Section objects.
Context {St : Type} `{BS : !BackingStore St} `{L : !LabelOps} `{SD : !SerdeOps}.

Local Abbreviation M := (SM (World St)).

Definition set_label (l : Buckle) (w : World St) : World St :=
  MkWorld (backing w) (interference w) (entropy w) l (thread_privilege w).
Definition set_privilege (p : Component) (w : World St) : World St :=
  MkWorld (backing w) (interference w) (entropy w) (current_label w) p.
Definition set_entropy (l : list Z) (w : World St) : World St :=
  MkWorld (backing w) (interference w) l (current_label w) (thread_privilege w).

(** What the store looks like when the thread's next access reaches it. *)
Definition arrive (w : World St) : St * list (St -> St) :=
  match interference w with
  | [] => (backing w, [])
  | g :: env => (g (backing w), env)
  end.

(** One access to the backing store. *)
Definition store_op {A} (op : SM St A) : M A := fun w =>
  let '(s, env) := arrive w in
  let '(a, s') := op s in
  (a, MkWorld s' env (entropy w) (current_label w) (thread_privilege w)).

(** ** [ObjectRef<T>] *)

Definition obj_delete {t} (r : ObjectRef t) : M unit := store_op (bs_del (ukey r)).

Definition obj_get {t} (r : ObjectRef t) : M (option (obj_data t)) :=
  bs ← store_op (bs_get (ukey r)); mret (bs ≫= from_slice t).

Definition obj_set {t} (r : ObjectRef t) (value : obj_data t) : M unit :=
  store_op (bs_put (ukey r) (to_vec value)).

(** The loop of [set_new_id]: draw a uid until [add] of an empty value succeeds. *)
Fixpoint reserve_uid (draws : list Z) : M Z :=
  match draws with
  | [] => nofuel
  | u :: draws =>
      _ ← modify (set_entropy draws);
      added ← store_op (bs_add (to_be 8 u) []);
      if (added : bool) then mret u else reserve_uid draws
  end.

Definition set_new_id {t} (value : obj_data t) : M (ObjectRef t) :=
  draws ← gets entropy;
  u ← reserve_uid draws;
  let res := ObjRef u in
  _ ← obj_set res value;
  mret res.

Definition obj_cas {t} (r : ObjectRef t) (expected : option (obj_data t)) (value : obj_data t) :
    M (result unit (option (obj_data t))) :=
  res ← store_op (bs_cas (ukey r) (to_vec <$> expected) (to_vec value));
  mret (map_err (fun e => e ≫= from_slice t) res).

(** ** [Labeled<T>] *)

Definition raise_label (l : Buckle) : M unit :=
  modify (fun w => set_label (lub l (current_label w)) w).

Definition unlabel {T} (x : Labeled T) : M T :=
  _ ← raise_label (label x); mret (data x).

Definition may_write (l : Buckle) (w : World St) : bool :=
  can_flow_to_with_privilege (current_label w) l (thread_privilege w).

(** [write] replaces the data of its receiver, which it returns here. *)
Definition labeled_write {T} (x : Labeled T) (value : T) : M (result (Labeled T) LabelError) :=
  ok ← gets (may_write (label x));
  mret (if (ok : bool) then Ok (MkLabeled (label x) value) else Err LabelError.CannotWrite).

(** [modify] taints, checks, and applies [f] to the data of its receiver. *)
Definition labeled_modify {T R} (x : Labeled T) (f : T -> R * T) :
    M (result (R * Labeled T) LabelError) :=
  _ ← raise_label (label x);
  ok ← gets (may_write (label x));
  mret (if (ok : bool)
        then let '(r, d) := f (data x) in Ok (r, MkLabeled (label x) d)
        else Err LabelError.CannotWrite).

(** [ObjectRef<Labeled<T>>::create], at the three types with a [Default] *)
Definition dir_create (l : Buckle) : M (ObjectRef TDirectory) :=
  set_new_id (t := TDirectory) (MkLabeled l (MkDirectory ∅)).
Definition file_create (l : Buckle) : M (ObjectRef TFile) :=
  set_new_id (t := TFile) (MkLabeled l []).
Definition blob_create_object (l : Buckle) : M (ObjectRef TBlob) :=
  set_new_id (t := TBlob) (MkLabeled l ""%string).

(** ** Directories *)

Definition dir_list (r : ObjectRef TDirectory) : M (gmap string DirEntry) :=
  o ← obj_get r; d ← unwrap o; dir ← unlabel d; mret (entries dir).

(** The compare-and-swap loop that [link] and [unlink] share: apply [f] to a copy of the last
    value seen; when [f] reports [stop], give up with [Ok(false)]; otherwise swap, and start
    again from the value found instead. *)
Fixpoint dir_update (fuel : nat) (r : ObjectRef TDirectory)
    (f : Directory -> bool * Directory) (stop : bool) (prev : Labeled Directory) :
    M (result bool LabelError) :=
  match fuel with
  | O => nofuel
  | S fuel =>
      '(existed, dir') ?← labeled_modify prev f;
      if bool_decide (existed = stop) then mret (Ok false)
      else
        res ← obj_cas r (Some (prev : obj_data TDirectory)) dir';
        match res with
        | Err (Some p) => dir_update fuel r f stop p
        | _ => mret (Ok true)
        end
  end.

(** One attempt, and one more for each intervention of another thread. *)
Definition cas_fuel (w : World St) : nat := S (length (interference w)).

Definition entries_insert (name : string) (e : DirEntry) (d : Directory) : bool * Directory :=
  (bool_decide (is_Some (entries d !! name)), MkDirectory (<[name:=e]> (entries d))).
Definition entries_remove (name : string) (d : Directory) : bool * Directory :=
  (bool_decide (is_Some (entries d !! name)), MkDirectory (delete name (entries d))).

Definition dir_link (r : ObjectRef TDirectory) (name : string) (e : DirEntry) :
    M (result bool LabelError) :=
  o ← obj_get r; prev ← unwrap o; fuel ← gets cas_fuel;
  dir_update fuel r (entries_insert name e) true prev.

Definition dir_unlink (r : ObjectRef TDirectory) (name : string) :
    M (result bool LabelError) :=
  o ← obj_get r; prev ← unwrap o; fuel ← gets cas_fuel;
  dir_update fuel r (entries_remove name) false prev.

(** ** Files *)

Definition file_read (r : ObjectRef TFile) : M File :=
  o ← obj_get r; f ← unwrap o; unlabel f.

Definition file_write (r : ObjectRef TFile) (d : bytes) : M (result unit LabelError) :=
  o ← obj_get r; f ← unwrap o;
  f' ?← labeled_write f d;
  _ ← obj_set r f'; mret (Ok tt).

(** ** Faceted directories *)

Definition find_facet (facet : Buckle) (fs : list (Buckle * ObjectRef TDirectory)) :
    option (ObjectRef TDirectory) :=
  snd <$> List.find (fun p => bool_decide (p.1 = facet)) fs.

(** [open]'s loop; [m] is [mfaceted_dir]. *)
Fixpoint faceted_open_loop (fuel : nat) (r : ObjectRef TFaceted) (facet : Buckle)
    (m : option FacetedDirectory) : M (ObjectRef TDirectory) :=
  match fuel with
  | O => nofuel
  | S fuel =>
      match m ≫= fun fd => find_facet facet (facets fd) with
      | Some res => mret res
      | None =>
          new_dir ← set_new_id (t := TDirectory) (MkLabeled facet (MkDirectory ∅));
          let new_fd := MkFaceted (default [] (facets <$> m) ++ [(facet, new_dir)]) in
          res ← obj_cas r m new_fd;
          match res with
          | Ok _ => mret new_dir
          | Err d => faceted_open_loop fuel r facet d
          end
      end
  end.

Definition faceted_open (r : ObjectRef TFaceted) (facet : Buckle) : M (ObjectRef TDirectory) :=
  m ← obj_get r; fuel ← gets cas_fuel; faceted_open_loop fuel r facet m.

(** [list]: the facets that may flow to the clearance, collected into a [BTreeMap], where a
    later pair replaces an earlier one. *)
Definition facets_up_to (clearance : Buckle) (fs : list (Buckle * ObjectRef TDirectory)) :
    gmap Buckle (ObjectRef TDirectory) :=
  foldl (fun m p => if can_flow_to p.1 clearance then <[p.1:=p.2]> m else m) ∅ fs.

Definition faceted_list (r : ObjectRef TFaceted) (clearance : Buckle) :
    M (gmap Buckle (ObjectRef TDirectory)) :=
  _ ← modify (fun w => set_label (lub (current_label w) clearance) w);
  o ← obj_get r; fd ← unwrap o;
  mret (facets_up_to clearance (facets fd)).

(** ** Services *)

Definition LabelError_into (e : LabelError) : FsError := FsError.LabelError e.

Definition service_to_invokable (r : ObjectRef TService) : M Service :=
  o ← obj_get r; s ← unwrap o; unlabel s.

Definition check_delegate (wanted : Component) : M (result unit FsError) :=
  p ← gets thread_privilege;
  mret (if implies p wanted then Ok tt
        else Err (FsError.PrivilegeError PrivilegeError.CannotDelegate)).

Definition service_replace (r : ObjectRef TService) (new_service : Service) :
    M (result unit FsError) :=
  _ ?← check_delegate (svc_privilege new_service);
  o ← obj_get r; s ← unwrap o;
  w ← labeled_write s new_service;
  s' ?← mret (map_err LabelError_into w);
  _ ← obj_set r s'; mret (Ok tt).

(** ** Gates *)

(** [to_invokable]'s loop: follow redirects, accumulating privilege, clearance and
    declassification, until a direct gate.  Nothing bounds the number of redirects, hence the
    fuel. *)
Fixpoint resolve_gate (fuel : nat) (cur : Gate) (p iic decl : Component) : M DirectGate :=
  match fuel with
  | O => nofuel
  | S fuel =>
      match cur with
      | Gate.Direct g =>
          mret (MkDirectGate (conj p (privilege g))
                  (conj iic (invoker_integrity_clearance g)) decl (function g))
      | Gate.Redirect r =>
          o ← obj_get (rd_gate r); g ← unwrap o; next ← unlabel g;
          resolve_gate fuel next (conj p (rd_privilege r))
            (conj iic (rd_invoker_integrity_clearance r)) (conj decl (rd_declassify r))
      end
  end.

Definition gate_to_invokable (fuel : nat) (r : ObjectRef TGate) : M DirectGate :=
  o ← obj_get r; g ← unwrap o; cur ← unlabel g;
  resolve_gate fuel cur dc_true dc_true dc_true.

Definition gate_privilege (g : Gate) : Component :=
  match g with Gate.Direct d => privilege d | Gate.Redirect r => rd_privilege r end.

Definition gate_replace (r : ObjectRef TGate) (new_gate : Gate) : M (result unit FsError) :=
  _ ?← check_delegate (gate_privilege new_gate);
  o ← obj_get r; g ← unwrap o;
  w ← labeled_write g new_gate;
  g' ?← mret (map_err LabelError_into w);
  _ ← obj_set r g'; mret (Ok tt).

(** ** Blobs *)

Definition blob_read (r : ObjectRef TBlob) : M Blob :=
  o ← obj_get r; b ← unwrap o; unlabel b.

Definition blob_replace (r : ObjectRef TBlob) (new_blob : Blob) : M (result unit LabelError) :=
  o ← obj_get r; b ← unwrap o;
  b' ?← labeled_write b new_blob;
  _ ← obj_set r b'; mret (Ok tt).
End objects.
