(* ===== verification/Fs.v ===== *)
(** * The file system interface ([impl FS] of [snapfaas/src/fs/mod.rs], and [utils.rs])

    One definition per method of [FS] and per function of [fs::utils].  A path is resolved by
    [read_path], which every path-taking method calls first. *)

From stdpp Require Import base tactics option list gmap strings countable.
From S2P Require Import Prelude Labels Store FsTypes Objects.

Section fs.
Context {St : Type} `{BS : !BackingStore St} `{L : !LabelOps} `{SD : !SerdeOps}.

Local Abbreviation M := (SM (World St)).

(** ** [FS] *)

Definition empty_root : Labeled Directory :=
  MkLabeled (Buckle_new dc_true dc_false) (MkDirectory ∅).

Definition fs_initialize : M bool :=
  store_op (bs_add (ukey ROOT_REF) (to_vec (t := TDirectory) empty_root)).

Definition fs_root : M (Labeled Directory) :=
  o ← obj_get ROOT_REF; mret (default empty_root o).

(** The [while let] loop of [read_path]; [cur] is [cur_entry]. *)
Fixpoint walk (path : Path) (cur : option DirEntry) : M (result DirEntry FsError) :=
  match path with
  | [] => mret (match cur with Some e => Ok e | None => Err FsError.BadPath end)
  | comp :: path =>
      match cur, comp with
      | Some (DirEntry.Directory dir_obj), PathComponent.Dscrp dscrp =>
          es ← dir_list dir_obj; walk path (es !! dscrp)
      | Some (DirEntry.FacetedDirectory facet_obj), PathComponent.Facet facet =>
          d ← faceted_open facet_obj facet; walk path (Some (DirEntry.Directory d))
      | _, _ => mret (Err FsError.BadPath)
      end
  end.

Definition read_path (path : Path) : M (result DirEntry FsError) :=
  match path with
  | PathComponent.Dscrp comp :: path =>
      root ← fs_root; dir ← unlabel root; walk path (entries dir !! comp)
  | _ => mret (Ok (DirEntry.Directory ROOT_REF))
  end.

Definition list_dir (path : Path) : M (result (gmap string DirEntry) FsError) :=
  e ?← read_path path;
  match e with
  | DirEntry.Directory dir_obj => es ← dir_list dir_obj; mret (Ok es)
  | _ => mret (Err FsError.NotADir)
  end.

Definition rm (dir : Path) (name : string) : M (result bool FsError) :=
  e ?← read_path dir;
  match e with
  | DirEntry.Directory dir_obj =>
      r ← dir_unlink dir_obj name; mret (map_err LabelError_into r)
  | _ => mret (Err FsError.NotADir)
  end.

Definition list_faceted (path : Path) (clearance : Buckle) :
    M (result (gmap Buckle (ObjectRef TDirectory)) FsError) :=
  e ?← read_path path;
  match e with
  | DirEntry.FacetedDirectory dir_obj => m ← faceted_list dir_obj clearance; mret (Ok m)
  | _ => mret (Err FsError.NotADir)
  end.

Definition read_file (path : Path) : M (result File FsError) :=
  e ?← read_path path;
  match e with
  | DirEntry.File file_obj => f ← file_read file_obj; mret (Ok f)
  | _ => mret (Err FsError.NotAFile)
  end.

Definition write_file (path : Path) (d : bytes) : M (result unit FsError) :=
  e ?← read_path path;
  match e with
  | DirEntry.File file_obj =>
      r ← file_write file_obj d; mret (map_err LabelError_into r)
  | _ => mret (Err FsError.NotAFile)
  end.

Definition create_file (l : Buckle) : M DirEntry :=
  r ← file_create l; mret (DirEntry.File r).

Definition create_blob (l : Buckle) (blob_name : string) : M (result DirEntry FsError) :=
  new_blob ← blob_create_object l;
  w ← blob_replace new_blob blob_name;
  _ ?← mret (map_err LabelError_into w);
  mret (Ok (DirEntry.Blob new_blob)).

Definition create_directory (l : Buckle) : M DirEntry :=
  r ← dir_create l; mret (DirEntry.Directory r).

Definition create_faceted_directory : M DirEntry :=
  r ← set_new_id (t := TFaceted) (MkFaceted []); mret (DirEntry.FacetedDirectory r).

(** The guard of the three [create_*] methods below: the caller may write at the object's
    label and holds every privilege the object will carry. *)
Definition check_create (l : Buckle) (wanted : list Component) : M (result unit FsError) :=
  ok ← gets (may_write l);
  if negb ok then mret (Err (FsError.LabelError LabelError.CannotWrite))
  else
    p ← gets thread_privilege;
    if forallb (implies p) wanted then mret (Ok tt)
    else mret (Err (FsError.PrivilegeError PrivilegeError.CannotDelegate)).

Definition create_direct_gate (l : Buckle) (g : DirectGate) : M (result DirEntry FsError) :=
  _ ?← check_create l [privilege g; declassify g];
  r ← set_new_id (t := TGate) (MkLabeled l (Gate.Direct g));
  mret (Ok (DirEntry.Gate r)).

Definition create_redirect_gate (l : Buckle) (g : RedirectGate) : M (result DirEntry FsError) :=
  _ ?← check_create l [rd_privilege g; rd_declassify g];
  r ← set_new_id (t := TGate) (MkLabeled l (Gate.Redirect g));
  mret (Ok (DirEntry.Gate r)).

Definition create_service (l : Buckle) (s : Service) : M (result DirEntry FsError) :=
  _ ?← check_create l [svc_privilege s];
  r ← set_new_id (t := TService) (MkLabeled l s);
  mret (Ok (DirEntry.Service r)).

Definition link (base_dir : Path) (name : string) (e : DirEntry) : M (result unit FsError) :=
  b ?← read_path base_dir;
  match b with
  | DirEntry.Directory dir_obj =>
      r ← dir_link dir_obj name e;
      success ?← mret (map_err LabelError_into r);
      mret (if (success : bool) then Ok tt else Err FsError.NameExists)
  | _ => mret (Err FsError.NotADir)
  end.

Definition open_blob (path : Path) : M (result Blob FsError) :=
  e ?← read_path path;
  match e with
  | DirEntry.Blob blob_obj => b ← blob_read blob_obj; mret (Ok b)
  | _ => mret (Err FsError.NotABlob)
  end.

Definition replace_blob (path : Path) (new_blob : Blob) : M (result unit FsError) :=
  e ?← read_path path;
  match e with
  | DirEntry.Blob blob_obj =>
      r ← blob_replace blob_obj new_blob; mret (map_err LabelError_into r)
  | _ => mret (Err FsError.NotABlob)
  end.

(** ** Label utilities of [utils.rs] *)

Definition get_current_label : M Buckle := gets current_label.
Definition get_privilege : M Component := gets thread_privilege.
Definition get_ufacet : M Buckle :=
  gets (fun w => MkBuckle (thread_privilege w) (thread_privilege w)).
Definition taint_with_label (l : Buckle) : M Buckle :=
  _ ← modify (fun w => set_label (lub (current_label w) l) w); gets current_label.
Definition clear_label : M unit := modify (set_label public).
Definition set_my_privilge (p : Component) : M unit := modify (set_privilege p).
Definition declassify_with (my_priv : Component) : M Buckle :=
  _ ← modify (fun w => set_label (downgrade (current_label w) my_priv) w);
  gets current_label.
(** [utils::declassify]: computes a label, and leaves [CURRENT_LABEL] alone. *)
Definition declassify_to (target : Component) : M (result Buckle Buckle) :=
  gets (fun w =>
    if implies (conj target (thread_privilege w)) (secrecy (current_label w))
    then Ok (Buckle_new target (integrity (current_label w)))
    else Err (current_label w)).

(** ** The functions [admin_fstools], the bootstrapper and the gateway call *)

(** The [Some(_)] and the [None] branch of [create_or_update_file] end alike. *)
Definition create_and_link_file (dir : ObjectRef TDirectory) (name : string) (l : Buckle)
    (d : bytes) : M (result unit FsError) :=
  new_file ← create_file l;
  w ← match new_file with
      | DirEntry.File fileentry => file_write fileentry d
      | _ => panic
      end;
  _ ?← mret (map_err LabelError_into w);
  k ← dir_link dir name new_file;
  _ ?← mret (map_err LabelError_into k);
  mret (Ok tt).

Definition create_or_update_file (base_dir : Path) (name : string) (l : Buckle) (d : bytes) :
    M (result unit FsError) :=
  b ?← read_path base_dir;
  match b with
  | DirEntry.Directory dir =>
      es ← dir_list dir;
      match es !! name with
      | Some (DirEntry.File fileentry) =>
          r ← file_write fileentry d; mret (map_err LabelError_into r)
      | Some _ =>
          u ← dir_unlink dir name;
          _ ?← mret (map_err LabelError_into u);
          create_and_link_file dir name l d
      | None => create_and_link_file dir name l d
      end
  | _ => mret (Err FsError.BadPath)
  end.

Definition create_and_link_blob (dir : ObjectRef TDirectory) (name : string) (l : Buckle)
    (blob_name : string) : M (result unit FsError) :=
  new_blob ?← create_blob l blob_name;
  k ← dir_link dir name new_blob;
  _ ?← mret (map_err LabelError_into k);
  mret (Ok tt).

Definition create_or_update_blob (base_dir : Path) (name : string) (l : Buckle)
    (blob_name : string) : M (result unit FsError) :=
  b ?← read_path base_dir;
  match b with
  | DirEntry.Directory dir =>
      es ← dir_list dir;
      match es !! name with
      | Some (DirEntry.Blob blobentry) =>
          r ← blob_replace blobentry blob_name; mret (map_err LabelError_into r)
      | Some _ =>
          u ← dir_unlink dir name;
          _ ?← mret (map_err LabelError_into u);
          create_and_link_blob dir name l blob_name
      | None => create_and_link_blob dir name l blob_name
      end
  | _ => mret (Err FsError.BadPath)
  end.

Definition create_faceted (base_dir : Path) (name : string) : M (result unit FsError) :=
  es ?← list_dir base_dir;
  match es !! name with
  | None => new_dir ← create_faceted_directory; link base_dir name new_dir
  | Some _ => mret (Err FsError.NameExists)
  end.

Definition resolve_gate_with_clearance_check (fuel : nat) (path : Path) :
    M (result (Function * Component) FsError) :=
  e ?← read_path path;
  match e with
  | DirEntry.Gate gate =>
      direct_gate ← gate_to_invokable fuel gate;
      p ← gets thread_privilege;
      mret (if implies p (invoker_integrity_clearance direct_gate)
            then Ok (function direct_gate, privilege direct_gate)
            else Err (FsError.GateError GateError.CannotInvoke))
  | _ => mret (Err FsError.NotAGate)
  end.
End fs.
