(* ===== verification/FsMediation.v ===== *)
(** * Complete mediation of writes

    [Mediated w w'] describes what a run without interference may do to the store: see
    [store_ok].  The primitives are run symbolically ([obj_get_run], [obj_set_run], ...), and
    [FsGuarantee.g_fs_call] lifts the result to the whole interface. *)

From stdpp Require Import base tactics option list gmap strings countable.
From S2P Require Import Prelude Labels Store FsTypes Objects Fs FsGuarantee.

(** ** The relation on stored values *)

Section relation.
Context `{L : LabelOps} `{SD : SerdeOps}.

(** The label of an object; a faceted directory has none of its own. *)
Definition obj_label (t : ObjTy) : obj_data t -> option Buckle :=
  match t with
  | TFaceted => fun _ => None
  | TDirectory | TFile | TGate | TService | TBlob => fun x => Some (label x)
  end.

Definition obj_facets (t : ObjTy) : obj_data t -> list (Buckle * ObjectRef TDirectory) :=
  match t with
  | TFaceted => fun x => facets x
  | TDirectory | TFile | TGate | TService | TBlob => fun _ => []
  end.

(** How a thread with label [l] and privilege [p] may replace an object: a labeled object at
    its old label, to which the thread may write; a faceted directory by adding facets. *)
Definition may_replace (l : Buckle) (p : Component) {t} (x x' : obj_data t) : Prop :=
  match obj_label t x with
  | Some lx => obj_label t x' = Some lx /\ FlowsP p l lx
  | None => obj_label t x' = None /\ exists added, obj_facets t x' = obj_facets t x ++ added
  end.

(** The same on stored values; an empty value is a reserved uid, not yet an object. *)
Definition authorized (l : Buckle) (p : Component) (v v' : bytes) : Prop :=
  v = v' \/ v = [] \/
  exists t (x x' : obj_data t),
    from_slice t v = Some x /\ v' = to_vec x' /\ may_replace l p x x'.

(** A value carries no gate or service privilege beyond [p]. *)
Definition granted (p : Component) (v : bytes) : Prop :=
  (forall g, from_slice TGate v = Some g -> Implies p (gate_privilege (data g))) /\
  (forall s, from_slice TService v = Some s -> Implies p (svc_privilege (data s))).

Definition store_ok (l : Buckle) (p : Component) (m m' : gmap bytes bytes) : Prop :=
  (forall k v, m !! k = Some v -> exists v', m' !! k = Some v' /\ authorized l p v v') /\
  (forall k v', m' !! k = Some v' -> m !! k = Some v' \/ granted p v').
End relation.

Section relation_facts.
Context `{LW : LabelLaws} `{SW : SerdeLaws}.

Lemma may_replace_mono l l' p {t} (x x' : obj_data t) :
  Flows l l' -> may_replace l' p x x' -> may_replace l p x x'.
Proof.
  unfold may_replace. destruct (obj_label t x); [|done].
  intros Hl [Hx Hf]. split; [done | by eapply FlowsP_mono].
Qed.

Lemma may_replace_trans l p {t} (x y z : obj_data t) :
  may_replace l p x y -> may_replace l p y z -> may_replace l p x z.
Proof.
  unfold may_replace. destruct (obj_label t x) as [lx|].
  - intros [-> Hf] [Hz _]. done.
  - intros [-> [a Ha]] [Hz [b Hb]]. split; [done|]. exists (a ++ b). by rewrite Hb, Ha, app_assoc.
Qed.

Lemma to_vec_not_nil {t} (x : obj_data t) : to_vec x <> [].
Proof. intros E. pose proof (from_to_vec t x) as H. by rewrite E, from_slice_nil in H. Qed.

(** A value written as a [t] is read back as a [t] only, with the same contents. *)
Lemma from_slice_to_vec {t t'} (x : obj_data t) (y : obj_data t') :
  from_slice t' (to_vec x) = Some y -> exists E : t = t', eq_rect t obj_data x t' E = y.
Proof.
  intros H. pose proof (from_slice_ty _ _ _ _ H) as <-. exists eq_refl. simpl.
  rewrite from_to_vec in H. congruence.
Qed.

Lemma authorized_trans l l' p v1 v2 v3 :
  Flows l l' -> authorized l p v1 v2 -> authorized l' p v2 v3 -> authorized l p v1 v3.
Proof.
  intros Hl [->|[->|(t & x & y & Hx & -> & Hxy)]] H2; [| by right; left |].
  - destruct H2 as [->|[->|(t & x & y & Hx & -> & Hxy)]]; [by left | by right; left |].
    right; right. exists t, x, y. eauto using may_replace_mono.
  - right; right. destruct H2 as [<-|[E|(t' & y' & z & Hy & -> & Hyz)]].
    + by exists t, x, y.
    + by apply to_vec_not_nil in E.
    + apply from_slice_to_vec in Hy as [<- Hy]. simpl in Hy. subst y'.
      exists t, x, z. eauto using may_replace_mono, may_replace_trans.
Qed.

Lemma store_ok_refl l p m : store_ok l p m m.
Proof. split; [|by left]. intros k v Hk. exists v. split; [done | by left]. Qed.

Lemma store_ok_trans l l' p m1 m2 m3 :
  Flows l l' -> store_ok l p m1 m2 -> store_ok l' p m2 m3 -> store_ok l p m1 m3.
Proof.
  intros Hl [H1 G1] [H2 G2]. split.
  - intros k v Hk. destruct (H1 k v Hk) as (v' & Hk' & Ha).
    destruct (H2 k v' Hk') as (v'' & Hk'' & Hb). exists v''.
    split; [done|]. by eapply authorized_trans.
  - intros k v Hk. destruct (G2 k v Hk) as [Hk'|?]; [|by right]. by apply G1.
Qed.

(** What a privilege allows, a stronger one allows. *)
Lemma store_ok_stronger l p q m m' : Implies q p -> store_ok l p m m' -> store_ok l q m m'.
Proof.
  intros Hq [H G]. split.
  - intros k v Hk. destruct (H k v Hk) as (v' & Hk' & Ha). exists v'. split; [done|].
    destruct Ha as [?|[?|(t & x & x' & Hx & Hx' & Hr)]]; [by left|by right; left|].
    right; right. exists t, x, x'. split_and!; [done..|]. unfold may_replace in *.
    destruct (obj_label t x); [|done]. destruct Hr. split; [done|]. by eapply FlowsP_stronger.
  - intros k v' Hk. destruct (G k v' Hk) as [?|[Hg Hs]]; [by left|]. right.
    split; [intros g Hv|intros s Hv]; (etrans; [exact Hq|auto]).
Qed.

(** Writing one key. *)
Lemma store_ok_insert l p m k v' :
  (forall v, m !! k = Some v -> authorized l p v v') -> granted p v' ->
  store_ok l p m (<[k:=v']> m).
Proof.
  intros Ha Hg. split.
  - intros k0 v Hk. destruct (decide (k = k0)) as [<-|Hne].
    + exists v'. rewrite lookup_insert_eq. auto.
    + exists v. rewrite lookup_insert_ne by done. split; [done | by left].
  - intros k0 v Hk. destruct (decide (k = k0)) as [<-|Hne].
    + rewrite lookup_insert_eq in Hk. right. congruence.
    + rewrite lookup_insert_ne in Hk by done. by left.
Qed.

Lemma granted_other p {t} (x : obj_data t) :
  t <> TGate -> t <> TService -> granted p (to_vec x).
Proof.
  intros H1 H2. split; intros y Hy; apply from_slice_ty in Hy; congruence.
Qed.
Lemma granted_gate p (x : obj_data TGate) :
  Implies p (gate_privilege (data x)) -> granted p (to_vec x).
Proof.
  intros H. split; intros y Hy.
  - rewrite from_to_vec in Hy. by simplify_eq.
  - apply from_slice_ty in Hy. done.
Qed.
Lemma granted_service p (x : obj_data TService) :
  Implies p (svc_privilege (data x)) -> granted p (to_vec x).
Proof.
  intros H. split; intros y Hy.
  - apply from_slice_ty in Hy. done.
  - rewrite from_to_vec in Hy. by simplify_eq.
Qed.
End relation_facts.

(** ** Runs of the primitives without interference *)

Section runs.
Context {St : Type} `{BW : BackingStoreLaws St} `{LW : LabelLaws} `{SW : SerdeLaws}.
Implicit Types w : World St.

(** The thread runs alone on a store that answers. *)
Definition quiet w : Prop := interference w = [] /\ bs_ok (backing w).
Definition view w : gmap bytes bytes := bs_view (backing w).

(** [w'] is [w] with another store. *)
Definition stored w w' (m : gmap bytes bytes) : Prop :=
  quiet w' /\ view w' = m /\ entropy w' = entropy w /\ current_label w' = current_label w /\
  thread_privilege w' = thread_privilege w.

Lemma ukey_ok {t} (r : ObjectRef t) : key_ok (ukey r).
Proof. apply length_to_be. Qed.
Lemma uid_key_ok u : key_ok (to_be 8 u).
Proof. apply length_to_be. Qed.

Lemma store_op_run {A} (op : SM St A) w a s' :
  quiet w -> op (backing w) = (Val a, s') -> bs_ok s' ->
  exists w', store_op op w = (Val a, w') /\ stored w w' (bs_view s').
Proof.
  intros [Hq Hok] Hop Hs. unfold store_op, arrive. rewrite Hq, Hop.
  eexists. split; [done|]. repeat split; done.
Qed.

Lemma obj_get_run {t} (r : ObjectRef t) w :
  quiet w -> obj_get r w = (Val (view w !! ukey r ≫= from_slice t), w).
Proof.
  intros [Hq Hok]. unfold obj_get, mbind at 1, SM_bind, store_op, arrive.
  rewrite Hq, get_law by eauto using ukey_ok.
  destruct w; simpl in *; by subst.
Qed.

Lemma obj_set_run {t} (r : ObjectRef t) x w :
  quiet w ->
  exists w', obj_set r x w = (Val tt, w') /\ stored w w' (<[ukey r:=to_vec x]> (view w)).
Proof.
  intros Hq. destruct (put_law (backing w) (ukey r) (to_vec x)) as (s' & E & Hok & Hv);
    [apply Hq | apply ukey_ok |].
  destruct (store_op_run _ _ _ _ Hq E Hok) as (w' & E' & Hs).
  exists w'. by rewrite Hv in Hs.
Qed.

Lemma obj_cas_run {t} (r : ObjectRef t) old x w :
  quiet w ->
  exists w', obj_cas r old x w =
      (Val (if decide (view w !! ukey r = to_vec <$> old) then Ok tt
            else Err (view w !! ukey r ≫= from_slice t)), w') /\
    stored w w' (if decide (view w !! ukey r = to_vec <$> old)
                 then <[ukey r:=to_vec x]> (view w) else view w).
Proof.
  intros Hq.
  destruct (cas_law (backing w) (ukey r) (to_vec <$> old) (to_vec x)) as (s' & E & Hok & Hv);
    [apply Hq | apply ukey_ok |].
  destruct (store_op_run _ _ _ _ Hq E Hok) as (w' & E' & Hs).
  exists w'. unfold obj_cas. rewrite (bind_step _ _ _ _ _ E').
  rewrite Hv in Hs. split; [|done]. unfold view. by case_decide.
Qed.

Lemma add_run u v w :
  quiet w ->
  exists w', store_op (bs_add (to_be 8 u) v) w =
      (Val (bool_decide (view w !! to_be 8 u = None)), w') /\
    stored w w' (if decide (view w !! to_be 8 u = None) then <[to_be 8 u:=v]> (view w)
                 else view w).
Proof.
  intros Hq. destruct (add_law (backing w) (to_be 8 u) v) as (s' & E & Hok & Hv);
    [apply Hq | apply uid_key_ok |].
  destruct (store_op_run _ _ _ _ Hq E Hok) as (w' & E' & Hs).
  exists w'. rewrite Hv in Hs. split; done.
Qed.

Lemma reserve_run draws w :
  quiet w ->
  exists w', quiet w' /\ current_label w' = current_label w /\
    thread_privilege w' = thread_privilege w /\
    ((reserve_uid draws w = (NoFuel, w') /\ view w' = view w) \/
     exists u, reserve_uid draws w = (Val u, w') /\ view w !! to_be 8 u = None /\
       view w' = <[to_be 8 u:=[]]> (view w)).
Proof.
  revert w; induction draws as [|u draws IH]; intros w Hq; simpl.
  - exists w. repeat split; try apply Hq; auto.
  - destruct (add_run u [] (set_entropy draws w) Hq) as (w1 & E & Hs & Hv & _ & Hl & Hp).
    rewrite (bind_step (modify _) _ w tt (set_entropy draws w)), (bind_step _ _ _ _ _ E) by done.
    change (view (set_entropy draws w)) with (view w) in *.
    case_bool_decide as Hd.
    + rewrite decide_True in Hv by done. exists w1. repeat split; try apply Hs; try done.
      right. exists u. done.
    + rewrite decide_False in Hv by done.
      destruct (IH w1 Hs) as (w2 & Hq2 & Hl2 & Hp2 & Hr). exists w2.
      rewrite Hv in Hr. rewrite Hl2, Hp2, Hl, Hp. repeat split; try apply Hq2; auto.
Qed.

(** ** The guarantee *)

Definition Mediated w w' : Prop :=
  quiet w ->
  quiet w' /\ Raised w w' /\
  store_ok (current_label w) (thread_privilege w) (view w) (view w').

#[global] Instance Mediated_preorder : PreOrder Mediated.
Proof.
  split.
  - intros w Hq. split; [done|]. split; [reflexivity | apply store_ok_refl].
  - intros a b c Hab Hbc Hq. destruct (Hab Hq) as (Hqb & Hrb & Hsb).
    destruct (Hbc Hqb) as (Hqc & Hrc & Hsc). split; [done|]. split; [by etrans|].
    destruct Hrb as [Hl Hp]. rewrite Hp in Hsc. by eapply store_ok_trans.
Qed.

(** A computation that leaves the store alone and raises. *)
Lemma mediated_pure w w' :
  Raised w w' -> interference w' = interference w -> backing w' = backing w -> Mediated w w'.
Proof.
  intros Hr Hi Hb [Hq Hok]. split; [split; congruence|]. split; [done|].
  unfold view. rewrite Hb. apply store_ok_refl.
Qed.

Lemma mediated_stored w w' m :
  stored w w' m -> store_ok (current_label w) (thread_privilege w) (view w) m -> Mediated w w'.
Proof.
  intros (Hq & <- & _ & Hl & Hp) Hs _. split; [done|]. split; [|done].
  split; [by rewrite Hl | done].
Qed.

(** To prove [Mediated] one may assume the run is quiet. *)
Lemma mediated_quiet w w' : (quiet w -> Mediated w w') -> Mediated w w'.
Proof. intros H Hq. by apply H. Qed.

Lemma mediated_get {t} (r : ObjectRef t) : Guar Mediated (obj_get r).
Proof. intros w. apply mediated_quiet; intros Hq. rewrite obj_get_run by done. reflexivity. Qed.

Lemma mediated_taint l :
  Guar Mediated (modify (fun w : World St => set_label (lub l (current_label w)) w)).
Proof. intros w. apply mediated_pure; [apply raised_taint | done | done]. Qed.
Lemma mediated_taint' l :
  Guar Mediated (modify (fun w : World St => set_label (lub (current_label w) l) w)).
Proof. intros w. apply mediated_pure; [apply raised_taint' | done | done]. Qed.

(** A new object: the uid was free, so only [granted] matters. *)
Lemma mediated_new {t} (x : obj_data t) w :
  granted (thread_privilege w) (to_vec x) -> Mediated w (set_new_id x w).2.
Proof.
  intros Hg. apply mediated_quiet; intros Hq.
  unfold set_new_id, mbind at 1, SM_bind. cbn [gets].
  destruct (reserve_run (entropy w) w Hq) as (w1 & Hq1 & Hl & Hp & [[E Hv]|(u & E & Hu & Hv)]);
    unfold mbind at 1, SM_bind; rewrite E.
  - cbn. intros _. split; [done|]. split; [split; [by rewrite Hl | done]|].
    rewrite Hv. apply store_ok_refl.
  - destruct (obj_set_run (ObjRef u : ObjectRef t) x w1 Hq1) as (w2 & E2 & Hq2 & Hv2 & _ & Hl2 & Hp2).
    unfold mbind, SM_bind. rewrite E2. cbn. intros _. split; [done|].
    split; [split; [by rewrite Hl2, Hl | congruence]|].
    rewrite Hv2, Hv. unfold ukey; cbn [uid]. rewrite insert_insert_eq.
    apply store_ok_insert; [|done]. intros v. by rewrite Hu.
Qed.

(** Overwriting an object the check allowed. *)
Lemma mediated_put {t} (r : ObjectRef t) (x x' : obj_data t) w :
  quiet w -> view w !! ukey r ≫= from_slice t = Some x ->
  may_replace (current_label w) (thread_privilege w) x x' ->
  granted (thread_privilege w) (to_vec x') ->
  Mediated w (obj_set r x' w).2.
Proof.
  intros Hq Hx Hr Hg. destruct (obj_set_run r x' w Hq) as (w' & -> & Hs).
  apply (mediated_stored _ _ _ Hs), store_ok_insert; [|done].
  intros v Hv. rewrite Hv in Hx. right; right. by exists t, x, x'.
Qed.

(** Swapping: the value replaced is the expected one. *)
Lemma mediated_cas {t} (r : ObjectRef t) old (x' : obj_data t) w :
  (forall x, old = Some x -> may_replace (current_label w) (thread_privilege w) x x') ->
  granted (thread_privilege w) (to_vec x') ->
  Mediated w (obj_cas r old x' w).2.
Proof.
  intros Hr Hg. apply mediated_quiet; intros Hq.
  destruct (obj_cas_run r old x' w Hq) as (w' & -> & Hs).
  apply (mediated_stored _ _ _ Hs). case_decide as Hd; [|apply store_ok_refl].
  apply store_ok_insert; [|done]. intros v Hv. rewrite Hv in Hd.
  destruct old as [x|]; [|done]. simpl in Hd. right; right.
  exists t, x, x'. injection Hd as ->. rewrite from_to_vec. eauto.
Qed.

(** A check that reads the thread-locals. *)
Lemma at_gets {X Y} (f : World St -> X) (k : X -> SM (World St) Y) w :
  Mediated w (k (f w) w).2 -> Mediated w ((gets f ≫= k) w).2.
Proof. intros H. by apply (at_pure (gets f) k w (f w)). Qed.

(** [obj_set] of a new version of what [obj_get] returned, followed by a reply. *)
Lemma at_set {t X} (r : ObjectRef t) (x x' : obj_data t) (a : X) w :
  quiet w -> view w !! ukey r ≫= from_slice t = Some x ->
  may_replace (current_label w) (thread_privilege w) x x' ->
  granted (thread_privilege w) (to_vec x') ->
  Mediated w ((obj_set r x' ≫= fun _ => mret a) w).2.
Proof.
  intros Hq Hx Hr Hg. eapply at_bind; [apply surjective_pairing| |intros; reflexivity].
  by apply mediated_put with x.
Qed.

Lemma may_replace_write {t} l p (x x' : obj_data t) lx :
  obj_label t x = Some lx -> obj_label t x' = Some lx -> FlowsP p l lx -> may_replace l p x x'.
Proof. intros Hx Hx' Hf. unfold may_replace. by rewrite Hx. Qed.

Lemma labeled_write_run {T} (x : Labeled T) v w :
  labeled_write x v w =
    (Val (if may_write (label x) w then Ok (MkLabeled (label x) v)
          else Err LabelError.CannotWrite), w).
Proof. done. Qed.

(** The shape of the four methods that overwrite an object: read it, check, write. *)
Ltac mediate_write t r w Hq :=
  eapply at_pure; [exact (obj_get_run r w Hq)|];
  let x := fresh "x" in let Hx := fresh "Hx" in
  destruct (view w !! ukey r ≫= from_slice t) as [x|] eqn:Hx; [|reflexivity];
  eapply at_pure; [done|];
  unfold try_bind;
  eapply at_pure; [exact (labeled_write_run x _ w)|];
  let Hw := fresh "Hw" in
  destruct (may_write (label x) w) eqn:Hw; cbn [map_err]; [|reflexivity].

Lemma mediated_file_write r d : Guar Mediated (file_write r d).
Proof.
  intros w. apply mediated_quiet; intros Hq. unfold file_write.
  mediate_write TFile r w Hq.
  apply at_set with x; [done..|by eapply may_replace_write|by apply granted_other].
Qed.

Lemma mediated_blob_replace r b : Guar Mediated (blob_replace r b).
Proof.
  intros w. apply mediated_quiet; intros Hq. unfold blob_replace.
  mediate_write TBlob r w Hq.
  apply at_set with x; [done..|by eapply may_replace_write|by apply granted_other].
Qed.

Lemma check_delegate_run c w :
  check_delegate c w =
    (Val (if implies (thread_privilege w) c then Ok tt
          else Err (FsError.PrivilegeError PrivilegeError.CannotDelegate)), w).
Proof. done. Qed.

Lemma mediated_gate_replace r g : Guar Mediated (gate_replace r g).
Proof.
  intros w. apply mediated_quiet; intros Hq. unfold gate_replace, try_bind at 1.
  eapply at_pure; [apply check_delegate_run|].
  destruct (implies (thread_privilege w) (gate_privilege g)) eqn:Hi; [|reflexivity].
  mediate_write TGate r w Hq. unfold mret at 1, SM_ret.
  eapply at_pure; [done|].
  apply at_set with x; [done..|by eapply may_replace_write|by apply granted_gate].
Qed.

Lemma mediated_service_replace r s : Guar Mediated (service_replace r s).
Proof.
  intros w. apply mediated_quiet; intros Hq. unfold service_replace, try_bind at 1.
  eapply at_pure; [apply check_delegate_run|].
  destruct (implies (thread_privilege w) (svc_privilege s)) eqn:Hi; [|reflexivity].
  mediate_write TService r w Hq. eapply at_pure; [done|].
  apply at_set with x; [done..|by eapply may_replace_write|by apply granted_service].
Qed.

(** Creation of gates and services, behind [check_create]. *)
Lemma check_create_run l ws w :
  check_create l ws w =
    (Val (if negb (may_write l w) then Err (FsError.LabelError LabelError.CannotWrite)
          else if forallb (implies (thread_privilege w)) ws then Ok tt
          else Err (FsError.PrivilegeError PrivilegeError.CannotDelegate)), w).
Proof.
  unfold check_create, mbind, SM_bind; cbn. destruct (may_write l w); cbn; [|done].
  by destruct (forallb _ ws).
Qed.

Lemma mediated_create {t X} l ws (x : obj_data t) (f : ObjectRef t -> X) :
  (forall w, (forall c, In c ws -> Implies (thread_privilege w) c) ->
     granted (thread_privilege w) (to_vec x)) ->
  Guar Mediated (_ ?← check_create (St := St) l ws; r ← set_new_id x; mret (Ok (f r))).
Proof.
  intros Hg w. unfold try_bind. eapply at_pure; [apply check_create_run|].
  destruct (negb _); [reflexivity|].
  destruct (forallb _ ws) eqn:Hf; [|reflexivity].
  eapply at_bind; [apply surjective_pairing| |intros; reflexivity].
  apply mediated_new, Hg. by apply forallb_forall.
Qed.

Lemma mediated_direct_gate l g : Guar Mediated (create_direct_gate (St := St) l g).
Proof. apply mediated_create. intros w H. apply granted_gate, H. by left. Qed.
Lemma mediated_redirect_gate l g : Guar Mediated (create_redirect_gate (St := St) l g).
Proof. apply mediated_create. intros w H. apply granted_gate, H. by left. Qed.
Lemma mediated_create_service l s : Guar Mediated (create_service (St := St) l s).
Proof. apply mediated_create. intros w H. apply granted_service, H. by left. Qed.

Lemma mediated_initialize : Guar Mediated fs_initialize.
Proof.
  intros w. apply mediated_quiet; intros Hq.
  destruct (add_run 0 (to_vec (t := TDirectory) empty_root) w Hq) as (w' & E & Hs).
  unfold fs_initialize. change (ukey ROOT_REF) with (to_be 8 0). rewrite E.
  apply (mediated_stored _ _ _ Hs). case_decide as Hd; [|apply store_ok_refl].
  apply store_ok_insert; [|by apply granted_other]. intros v. by rewrite Hd.
Qed.

(** The compare-and-swap loops. *)
Lemma mediated_dir_update fuel r f stop prev :
  Guar Mediated (dir_update (St := St) fuel r f stop prev).
Proof.
  revert prev; induction fuel as [|fuel IH]; intros prev w; [reflexivity|].
  cbn [dir_update]. unfold try_bind, labeled_modify.
  eapply at_bind; [apply surjective_pairing| |].
  - eapply at_bind; [apply surjective_pairing | apply mediated_taint |].
    intros [] _. eapply at_gets. destruct (may_write _ _); [|reflexivity].
    by destruct (f (data prev)).
  - set (w1 := (_ w).2). intros a Ha.
    assert (Hw1 : w1 = set_label (lub (label prev) (current_label w)) w).
    { unfold w1, mbind, SM_bind; cbn. done. }
    cbn in Ha. injection Ha as <-.
    destruct (may_write (label prev) _) eqn:Hm; [|reflexivity].
    destruct (f (data prev)) as [existed d'].
    case_bool_decide; [reflexivity|].
    eapply at_bind; [apply surjective_pairing| |].
    + apply (mediated_cas (t := TDirectory)); [|by apply (granted_other _ (t := TDirectory))].
      intros x [= <-]. rewrite Hw1. by eapply may_replace_write.
    + intros [|[p|]] _; [reflexivity | apply IH | reflexivity].
Qed.

Lemma mediated_open_loop fuel r facet m :
  Guar Mediated (faceted_open_loop (St := St) fuel r facet m).
Proof.
  revert m; induction fuel as [|fuel IH]; intros m; [apply guar_nofuel|].
  cbn [faceted_open_loop]. destruct (m ≫= _); [apply guar_ret|].
  apply guar_bind; [intros w; by apply mediated_new, granted_other|]. intros new_dir.
  apply guar_bind; [|intros [|]; [apply guar_ret | apply IH]].
  intros w. apply (mediated_cas (t := TFaceted)); [|by apply (granted_other _ (t := TFaceted))].
  intros x ->. unfold may_replace. cbn. eauto.
Qed.

#[global] Instance mediated_primitives : FsPrimitives Mediated.
Proof.
  split; intros; try apply _;
    auto using mediated_get, mediated_taint, mediated_taint', mediated_dir_update,
      mediated_open_loop, mediated_file_write, mediated_blob_replace, mediated_gate_replace,
      mediated_service_replace, mediated_direct_gate, mediated_redirect_gate,
      mediated_create_service, mediated_initialize;
    intros w; by apply mediated_new, granted_other.
Qed.

Lemma mediated_fs_call c : Guar Mediated (fs_call (St := St) c).
Proof. apply g_fs_call, _. Qed.
End runs.
