(* ===== verification/FsReads.v ===== *)
(** * Path resolution and reads

    [lookup_path] is the specification of path resolution: a pure function of the store that
    returns the entry (or the error) and the labels of the directories visited.  [read_path]
    refines it and raises the current label by exactly those labels. *)

From stdpp Require Import base tactics option list gmap strings countable.
From S2P Require Import Prelude Labels Store FsTypes Objects Fs FsGuarantee.
From S2P Require Import FsMediation.

(** ** Specification *)

Section spec.
Context `{L : LabelOps} `{SD : SerdeOps}.

Definition object_at (m : gmap bytes bytes) {t} (r : ObjectRef t) : option (obj_data t) :=
  m !! ukey r ≫= from_slice t.

(** Raises a label by a list of labels, in the order they are met. *)
Definition taints (ls : list Buckle) (l : Buckle) : Buckle :=
  foldl (fun acc x => lub x acc) l ls.

Definition visit (l : Buckle) (r : option (list Buckle * result DirEntry FsError)) :=
  (fun p => (l :: p.1, p.2)) <$> r.

(** [None]: a dangling reference, or a facet that resolution would have to create. *)
Fixpoint lookup_from (m : gmap bytes bytes) (path : Path) (cur : option DirEntry) :
    option (list Buckle * result DirEntry FsError) :=
  match path with
  | [] => Some ([], match cur with Some e => Ok e | None => Err FsError.BadPath end)
  | PathComponent.Dscrp s :: path =>
      match cur with
      | Some (DirEntry.Directory d) =>
          match object_at m d with
          | Some x => visit (label x) (lookup_from m path (entries (data x) !! s))
          | None => None
          end
      | _ => Some ([], Err FsError.BadPath)
      end
  | PathComponent.Facet f :: path =>
      match cur with
      | Some (DirEntry.FacetedDirectory r) =>
          match object_at m r ≫= fun fd => find_facet f (facets fd) with
          | Some d => lookup_from m path (Some (DirEntry.Directory d))
          | None => None
          end
      | _ => Some ([], Err FsError.BadPath)
      end
  end.

Definition lookup_path (m : gmap bytes bytes) (path : Path) :
    option (list Buckle * result DirEntry FsError) :=
  match path with
  | PathComponent.Dscrp s :: path =>
      let root := default empty_root (object_at m ROOT_REF) in
      visit (label root) (lookup_from m path (entries (data root) !! s))
  | _ => Some ([], Ok (DirEntry.Directory ROOT_REF))
  end.
End spec.

(** ** Refinement *)

Section refine.
Context {St : Type} `{BW : BackingStoreLaws St} `{LW : LabelLaws} `{SW : SerdeLaws}.
Implicit Types w : World St.

Lemma set_label_same w : set_label (taints [] (current_label w)) w = w.
Proof. by destruct w. Qed.
Lemma set_label_twice a b w : set_label a (set_label b w) = set_label a w.
Proof. done. Qed.

Lemma unlabel_run {T} (x : Labeled T) w :
  unlabel x w = (Val (data x), set_label (lub (label x) (current_label w)) w).
Proof. done. Qed.

Lemma dir_list_run (r : ObjectRef TDirectory) w (x : Labeled Directory) :
  quiet w -> object_at (view w) r = Some x ->
  dir_list r w =
    (Val (entries (data x)), set_label (lub (label x) (current_label w)) w).
Proof.
  intros Hq Hx. unfold dir_list.
  rewrite (bind_step _ _ _ _ _ (obj_get_run r w Hq)).
  unfold object_at in Hx. by rewrite Hx.
Qed.

Lemma faceted_open_found (r : ObjectRef TFaceted) facet w (fd : FacetedDirectory) d :
  quiet w -> object_at (view w) r = Some fd -> find_facet facet (facets fd) = Some d ->
  faceted_open r facet w = (Val d, w).
Proof.
  intros Hq Hfd Hd. unfold faceted_open.
  rewrite (bind_step _ _ _ _ _ (obj_get_run r w Hq)).
  unfold object_at in Hfd. rewrite Hfd.
  rewrite (bind_step (gets cas_fuel) _ w (cas_fuel w) w) by done.
  cbn. by rewrite Hd.
Qed.

Lemma walk_refines path cur w ls res :
  quiet w -> lookup_from (view w) path cur = Some (ls, res) ->
  walk path cur w = (Val res, set_label (taints ls (current_label w)) w).
Proof.
  revert cur w ls; induction path as [|[s|f] path IH]; intros cur w ls Hq Hl; cbn in Hl.
  - injection Hl as <- <-. by rewrite set_label_same.
  - destruct cur as [[d|r|r|r|r|r]|];
      try (injection Hl as <- <-; by rewrite set_label_same).
    destruct (object_at (view w) d) as [x|] eqn:Hx; [|done].
    destruct (lookup_from _ _ _) as [[ls' res']|] eqn:Hrec; [|done].
    injection Hl as <- <-. cbn [walk].
    rewrite (bind_step _ _ _ _ _ (dir_list_run d w x Hq Hx)).
    set (w1 := set_label _ w). exact (IH _ w1 ls' Hq Hrec).
  - destruct cur as [[d|r|r|r|r|r]|];
      try (injection Hl as <- <-; by rewrite set_label_same).
    destruct (object_at (view w) r) as [fd|] eqn:Hfd; [|done]. cbn in Hl.
    destruct (find_facet f (facets fd)) as [d|] eqn:Hd; [|done].
    cbn [walk]. rewrite (bind_step _ _ _ _ _ (faceted_open_found r f w fd d Hq Hfd Hd)).
    by apply IH.
Qed.

Lemma read_path_lookup path w ls res :
  quiet w -> lookup_path (view w) path = Some (ls, res) ->
  read_path path w = (Val res, set_label (taints ls (current_label w)) w).
Proof.
  intros Hq Hl. destruct path as [|[s|f] path]; cbn in Hl |- *;
    try (injection Hl as <- <-; by rewrite set_label_same).
  unfold visit in Hl.
  destruct (lookup_from _ _ _) as [[ls' res']|] eqn:Hrec; [|done].
  injection Hl as <- <-. unfold fs_root.
  erewrite bind_step by (rewrite (bind_step _ _ _ _ _ (obj_get_run ROOT_REF w Hq)); done).
  rewrite (bind_step _ _ _ _ _ (unlabel_run _ w)).
  match goal with |- _ ?w1 = _ => exact (walk_refines _ _ w1 ls' _ Hq Hrec) end.
Qed.

Lemma taints_flow ls l : Flows l (taints ls l) /\ Forall (fun x => Flows x (taints ls l)) ls.
Proof.
  revert l; induction ls as [|x ls IH]; intros l; cbn; [split; [reflexivity | constructor]|].
  destruct (IH (lub x l)) as [H1 H2]. split.
  - etrans; [apply Flows_lub_r | exact H1].
  - constructor; [|done]. etrans; [apply Flows_lub_l | exact H1].
Qed.

(** What a run that returned [Ok] went through. *)
Lemma try_ok {T X Y E} (m : SM T (result X E)) (f : X -> SM T (result Y E)) s b s'' :
  try_bind m f s = (Val (Ok b), s'') ->
  exists a s', m s = (Val (Ok a), s') /\ f a s' = (Val (Ok b), s'').
Proof.
  unfold try_bind. intros H. apply bind_val in H as ([a|e] & s' & Hm & Hf); [eauto | done].
Qed.

(** A successful read of a labeled object returns its contents and raises by its label. *)
Lemma read_object_taints {t X} (r : ObjectRef t) (un : obj_data t -> Labeled X) w d w' :
  quiet w ->
  (o ← obj_get r; x ← unwrap o; unlabel (un x)) w = (Val d, w') ->
  exists x, object_at (view w') r = Some x /\ data (un x) = d /\
    Flows (label (un x)) (current_label w').
Proof.
  intros Hq H. rewrite (bind_step _ _ _ _ _ (obj_get_run r w Hq)) in H.
  fold (object_at (view w) r) in H.
  destruct (object_at (view w) r) as [x|] eqn:Hx; [|done].
  cbn in H. injection H as <- <-. exists x. split; [done|]. split; [done|]. apply Flows_lub_l.
Qed.

(** The path prefix of a read is quiet. *)
Lemma read_path_quiet path w e w' :
  quiet w -> read_path path w = (Val (Ok e), w') -> quiet w'.
Proof.
  intros Hq H. pose proof (mediated_fs_call (ReadPath path) w Hq) as [Hq' _].
  cbn in Hq'. unfold drop in Hq'. by rewrite (bind_step _ _ _ _ _ H) in Hq'.
Qed.

Lemma read_file_taints path w d w' :
  quiet w -> read_file path w = (Val (Ok d), w') ->
  exists (r : ObjectRef TFile) l, object_at (view w') r = Some (MkLabeled l d) /\
    Flows l (current_label w').
Proof.
  intros Hq H. unfold read_file in H. apply try_ok in H as (e & w1 & Hp & H).
  apply read_path_quiet in Hp; [|done]. destruct e as [|r| | | |]; try done.
  apply bind_val in H as (f & w2 & Hr & [= -> ->]).
  apply (read_object_taints (t := TFile) r (fun x => x)) in Hr as (x & Hx & <- & Hl); [|done].
  exists r, (label x). split; [|done]. by destruct x.
Qed.

Lemma open_blob_taints path w b w' :
  quiet w -> open_blob path w = (Val (Ok b), w') ->
  exists (r : ObjectRef TBlob) l, object_at (view w') r = Some (MkLabeled l b) /\
    Flows l (current_label w').
Proof.
  intros Hq H. unfold open_blob in H. apply try_ok in H as (e & w1 & Hp & H).
  apply read_path_quiet in Hp; [|done]. destruct e as [| | | | |r]; try done.
  apply bind_val in H as (f & w2 & Hr & [= -> ->]).
  apply (read_object_taints (t := TBlob) r (fun x => x)) in Hr as (x & Hx & <- & Hl); [|done].
  exists r, (label x). split; [|done]. by destruct x.
Qed.

Lemma list_dir_taints path w es w' :
  quiet w -> list_dir path w = (Val (Ok es), w') ->
  exists (r : ObjectRef TDirectory) l,
    object_at (view w') r = Some (MkLabeled l (MkDirectory es)) /\
    Flows l (current_label w').
Proof.
  intros Hq H. unfold list_dir in H. apply try_ok in H as (e & w1 & Hp & H).
  apply read_path_quiet in Hp; [|done]. destruct e as [r| | | | |]; try done.
  apply bind_val in H as (f & w2 & Hr & [= -> ->]).
  unfold dir_list in Hr.
  rewrite (bind_step _ _ _ _ _ (obj_get_run r w1 Hp)) in Hr.
  fold (object_at (view w1) r) in Hr.
  destruct (object_at (view w1) r) as [x|] eqn:Hx; [|done].
  cbn in Hr. injection Hr as <- <-. exists r, (label x). split; [|apply Flows_lub_l].
  change (view (set_label _ w1)) with (view w1). rewrite Hx. by destruct x as [? []].
Qed.
End refine.
