(* ===== verification/FsDirs.v ===== *)
(** * Directory updates under concurrency

    [link] and [unlink] read a directory, compute a new version and compare-and-swap it in, in
    a loop.  Here other threads act on the store between any two accesses ([interference]);
    all that is asked of them is that the directory stays a directory ([benign]).  Then the
    loop terminates within one attempt per intervention plus one, never panics, and takes
    effect in one atomic step. *)

From stdpp Require Import base tactics option list gmap strings countable.
From S2P Require Import Prelude Labels Store FsTypes Objects Fs FsGuarantee.
From S2P Require Import FsMediation FsReads.

Section loop.
Context {St : Type} `{BW : BackingStoreLaws St} `{LW : LabelLaws} `{SW : SerdeLaws}.
Implicit Types w : World St.
Context (r : ObjectRef TDirectory).

(** The reference holds a directory, as the file system serialized it. *)
Definition dir_at (s : St) (x : Labeled Directory) : Prop :=
  bs_view s !! ukey r = Some (to_vec (t := TDirectory) x).

Definition benign w : Prop :=
  bs_ok (backing w) /\ (exists x, dir_at (backing w) x) /\
  Forall (fun g => forall s, bs_ok s -> (exists x, dir_at s x) ->
                   bs_ok (g s) /\ exists x, dir_at (g s) x) (interference w).

(** How the store moves when this thread writes nothing: another thread intervenes, or an
    access of this thread leaves the map as it is. *)
Inductive pass : relation (St * list (St -> St)) :=
  | pass_env s g env : pass (s, g :: env) (g s, env)
  | pass_own s s' env : bs_view s' = bs_view s -> pass (s, env) (s', env).

(** [w'] comes after [w], and this thread wrote nothing in between. *)
Definition passes w w' : Prop :=
  rtc pass (backing w, interference w) (backing w', interference w').

#[global] Instance passes_preorder : PreOrder passes.
Proof. split; [intros w; apply rtc_refl | intros a b c; unfold passes; by etrans]. Qed.

(** The world as the next access meets it. *)
Definition arrived w : World St :=
  MkWorld (arrive w).1 (arrive w).2 (entropy w) (current_label w) (thread_privilege w).

Lemma arrived_spec w :
  benign w -> benign (arrived w) /\ passes w (arrived w) /\
    length (interference (arrived w)) = pred (length (interference w)) /\
    (interference w = [] -> backing (arrived w) = backing w) /\
    forall s, bs_ok s -> (exists x, dir_at s x) ->
      benign (MkWorld s (interference (arrived w)) (entropy w) (current_label w)
                (thread_privilege w)).
Proof.
  intros (Hok & Hd & Henv). unfold arrived, arrive, passes, benign.
  destruct (interference w) as [|g env] eqn:E; cbn.
  - split_and!; done.
  - apply Forall_cons_iff in Henv as [Hg Henv].
    destruct (Hg (backing w) Hok Hd) as [Hok' Hd'].
    split_and!; try done. apply rtc_once, pass_env.
Qed.

Lemma benign_label w l : benign w -> benign (set_label l w).
Proof. done. Qed.

(** [get] in the presence of interference. *)
Lemma get_benign w :
  benign w -> exists x, obj_get r w = (Val (Some x), arrived w) /\
    dir_at (backing (arrived w)) x.
Proof.
  intros Hb. destruct (arrived_spec w Hb) as ((Hok & [x Hx] & _) & _).
  exists x. split; [|done]. unfold obj_get, arrived in *.
  destruct (arrive w) as [s env] eqn:Ha; cbn [fst snd backing] in *.
  erewrite bind_step; [|unfold store_op; rewrite Ha, get_law; [done|done|apply ukey_ok]].
  unfold dir_at in Hx. rewrite Hx. cbn. by rewrite from_to_vec.
Qed.

(** What a compare-and-swap of the directory does under interference: it swaps, or it reports
    the version it found, and another thread has intervened. *)
Lemma cas_benign w prev new :
  benign w -> (interference w = [] -> dir_at (backing w) prev) ->
  exists w', benign w' /\
    current_label w' = current_label w /\ thread_privilege w' = thread_privilege w /\
    interference w' = interference (arrived w) /\
    ((obj_cas r (Some (prev : obj_data TDirectory)) new w = (Val (Ok tt), w') /\
      dir_at (backing (arrived w)) prev /\
      bs_view (backing w') =
        <[ukey r := to_vec (t := TDirectory) new]> (bs_view (backing (arrived w)))) \/
     exists x, obj_cas r (Some (prev : obj_data TDirectory)) new w = (Val (Err (Some x)), w') /\
       dir_at (backing w') x /\ interference w <> [] /\ passes w w').
Proof.
  intros Hb Hsync.
  destruct (arrived_spec w Hb) as ((Hok & [x Hx] & _) & Hp & _ & Hs & Hnext).
  unfold arrived in *. destruct (arrive w) as [s env] eqn:Ha; cbn [fst snd backing interference] in *.
  destruct (cas_law s (ukey r) (Some (to_vec (t := TDirectory) prev)) (to_vec (t := TDirectory) new))
    as (s' & E & Hok' & Hv); [done | apply ukey_ok |].
  assert (Hrun : store_op (bs_cas (ukey r) (Some (to_vec (t := TDirectory) prev))
      (to_vec (t := TDirectory) new)) w = (_, MkWorld s' env (entropy w) (current_label w)
        (thread_privilege w))) by (unfold store_op; rewrite Ha, E; done).
  exists (MkWorld s' env (entropy w) (current_label w) (thread_privilege w)).
  case_decide as Hd.
  - split.
    { apply Hnext; [done|]. exists new. unfold dir_at. by rewrite Hv, lookup_insert_eq. }
    split_and!; try done. left. split; [|done].
    unfold obj_cas. cbn [fmap option_fmap option_map]. by rewrite (bind_step _ _ _ _ _ Hrun).
  - assert (Hx' : dir_at s' x) by (unfold dir_at; by rewrite Hv).
    split; [apply Hnext; eauto|]. split_and!; try done. right. exists x. split_and!.
    + unfold obj_cas. cbn [fmap option_fmap option_map]. rewrite (bind_step _ _ _ _ _ Hrun).
      unfold dir_at in Hx. rewrite Hx. cbn. by rewrite from_to_vec.
    + done.
    + intros Hn. apply Hd. rewrite (Hs Hn). by apply Hsync.
    + etrans; [exact Hp|]. unfold passes; cbn. by apply rtc_once, pass_own.
Qed.

(** The outcome of an update by [f], which gives up when it reports [stop]: the moment [ws] at
    which it takes effect lies between the start [w] and the end [w']. *)
Definition update_outcome (f : Directory -> bool * Directory) (stop : bool) w
    (res : result bool LabelError) w' : Prop :=
  thread_privilege w' = thread_privilege w /\
  match res with
  | Ok true => exists ws x, passes w ws /\ dir_at (backing ws) x /\ (f (data x)).1 <> stop /\
      interference w' = interference ws /\
      bs_view (backing w') =
        <[ukey r := to_vec (t := TDirectory) (MkLabeled (label x) (f (data x)).2)]>
          (bs_view (backing ws)) /\
      Flows (label x) (current_label w') /\
      FlowsP (thread_privilege w) (current_label w') (label x)
  | Ok false => exists ws x, passes w ws /\ passes ws w' /\ dir_at (backing ws) x /\
      (f (data x)).1 = stop /\ Flows (label x) (current_label w')
  | Err e => e = LabelError.CannotWrite /\
      exists ws x, passes w ws /\ passes ws w' /\ dir_at (backing ws) x /\
        ~ FlowsP (thread_privilege w) (current_label w') (label x)
  end.

Lemma labeled_modify_run {T R} (x : Labeled T) (f : T -> R * T) w :
  labeled_modify x f w =
    (Val (if may_write (label x) (set_label (lub (label x) (current_label w)) w)
          then Ok ((f (data x)).1, MkLabeled (label x) (f (data x)).2)
          else Err LabelError.CannotWrite),
     set_label (lub (label x) (current_label w)) w).
Proof.
  unfold labeled_modify. set (w1 := set_label _ w).
  rewrite (bind_step (raise_label (label x)) _ w tt w1) by done.
  rewrite (bind_step (gets _) _ w1 (may_write (label x) w1) w1) by done.
  destruct (may_write (label x) w1); [|done]. by destruct (f (data x)).
Qed.

Lemma dir_update_benign f stop fuel prev w0 ws w :
  passes w0 ws -> dir_at (backing ws) prev -> passes ws w ->
  thread_privilege w = thread_privilege w0 ->
  benign w -> (interference w = [] -> dir_at (backing w) prev) ->
  (length (interference w) < fuel)%nat ->
  exists res w', dir_update fuel r f stop prev w = (Val res, w') /\
    update_outcome f stop w0 res w'.
Proof.
  revert prev ws w; induction fuel as [|fuel IH];
    intros prev ws w H0 Hprev Hw Hpriv Hb Hsync Hfuel; [lia|].
  cbn [dir_update]. unfold try_bind.
  rewrite (bind_step _ _ _ _ _ (labeled_modify_run prev f w)).
  set (w1 := set_label _ w).
  assert (Hw1 : passes ws w1) by exact Hw.
  assert (Hl1 : Flows (label prev) (current_label w1)) by apply Flows_lub_l.
  destruct (may_write (label prev) w1) eqn:Hm; unfold may_write in Hm; cbn in Hm;
    rewrite Hpriv in Hm.
  2:{ eexists _, w1. split; [done|]. split; [done|]. split; [done|]. exists ws, prev.
      split_and!; try done. unfold FlowsP. cbn. by rewrite Hm. }
  destruct (f (data prev)) as [existed d'] eqn:Hf. cbn [fst snd].
  case_bool_decide as Hst.
  { eexists _, w1. split; [done|]. split; [done|]. exists ws, prev. by rewrite Hf. }
  destruct (cas_benign w1 prev (MkLabeled (label prev) d') (benign_label _ _ Hb) Hsync)
    as (w2 & Hb2 & Hl2 & Hp2 & Hi2 & Hcase).
  destruct (arrived_spec w1 (benign_label _ _ Hb)) as (_ & Hpa & Hlen & _).
  destruct Hcase as [(E & Hs & Hv)|(x & E & Hx & Hne & Hp12)].
  - rewrite (bind_step _ _ _ _ _ E). eexists _, w2. split; [done|].
    split; [by rewrite Hp2|]. exists (arrived w1), prev. rewrite Hf, Hl2. split_and!; try done.
    etrans; [exact H0|]. by etrans.
  - rewrite (bind_step _ _ _ _ _ E).
    assert (Hlw : length (interference w1) <> 0%nat) by (by destruct (interference w1)).
    apply (IH x w2 w2); try done.
    + etrans; [exact H0|]. by etrans.
    + by rewrite Hp2.
    + rewrite Hi2, Hlen. change (interference w1) with (interference w) in *. lia.
Qed.

Lemma dir_loop_benign f stop w :
  benign w ->
  exists res w',
    (o ← obj_get r; prev ← unwrap o; fuel ← gets cas_fuel; dir_update fuel r f stop prev) w
      = (Val res, w') /\
    update_outcome f stop w res w'.
Proof.
  intros Hb. destruct (get_benign w Hb) as (x & E & Hx).
  destruct (arrived_spec w Hb) as (Hb1 & Hp & _).
  rewrite (bind_step _ _ _ _ _ E), (bind_step (unwrap _) _ (arrived w) x (arrived w)) by done.
  rewrite (bind_step (gets cas_fuel) _ _ (cas_fuel (arrived w)) (arrived w)) by done.
  apply (dir_update_benign f stop _ x w (arrived w)); try done. unfold cas_fuel; lia.
Qed.
End loop.

(** ** Without interference: the four outcomes of [link] and [unlink] *)

Section sequential.
Context {St : Type} `{BW : BackingStoreLaws St} `{LW : LabelLaws} `{SW : SerdeLaws}.
Implicit Types w : World St.

Lemma dir_update_run fuel (r : ObjectRef TDirectory) f stop (x : Labeled Directory) w :
  quiet w -> dir_at r (backing w) x ->
  let w1 := set_label (lub (label x) (current_label w)) w in
  exists w', dir_update (S fuel) r f stop x w =
      (Val (if may_write (label x) w1 then Ok (negb (bool_decide ((f (data x)).1 = stop)))
            else Err LabelError.CannotWrite), w') /\
    stored w1 w'
      (if may_write (label x) w1 && negb (bool_decide ((f (data x)).1 = stop))
       then <[ukey r := to_vec (t := TDirectory) (MkLabeled (label x) (f (data x)).2)]> (view w)
       else view w).
Proof.
  intros Hq Hx w1. cbn [dir_update]. unfold try_bind.
  rewrite (bind_step _ _ _ _ _ (labeled_modify_run x f w)). fold w1.
  assert (Hw1 : stored w1 w1 (view w)) by (repeat split; apply Hq).
  destruct (may_write (label x) w1); [|by exists w1].
  destruct (f (data x)) as [existed d']; cbn [fst snd].
  case_bool_decide; cbn [negb]; [by exists w1|].
  destruct (obj_cas_run r (Some (x : obj_data TDirectory)) (MkLabeled (label x) d') w1 Hq)
    as (w' & E & Hs).
  rewrite decide_True in E by exact Hx.
  destruct (decide (view w1 !! ukey r = _)) as [_|Hn]; [|by destruct Hn].
  exists w'. by rewrite (bind_step _ _ _ _ _ E).
Qed.

Lemma dir_loop_run (r : ObjectRef TDirectory) f stop (x : Labeled Directory) w :
  quiet w -> dir_at r (backing w) x ->
  let w1 := set_label (lub (label x) (current_label w)) w in
  exists w',
    (o ← obj_get r; prev ← unwrap o; fuel ← gets cas_fuel; dir_update fuel r f stop prev) w =
      (Val (if may_write (label x) w1 then Ok (negb (bool_decide ((f (data x)).1 = stop)))
            else Err LabelError.CannotWrite), w') /\
    stored w1 w'
      (if may_write (label x) w1 && negb (bool_decide ((f (data x)).1 = stop))
       then <[ukey r := to_vec (t := TDirectory) (MkLabeled (label x) (f (data x)).2)]> (view w)
       else view w).
Proof.
  intros Hq Hx. rewrite (bind_step _ _ _ _ _ (obj_get_run r w Hq)).
  unfold view at 1. unfold dir_at in Hx. rewrite Hx. cbn [mbind option_bind].
  rewrite from_to_vec. cbn [unwrap].
  rewrite (bind_step (mret _) _ w x w), (bind_step (gets cas_fuel) _ w (cas_fuel w) w) by done.
  by apply dir_update_run.
Qed.
End sequential.
