(* ===== verification/FsGates.v ===== *)
(** * Gates and facets

    Resolving a gate follows its redirects and intersects what they grant; opening a facet
    finds or creates its directory. *)

From stdpp Require Import base tactics option list gmap strings countable.
From S2P Require Import Prelude Labels Store FsTypes Objects Fs FsGuarantee.
From S2P Require Import FsMediation FsReads FsDirs.

(** ** The redirect chain of a gate *)

Section chain.
Context `{L : LabelOps} `{SD : SerdeOps}.

(** [gate_chain m r hops d]: from [r] the redirects [hops] (each with the label of the object
    it is in) lead to the direct gate [d]. *)
Inductive gate_chain (m : gmap bytes bytes) :
    ObjectRef TGate -> list (Buckle * RedirectGate) -> Buckle * DirectGate -> Prop :=
  | chain_direct r l g :
      object_at m r = Some (MkLabeled l (Gate.Direct g) : obj_data TGate) ->
      gate_chain m r [] (l, g)
  | chain_redirect r l rd hops d :
      object_at m r = Some (MkLabeled l (Gate.Redirect rd) : obj_data TGate) ->
      gate_chain m (rd_gate rd) hops d ->
      gate_chain m r ((l, rd) :: hops) d.

(** Conjunction of a list, from the left, as the loop accumulates it. *)
Definition conj_all (c : Component) (cs : list Component) : Component := foldl conj c cs.

(** What [to_invokable] computes from a chain. *)
Definition invokable (hops : list (Buckle * RedirectGate)) (g : DirectGate) : DirectGate :=
  MkDirectGate
    (conj (conj_all dc_true ((fun h => rd_privilege h.2) <$> hops)) (privilege g))
    (conj (conj_all dc_true ((fun h => rd_invoker_integrity_clearance h.2) <$> hops))
          (invoker_integrity_clearance g))
    (conj_all dc_true ((fun h => rd_declassify h.2) <$> hops))
    (function g).
End chain.

Section gates.
Context {St : Type} `{BW : BackingStoreLaws St} `{LW : LabelLaws} `{SW : SerdeLaws}.
Implicit Types w : World St.

Lemma conj_all_glb a c cs :
  Implies a (conj_all c cs) <-> Implies a c /\ Forall (Implies a) cs.
Proof.
  revert c; induction cs as [|x cs IH]; intros c; cbn.
  - split; [intros H; split; [done|constructor] | by intros [? _]].
  - unfold conj_all in IH. rewrite IH, Implies_conj, Forall_cons_iff. tauto.
Qed.

(** Reading a gate object. *)
Lemma gate_get_run (r : ObjectRef TGate) w (x : Labeled Gate) {X} (k : Gate -> SM (World St) X) :
  quiet w -> object_at (view w) r = Some x ->
  (o ← obj_get r; g ← unwrap o; next ← unlabel g; k next) w =
    k (data x) (set_label (lub (label x) (current_label w)) w).
Proof.
  intros Hq Hx. rewrite (bind_step _ _ _ _ _ (obj_get_run r w Hq)).
  unfold object_at in Hx. by rewrite Hx.
Qed.

Lemma resolve_chain m r hops d :
  gate_chain m r hops d ->
  forall fuel p iic decl w, quiet w -> view w = m -> (length hops < fuel)%nat ->
  (o ← obj_get r; x ← unwrap o; cur ← unlabel x; resolve_gate fuel cur p iic decl) w =
    (Val (MkDirectGate
            (conj (conj_all p ((fun h => rd_privilege h.2) <$> hops)) (privilege d.2))
            (conj (conj_all iic ((fun h => rd_invoker_integrity_clearance h.2) <$> hops))
                  (invoker_integrity_clearance d.2))
            (conj_all decl ((fun h => rd_declassify h.2) <$> hops))
            (function d.2)),
     set_label (taints (hops.*1 ++ [d.1]) (current_label w)) w).
Proof.
  induction 1 as [r l g Hr|r l rd hops d Hr Hc IH]; intros fuel p iic decl w Hq Hv Hf;
    subst m; rewrite (gate_get_run r w _ (fun cur => resolve_gate fuel cur p iic decl) Hq Hr);
    (destruct fuel as [|fuel]; [cbn in Hf; lia|]); cbn [resolve_gate data].
  - done.
  - rewrite IH; [done|done|done|cbn in Hf; lia].
Qed.

Lemma gate_to_invokable_chain fuel r hops l g w :
  quiet w -> gate_chain (view w) r hops (l, g) -> (length hops < fuel)%nat ->
  gate_to_invokable fuel r w =
    (Val (invokable hops g), set_label (taints (hops.*1 ++ [l]) (current_label w)) w).
Proof. intros Hq Hc Hf. exact (resolve_chain _ _ _ _ Hc fuel _ _ _ w Hq eq_refl Hf). Qed.

(** A gate that redirects to itself is never resolved. *)
Lemma resolve_cycle r l rd fuel p iic decl w :
  quiet w -> object_at (view w) r = Some (MkLabeled l (Gate.Redirect rd) : obj_data TGate) ->
  rd_gate rd = r ->
  ((o ← obj_get r; x ← unwrap o; cur ← unlabel x; resolve_gate fuel cur p iic decl) w).1
    = NoFuel.
Proof.
  revert p iic decl w; induction fuel as [|fuel IH]; intros p iic decl w Hq Hr Hcyc;
    rewrite (gate_get_run r w _ (fun cur => resolve_gate _ cur p iic decl) Hq Hr); [done|].
  cbn [resolve_gate data]. rewrite Hcyc. by apply IH.
Qed.
End gates.

(** ** New objects *)

Section fresh.
Context {St : Type} `{BW : BackingStoreLaws St} `{LW : LabelLaws} `{SW : SerdeLaws}.
Implicit Types w : World St.

Definition uid_free w (u : Z) : Prop := view w !! to_be 8 u = None.

(** The loop stops at the first free draw. *)
Lemma reserve_total draws w :
  quiet w -> Exists (uid_free w) draws ->
  exists u w', reserve_uid draws w = (Val u, w') /\ u ∈ draws /\ uid_free w u /\
    quiet w' /\ view w' = <[to_be 8 u := []]> (view w) /\
    current_label w' = current_label w /\ thread_privilege w' = thread_privilege w.
Proof.
  revert w; induction draws as [|u draws IH]; intros w Hq He; [by apply Exists_nil in He|].
  cbn [reserve_uid]. rewrite (bind_step (modify _) _ w tt (set_entropy draws w)) by done.
  destruct (add_run u [] (set_entropy draws w) Hq) as (w1 & E & Hq1 & Hv & _ & Hl & Hp).
  rewrite (bind_step _ _ _ _ _ E).
  change (view (set_entropy draws w)) with (view w) in *.
  case_bool_decide as Hd.
  - exists u, w1. rewrite decide_True in Hv by done. split_and!; try done. by left.
  - apply Exists_cons in He as [?|He]; [done|]. rewrite decide_False in Hv by done.
    destruct (IH w1) as (u' & w' & E' & Hin & Hfr & Hq' & Hv' & Hl' & Hp'); [done| |].
    { unfold uid_free. by rewrite Hv. }
    exists u', w'. rewrite Hv in Hv'. unfold uid_free in *. rewrite Hv in Hfr.
    cbn in Hl, Hp. split_and!; try congruence. by right.
Qed.

Lemma new_id_run {t} (x : obj_data t) w :
  quiet w -> Exists (uid_free w) (entropy w) ->
  exists r w', set_new_id x w = (Val r, w') /\ view w !! ukey r = None /\ quiet w' /\
    view w' = <[ukey r := to_vec x]> (view w) /\
    current_label w' = current_label w /\ thread_privilege w' = thread_privilege w.
Proof.
  intros Hq He. destruct (reserve_total _ w Hq He) as (u & w1 & E & _ & Hf & Hq1 & Hv & Hl & Hp).
  destruct (obj_set_run (ObjRef u : ObjectRef t) x w1 Hq1) as (w2 & E2 & Hq2 & Hv2 & _ & Hl2 & Hp2).
  exists (ObjRef u), w2. unfold set_new_id.
  rewrite (bind_step (gets entropy) _ w (entropy w) w), (bind_step _ _ _ _ _ E) by done.
  rewrite (bind_step _ _ _ _ _ E2). split_and!; try done; try congruence.
  rewrite Hv2, Hv. unfold ukey; cbn [uid]. by rewrite insert_insert_eq.
Qed.
End fresh.

(** ** Facets *)

Section facets.
Context {St : Type} `{BW : BackingStoreLaws St} `{LW : LabelLaws} `{SW : SerdeLaws}.
Implicit Types w : World St.

Lemma find_facet_app f fs g d :
  find_facet f (fs ++ [(g, d)]) =
    match find_facet f fs with
    | Some d' => Some d'
    | None => if bool_decide (g = f) then Some d else None
    end.
Proof.
  unfold find_facet. induction fs as [|[h e] fs IH]; cbn.
  - by destruct (bool_decide (g = f)).
  - by destruct (bool_decide (h = f)).
Qed.

Lemma find_facet_None f fs : find_facet f fs = None <-> f ∉ fs.*1.
Proof.
  unfold find_facet. induction fs as [|[h e] fs IH]; cbn.
  - split; [intros _; apply not_elem_of_nil | done].
  - rewrite not_elem_of_cons. case_bool_decide as Hh; cbn.
    + split; [done|]. intros [Hn _]. by destruct Hn.
    + rewrite IH. split; [intros; by split_and!; [congruence|]|]. by intros [_ ?].
Qed.

(** A swap from the value the store has. *)
Lemma obj_cas_ok {t} (r : ObjectRef t) old x w :
  quiet w -> view w !! ukey r = to_vec <$> old ->
  exists w', obj_cas r old x w = (Val (Ok tt), w') /\
    stored w w' (<[ukey r:=to_vec x]> (view w)).
Proof.
  intros Hq Hk. destruct (obj_cas_run r old x w Hq) as (w' & E & Hs).
  exists w'. rewrite decide_True in E by done. by rewrite decide_True in Hs by done.
Qed.

(** The first opening of a facet. *)
Lemma faceted_open_new (r : ObjectRef TFaceted) facet w (fd : FacetedDirectory) :
  quiet w -> view w !! ukey r = Some (to_vec (t := TFaceted) fd) ->
  find_facet facet (facets fd) = None -> Exists (uid_free w) (entropy w) ->
  exists d w', faceted_open r facet w = (Val d, w') /\ quiet w' /\
    view w !! ukey d = None /\
    view w' = <[ukey r := to_vec (t := TFaceted) (MkFaceted (facets fd ++ [(facet, d)]))]>
                (<[ukey d := to_vec (t := TDirectory) (MkLabeled facet (MkDirectory ∅))]> (view w)) /\
    current_label w' = current_label w /\ thread_privilege w' = thread_privilege w.
Proof.
  intros Hq Hr Hn Hf. unfold faceted_open.
  rewrite (bind_step _ _ _ _ _ (obj_get_run r w Hq)), Hr. cbn [mbind option_bind].
  rewrite from_to_vec, (bind_step (gets cas_fuel) _ w (cas_fuel w) w) by done.
  unfold cas_fuel. cbn [faceted_open_loop mbind option_bind]. rewrite Hn.
  destruct (new_id_run (t := TDirectory) (MkLabeled facet (MkDirectory ∅)) w Hq Hf)
    as (d & w1 & E & Hd & Hq1 & Hv1 & Hl1 & Hp1).
  rewrite (bind_step _ _ _ _ _ E).
  set (nfd := MkFaceted _).
  destruct (obj_cas_ok r (Some fd : option (obj_data TFaceted)) nfd w1 Hq1)
    as (w2 & E2 & Hq2 & Hv2 & _ & Hl2 & Hp2).
  { rewrite Hv1, lookup_insert_ne; [done|]. intros Hk. rewrite Hk in Hd. congruence. }
  exists d, w2. rewrite (bind_step _ _ _ _ _ E2). split_and!; try done; try congruence.
  by rewrite Hv2, Hv1.
Qed.

Lemma facets_up_to_acc clearance fs (m : gmap Buckle (ObjectRef TDirectory)) f :
  NoDup fs.*1 -> (forall g, g ∈ fs.*1 -> m !! g = None) ->
  forall d, foldl (fun (m : gmap Buckle (ObjectRef TDirectory)) p =>
      if can_flow_to p.1 clearance then <[p.1:=p.2]> m else m) m fs !! f = Some d <->
    m !! f = Some d \/ ((f, d) ∈ fs /\ Flows f clearance).
Proof.
  revert m; induction fs as [|[g e] fs IH]; intros m Hnd Hm d; cbn.
  - split; [by left|]. intros [?|[H _]]; [done | by apply not_elem_of_nil in H].
  - cbn in Hnd. inversion_clear Hnd as [|? ? Hg Hnd2]; rename Hnd2 into Hnd.
    rewrite elem_of_cons. unfold Flows.
    destruct (can_flow_to g clearance) eqn:Hc.
    + rewrite IH; [|done|].
      * destruct (decide (g = f)) as [->|Hne].
        -- rewrite lookup_insert_eq. split.
           ++ intros [[= ->]|[Hin _]]; [by right; split; [left|] |].
              destruct Hg. by apply (list_elem_of_fmap_2 fst _ _ Hin).
           ++ intros [Hmf|[[[= ->]|Hin] _]]; [|by left|].
              ** rewrite Hm in Hmf; [done | by left].
              ** destruct Hg. by apply (list_elem_of_fmap_2 fst _ _ Hin).
        -- rewrite lookup_insert_ne by done. naive_solver.
      * intros h Hh. rewrite lookup_insert_ne by (by intros ->). apply Hm. by right.
    + rewrite IH; [|done|by intros; apply Hm; right]. naive_solver congruence.
Qed.
End facets.
