(* ===== verification/FsTheorems.v ===== *)
(** * The theorems of the labeled file system

    What a thread that calls [FS] and [fs::utils] can and cannot do, stated for whole sequences
    of calls, and what the single methods compute. *)

From stdpp Require Import base tactics option list gmap strings countable.
From S2P Require Import Prelude Labels Store FsTypes Objects Fs FsGuarantee.
From S2P Require Import FsMediation FsReads FsDirs FsGates.

(** A client's calls, one after the other. *)
Section sequences.
Context {St : Type} `{BS : !BackingStore St} `{L : !LabelOps} `{SD : !SerdeOps}.

Fixpoint fs_calls (cs : list FsCall) : SM (World St) unit :=
  match cs with [] => mret tt | c :: cs => _ ← fs_call c; fs_calls cs end.

Lemma g_fs_calls (R : relation (World St)) `{!FsPrimitives R} cs : Guar R (fs_calls cs).
Proof.
  induction cs as [|c cs IH]; [apply guar_ret|]. apply guar_bind; [by apply g_fs_call|done].
Qed.
End sequences.

Section confinement.
Context {St : Type} `{BW : BackingStoreLaws St} `{LW : LabelLaws} `{SW : SerdeLaws}.
Implicit Types w : World St.

(** C3: the current label only rises and the privilege stays the same through any sequence of
    calls, whatever they return and whatever other threads do to the store. *)
Theorem fs_label_rises cs w :
  let w' := (fs_calls cs w).2 in
  Flows (current_label w) (current_label w') /\ thread_privilege w' = thread_privilege w.
Proof. exact (g_fs_calls Raised cs w). Qed.

(** C2: complete mediation.  Without interference, after any sequence of calls every value of
    the store is still there, with its label: it is what it was, or the thread was allowed to
    write at its label, or it is a faceted directory that got more facets; and every gate or
    service that is new or changed carries no privilege that the thread does not have. *)
Theorem fs_writes_mediated cs w :
  quiet w ->
  let w' := (fs_calls cs w).2 in
  quiet w' /\
  store_ok (current_label w) (thread_privilege w) (view w) (view w').
Proof. intros Hq. destruct (g_fs_calls Mediated cs w Hq) as (? & _ & ?). done. Qed.

(** No silent reads.  A file, a blob or a directory listing that a call returns is the
    contents of an object whose label flows to the label of the thread afterwards. *)
Theorem reads_taint path w w' :
  quiet w ->
  (forall d, read_file path w = (Val (Ok d), w') ->
     exists (r : ObjectRef TFile) l, object_at (view w') r = Some (MkLabeled l d) /\
       Flows l (current_label w')) /\
  (forall b, open_blob path w = (Val (Ok b), w') ->
     exists (r : ObjectRef TBlob) l, object_at (view w') r = Some (MkLabeled l b) /\
       Flows l (current_label w')) /\
  (forall es, list_dir path w = (Val (Ok es), w') ->
     exists (r : ObjectRef TDirectory) l,
       object_at (view w') r = Some (MkLabeled l (MkDirectory es)) /\
       Flows l (current_label w')).
Proof.
  intros Hq. split_and!; intros ?;
    [by apply read_file_taints|by apply open_blob_taints|by apply list_dir_taints].
Qed.

(** C11: path resolution refines its specification: [read_path] returns the entry, or the
    error, of the pure [lookup_path], changes nothing in the store, and raises the current
    label by the labels of the directories on the way, each of which flows to the result. *)
Theorem read_path_refines path w ls res :
  quiet w -> lookup_path (view w) path = Some (ls, res) ->
  read_path path w = (Val res, set_label (taints ls (current_label w)) w) /\
  Flows (current_label w) (taints ls (current_label w)) /\
  Forall (fun l => Flows l (taints ls (current_label w))) ls.
Proof. intros Hq Hl. split; [by apply read_path_lookup | apply taints_flow]. Qed.

(** A path that starts with a facet is not an error: whatever follows, it names the root,
    and nothing is read. *)
Theorem read_path_facet_first facet path w :
  read_path (PathComponent.Facet facet :: path) w = (Val (Ok (DirEntry.Directory ROOT_REF)), w).
Proof. done. Qed.
End confinement.

Section files.
Context {St : Type} `{BW : BackingStoreLaws St} `{LW : LabelLaws} `{SW : SerdeLaws}.
Implicit Types w : World St.

(** What [Labeled::write] and [set] of the new version do to a file. *)
Lemma file_write_run (r : ObjectRef TFile) d (x : Labeled File) w :
  quiet w -> object_at (view w) r = Some x ->
  exists w', file_write r d w =
      (Val (if may_write (label x) w then Ok tt else Err LabelError.CannotWrite), w') /\
    stored w w' (if may_write (label x) w
                 then <[ukey r := to_vec (t := TFile) (MkLabeled (label x) d)]> (view w)
                 else view w).
Proof.
  intros Hq Hx. unfold file_write. rewrite (bind_step _ _ _ _ _ (obj_get_run r w Hq)).
  unfold object_at in Hx. rewrite Hx. cbn [unwrap].
  rewrite (bind_step (mret _) _ w x w) by done. unfold try_bind.
  rewrite (bind_step _ _ _ _ _ (labeled_write_run x d w)).
  destruct (may_write (label x) w); [|by exists w].
  destruct (obj_set_run (t := TFile) r (MkLabeled (label x) d) w Hq) as (w' & E & Hs).
  exists w'. by rewrite (bind_step _ _ _ _ _ E).
Qed.

(** Writing a file.  When the path leads to a file, the write succeeds exactly when the
    thread, tainted by the directories on the way, may write at the label of the file; then
    the file has the new contents under its old label, a thread that reads the path gets them
    back, and no other object changes.  Otherwise the store is as it was. *)
Theorem write_file_spec path d w ls (r : ObjectRef TFile) (x : Labeled File) :
  quiet w -> lookup_path (view w) path = Some (ls, Ok (DirEntry.File r)) ->
  object_at (view w) r = Some x ->
  let l := taints ls (current_label w) in
  exists w', write_file path d w =
      (Val (if can_flow_to_with_privilege l (label x) (thread_privilege w) then Ok tt
            else Err (FsError.LabelError LabelError.CannotWrite)), w') /\
    current_label w' = l /\ quiet w' /\
    view w' = if can_flow_to_with_privilege l (label x) (thread_privilege w)
              then <[ukey r := to_vec (t := TFile) (MkLabeled (label x) d)]> (view w)
              else view w.
Proof.
  intros Hq Hl Hx l. unfold write_file, try_bind.
  rewrite (bind_step _ _ _ _ _ (read_path_lookup _ _ _ _ Hq Hl)).
  destruct (file_write_run r d x (set_label l w) Hq Hx) as (w' & E & Hq' & Hv & _ & Hl' & _).
  exists w'. rewrite (bind_step _ _ _ _ _ E). unfold may_write in *. cbn in *.
  split_and!; try done. by destruct (can_flow_to_with_privilege _ _ _).
Qed.
End files.

(** ** Directories *)

Section directories.
Context {St : Type} `{BW : BackingStoreLaws St} `{LW : LabelLaws} `{SW : SerdeLaws}.
Implicit Types w : World St.

Definition with_entries (x : Labeled Directory) (es : gmap string DirEntry) : bytes :=
  to_vec (t := TDirectory) (MkLabeled (label x) (MkDirectory es)).

(** C12: [link] under concurrency.  Whatever the other threads do to the store between two
    accesses, as long as the directory stays a directory, [link] ends without a panic, and it
    acts at one moment [ws] between its start and its end: it reports success after adding the
    entry, under the name that was free, to the directory as it was at that moment, and
    changes nothing else; it reports failure when the name was taken at some moment; it
    reports an error when the thread may not write at the label the directory had. *)
Theorem link_linearizable (r : ObjectRef TDirectory) name e w :
  benign r w ->
  exists res w', dir_link r name e w = (Val res, w') /\
    match res with
    | Ok true => exists ws x, passes w ws /\ dir_at r (backing ws) x /\
        entries (data x) !! name = None /\
        interference w' = interference ws /\
        bs_view (backing w') =
          <[ukey r := with_entries x (<[name := e]> (entries (data x)))]>
            (bs_view (backing ws)) /\
        FlowsP (thread_privilege w) (current_label w') (label x)
    | Ok false => exists ws x, passes w ws /\ passes ws w' /\ dir_at r (backing ws) x /\
        is_Some (entries (data x) !! name) /\ Flows (label x) (current_label w')
    | Err err => err = LabelError.CannotWrite /\
        exists ws x, passes w ws /\ passes ws w' /\ dir_at r (backing ws) x /\
          ~ FlowsP (thread_privilege w) (current_label w') (label x)
    end.
Proof.
  intros Hb. destruct (dir_loop_benign r (entries_insert name e) true w Hb)
    as (res & w' & E & _ & Ho).
  exists res, w'. split; [exact E|]. destruct res as [[|]|]; [| |done].
  - destruct Ho as (ws & x & ? & ? & Hn & ? & ? & ? & ?). exists ws, x. split_and!; try done.
    cbn in Hn. apply eq_None_not_Some. intros Hs. by rewrite bool_decide_true in Hn.
  - destruct Ho as (ws & x & ? & ? & ? & Hn%bool_decide_eq_true & ?). by exists ws, x.
Qed.

(** [unlink] under concurrency: the same, with the entry removed, and failure when there
    was no entry of that name. *)
Theorem unlink_linearizable (r : ObjectRef TDirectory) name w :
  benign r w ->
  exists res w', dir_unlink r name w = (Val res, w') /\
    match res with
    | Ok true => exists ws x, passes w ws /\ dir_at r (backing ws) x /\
        is_Some (entries (data x) !! name) /\
        interference w' = interference ws /\
        bs_view (backing w') =
          <[ukey r := with_entries x (delete name (entries (data x)))]>
            (bs_view (backing ws)) /\
        FlowsP (thread_privilege w) (current_label w') (label x)
    | Ok false => exists ws x, passes w ws /\ passes ws w' /\ dir_at r (backing ws) x /\
        entries (data x) !! name = None /\ Flows (label x) (current_label w')
    | Err err => err = LabelError.CannotWrite /\
        exists ws x, passes w ws /\ passes ws w' /\ dir_at r (backing ws) x /\
          ~ FlowsP (thread_privilege w) (current_label w') (label x)
    end.
Proof.
  intros Hb. destruct (dir_loop_benign r (entries_remove name) false w Hb)
    as (res & w' & E & _ & Ho).
  exists res, w'. split; [exact E|]. destruct res as [[|]|]; [| |done].
  - destruct Ho as (ws & x & ? & ? & Hn & ? & ? & ? & ?). exists ws, x. split_and!; try done.
    cbn in Hn. by apply not_false_iff_true, bool_decide_eq_true in Hn.
  - destruct Ho as (ws & x & ? & ? & ? & Hn%bool_decide_eq_false & ?). exists ws, x.
    split_and!; try done. by apply eq_None_not_Some.
Qed.

(** [FS::link] by itself.  When the path leads to a directory, the thread ends with the
    labels on the way and the directory's own; if it may then write at the directory's label,
    a free name is linked to the entry and a taken name is [NameExists]; if it may not, the
    answer is [CannotWrite].  Only a successful link changes the store, and then only the
    directory. *)
Theorem link_outcomes path name e w ls (r : ObjectRef TDirectory) (x : Labeled Directory) :
  quiet w -> lookup_path (view w) path = Some (ls, Ok (DirEntry.Directory r)) ->
  dir_at r (backing w) x ->
  let l := lub (label x) (taints ls (current_label w)) in
  let allowed := can_flow_to_with_privilege l (label x) (thread_privilege w) in
  let free := bool_decide (entries (data x) !! name = None) in
  exists w', link path name e w =
      (Val (if negb allowed then Err (FsError.LabelError LabelError.CannotWrite)
            else if free then Ok tt else Err FsError.NameExists), w') /\
    current_label w' = l /\ quiet w' /\
    view w' = if allowed && free
              then <[ukey r := with_entries x (<[name := e]> (entries (data x)))]> (view w)
              else view w.
Proof.
  intros Hq Hl Hx l allowed free. unfold link, try_bind.
  rewrite (bind_step _ _ _ _ _ (read_path_lookup _ _ _ _ Hq Hl)).
  set (w1 := set_label _ w).
  destruct (dir_loop_run r (entries_insert name e) true x w1 Hq Hx)
    as (w' & E & Hq' & Hv & _ & Hl' & _).
  exists w'. unfold dir_link. rewrite (bind_step _ _ _ _ _ E).
  change (may_write _ _) with allowed in *. cbn [entries_insert fst snd] in *.
  assert (Hf : negb (bool_decide (bool_decide (is_Some (entries (data x) !! name)) = true)) = free).
  { unfold free. destruct (entries (data x) !! name) as [y|].
    - by rewrite (bool_decide_true (is_Some (Some y))) by done.
    - by rewrite (bool_decide_false (is_Some None)) by (by intros [? ?]). }
  rewrite Hf in *. split_and!; try done.
  destruct allowed; [|done]. unfold mbind, SM_bind; cbn. by destruct free.
Qed.
End directories.

(** ** New objects and facets *)

Section creation.
Context {St : Type} `{BW : BackingStoreLaws St} `{LW : LabelLaws} `{SW : SerdeLaws}.
Implicit Types w : World St.

(** C13: a new object never replaces one: the loop of [set_new_id] ends at the first random
    uid that is free, the object is stored under it, and nothing else changes. *)
Theorem set_new_id_fresh {t} (x : obj_data t) w :
  quiet w -> Exists (uid_free w) (entropy w) ->
  exists r w', set_new_id x w = (Val r, w') /\
    view w !! ukey r = None /\ object_at (view w') r = Some x /\
    (forall k, k <> ukey r -> view w' !! k = view w !! k) /\
    current_label w' = current_label w /\ thread_privilege w' = thread_privilege w.
Proof.
  intros Hq He. destruct (new_id_run x w Hq He) as (r & w' & E & Hn & _ & Hv & Hl & Hp).
  exists r, w'. rewrite Hv. split_and!; try done.
  - unfold object_at. rewrite lookup_insert_eq. apply from_to_vec.
  - intros k Hk. by rewrite lookup_insert_ne.
Qed.

(** Opening a facet finds it or creates it.  A facet that is there is returned and the
    store stays as it is; otherwise an empty directory with the facet as its label is created
    under a free uid and appended to the facets, so that opening the facet again returns the
    same directory.  The thread's label does not change. *)
Theorem faceted_open_find_or_create (r : ObjectRef TFaceted) facet w (fd : FacetedDirectory) :
  quiet w -> view w !! ukey r = Some (to_vec (t := TFaceted) fd) ->
  Exists (uid_free w) (entropy w) ->
  exists d w', faceted_open r facet w = (Val d, w') /\ current_label w' = current_label w /\
    match find_facet facet (facets fd) with
    | Some d' => d = d' /\ w' = w
    | None => view w !! ukey d = None /\
        object_at (view w') d = Some (MkLabeled facet (MkDirectory ∅)) /\
        object_at (view w') r = Some (MkFaceted (facets fd ++ [(facet, d)])) /\
        (forall k, k <> ukey d -> k <> ukey r -> view w' !! k = view w !! k) /\
        faceted_open r facet w' = (Val d, w')
    end.
Proof.
  intros Hq Hr He. assert (Hfd : object_at (view w) r = Some fd).
  { unfold object_at. rewrite Hr. exact (from_to_vec TFaceted fd). }
  destruct (find_facet facet (facets fd)) as [d|] eqn:Hf.
  { exists d, w. split; [by eapply faceted_open_found|done]. }
  destruct (faceted_open_new r facet w fd Hq Hr Hf He) as (d & w' & E & Hq' & Hd & Hv & Hl & _).
  assert (Hne : ukey d <> ukey r) by (intros Hk; rewrite Hk, Hr in Hd; done).
  assert (Hr' : object_at (view w') r = Some (MkFaceted (facets fd ++ [(facet, d)]))).
  { unfold object_at. rewrite Hv, lookup_insert_eq. exact (from_to_vec TFaceted _). }
  exists d, w'. split_and!; try done.
  - unfold object_at. rewrite Hv, lookup_insert_ne, lookup_insert_eq by done.
    exact (from_to_vec TDirectory _).
  - intros k H1 H2. by rewrite Hv, !lookup_insert_ne.
  - apply (faceted_open_found r facet w' _ d Hq' Hr'). cbn [facets]. rewrite find_facet_app, Hf.
    by rewrite bool_decide_true.
Qed.

(** Listing a faceted directory returns exactly the facets that may flow to the
    clearance, with their directories, and taints the thread with the clearance. *)
Theorem faceted_list_exact (r : ObjectRef TFaceted) clearance w (fd : FacetedDirectory) :
  quiet w -> object_at (view w) r = Some fd -> NoDup (facets fd).*1 ->
  exists m, faceted_list r clearance w =
      (Val m, set_label (lub (current_label w) clearance) w) /\
    forall f d, m !! f = Some d <-> (f, d) ∈ facets fd /\ Flows f clearance.
Proof.
  intros Hq Hr Hn. set (w1 := set_label (lub (current_label w) clearance) w).
  exists (facets_up_to clearance (facets fd)). split.
  - unfold faceted_list. rewrite (bind_step (modify _) _ w tt w1) by done.
    rewrite (bind_step _ _ _ _ _ (obj_get_run r w1 Hq)).
    unfold object_at in Hr. change (view w1) with (view w). by rewrite Hr.
  - intros f d. unfold facets_up_to. rewrite facets_up_to_acc by done.
    rewrite lookup_empty. naive_solver.
Qed.
End creation.

(** ** Gates *)

Section gates.
Context {St : Type} `{BW : BackingStoreLaws St} `{LW : LabelLaws} `{SW : SerdeLaws}.
Implicit Types w : World St.

(** The privilege of a resolved chain: implied by exactly what implies every link of it. *)
Lemma chain_privilege c hops (g : DirectGate) :
  Implies c (privilege (invokable hops g)) <->
  Forall (fun h => Implies c (rd_privilege h.2)) hops /\ Implies c (privilege g).
Proof.
  cbn. rewrite Implies_conj, conj_all_glb, list.Forall_fmap. unfold compose.
  assert (Implies c dc_true) by apply implies_true. tauto.
Qed.
Lemma chain_clearance c hops (g : DirectGate) :
  Implies c (invoker_integrity_clearance (invokable hops g)) <->
  Forall (fun h => Implies c (rd_invoker_integrity_clearance h.2)) hops /\
  Implies c (invoker_integrity_clearance g).
Proof.
  cbn. rewrite Implies_conj, conj_all_glb, list.Forall_fmap. unfold compose.
  assert (Implies c dc_true) by apply implies_true. tauto.
Qed.

(** C14: resolving a gate.  When the path leads to a gate whose redirects end at a direct
    gate, the function of that gate is returned exactly when the thread's privilege implies
    the integrity clearance of every gate on the way; the privilege that comes with it is the
    conjunction of theirs; and the thread is tainted by the labels of the directories and of
    all the gates. *)
Theorem resolve_gate_clearance fuel path w ls r hops l g :
  quiet w -> lookup_path (view w) path = Some (ls, Ok (DirEntry.Gate r)) ->
  gate_chain (view w) r hops (l, g) -> (length hops < fuel)%nat ->
  exists res, resolve_gate_with_clearance_check fuel path w =
      (Val res, set_label (taints (ls ++ hops.*1 ++ [l]) (current_label w)) w) /\
    let cleared := Forall (fun h => Implies (thread_privilege w)
                                      (rd_invoker_integrity_clearance h.2)) hops /\
                   Implies (thread_privilege w) (invoker_integrity_clearance g) in
    (cleared -> exists p, res = Ok (function g, p) /\
       forall c, Implies c p <->
         Forall (fun h => Implies c (rd_privilege h.2)) hops /\ Implies c (privilege g)) /\
    (~ cleared -> res = Err (FsError.GateError GateError.CannotInvoke)).
Proof.
  intros Hq Hl Hc Hf. unfold resolve_gate_with_clearance_check, try_bind.
  rewrite (bind_step _ _ _ _ _ (read_path_lookup _ _ _ _ Hq Hl)).
  set (w1 := set_label _ w).
  rewrite (bind_step _ _ _ _ _ (gate_to_invokable_chain fuel r hops l g w1 Hq Hc Hf)).
  rewrite (bind_step (gets _) _ _ _ _ eq_refl).
  eexists. split.
  { unfold taints. rewrite (foldl_app _ ls). reflexivity. }
  rewrite <- chain_clearance. unfold Implies at 1 3. cbn.
  split.
  - intros ->. eexists. split; [reflexivity|]. intros c. apply chain_privilege.
  - intros Hn. by apply not_true_is_false in Hn as ->.
Qed.

(** A redirect gate whose target is itself is never resolved: however long the loop runs,
    it has not ended. *)
Theorem gate_cycle_diverges fuel (r : ObjectRef TGate) l rd w :
  quiet w -> object_at (view w) r = Some (MkLabeled l (Gate.Redirect rd) : obj_data TGate) ->
  rd_gate rd = r ->
  (gate_to_invokable fuel r w).1 = NoFuel.
Proof. intros Hq Hr Hc. by eapply resolve_cycle. Qed.
End gates.
