(* ===== verification/FsTyping.v ===== *)
(** * The typing of the store

    References are typed and never dangle: [well_formed] says that every value in the store is
    an object of some type, that every reference inside an object, of a directory, a faceted
    directory or a redirect gate, leads to an object of the type of the reference, and that the
    root is a directory.  Every operation keeps this, keeps what is live alive and, given live
    references, never panics; what it returns is live again. *)

From stdpp Require Import base tactics option list gmap strings countable.
From S2P Require Import Prelude Labels Store FsTypes Objects Fs FsGuarantee.
From S2P Require Import FsMediation FsReads.

(** ** Well-formed stores *)

Section typing.
Context `{L : LabelOps} `{SD : SerdeOps}.

Definition alive (m : gmap bytes bytes) {t} (r : ObjectRef t) : Prop := is_Some (object_at m r).

Definition live (m : gmap bytes bytes) (e : DirEntry) : Prop :=
  match e with
  | DirEntry.Directory r => alive m r
  | DirEntry.File r => alive m r
  | DirEntry.FacetedDirectory r => alive m r
  | DirEntry.Gate r => alive m r
  | DirEntry.Service r => alive m r
  | DirEntry.Blob r => alive m r
  end.

(** The references inside an object. *)
Definition refers (t : ObjTy) : obj_data t -> DirEntry -> Prop :=
  match t with
  | TDirectory => fun x e => exists n, entries (data x) !! n = Some e
  | TFaceted => fun x e => exists p, p ∈ facets x /\ e = DirEntry.Directory p.2
  | TGate => fun x e => match data x with
                        | Gate.Redirect r => e = DirEntry.Gate (rd_gate r)
                        | Gate.Direct _ => False
                        end
  | _ => fun _ _ => False
  end.

Definition canonical (m : gmap bytes bytes) : Prop :=
  forall k v, m !! k = Some v -> v = [] \/ exists t (x : obj_data t), v = to_vec x.
Definition closed (m : gmap bytes bytes) : Prop :=
  forall t (r : ObjectRef t) (x : obj_data t) e,
    object_at m r = Some x -> refers t x e -> live m e.
Definition well_formed (m : gmap bytes bytes) : Prop :=
  canonical m /\ closed m /\ alive m ROOT_REF.

Definition grows (m m' : gmap bytes bytes) : Prop := forall e, live m e -> live m' e.
#[global] Instance grows_preorder : PreOrder grows.
Proof. split; [by intros m e|]. intros m1 m2 m3 H1 H2 e H. by apply H2, H1. Qed.

(** The entry that refers to an object. *)
Definition entry_of {t} : ObjectRef t -> DirEntry :=
  match t with
  | TDirectory => DirEntry.Directory | TFile => DirEntry.File
  | TFaceted => DirEntry.FacetedDirectory | TGate => DirEntry.Gate
  | TService => DirEntry.Service | TBlob => DirEntry.Blob
  end.
Lemma live_entry m {t} (r : ObjectRef t) : live m (entry_of r) <-> alive m r.
Proof. by destruct t. Qed.
Lemma grows_alive m m' {t} (r : ObjectRef t) : grows m m' -> alive m r -> alive m' r.
Proof. intros H. rewrite <- !live_entry. apply H. Qed.

Context `{SW : !SerdeLaws}.

Lemma object_to_vec m {t} (r : ObjectRef t) (x : obj_data t) :
  m !! ukey r = Some (to_vec x) -> object_at m r = Some x.
Proof. intros H. unfold object_at. rewrite H. apply from_to_vec. Qed.

(** Where a value of type [t] may be written: a free key, a reserved one, or an object of the
    type. *)
Definition fits (m : gmap bytes bytes) {t} (r : ObjectRef t) : Prop :=
  m !! ukey r = None \/ m !! ukey r = Some [] \/ exists x : obj_data t, m !! ukey r = Some (to_vec x).

Lemma alive_fits m {t} (r : ObjectRef t) : canonical m -> alive m r -> fits m r.
Proof.
  intros Hc [x Hx]. unfold object_at in Hx. destruct (m !! ukey r) as [v|] eqn:E; [|done].
  cbn in Hx. destruct (Hc _ _ E) as [->|(t' & y & ->)]; [by rewrite from_slice_nil in Hx|].
  right; right. apply from_slice_to_vec in Hx as [<- Hx]. cbn in Hx. subst. by exists x.
Qed.

Lemma insert_grows m {t} (r : ObjectRef t) (x : obj_data t) :
  fits m r -> grows m (<[ukey r := to_vec x]> m).
Proof.
  intros Hf. assert (Ha : forall t' (r' : ObjectRef t'), alive m r' -> alive (<[ukey r := to_vec x]> m) r').
  { intros t' r' [y Hy]. unfold alive, object_at in *. destruct (decide (ukey r = ukey r')) as [He|He].
    - rewrite <- He in *. rewrite lookup_insert_eq. cbn.
      destruct Hf as [Hf|[Hf|[x0 Hf]]]; rewrite Hf in Hy; cbn in Hy;
        [done|by rewrite from_slice_nil in Hy|].
      apply from_slice_to_vec in Hy as [<- _]. rewrite from_to_vec. by eexists.
    - rewrite lookup_insert_ne by done. by exists y. }
  intros e. destruct e; apply Ha.
Qed.

Lemma insert_well_formed m {t} (r : ObjectRef t) (x : obj_data t) :
  well_formed m -> fits m r -> (forall e, refers t x e -> live m e) ->
  well_formed (<[ukey r := to_vec x]> m) /\ grows m (<[ukey r := to_vec x]> m) /\
  alive (<[ukey r := to_vec x]> m) r.
Proof.
  intros (Hc & Hcl & Hroot) Hf Hx. pose proof (insert_grows m r x Hf) as Hg. split_and!.
  - split_and!; [| |exact (Hg (DirEntry.Directory ROOT_REF) Hroot)].
    + intros k v Hk. apply lookup_insert_Some in Hk as [[<- <-]|[_ Hk]]; [|by apply (Hc k)].
      right. by exists t, x.
    + intros t' r' y e Hy He. apply Hg. unfold object_at in Hy.
      destruct (decide (ukey r = ukey r')) as [Hk|Hk].
      * rewrite <- Hk, lookup_insert_eq in Hy. cbn in Hy.
        apply from_slice_to_vec in Hy as [<- Hy]. cbn in Hy. subst. by apply Hx.
      * rewrite lookup_insert_ne in Hy by done. by apply (Hcl t' r' y).
  - exact Hg.
  - unfold alive, object_at. rewrite lookup_insert_eq. cbn. rewrite from_to_vec. by eexists.
Qed.

(** Reserving a uid. *)
Lemma reserve_well_formed m u :
  well_formed m -> m !! to_be 8 u = None ->
  well_formed (<[to_be 8 u := []]> m) /\ grows m (<[to_be 8 u := []]> m).
Proof.
  intros (Hc & Hcl & Hroot) Hu.
  assert (Ho : forall t (r : ObjectRef t) x,
    object_at (<[to_be 8 u := []]> m) r = Some x <-> object_at m r = Some x).
  { intros t r x. unfold object_at. destruct (decide (to_be 8 u = ukey r)) as [He|He].
    - rewrite <- He, lookup_insert_eq, Hu. cbn. by rewrite from_slice_nil.
    - by rewrite lookup_insert_ne. }
  assert (Hg : grows m (<[to_be 8 u := []]> m)).
  { intros e. destruct e; intros [x Hx]; exists x; by apply Ho. }
  split; [|exact Hg]. split_and!; [| |exact (Hg (DirEntry.Directory ROOT_REF) Hroot)].
  - intros k v Hk. apply lookup_insert_Some in Hk as [[<- <-]|[_ Hk]]; [by left|by apply (Hc k)].
  - intros t r x e Hx He. apply Hg. apply Ho in Hx. by apply (Hcl t r x).
Qed.
End typing.

(** ** Safe computations

    [Safe Q m w]: from a well-formed store, [m] does not panic, leaves the store well formed and
    whatever was live alive, and its result satisfies [Q] of the final store. *)

Section safe.
Context {St : Type} `{BW : BackingStoreLaws St} `{LW : LabelLaws} `{SW : SerdeLaws}.
Implicit Types w : World St.

Definition sound w : Prop := quiet w /\ well_formed (view w).
(** A step between sound states. *)
Definition evolves w w' : Prop := sound w' /\ grows (view w) (view w').

Definition Safe {A} (Q : A -> gmap bytes bytes -> Prop) (m : SM (World St) A) w : Prop :=
  sound w -> let '(r, w') := m w in
  evolves w w' /\ r <> Panic /\ forall a, r = Val a -> Q a (view w').

Lemma evolves_refl w : sound w -> evolves w w.
Proof. by intros. Qed.
Lemma evolves_trans w1 w2 w3 : evolves w1 w2 -> evolves w2 w3 -> evolves w1 w3.
Proof. intros [_ G1] [H G2]. split; [done|]. by etrans. Qed.

Lemma safe_ret {A} (Q : A -> gmap bytes bytes -> Prop) a w : Q a (view w) -> Safe Q (mret a) w.
Proof. intros HQ Hs. split; [by apply evolves_refl|]. split; [done|]. by intros b [= <-]. Qed.

Lemma safe_bind {A X : Type} (P : A -> gmap bytes bytes -> Prop) (Q : X -> gmap bytes bytes -> Prop) m f w :
  Safe P m w -> (forall a w', evolves w w' -> P a (view w') -> Safe Q (f a) w') ->
  Safe Q (m ≫= f) w.
Proof.
  intros Hm Hf Hs. specialize (Hm Hs). unfold mbind, SM_bind.
  destruct (m w) as [[a| |] w'] eqn:E; destruct Hm as (He & Hp & HP); [|done|by split].
  specialize (Hf a w' He (HP a eq_refl) (proj1 He)). destruct (f a w') as [r w2].
  destruct Hf as (He2 & Hp2 & HQ). split; [|done]. by eapply evolves_trans.
Qed.

Lemma safe_try {A X E : Type} (P : A -> gmap bytes bytes -> Prop)
    (Q : result X E -> gmap bytes bytes -> Prop) m f w :
  Safe (fun r g => match r with Ok a => P a g | Err _ => True end) m w ->
  (forall a w', evolves w w' -> P a (view w') -> Safe Q (f a) w') ->
  (forall e g, Q (Err e) g) -> Safe Q (try_bind m f) w.
Proof.
  intros Hm Hf He. eapply safe_bind; [exact Hm|]. intros [a|e] w' Hw HP; [by apply Hf|].
  by apply safe_ret.
Qed.

Lemma safe_mono {A} (P Q : A -> gmap bytes bytes -> Prop) m w :
  (forall a g, P a g -> Q a g) -> Safe P m w -> Safe Q m w.
Proof.
  intros HPQ Hm Hs. specialize (Hm Hs). destruct (m w) as [r w'].
  destruct Hm as (? & ? & HP). split; [done|]. split; [done|]. intros a Ha. by apply HPQ, HP.
Qed.

(** Computations on the thread's own variables. *)
Lemma safe_pure {A} (Q : A -> gmap bytes bytes -> Prop) m w a w' :
  m w = (Val a, w') -> interference w' = interference w -> backing w' = backing w ->
  Q a (view w) -> Safe Q m w.
Proof.
  intros E Hi Hb HQ Hs. rewrite E.
  assert (Hv : view w' = view w) by (unfold view; by rewrite Hb).
  split; [|split; [done|]]; [|intros b [= <-]; by rewrite Hv].
  destruct Hs as [[Hq1 Hq2] Hwf]. split; [|by rewrite Hv].
  split; [|by rewrite Hv]. split; [congruence|]. by rewrite Hb.
Qed.

Lemma safe_gets {A} (f : World St -> A) w (Q : A -> gmap bytes bytes -> Prop) :
  Q (f w) (view w) -> Safe Q (gets f) w.
Proof. by apply (safe_pure Q (gets f) w (f w) w). Qed.
Lemma safe_modify (f : World St -> World St) w (Q : unit -> gmap bytes bytes -> Prop) :
  interference (f w) = interference w -> backing (f w) = backing w ->
  Q tt (view w) -> Safe Q (modify f) w.
Proof. intros Hi Hb. by apply (safe_pure Q (modify f) w tt (f w)). Qed.

(** ** Primitives *)

Lemma safe_get {t} (r : ObjectRef t) w :
  alive (view w) r ->
  Safe (fun o g => exists x, o = Some x /\ object_at g r = Some x /\ forall e, refers t x e -> live g e)
    (obj_get r) w.
Proof.
  intros [x Hx] Hs. rewrite obj_get_run by apply Hs. fold (object_at (view w) r). rewrite Hx.
  split; [by apply evolves_refl|]. split; [done|]. intros o [= <-].
  exists x. split_and!; [done..|]. intros e. destruct Hs as [_ (_ & Hc & _)]. by apply (Hc t r x).
Qed.

(** Reading a live object: [obj_get], then [unwrap]. *)
Lemma safe_read {t} {X : Type} (r : ObjectRef t) (f : obj_data t -> SM (World St) X) Q w :
  alive (view w) r ->
  (forall x w', evolves w w' -> object_at (view w') r = Some x ->
     (forall e, refers t x e -> live (view w') e) -> Safe Q (f x) w') ->
  Safe Q (o ← obj_get r; x ← unwrap o; f x) w.
Proof.
  intros Ha Hf. eapply safe_bind; [by apply safe_get|].
  intros o w' Hw (x & -> & Hx & Hr). by apply Hf.
Qed.

Lemma stored_evolves w w' m :
  sound w -> stored w w' m -> well_formed m -> grows (view w) m -> evolves w w'.
Proof. intros Hs (Hq & Hv & _) Hwf Hg. split; [by split; rewrite ?Hv|by rewrite Hv]. Qed.

Lemma safe_set {t} (r : ObjectRef t) (x : obj_data t) w :
  fits (view w) r -> (forall e, refers t x e -> live (view w) e) ->
  Safe (fun _ g => alive g r) (obj_set r x) w.
Proof.
  intros Hf Hx Hs. destruct (obj_set_run r x w (proj1 Hs)) as (w' & E & Hst). rewrite E.
  destruct (insert_well_formed (view w) r x (proj2 Hs) Hf Hx) as (Hwf & Hg & Ha).
  split; [by eapply stored_evolves|]. split; [done|]. intros a _.
  destruct Hst as (_ & -> & _). exact Ha.
Qed.

Lemma safe_put {t} (r : ObjectRef t) (x : obj_data t) w :
  alive (view w) r -> (forall e, refers t x e -> live (view w) e) ->
  Safe (fun _ g => alive g r) (obj_set r x) w.
Proof.
  intros Ha Hx Hs. apply safe_set; [|done|done]. apply alive_fits; [apply Hs|done].
Qed.

Lemma safe_new {t} (x : obj_data t) w :
  (forall e, refers t x e -> live (view w) e) ->
  Safe (fun r g => alive g r) (set_new_id x) w.
Proof.
  intros Hx Hs. unfold set_new_id.
  rewrite (bind_step (gets entropy) _ w (entropy w) w) by done.
  destruct (reserve_run (entropy w) w (proj1 Hs)) as (w1 & Hq1 & _ & _ & [[E Hv]|(u & E & Hu & Hv)]).
  - unfold mbind, SM_bind. rewrite E. split; [|by split]. split; [split; [done|]|]; rewrite Hv; [apply Hs|done].
  - rewrite (bind_step _ _ _ _ _ E). cbv zeta.
    destruct (reserve_well_formed (view w) u (proj2 Hs) Hu) as [Hwf Hg].
    assert (He : evolves w w1) by (split; [split; [done|]|]; by rewrite Hv).
    set (r := ObjRef u : ObjectRef t).
    assert (Hset' : Safe (fun (r : ObjectRef t) g => alive g r) (_ ← obj_set r x; mret r) w1).
    { eapply safe_bind; [apply (safe_set r x)|].
      - right; left. rewrite Hv. apply lookup_insert_eq.
      - intros e Hr. rewrite Hv. by apply Hg, Hx.
      - intros [] w2 _ Ha. by apply safe_ret. }
    specialize (Hset' (proj1 He)).
    destruct ((_ ← obj_set r x; mret r) w1) as [r' w2].
    destruct Hset' as (He2 & Hp & HQ). split; [by eapply evolves_trans|done].
Qed.

Lemma safe_cas {t} (r : ObjectRef t) old (x : obj_data t) w :
  alive (view w) r -> (forall e, refers t x e -> live (view w) e) ->
  Safe (fun res g => match res with
                     | Ok _ => True
                     | Err o => exists y, o = Some y /\ forall e, refers t y e -> live g e
                     end)
    (obj_cas r old x) w.
Proof.
  intros Ha Hx Hs. destruct (obj_cas_run r old x w (proj1 Hs)) as (w' & E & Hst). rewrite E.
  destruct (insert_well_formed (view w) r x (proj2 Hs)) as (Hwf & Hg & _);
    [apply alive_fits; [apply Hs|done]|done|]. case_decide.
  - split; [by eapply stored_evolves|]. split; [done|]. by intros res [= <-].
  - split; [eapply stored_evolves; [done..|apply Hs|done]|]. split; [done|]. intros res [= <-].
    destruct Ha as [y Hy]. exists y. split; [exact Hy|]. intros e Hr.
    destruct Hst as (_ & -> & _). destruct Hs as [_ (_ & Hc & _)]. by apply (Hc t r y).
Qed.
End safe.

(** ** Objects *)

Section objects.
Context {St : Type} `{BW : BackingStoreLaws St} `{LW : LabelLaws} `{SW : SerdeLaws}.
Implicit Types w : World St.

Local Abbreviation anything := (fun _ _ => True).
Definition all_live (es : gmap string DirEntry) (g : gmap bytes bytes) : Prop :=
  forall n e, es !! n = Some e -> live g e.

Lemma safe_unlabel {T} (x : Labeled T) w (Q : T -> gmap bytes bytes -> Prop) :
  Q (data x) (view w) -> Safe Q (unlabel x) w.
Proof. by apply (safe_pure Q (unlabel x) w (data x) (set_label (lub (label x) (current_label w)) w)). Qed.

Lemma safe_labeled_write {T} (x : Labeled T) v w :
  Safe (fun r _ => forall y, r = Ok y -> y = MkLabeled (label x) v) (labeled_write x v) w.
Proof.
  eapply safe_pure; [reflexivity..|]. intros y. destruct (may_write _ _); [by intros [= <-]|done].
Qed.

Lemma safe_labeled_modify {T R} (x : Labeled T) (f : T -> R * T) w :
  Safe (fun r _ => forall b y, r = Ok (b, y) -> y = MkLabeled (label x) (f (data x)).2)
    (labeled_modify x f) w.
Proof.
  eapply safe_pure; [reflexivity..|]. intros b y.
  destruct (may_write _ _); [|done]. destruct (f (data x)). by intros [= <- <-].
Qed.

Lemma safe_dir_list (r : ObjectRef TDirectory) w :
  alive (view w) r -> Safe all_live (dir_list r) w.
Proof.
  intros Ha. unfold dir_list. apply (safe_read r); [done|]. intros x w1 _ _ Hr.
  apply (safe_bind (fun d g => d = data x /\ all_live (entries d) g)).
  - apply safe_unlabel. split; [done|]. intros n e He. apply Hr. by exists n.
  - intros d w2 _ [_ Hd]. by apply safe_ret.
Qed.

(** [f] puts at most [e] into a directory. *)
Definition adds (e : DirEntry) (f : Directory -> bool * Directory) : Prop :=
  forall d n e', entries (f d).2 !! n = Some e' -> entries d !! n = Some e' \/ e' = e.

Lemma adds_insert n e : adds e (entries_insert n e).
Proof. intros d n' e' H. cbn in H. apply lookup_insert_Some in H as [[_ <-]|[_ H]]; auto. Qed.
Lemma adds_remove n e : adds e (entries_remove n).
Proof. intros d n' e' H. cbn in H. apply lookup_delete_Some in H as [_ H]. auto. Qed.

Lemma safe_dir_update fuel (r : ObjectRef TDirectory) f stop prev e w :
  adds e f -> live (view w) e -> alive (view w) r -> all_live (entries (data prev)) (view w) ->
  Safe anything (dir_update fuel r f stop prev) w.
Proof.
  intros Hadd. revert prev w. induction fuel as [|fuel IH]; intros prev w He Ha Hp; cbn [dir_update].
  { intros Hs. by split; [apply evolves_refl|]. }
  eapply (safe_try (fun r _ => forall b y, r = (b, y) -> y = MkLabeled (label prev) (f (data prev)).2)).
  - eapply safe_mono; [|apply safe_labeled_modify]. intros [[b y]|er] g H; [|done].
    intros b' y' [= <- <-]. by apply (H b y).
  - intros [b dir'] w1 [_ G1] Hd. rewrite (Hd b dir' eq_refl). case_bool_decide; [by apply safe_ret|].
    assert (Hnew : forall e', refers TDirectory (MkLabeled (label prev) (f (data prev)).2) e' ->
      live (view w1) e').
    { intros e' [n Hn]. apply G1. destruct (Hadd _ _ _ Hn) as [Hn'| ->]; [by apply (Hp n)|done]. }
    eapply safe_bind; [apply (safe_cas (t := TDirectory) r); [by apply (grows_alive (view w))|exact Hnew]|].
    intros [[]|[p|]] w2 [_ G2] Hres; try (by apply safe_ret).
    destruct Hres as (y & [= <-] & Hy). apply IH; [by apply G2, G1| |].
    + apply (grows_alive (view w1)); [done|]. by apply (grows_alive (view w)).
    + intros n e' Hn. apply Hy. by exists n.
  - done.
Qed.

Lemma safe_dir_loop (r : ObjectRef TDirectory) f stop e w :
  adds e f -> live (view w) e -> alive (view w) r ->
  Safe anything (o ← obj_get r; prev ← unwrap o; fuel ← gets cas_fuel; dir_update fuel r f stop prev) w.
Proof.
  intros Hadd He Ha. apply (safe_read r); [done|]. intros x w1 [_ G1] Hx Hr.
  apply (safe_bind anything); [by apply safe_gets|]. intros fuel w2 [_ G2] _.
  apply (safe_dir_update _ _ _ _ _ e); [done|by apply G2, G1| |].
  - apply (grows_alive (view w1)); [done|]. by eexists.
  - intros n e' Hn. apply G2, Hr. by exists n.
Qed.

Lemma safe_dir_link (r : ObjectRef TDirectory) n e w :
  alive (view w) r -> live (view w) e -> Safe anything (dir_link r n e) w.
Proof. intros Ha He. apply (safe_dir_loop r _ _ e); [apply adds_insert|done..]. Qed.
Lemma safe_dir_unlink (r : ObjectRef TDirectory) n w :
  alive (view w) r -> Safe anything (dir_unlink r n) w.
Proof.
  intros Ha. apply (safe_dir_loop r _ _ (DirEntry.Directory r)); [apply adds_remove|done..].
Qed.

(** Reading the data of a labeled object that holds no references. *)
Lemma safe_read_data {t} {X : Type} (r : ObjectRef t) (un : obj_data t -> Labeled X) w :
  alive (view w) r -> Safe anything (o ← obj_get r; x ← unwrap o; unlabel (un x)) w.
Proof.
  intros Ha. apply (safe_read r); [done|]. intros x w1 _ _ _. by apply safe_unlabel.
Qed.
Lemma safe_file_read r w : alive (view w) r -> Safe anything (file_read r) w.
Proof. exact (safe_read_data (t := TFile) r (fun x => x) w). Qed.
Lemma safe_blob_read r w : alive (view w) r -> Safe anything (blob_read r) w.
Proof. exact (safe_read_data (t := TBlob) r (fun x => x) w). Qed.
Lemma safe_service_to_invokable r w : alive (view w) r -> Safe anything (service_to_invokable r) w.
Proof. exact (safe_read_data (t := TService) r (fun x => x) w). Qed.

(** Replacing the data of a labeled object. *)
Lemma safe_replace {t} {X : Type} (r : ObjectRef t) (mk : Labeled X -> obj_data t) (x : Labeled X) v w :
  alive (view w) r -> (forall e, refers t (mk (MkLabeled (label x) v)) e -> live (view w) e) ->
  Safe anything (f' ?← labeled_write x v; _ ← obj_set r (mk f'); mret (Ok tt)) w.
Proof.
  intros Ha Hr. eapply (safe_try (fun y _ => y = MkLabeled (label x) v)); [| |done].
  - eapply safe_mono; [|apply safe_labeled_write]. intros [y|e] g H; [by apply H|done].
  - intros y w1 [_ G1] ->. apply (safe_bind anything); [|intros [] w3 _ _; by apply safe_ret].
    eapply safe_mono; [|apply (safe_put r)]; [done|by apply (grows_alive (view w))|].
    intros e He. by apply G1, Hr.
Qed.
Lemma safe_write_data {t} {X : Type} (r : ObjectRef t) (un : obj_data t -> Labeled X)
    (mk : Labeled X -> obj_data t) v w :
  alive (view w) r -> (forall l e, ~ refers t (mk (MkLabeled l v)) e) ->
  Safe anything (o ← obj_get r; f ← unwrap o;
                 f' ?← labeled_write (un f) v; _ ← obj_set r (mk f'); mret (Ok tt)) w.
Proof.
  intros Ha Hr. apply (safe_read r); [done|]. intros x w1 [_ G1] Hx _.
  apply safe_replace; [by eexists|]. intros e He. by apply Hr in He.
Qed.
Lemma safe_file_write (r : ObjectRef TFile) d w :
  alive (view w) r -> Safe anything (file_write r d) w.
Proof. intros Ha. apply (safe_write_data (t := TFile) r (fun x => x) (fun x => x)); [done|by intros l e []]. Qed.
Lemma safe_blob_replace (r : ObjectRef TBlob) b w :
  alive (view w) r -> Safe anything (blob_replace r b) w.
Proof. intros Ha. apply (safe_write_data (t := TBlob) r (fun x => x) (fun x => x)); [done|by intros l e []]. Qed.

(** Gates and services: the privilege is checked first. *)
Lemma safe_check_delegate c w : Safe anything (check_delegate c) w.
Proof. by eapply safe_pure. Qed.

Lemma safe_write_into {t} {X : Type} (r : ObjectRef t) (mk : Labeled X -> obj_data t) (x : Labeled X) v w :
  alive (view w) r -> (forall e, refers t (mk (MkLabeled (label x) v)) e -> live (view w) e) ->
  Safe anything (u ← labeled_write x v; f' ?← mret (map_err LabelError_into u);
                 _ ← obj_set r (mk f'); mret (Ok tt)) w.
Proof.
  intros Ha Hr. eapply safe_bind; [apply safe_labeled_write|].
  intros u w1 [_ G1] Hu.
  eapply (safe_try (fun y _ => y = MkLabeled (label x) v)); [| |done].
  - apply safe_ret. destruct u as [y|e]; [by apply Hu|done].
  - intros y w2 [_ G2] ->. apply (safe_bind anything); [|intros [] w3 _ _; by apply safe_ret].
    eapply safe_mono; [|apply (safe_put r)]; [done| |].
    + apply (grows_alive (view w1)); [done|]. by apply (grows_alive (view w)).
    + intros e He. by apply G2, G1, Hr.
Qed.

(** The references of a gate that is about to be stored. *)
Definition gate_live (g : Gate) (m : gmap bytes bytes) : Prop :=
  match g with Gate.Redirect r => live m (DirEntry.Gate (rd_gate r)) | Gate.Direct _ => True end.
Lemma gate_refers l g m e : gate_live g m -> refers TGate (MkLabeled l g) e -> live m e.
Proof. destruct g as [d|r]; cbn; [done|]. by intros H ->. Qed.

Lemma gate_refers_live (x : Labeled Gate) m :
  (forall e, refers TGate x e -> live m e) -> gate_live (data x) m.
Proof. destruct x as [l [d|g]]; [done|]. intros H. by apply (H (DirEntry.Gate (rd_gate g))). Qed.

Lemma safe_gate_replace (r : ObjectRef TGate) g w :
  alive (view w) r -> gate_live g (view w) -> Safe anything (gate_replace r g) w.
Proof.
  intros Ha Hg. unfold gate_replace.
  apply (safe_try anything); [eapply safe_mono; [|apply safe_check_delegate]; by intros [|]| |done].
  intros [] w1 [_ G1] _. apply (safe_read r); [by apply (grows_alive (view w))|].
  intros x w2 [_ G2] Hx _. apply (safe_write_into (t := TGate) r (fun x => x)); [by eexists|].
  intros e. apply gate_refers. destruct g; [done|]. by apply G2, G1.
Qed.
Lemma safe_service_replace (r : ObjectRef TService) s w :
  alive (view w) r -> Safe anything (service_replace r s) w.
Proof.
  intros Ha. unfold service_replace.
  apply (safe_try anything); [eapply safe_mono; [|apply safe_check_delegate]; by intros [|]| |done].
  intros [] w1 [_ G1] _. apply (safe_read r); [by apply (grows_alive (view w))|].
  intros x w2 [_ G2] Hx _. apply (safe_write_into (t := TService) r (fun x => x)); [by eexists|].
  by intros e [].
Qed.

Lemma safe_resolve_gate fuel cur p i d w :
  gate_live cur (view w) -> Safe anything (resolve_gate fuel cur p i d) w.
Proof.
  revert cur p i d w. induction fuel as [|fuel IH]; intros cur p i d w Hc; cbn [resolve_gate].
  { intros Hs. by split; [apply evolves_refl|]. }
  destruct cur as [g|g]; [by apply safe_ret|]. apply (safe_read (rd_gate g)); [exact Hc|].
  intros x w1 _ Hx Hr. apply (safe_bind gate_live); [|intros next w2 _ Hn; by apply IH].
  by apply safe_unlabel, gate_refers_live.
Qed.
Lemma safe_gate_to_invokable fuel (r : ObjectRef TGate) w :
  alive (view w) r -> Safe anything (gate_to_invokable fuel r) w.
Proof.
  intros Ha. unfold gate_to_invokable. apply (safe_read r); [done|].
  intros x w1 _ Hx Hr. apply (safe_bind gate_live); [|intros next w2 _ Hn; by apply safe_resolve_gate].
  by apply safe_unlabel, gate_refers_live.
Qed.

(** Facets *)
Lemma empty_refers l e : refers TDirectory (MkLabeled l (MkDirectory ∅)) e -> False.
Proof. intros [n Hn]. change ((∅ : gmap string DirEntry) !! n = Some e) in Hn. by rewrite lookup_empty in Hn. Qed.
Lemma safe_open_loop fuel (r : ObjectRef TFaceted) facet (m : option FacetedDirectory) w :
  alive (view w) r ->
  (forall (fd : FacetedDirectory) e, m = Some fd -> refers TFaceted fd e -> live (view w) e) ->
  Safe (fun d g => alive g d) (faceted_open_loop fuel r facet m) w.
Proof.
  revert m w. induction fuel as [|fuel IH]; intros m w Ha Hm; cbn [faceted_open_loop].
  { intros Hs. by split; [apply evolves_refl|]. }
  destruct (m ≫= fun fd => find_facet facet (facets fd)) as [d|] eqn:Ef.
  - apply safe_ret. destruct m as [fd|]; [|done]. cbn in Ef. unfold find_facet in Ef.
    destruct (List.find _ (facets fd)) as [p|] eqn:Ep; [|done]. injection Ef as <-.
    apply List.find_some in Ep as [Hin _]. apply (Hm fd (DirEntry.Directory p.2) eq_refl).
    exists p. split; [by apply list_elem_of_In|done].
  - eapply safe_bind; [apply (safe_new (t := TDirectory)); intros e []%empty_refers|].
    intros d w1 [_ G1] Hd. cbv zeta. eapply safe_bind; [apply (safe_cas (t := TFaceted) r)|].
    + by apply (grows_alive (view w)).
    + intros e (p & Hp & ->). cbn [facets] in Hp. apply elem_of_app in Hp as [Hp|Hp%list_elem_of_singleton].
      * apply G1. destruct m as [fd|]; [|by apply elem_of_nil in Hp].
        apply (Hm fd (DirEntry.Directory p.2) eq_refl). by exists p.
      * subst p. exact Hd.
    + intros [[]|o] w2 [_ G2] Hres; [by apply safe_ret, (grows_alive (view w1))|].
      destruct Hres as (y & -> & Hy). apply IH; [|intros fd e [= <-]; apply Hy].
      apply (grows_alive (view w1)); [done|]. by apply (grows_alive (view w)).
Qed.
Lemma safe_faceted_open (r : ObjectRef TFaceted) facet w :
  alive (view w) r -> Safe (fun d g => alive g d) (faceted_open r facet) w.
Proof.
  intros Ha. unfold faceted_open. eapply safe_bind; [exact (safe_get (t := TFaceted) r w Ha)|].
  intros m w1 [_ G1] (x & -> & Hx & Hr). apply (safe_bind anything); [by apply safe_gets|].
  intros fuel w2 [_ G2] _. apply safe_open_loop.
  - apply (grows_alive (view w1)); [done|]. by apply (grows_alive (view w)).
  - intros fd e [= <-] He. by apply G2, Hr.
Qed.

Lemma facets_up_to_from clearance fs (m : gmap Buckle (ObjectRef TDirectory)) l d :
  foldl (fun m p => if can_flow_to p.1 clearance then <[p.1:=p.2]> m else m) m fs !! l = Some d ->
  m !! l = Some d \/ exists p, p ∈ fs /\ d = p.2.
Proof.
  revert m. induction fs as [|p fs IH]; intros m; cbn; [by left|]. intros H.
  destruct (IH _ H) as [Hm|(q & Hq & ->)]; [|right; exists q; split; [by right|done]].
  destruct (can_flow_to p.1 clearance); [|by left].
  apply lookup_insert_Some in Hm as [[_ <-]|[_ Hm]]; [|by left]. right. exists p. split; [by left|done].
Qed.
Lemma safe_faceted_list (r : ObjectRef TFaceted) clearance w :
  alive (view w) r ->
  Safe (fun m g => forall l d, m !! l = Some d -> alive g d) (faceted_list r clearance) w.
Proof.
  intros Ha. unfold faceted_list. apply (safe_bind anything); [by apply safe_modify|].
  intros [] w1 [_ G1] _. apply (safe_read r); [by apply (grows_alive (view w))|].
  intros x w2 _ _ Hr. apply safe_ret. intros l d Hd.
  destruct (facets_up_to_from _ _ _ _ _ Hd) as [Hd'|(p & Hp & ->)]; [by rewrite lookup_empty in Hd'|].
  apply (Hr (DirEntry.Directory p.2)). by exists p.
Qed.
End objects.
