(* ===== verification/FsTyped.v ===== *)
(** * The file system keeps its store typed

    The methods of [FS] and the functions of [utils.rs] in the calculus of [FsTyping]: each is
    safe, what the creating ones return is live, and so are whole sequences of calls. *)

From stdpp Require Import base tactics option list gmap strings countable.
From S2P Require Import Prelude Labels Store FsTypes Objects Fs FsGuarantee.
From S2P Require Import FsMediation FsReads FsTheorems FsTyping.

(** ** The file system *)

Section fs.
Context {St : Type} `{BW : BackingStoreLaws St} `{LW : LabelLaws} `{SW : SerdeLaws}.
Implicit Types w : World St.

Local Abbreviation anything := (fun _ _ => True).
(** What holds of the value of a call that succeeds. *)
Definition if_ok {A E : Type} (Q : A -> gmap bytes bytes -> Prop) (r : result A E)
    (g : gmap bytes bytes) : Prop :=
  match r with Ok a => Q a g | Err _ => True end.

Lemma safe_ok {A X E : Type} (P : A -> gmap bytes bytes -> Prop) (Q : X -> gmap bytes bytes -> Prop)
    (m : SM (World St) (result A E)) f w :
  Safe (if_ok P) m w -> (forall a w', evolves w w' -> P a (view w') -> Safe (if_ok Q) (f a) w') ->
  Safe (if_ok Q) (try_bind m f) w.
Proof. intros Hm Hf. by apply (safe_try P). Qed.
Lemma safe_any {A E : Type} (m : SM (World St) (result A E)) w :
  Safe anything m w -> Safe (if_ok anything) m w.
Proof. apply safe_mono. by intros [|]. Qed.
Lemma safe_then {A X : Type} (m : SM (World St) A) (f : A -> X) w :
  Safe anything m w -> Safe anything (a ← m; mret (f a)) w.
Proof. intros Hm. apply (safe_bind anything); [done|]. intros a w' _ _. by apply safe_ret. Qed.

Lemma safe_sound {A : Type} (Q : A -> gmap bytes bytes -> Prop) m w :
  (sound w -> Safe Q m w) -> Safe Q m w.
Proof. intros H Hs. by apply H. Qed.

Definition live_option (o : option DirEntry) (g : gmap bytes bytes) : Prop :=
  forall e, o = Some e -> live g e.

Lemma safe_walk path cur w : live_option cur (view w) -> Safe (if_ok (fun e g => live g e)) (walk path cur) w.
Proof.
  revert cur w. induction path as [|comp path IH]; intros cur w Hc; cbn [walk].
  { apply safe_ret. destruct cur; [by apply Hc|done]. }
  destruct cur as [e|]; [|by apply safe_ret]. specialize (Hc e eq_refl).
  destruct e as [d| |f| | |]; try (by apply safe_ret); destruct comp as [s|l]; try (by apply safe_ret).
  - eapply safe_bind; [by apply safe_dir_list|]. intros es w' _ Hes. apply IH.
    intros e He. by apply (Hes s).
  - eapply safe_bind; [by apply safe_faceted_open|]. intros d w' _ Hd. apply IH. by intros e [= <-].
Qed.

Lemma safe_fs_root w : Safe (fun d g => all_live (entries (data d)) g) fs_root w.
Proof.
  apply safe_sound. intros [_ (_ & _ & Ha)]. unfold fs_root. eapply safe_bind; [exact (safe_get (t := TDirectory) ROOT_REF w Ha)|].
  intros o w' _ (x & -> & _ & Hx). apply safe_ret. intros n e He. apply Hx. by exists n.
Qed.

Lemma safe_read_path path w : Safe (if_ok (fun e g => live g e)) (read_path path) w.
Proof.
  destruct path as [|[s|l] path].
  1, 3: apply safe_sound; intros [_ (_ & _ & Ha)]; by apply safe_ret.
  unfold read_path. eapply safe_bind; [apply safe_fs_root|]. intros d w1 _ Hd.
  apply (safe_bind (fun dir g => all_live (entries dir) g)); [by apply safe_unlabel|].
  intros dir w2 _ Hdir. apply safe_walk. intros e He. by apply (Hdir s).
Qed.

(** The methods that resolve a path first. *)
Lemma safe_at {A : Type} (path : Path) (k : DirEntry -> SM (World St) (result A FsError))
    (Q : A -> gmap bytes bytes -> Prop) w :
  (forall e w', live (view w') e -> Safe (if_ok Q) (k e) w') ->
  Safe (if_ok Q) (e ?← read_path path; k e) w.
Proof. intros Hk. eapply safe_ok; [apply safe_read_path|]. intros e w' _ He. by apply Hk. Qed.

(** A method that reads or changes the object of one kind at a path. *)
Lemma safe_into {A : Type} (m : SM (World St) (result A LabelError)) w :
  Safe anything m w -> Safe anything (r ← m; mret (map_err LabelError_into r)) w.
Proof. apply safe_then. Qed.

Local Ltac at_path :=
  apply (safe_at _ _ anything); intros e w' He;
  destruct e; try (by apply safe_ret); apply safe_any.

Lemma safe_list_dir path w : Safe (if_ok all_live) (list_dir path) w.
Proof.
  apply (safe_at path). intros e w' He.
  destruct e as [d| | | | |]; try (by apply safe_ret).
  eapply safe_bind; [by apply safe_dir_list|]. intros es w2 _ Hes. by apply safe_ret.
Qed.
Lemma safe_rm dir name w : Safe (if_ok anything) (rm dir name) w.
Proof. at_path. by apply safe_into, safe_dir_unlink. Qed.
Lemma safe_list_faceted path c w : Safe (if_ok anything) (list_faceted path c) w.
Proof.
  at_path. eapply safe_bind; [by apply safe_faceted_list|]. intros m w2 _ _. by apply safe_ret.
Qed.
Lemma safe_read_file path w : Safe (if_ok anything) (read_file path) w.
Proof. at_path. by apply safe_then, safe_file_read. Qed.
Lemma safe_write_file path d w : Safe (if_ok anything) (write_file path d) w.
Proof. at_path. by apply safe_into, safe_file_write. Qed.
Lemma safe_open_blob path w : Safe (if_ok anything) (open_blob path) w.
Proof. at_path. by apply safe_then, safe_blob_read. Qed.
Lemma safe_replace_blob path b w : Safe (if_ok anything) (replace_blob path b) w.
Proof. at_path. by apply safe_into, safe_blob_replace. Qed.
Lemma safe_resolve fuel path w : Safe (if_ok anything) (resolve_gate_with_clearance_check fuel path) w.
Proof.
  at_path. apply (safe_bind anything); [by apply safe_gate_to_invokable|]. intros g w2 _ _.
  apply (safe_bind anything); [by apply safe_gets|]. intros p w3 _ _. by apply safe_ret.
Qed.

Lemma safe_link_entry (r : ObjectRef TDirectory) n e w :
  alive (view w) r -> live (view w) e ->
  Safe (if_ok anything) (k ← dir_link r n e; _ ?← mret (map_err LabelError_into k); mret (Ok tt)) w.
Proof.
  intros Ha He. apply (safe_bind anything); [by apply safe_dir_link|].
  intros k w' _ _. apply (safe_ok anything); [|by intros; apply safe_ret].
  by apply safe_any, safe_ret.
Qed.
Lemma safe_link path n e w : live (view w) e -> Safe (if_ok anything) (link path n e) w.
Proof.
  intros He. eapply safe_ok; [apply safe_read_path|]. intros b w1 [_ G1] Hb.
  destruct b as [d| | | | |]; try (by apply safe_ret).
  apply (safe_bind anything); [apply safe_dir_link; [done|by apply G1]|].
  intros k w2 _ _. apply (safe_ok anything); [by apply safe_any, safe_ret|].
  intros [] w3 _ _; by apply safe_ret.
Qed.

(** What the creating methods return is live. *)
Local Abbreviation is_live := (fun e g => live g e).

Lemma safe_create {t} (x : obj_data t) w :
  (forall e, refers t x e -> live (view w) e) ->
  Safe is_live (r ← set_new_id x; mret (entry_of r)) w.
Proof.
  intros Hx. eapply safe_bind; [by apply safe_new|]. intros r w' _ Hr.
  by apply safe_ret, live_entry.
Qed.
Lemma safe_create_file l w : Safe is_live (create_file l) w.
Proof. by apply (safe_create (t := TFile)). Qed.
Lemma safe_create_directory l w : Safe is_live (create_directory l) w.
Proof. apply (safe_create (t := TDirectory)). by intros e []%empty_refers. Qed.
Lemma safe_create_faceted_directory w : Safe is_live create_faceted_directory w.
Proof.
  apply (safe_create (t := TFaceted)). intros e (p & Hp & _). by apply elem_of_nil in Hp.
Qed.
Lemma safe_create_blob l n w : Safe (if_ok is_live) (create_blob l n) w.
Proof.
  eapply safe_bind; [by apply (safe_new (t := TBlob))|]. intros r w1 _ Hr.
  apply (safe_bind anything); [by apply safe_blob_replace|]. intros u w2 [_ G2] _.
  eapply (safe_ok (fun _ g => live g (DirEntry.Blob r))); [|intros [] w3 _ H; by apply safe_ret].
  apply safe_ret. destruct u; [by apply (G2 (DirEntry.Blob r))|done].
Qed.

(** Creation behind the guard of [check_create]. *)
Lemma safe_checked {t} l ps (x : obj_data t) w :
  (forall e, refers t x e -> live (view w) e) ->
  Safe (if_ok is_live) (_ ?← check_create l ps; r ← set_new_id x; mret (Ok (entry_of r))) w.
Proof.
  intros Hx. apply (safe_ok anything).
  - apply safe_any. unfold check_create. apply (safe_bind anything); [by apply safe_gets|].
    intros ok w1 _ _. destruct (negb ok); [by apply safe_ret|].
    apply (safe_bind anything); [by apply safe_gets|]. intros p w2 _ _.
    case_match; by apply safe_ret.
  - intros [] w1 [_ G1] _. eapply safe_bind; [apply safe_new; intros e He; by apply G1, Hx|].
    intros r w2 _ Hr. by apply safe_ret, live_entry.
Qed.
Lemma safe_create_direct_gate l g w : Safe (if_ok is_live) (create_direct_gate l g) w.
Proof. by apply (safe_checked (t := TGate)). Qed.
Lemma safe_create_redirect_gate l g w :
  alive (view w) (rd_gate g) -> Safe (if_ok is_live) (create_redirect_gate l g) w.
Proof. intros Hg. apply (safe_checked (t := TGate)). by intros e ->. Qed.
Lemma safe_create_service l s w : Safe (if_ok is_live) (create_service l s) w.
Proof. by apply (safe_checked (t := TService)). Qed.

(** [create_or_update_file], [create_or_update_blob] and [create_faceted] *)
Lemma safe_create_and_link_file (r : ObjectRef TDirectory) n l d w :
  alive (view w) r -> Safe (if_ok anything) (create_and_link_file r n l d) w.
Proof.
  intros Ha. unfold create_and_link_file.
  apply (safe_bind (fun e g => live g e /\ exists f, e = DirEntry.File f)).
  { unfold create_file. eapply safe_bind; [by apply (safe_new (t := TFile))|].
    intros f w1 _ Hf. apply safe_ret. split; [exact Hf|by eexists]. }
  intros e w1 [_ G1] [He [f ->]]. apply (safe_bind anything); [by apply safe_file_write|].
  intros u w2 [_ G2] _. apply (safe_ok anything); [by apply safe_any, safe_ret|].
  intros ? w3 [_ G3] _. apply safe_link_entry; [|by apply G3, G2].
  apply (grows_alive (view w2)); [done|]. apply (grows_alive (view w1)); [done|].
  by apply (grows_alive (view w)).
Qed.
Lemma safe_create_and_link_blob (r : ObjectRef TDirectory) n l b w :
  alive (view w) r -> Safe (if_ok anything) (create_and_link_blob r n l b) w.
Proof.
  intros Ha. eapply safe_ok; [apply safe_create_blob|]. intros e w1 [_ G1] He.
  apply safe_link_entry; [by apply (grows_alive (view w))|done].
Qed.

(** An entry of another kind is unlinked first. *)
Lemma safe_relink {A : Type} (r : ObjectRef TDirectory) n (k : SM (World St) (result A FsError)) w :
  alive (view w) r ->
  (forall w', alive (view w') r -> Safe (if_ok anything) k w') ->
  Safe (if_ok anything) (u ← dir_unlink r n; _ ?← mret (map_err LabelError_into u); k) w.
Proof.
  intros Ha Hk. apply (safe_bind anything); [by apply safe_dir_unlink|]. intros u w1 [_ G1] _.
  apply (safe_ok anything); [by apply safe_any, safe_ret|]. intros ? w2 [_ G2] _. apply Hk.
  apply (grows_alive (view w1)); [done|]. by apply (grows_alive (view w)).
Qed.

Lemma safe_create_or_update_file path n l d w :
  Safe (if_ok anything) (create_or_update_file path n l d) w.
Proof.
  apply (safe_at path). intros e w1 He. destruct e as [r| | | | |]; try (by apply safe_ret).
  eapply safe_bind; [by apply safe_dir_list|]. intros es w2 [_ G2] Hes.
  assert (Hr : alive (view w2) r) by by apply (grows_alive (view w1)).
  destruct (es !! n) as [e|] eqn:En; [|by apply safe_create_and_link_file].
  destruct e; try (apply safe_relink; [done|]; intros; by apply safe_create_and_link_file).
  apply safe_any, safe_into, safe_file_write. exact (Hes n _ En).
Qed.
Lemma safe_create_or_update_blob path n l b w :
  Safe (if_ok anything) (create_or_update_blob path n l b) w.
Proof.
  apply (safe_at path). intros e w1 He. destruct e as [r| | | | |]; try (by apply safe_ret).
  eapply safe_bind; [by apply safe_dir_list|]. intros es w2 [_ G2] Hes.
  assert (Hr : alive (view w2) r) by by apply (grows_alive (view w1)).
  destruct (es !! n) as [e|] eqn:En; [|by apply safe_create_and_link_blob].
  destruct e; try (apply safe_relink; [done|]; intros; by apply safe_create_and_link_blob).
  apply safe_any, safe_into, safe_blob_replace. exact (Hes n _ En).
Qed.
Lemma safe_create_faceted path n w : Safe (if_ok anything) (create_faceted path n) w.
Proof.
  eapply safe_ok; [apply safe_list_dir|]. intros es w1 _ _.
  destruct (es !! n); [by apply safe_ret|].
  eapply safe_bind; [apply safe_create_faceted_directory|]. intros e w2 _ He. by apply safe_link.
Qed.

Lemma safe_fs_initialize w : Safe anything fs_initialize w.
Proof.
  intros Hs. destruct (add_run (uid ROOT_REF) (to_vec (t := TDirectory) empty_root) w (proj1 Hs))
    as (w' & E & Hst). unfold fs_initialize. fold (ukey ROOT_REF) in E, Hst. rewrite E.
  split; [|done]. rewrite decide_False in Hst.
  - eapply stored_evolves; [done|exact Hst|apply Hs|done].
  - intros Hd. destruct Hs as [_ (_ & _ & x & Hx)]. unfold object_at in Hx. by rewrite Hd in Hx.
Qed.

(** Labels and privileges *)
Lemma safe_taint l w : Safe anything (taint_with_label l) w.
Proof.
  unfold taint_with_label. apply (safe_bind anything); [by apply safe_modify|].
  intros [] w1 _ _. exact (safe_gets current_label w1 anything I).
Qed.
Lemma safe_declassify p w : Safe anything (declassify_with p) w.
Proof.
  unfold declassify_with. apply (safe_bind anything); [by apply safe_modify|].
  intros [] w1 _ _. exact (safe_gets current_label w1 anything I).
Qed.

(** ** Calls with live references *)

Definition call_live (c : FsCall) (g : gmap bytes bytes) : Prop :=
  match c with
  | Link _ _ e => live g e
  | CreateRedirectGate _ gt => alive g (rd_gate gt)
  | GateReplace r gt => alive g r /\ gate_live gt g
  | ServiceReplace r _ => alive g r
  | _ => True
  end.

Lemma call_live_grows c g g' : grows g g' -> call_live c g -> call_live c g'.
Proof.
  intros G. assert (Ha : forall t (r : ObjectRef t), alive g r -> alive g' r)
    by (intros; by apply (grows_alive g)).
  destruct c; cbn; eauto. intros [Hr Hg]. split; [auto|]. destruct g0; [done|]. exact (G _ Hg).
Qed.

Lemma safe_drop {A : Type} (Q : A -> gmap bytes bytes -> Prop) (m : SM (World St) A) w :
  Safe Q m w -> Safe anything (drop m) w.
Proof. intros Hm. eapply safe_bind; [exact Hm|]. intros a w' _ _. by apply safe_ret. Qed.

Lemma safe_fs_call c w : call_live c (view w) -> Safe anything (fs_call c) w.
Proof.
  intros Hc. destruct c; eapply safe_drop; cbn in Hc.
  - apply safe_fs_initialize.
  - apply safe_read_path.
  - apply safe_list_dir.
  - apply safe_rm.
  - apply safe_list_faceted.
  - apply safe_read_file.
  - apply safe_write_file.
  - apply safe_create_file.
  - apply safe_create_blob.
  - apply safe_create_directory.
  - apply safe_create_faceted_directory.
  - apply safe_create_direct_gate.
  - by apply safe_create_redirect_gate.
  - apply safe_create_service.
  - by apply safe_link.
  - apply safe_open_blob.
  - apply safe_replace_blob.
  - apply safe_create_or_update_file.
  - apply safe_create_or_update_blob.
  - apply safe_create_faceted.
  - apply safe_resolve.
  - apply safe_gate_replace; by apply Hc.
  - by apply safe_service_replace.
  - apply safe_taint.
Qed.

Lemma safe_fs_calls cs w :
  Forall (fun c => call_live c (view w)) cs -> Safe anything (fs_calls cs) w.
Proof.
  revert w. induction cs as [|c cs IH]; intros w Hcs; cbn [fs_calls]; [by apply safe_ret|].
  apply Forall_cons_iff in Hcs as [Hc Hcs].
  apply (safe_bind anything); [by apply safe_fs_call|]. intros [] w1 [_ G1] _. apply IH.
  eapply list.Forall_impl; [exact Hcs|]. intros c' H. by eapply call_live_grows.
Qed.

(** C9: the store is typed and its references never dangle.  Without interference, from a
    well-formed store, any sequence of calls whose arguments refer to objects of the store ends
    in a well-formed store in which everything that could be referred to still can; and no call
    panics: the [unwrap]s of [fs/mod.rs] are never reached with [None]. *)
Theorem store_stays_typed cs w :
  quiet w -> well_formed (view w) -> Forall (fun c => call_live c (view w)) cs ->
  let '(r, w') := fs_calls cs w in
  well_formed (view w') /\ grows (view w) (view w') /\ r <> Panic.
Proof.
  intros Hq Hwf Hcs. pose proof (safe_fs_calls cs w Hcs (Logic.conj Hq Hwf)) as H.
  destruct (fs_calls cs w) as [r w']. destruct H as ([[_ Hwf'] Hg] & Hp & _). done.
Qed.

(** [FS::initialize] makes an empty store well formed. *)
Lemma initialize_well_formed w :
  quiet w -> view w = ∅ -> let '(r, w') := fs_initialize w in sound w' /\ r = Val true.
Proof.
  intros Hq Hv. destruct (add_run (uid ROOT_REF) (to_vec (t := TDirectory) empty_root) w Hq)
    as (w' & E & Hq' & Hv' & _). unfold fs_initialize. fold (ukey ROOT_REF) in E, Hv'. rewrite E.
  rewrite Hv, lookup_empty in *. rewrite decide_True in Hv' by done.
  split; [|by rewrite bool_decide_true]. split; [done|]. rewrite Hv'. split_and!.
  - intros k v Hk. apply lookup_insert_Some in Hk as [[_ <-]|[_ Hk]]; [|by rewrite lookup_empty in Hk].
    right. by eexists TDirectory, _.
  - intros t r x e Hx He. unfold object_at in Hx.
    destruct (decide (ukey ROOT_REF = ukey r)) as [Hk|Hk].
    + rewrite <- Hk, lookup_insert_eq in Hx. cbn in Hx.
      apply from_slice_to_vec in Hx as [<- Hx]. cbn in Hx. subst. by apply empty_refers in He.
    + by rewrite lookup_insert_ne, lookup_empty in Hx.
  - exists empty_root. apply object_to_vec, lookup_insert_eq.
Qed.
End fs.
