(* ===== verification/Observer.v ===== *)
(** * Two runs and an observer

    What an observer can tell of a file system is compared on two runs of the same computation,
    in file systems that the observer cannot distinguish.  While the runs have read the same
    they are [Same] and answer alike; once they have read what the observer may not see they
    are [Diff]erent, and are tainted so that they cannot tell it ([Secure], with its rules of
    composition).

    The observer is a label [obs] with a privilege [q], which stands for all that may be
    declassified: the privilege of the thread and those of the services it may invoke.  An
    object is [seen] when its label may flow to [obs] with the help of [q].  [alike] relates two
    stores that agree on what is seen among the objects the thread can reach, [covert] is what a
    thread does to a store that the observer does not see, [Sync] and [Parted] are [Same] and
    [Diff] for the file system. *)

From stdpp Require Import base tactics option list gmap strings countable.
From S2P Require Import Prelude Labels Store FsTypes Objects Fs FsGuarantee.
From S2P Require Import FsMediation FsReads FsTyping.

(** ** The calculus *)

(** The references a computation may hold. *)
Abbreviation Knowledge := (DirEntry -> Prop).
Definition learns (K K' : Knowledge) : Prop := forall e, K e -> K' e.
#[global] Instance learns_preorder : PreOrder learns.
Proof. split; [by intros K e|]. intros K1 K2 K3 H1 H2 e He. by apply H2, H1. Qed.

Section calculus.
Context {S : Type}.

(** [R] is what a computation does to a state that has parted. *)
Class TwoRuns (Same Diff : Knowledge -> relation S) (R : relation S) : Prop := {
  two_preorder :: PreOrder R;
  diff_forget K K' s1 s2 : learns K K' -> Diff K' s1 s2 -> Diff K s1 s2;
  diff_step K s1 s2 s1' s2' : R s1 s1' -> R s2 s2' -> Diff K s1 s2 -> Diff K s1' s2';
}.

Definition Two (Same Diff : Knowledge -> relation S) {A} (Q : Knowledge -> A -> Prop)
    (K : Knowledge) (p1 p2 : outcome A * S) : Prop :=
  (exists K', learns K K' /\ p1.1 = p2.1 /\ (forall a, p1.1 = Val a -> Q K' a) /\
     Same K' p1.2 p2.2) \/
  Diff K p1.2 p2.2.

Definition Secure (Same Diff : Knowledge -> relation S) {A} (Q : Knowledge -> A -> Prop)
    (K : Knowledge) (m : SM S A) : Prop :=
  forall s1 s2, Same K s1 s2 -> Two Same Diff Q K (m s1) (m s2).
End calculus.

Section rules.
Context {S : Type} {Same Diff : Knowledge -> relation S} {R : relation S}.
Context `{TR : !TwoRuns Same Diff R}.
Local Abbreviation two := (Two Same Diff).
Local Abbreviation secure := (Secure Same Diff).

Lemma two_same {A} (Q : Knowledge -> A -> Prop) K r s1 s2 :
  (forall a, r = Val a -> Q K a) -> Same K s1 s2 -> two Q K (r, s1) (r, s2).
Proof. intros HQ Hs. left. by exists K. Qed.
Lemma two_learn {A} (Q : Knowledge -> A -> Prop) K K' p1 p2 :
  learns K K' -> two Q K' p1 p2 -> two Q K p1 p2.
Proof.
  intros HK [(K2 & H2 & ? & ? & ?)|Hd]; [left|right; by eapply diff_forget].
  exists K2. split; [by etrans|done].
Qed.
Lemma two_mono {A} (P Q : Knowledge -> A -> Prop) K p1 p2 :
  (forall K' a, learns K K' -> P K' a -> Q K' a) -> two P K p1 p2 -> two Q K p1 p2.
Proof.
  intros HPQ [(K' & HK & E & HP & Hs)|Hd]; [left|by right]. exists K'. split_and!; auto.
Qed.

(** Two computations in sequence.  The first ones need not be the same, and what follows has to
    be covert only after what they can return. *)
Lemma two_bind_if {A X} (good : A -> Prop) (P : Knowledge -> A -> Prop) (Q : Knowledge -> X -> Prop) K
    (m1 m2 : SM S A) (f : A -> SM S X) s1 s2 :
  two P K (m1 s1) (m2 s2) ->
  (forall a, (m1 s1).1 = Val a -> good a) -> (forall a, (m2 s2).1 = Val a -> good a) ->
  (forall a K', good a -> learns K K' -> P K' a -> secure Q K' (f a)) ->
  (forall a, good a -> Guar R (f a)) ->
  two Q K ((m1 ≫= f) s1) ((m2 ≫= f) s2).
Proof.
  intros Hm G1 G2 Hf Hg. unfold mbind, SM_bind.
  destruct (m1 s1) as [r1 s1'] eqn:E1, (m2 s2) as [r2 s2'] eqn:E2.
  destruct Hm as [(K' & HK & E & HP & Hs)|Hd]; cbn [fst snd] in *.
  - subst r2. destruct r1 as [a| |]; [|left; by exists K'..].
    apply (two_learn _ _ _ _ _ HK). by apply Hf; [apply G1|done|apply HP|].
  - right. destruct r1 as [a1| |], r2 as [a2| |]; cbn [snd];
      (eapply diff_step; [first [by apply Hg, G1|reflexivity]|first [by apply Hg, G2|reflexivity]|exact Hd]).
Qed.
Lemma two_bind {A X} (P : Knowledge -> A -> Prop) (Q : Knowledge -> X -> Prop) K
    (m1 m2 : SM S A) (f : A -> SM S X) s1 s2 :
  two P K (m1 s1) (m2 s2) ->
  (forall a K', learns K K' -> P K' a -> secure Q K' (f a)) ->
  (forall a, Guar R (f a)) ->
  two Q K ((m1 ≫= f) s1) ((m2 ≫= f) s2).
Proof. intros Hm Hf Hg. apply (two_bind_if (fun _ => True) P); auto. Qed.

Lemma secure_bind {A X} (P : Knowledge -> A -> Prop) (Q : Knowledge -> X -> Prop) K
    (m : SM S A) (f : A -> SM S X) :
  secure P K m -> (forall a K', learns K K' -> P K' a -> secure Q K' (f a)) ->
  (forall a, Guar R (f a)) -> secure Q K (m ≫= f).
Proof. intros Hm Hf Hg s1 s2 Hs. eapply two_bind; eauto. Qed.
Lemma secure_then {A X} (Q : Knowledge -> X -> Prop) K (m : SM S A) (f : A -> SM S X) :
  secure (fun _ _ => True) K m -> (forall a K', learns K K' -> secure Q K' (f a)) ->
  (forall a, Guar R (f a)) -> secure Q K (m ≫= f).
Proof. intros Hm Hf. apply (secure_bind (fun _ _ => True)); auto. Qed.
Lemma secure_try {A X E} (P : Knowledge -> A -> Prop) (Q : Knowledge -> result X E -> Prop) K
    (m : SM S (result A E)) (f : A -> SM S (result X E)) :
  secure (fun K r => forall a, r = Ok a -> P K a) K m ->
  (forall a K', learns K K' -> P K' a -> secure Q K' (f a)) ->
  (forall K' e, learns K K' -> Q K' (Err e)) ->
  (forall a, Guar R (f a)) -> secure Q K (try_bind m f).
Proof.
  intros Hm Hf He Hg. apply (secure_bind _ _ _ _ _ Hm); [|intros [a|e]; [apply Hg|apply guar_ret]].
  intros [a|e] K' HK HP; [by apply Hf, HP|]. intros s1 s2 Hs. apply two_same; [|done].
  intros a [= <-]. by apply He.
Qed.

Lemma secure_ret {A} (Q : Knowledge -> A -> Prop) K a : Q K a -> secure Q K (mret a).
Proof. intros HQ s1 s2 Hs. apply two_same; [|done]. by intros b [= <-]. Qed.
Lemma secure_panic {A} (Q : Knowledge -> A -> Prop) K : secure Q K panic.
Proof. intros s1 s2 Hs. by apply two_same. Qed.
Lemma secure_nofuel {A} (Q : Knowledge -> A -> Prop) K : secure Q K nofuel.
Proof. intros s1 s2 Hs. by apply two_same. Qed.
Lemma secure_unwrap {A} (Q : Knowledge -> A -> Prop) K (o : option A) :
  (forall a, o = Some a -> Q K a) -> secure Q K (unwrap o).
Proof. destruct o; intros HQ; [by apply secure_ret, HQ|apply secure_panic]. Qed.
Lemma secure_gets {A} (Q : Knowledge -> A -> Prop) K (f : S -> A) :
  (forall s1 s2, Same K s1 s2 -> f s1 = f s2 /\ Q K (f s1)) -> secure Q K (gets f).
Proof.
  intros Hf s1 s2 Hs. unfold gets. destruct (Hf s1 s2 Hs) as [<- HQ].
  apply two_same; [|done]. by intros a [= <-].
Qed.
Lemma secure_mono {A} (P Q : Knowledge -> A -> Prop) K (m : SM S A) :
  (forall K' a, learns K K' -> P K' a -> Q K' a) -> secure P K m -> secure Q K m.
Proof. intros HPQ Hm s1 s2 Hs. eapply two_mono, Hm, Hs. exact HPQ. Qed.
Lemma secure_ext {A} (Q : Knowledge -> A -> Prop) K (m m' : SM S A) :
  (forall s, m s = m' s) -> secure Q K m' -> secure Q K m.
Proof. intros Hm H s1 s2 Hs. rewrite !Hm. by apply H. Qed.
End rules.

(** ** What is seen *)

Section observer.
Context `{L : LabelOps} `{SD : SerdeOps}.
Context (q : Component) (obs : Buckle).

Definition seen (a : Buckle) : Prop := FlowsP q a obs.
(** A faceted directory has no label: everyone reads it. *)
Definition legible {t} (x : obj_data t) : Prop :=
  match obj_label t x with Some a => seen a | None => True end.

(** Two objects that the observer cannot tell apart. *)
Definition alike_objects {t} (x1 x2 : obj_data t) : Prop :=
  obj_label t x1 = obj_label t x2 /\ (legible x1 -> x1 = x2).

(** Two stores that agree on what is known, as far as it is seen; what is seen refers to what
    is known only. *)
Definition alike (K : Knowledge) (m1 m2 : gmap bytes bytes) : Prop :=
  forall t (r : ObjectRef t), K (entry_of r) -> exists x1 x2 : obj_data t,
    m1 !! ukey r = Some (to_vec x1) /\ m2 !! ukey r = Some (to_vec x2) /\
    alike_objects x1 x2 /\ (legible x1 -> forall e, refers t x1 e -> K e).

(** How an object may change without the observer seeing it: under a label that is not seen;
    and a faceted directory, which has none, by more facets. *)
Definition unseen_change (v v' : bytes) : Prop :=
  v = v' \/ v = [] \/ exists t (x x' : obj_data t),
    from_slice t v = Some x /\ v' = to_vec x' /\ obj_label t x' = obj_label t x /\
    match obj_label t x with
    | Some a => ~ seen a
    | None => exists added, obj_facets t x' = obj_facets t x ++ added
    end.
Definition covert (m m' : gmap bytes bytes) : Prop :=
  forall k v, m !! k = Some v -> exists v', m' !! k = Some v' /\ unseen_change v v'.

(** [q] covers the privilege of every service, which invoking it declassifies with. *)
Definition covers (v : bytes) : Prop :=
  forall s, from_slice TService v = Some s -> Implies q (svc_privilege (data s)).
Definition covered (m : gmap bytes bytes) : Prop := forall k v, m !! k = Some v -> covers v.

(** The uids to be drawn are unused. *)
Definition fresh_draws (m : gmap bytes bytes) (draws : list Z) : Prop :=
  NoDup (to_be 8 <$> draws) /\ forall u, u ∈ draws -> m !! to_be 8 u = None.
End observer.

Section observer_facts.
Context `{LW : LabelLaws} `{SW : SerdeLaws}.
Context {q : Component} {obs : Buckle}.

Lemma FlowsP_trans p a b c : FlowsP p a b -> FlowsP p b c -> FlowsP p a c.
Proof.
  rewrite !FlowsP_spec. intros [H1 H2] [H3 H4]. split.
  - etrans; [|exact H1]. apply Implies_conj. split; [exact H3|apply conj_implies_r].
  - etrans; [|exact H4]. apply Implies_conj. split; [exact H2|apply conj_implies_r].
Qed.

Lemma seen_dec a : {seen q obs a} + {~ seen q obs a}.
Proof. unfold seen, FlowsP. apply bool_dec. Qed.
Lemma legible_dec {t} (x : obj_data t) : {legible q obs x} + {~ legible q obs x}.
Proof. unfold legible. destruct (obj_label t x); [apply seen_dec|by left]. Qed.
Lemma seen_mono a b : Flows a b -> seen q obs b -> seen q obs a.
Proof. apply FlowsP_mono. Qed.

(** A thread whose label is not seen can write only under labels that are not seen. *)
Lemma unseen_write p a b :
  Implies q p -> ~ seen q obs a -> FlowsP p a b -> ~ seen q obs b.
Proof. intros Hq Ha Hab Hb. apply Ha, (FlowsP_trans q a b); [|done]. by eapply FlowsP_stronger. Qed.
(** Nor does declassifying help it. *)
Lemma unseen_downgrade c a :
  Implies q c -> ~ seen q obs a -> ~ seen q obs (downgrade a c).
Proof.
  intros Hq Ha Hd. apply Ha, (FlowsP_trans q a (downgrade a c)); [|done].
  eapply FlowsP_stronger; [exact Hq|]. apply downgrade_flow.
Qed.

(** *** Alike stores *)

Lemma alike_refl_objects {t} (x : obj_data t) : alike_objects q obs x x.
Proof. by split. Qed.
Lemma alike_at K m1 m2 {t} (r : ObjectRef t) :
  alike q obs K m1 m2 -> K (entry_of r) -> exists x1 x2 : obj_data t,
    object_at m1 r = Some x1 /\ object_at m2 r = Some x2 /\ alike_objects q obs x1 x2.
Proof.
  intros Ha Hr. destruct (Ha t r Hr) as (x1 & x2 & H1 & H2 & Hx & _).
  exists x1, x2. split_and!; [by apply object_to_vec..|done].
Qed.

Lemma alike_known K m1 m2 {t} (r : ObjectRef t) :
  alike q obs K m1 m2 -> K (entry_of r) ->
  m1 !! ukey r <> None /\ m2 !! ukey r <> None.
Proof. intros Ha Hr. destruct (Ha t r Hr) as (x1 & x2 & -> & -> & _). done. Qed.

(** Both stores get new versions of a known object. *)
Lemma alike_insert K m1 m2 {t} (r : ObjectRef t) (y1 y2 : obj_data t) :
  alike q obs K m1 m2 -> K (entry_of r) -> alike_objects q obs y1 y2 ->
  (legible q obs y1 -> forall e, refers t y1 e -> K e) ->
  alike q obs K (<[ukey r := to_vec y1]> m1) (<[ukey r := to_vec y2]> m2).
Proof.
  intros Ha Hr Hy Hrefs t' r' Hr'. destruct (decide (ukey r = ukey r')) as [E|E].
  - destruct (Ha t r Hr) as (x1 & _ & H1 & _). destruct (Ha t' r' Hr') as (x1' & _ & H1' & _).
    rewrite E, H1' in H1. injection H1 as H1.
    assert (Hx : from_slice t (to_vec x1') = Some x1) by (rewrite H1; apply from_to_vec).
    apply from_slice_to_vec in Hx as [<- _]. exists y1, y2. rewrite <- E, !lookup_insert_eq. done.
  - destruct (Ha t' r' Hr') as (x1 & x2 & H1 & H2 & H). exists x1, x2.
    rewrite !lookup_insert_ne by done. done.
Qed.

(** Both stores get the same new object, under a uid that both have free. *)
Definition learn (e : DirEntry) (K : Knowledge) : Knowledge := fun e' => e' = e \/ K e'.
Lemma learn_learns e K : learns K (learn e K).
Proof. intros e' He. by right. Qed.

Lemma entry_of_inj {t t'} (r : ObjectRef t) (r' : ObjectRef t') :
  entry_of r = entry_of r' -> exists E : t = t', eq_rect t ObjectRef r t' E = r'.
Proof. destruct t, t'; cbn; intros [=]; subst; by exists eq_refl. Qed.

Lemma alike_new K m1 m2 {t} (r : ObjectRef t) (y : obj_data t) :
  alike q obs K m1 m2 -> m1 !! ukey r = None -> m2 !! ukey r = None ->
  (forall e, refers t y e -> K e) ->
  alike q obs (learn (entry_of r) K) (<[ukey r := to_vec y]> m1) (<[ukey r := to_vec y]> m2).
Proof.
  intros Ha H1 H2 Hy t' r' [He|Hr'].
  - apply entry_of_inj in He as [<- He]. cbn in He. subst r'. exists y, y.
    rewrite !lookup_insert_eq. split_and!; [done..|apply alike_refl_objects|].
    intros _ e He. right. by apply Hy.
  - destruct (Ha t' r' Hr') as (x1 & x2 & Hx1 & Hx2 & Hx & Hl). exists x1, x2.
    assert (ukey r <> ukey r') by congruence. rewrite !lookup_insert_ne by done.
    split_and!; [done..|]. intros Hleg e He. right. by apply Hl.
Qed.

(** *** Unseen changes *)

Lemma unseen_change_trans v1 v2 v3 :
  unseen_change q obs v1 v2 -> unseen_change q obs v2 v3 -> unseen_change q obs v1 v3.
Proof.
  intros [->|[->|(t & x & y & Hx & -> & Hl & Hxy)]] H2; [done|by right; left|].
  right; right. destruct H2 as [<-|[E|(t' & y' & z & Hy & -> & Hl' & Hyz)]].
  - by exists t, x, y.
  - by apply to_vec_not_nil in E.
  - apply from_slice_to_vec in Hy as [<- Hy]. cbn in Hy. subst y'.
    exists t, x, z. split_and!; [done|done|congruence|]. rewrite Hl in Hyz.
    destruct (obj_label t x); [done|]. destruct Hxy as [a Ha], Hyz as [b Hb].
    exists (a ++ b). by rewrite Hb, Ha, app_assoc.
Qed.
#[export] Instance covert_preorder : PreOrder (covert q obs).
Proof.
  split.
  - intros m k v Hk. exists v. split; [done|by left].
  - intros m1 m2 m3 H1 H2 k v Hk. destruct (H1 k v Hk) as (v' & Hk' & Hv').
    destruct (H2 k v' Hk') as (v'' & Hk'' & Hv''). exists v''. eauto using unseen_change_trans.
Qed.

Lemma covert_insert m {t} (r : ObjectRef t) (x x' : obj_data t) a :
  m !! ukey r = Some (to_vec x) -> obj_label t x = Some a -> obj_label t x' = Some a ->
  ~ seen q obs a -> covert q obs m (<[ukey r := to_vec x']> m).
Proof.
  intros Hx Ha Ha' Hs k v Hk. destruct (decide (ukey r = k)) as [<-|Hne].
  - exists (to_vec x'). rewrite lookup_insert_eq. split; [done|]. right; right.
    exists t, x, x'. rewrite Hx in Hk. injection Hk as <-.
    split_and!; [apply from_to_vec|done|congruence|by rewrite Ha].
  - exists v. rewrite lookup_insert_ne by done. split; [done|by left].
Qed.

Lemma store_ok_covert l p m m' :
  Implies q p -> ~ seen q obs l -> store_ok l p m m' -> covert q obs m m'.
Proof.
  intros Hq Hl [H _] k v Hk. destruct (H k v Hk) as (v' & Hk' & Ha). exists v'.
  split; [done|]. destruct Ha as [->|[->|(t & x & x' & Hx & -> & Hr)]]; [by left|by right; left|].
  right; right. exists t, x, x'. unfold may_replace in Hr.
  destruct (obj_label t x) as [a|]; destruct Hr as [-> Hr]; split_and!; try done.
  by eapply unseen_write.
Qed.

(** *** Covered privileges *)

Lemma covers_other {t} (x : obj_data t) : t <> TService -> covers q (to_vec x).
Proof. intros Ht s Hs. by apply from_slice_ty in Hs. Qed.
Lemma covers_service (x : obj_data TService) :
  Implies q (svc_privilege (data x)) -> covers q (to_vec x).
Proof. intros H s Hs. rewrite from_to_vec in Hs. by injection Hs as <-. Qed.
Lemma covered_insert m k v : covered q m -> covers q v -> covered q (<[k := v]> m).
Proof. intros Hm Hv k' v' Hk. apply lookup_insert_Some in Hk as [[_ <-]|[_ Hk]]; [done|by eapply Hm]. Qed.
Lemma covered_store_ok l p m m' :
  Implies q p -> store_ok l p m m' -> covered q m -> covered q m'.
Proof.
  intros Hq [_ G] Hm k v Hk. destruct (G k v Hk) as [Hk'|[_ Hs]]; [by eapply Hm|].
  intros s Hv. etrans; [exact Hq|by apply Hs].
Qed.

(** *** Unused uids *)

Lemma fresh_insert m draws k v :
  fresh_draws m draws -> m !! k <> None -> fresh_draws (<[k := v]> m) draws.
Proof.
  intros [Hd Hf] Hk. split; [done|]. intros u Hu. specialize (Hf u Hu).
  rewrite lookup_insert_ne; [done|]. congruence.
Qed.
Lemma fresh_next m u draws v :
  fresh_draws m (u :: draws) -> fresh_draws (<[to_be 8 u := v]> m) draws.
Proof.
  intros [[Hu Hd]%list.NoDup_cons Hf]. split; [done|]. intros u' Hu'.
  rewrite lookup_insert_ne; [by apply Hf; right|]. intros E. apply Hu. rewrite E.
  by apply list_elem_of_fmap_2.
Qed.
End observer_facts.
