(* ===== verification/FsSecure.v ===== *)
(** * The file system tells an observer nothing

    Two runs of an operation of the file system in stores the observer cannot distinguish: the
    operations of [Objects.v] and [Fs.v] in the calculus of [Observer].  A directory with the
    same facets in both runs is opened alike; what a thread reads of an object the observer may
    not see taints it first. *)

From stdpp Require Import base tactics option list gmap strings countable.
From S2P Require Import Prelude Labels Store FsTypes Objects Fs FsGuarantee.
From S2P Require Import FsMediation FsReads FsDirs FsGates FsTheorems FsTyping FsTyped.
From S2P Require Import Observer.

(** ** Worlds *)

Section worlds.
Context {St : Type} `{BW : BackingStoreLaws St} `{LW : LabelLaws} `{SW : SerdeLaws}.
Context (q : Component) (obs : Buckle).
Implicit Types w : World St.

(** A thread that runs alone and declassifies with [q] at most. *)
Definition watched w : Prop :=
  quiet w /\ Implies q (thread_privilege w) /\ covered q (view w).

(** What a thread does whose label the observer does not see. *)
Definition Covertly w w' : Prop :=
  watched w -> ~ seen q obs (current_label w) ->
  watched w' /\ ~ seen q obs (current_label w') /\ thread_privilege w' = thread_privilege w /\
  covert q obs (view w) (view w').

#[global] Instance Covertly_preorder : PreOrder Covertly.
Proof.
  split; [by intros w Hw Hl|]. intros a b c Hab Hbc Hw Hl.
  destruct (Hab Hw Hl) as (Hw1 & Hl1 & Hp1 & H1). destruct (Hbc Hw1 Hl1) as (Hw2 & Hl2 & Hp2 & H2).
  split_and!; [done|done|congruence|by etrans].
Qed.

Lemma mediated_covertly w w' : Mediated w w' -> Covertly w w'.
Proof.
  intros H (Hq & Hp & Hc) Hl. destruct (H Hq) as (Hq' & [Hl' Hp'] & Hs).
  split_and!; [|intros Hl''; by eapply Hl, seen_mono|done|by eapply store_ok_covert].
  split; [done|]. rewrite Hp'. split; [done|by eapply covered_store_ok].
Qed.
#[global] Instance Covertly_primitives : FsPrimitives Covertly.
Proof. eapply primitives_weaken, mediated_primitives; [apply _|apply mediated_covertly]. Qed.

(** Declassifying with what the observer allows for. *)
Lemma covertly_declassify c : Implies q c -> Guar Covertly (declassify_with c).
Proof.
  intros Hc w Hw Hl. split_and!; [exact Hw| |done|reflexivity]. by apply unseen_downgrade.
Qed.
Lemma service_covered (r : ObjectRef TService) w s :
  watched w -> (service_to_invokable r w).1 = Val s -> Implies q (svc_privilege s).
Proof.
  intros (Hq & _ & Hc). unfold service_to_invokable.
  rewrite (bind_step _ _ _ _ _ (obj_get_run r w Hq)).
  destruct (view w !! ukey r) as [v|] eqn:Hv; [|done]. cbn [mbind option_bind].
  destruct (from_slice TService v) as [x|] eqn:Hx; [|done]. intros [= <-]. exact (Hc _ _ Hv x Hx).
Qed.

(** The two runs have read the same. *)
Record Sync (K : Knowledge) w1 w2 : Prop := {
  sync_left : watched w1;
  sync_right : watched w2;
  sync_entropy : entropy w1 = entropy w2;
  sync_fresh_left : fresh_draws (view w1) (entropy w1);
  sync_fresh_right : fresh_draws (view w2) (entropy w1);
  sync_label : current_label w1 = current_label w2;
  sync_privilege : thread_privilege w1 = thread_privilege w2;
  sync_root : K (DirEntry.Directory ROOT_REF);
  sync_alike : alike q obs K (view w1) (view w2);
}.

(** One run after it has read what the observer may not see, in a store that was [m]. *)
Definition strayed (m : gmap bytes bytes) w : Prop :=
  watched w /\ ~ seen q obs (current_label w) /\ covert q obs m (view w).
Definition Parted (K : Knowledge) w1 w2 : Prop :=
  exists K' m1 m2, learns K K' /\ alike q obs K' m1 m2 /\ strayed m1 w1 /\ strayed m2 w2.

Lemma strayed_step m w w' : Covertly w w' -> strayed m w -> strayed m w'.
Proof.
  intros H (Hw & Hl & Hm). destruct (H Hw Hl) as (Hw' & Hl' & _ & Hm').
  split_and!; [done..|by etrans].
Qed.
#[global] Instance fs_two_runs : TwoRuns Sync Parted Covertly.
Proof.
  split; [apply _| |].
  - intros K K' w1 w2 HK (K2 & m1 & m2 & HK2 & H). exists K2, m1, m2. split; [by etrans|done].
  - intros K w1 w2 w1' w2' H1 H2 (K2 & m1 & m2 & HK2 & Ha & Hs1 & Hs2).
    exists K2, m1, m2. split_and!; [done..|by eapply strayed_step|by eapply strayed_step].
Qed.

(** From [Sync], both runs change their stores and nothing else. *)
Lemma sync_stored K w1 w2 w1' w2' m1 m2 :
  Sync K w1 w2 -> stored w1 w1' m1 -> stored w2 w2' m2 ->
  covered q m1 -> covered q m2 -> fresh_draws m1 (entropy w1) -> fresh_draws m2 (entropy w1) ->
  alike q obs K m1 m2 -> Sync K w1' w2'.
Proof.
  intros Hs (Hq1 & Hv1 & He1 & Hl1 & Hp1) (Hq2 & Hv2 & He2 & Hl2 & Hp2) Hc1 Hc2 Hf1 Hf2 Ha.
  destruct Hs as [(_ & Hi1 & _) (_ & Hi2 & _) He _ _ Hl Hp Hr _].
  constructor; rewrite ?Hv1, ?Hv2, ?He1, ?He2, ?Hl1, ?Hl2, ?Hp1, ?Hp2; try done.
  - split_and!; [done|by rewrite Hp1|by rewrite Hv1].
  - split_and!; [done|by rewrite Hp2|by rewrite Hv2].
Qed.

(** New versions of a known object. *)
Lemma sync_insert K w1 w2 w1' w2' {t} (r : ObjectRef t) (y1 y2 : obj_data t) :
  Sync K w1 w2 -> K (entry_of r) ->
  stored w1 w1' (<[ukey r := to_vec y1]> (view w1)) ->
  stored w2 w2' (<[ukey r := to_vec y2]> (view w2)) ->
  covers q (to_vec y1) -> covers q (to_vec y2) -> alike_objects q obs y1 y2 ->
  (legible q obs y1 -> forall e, refers t y1 e -> K e) -> Sync K w1' w2'.
Proof.
  intros Hs Hr Hs1 Hs2 Hc1 Hc2 Hy Hrefs.
  destruct (alike_known _ _ _ r (sync_alike _ _ _ Hs) Hr) as [Hn1 Hn2].
  apply (sync_stored _ _ _ _ _ _ _ Hs Hs1 Hs2).
  - apply covered_insert; [apply Hs|done].
  - apply covered_insert; [apply Hs|done].
  - apply fresh_insert; [apply Hs|done].
  - apply fresh_insert; [apply Hs|done].
  - apply alike_insert; [apply Hs|done..].
Qed.

(** The same label in both runs. *)
Lemma sync_relabel K w1 w2 l : Sync K w1 w2 -> Sync K (set_label l w1) (set_label l w2).
Proof. intros []. by constructor. Qed.

(** Both runs are tainted by what the observer does not see, whatever they write under such a
    label. *)
Lemma parted_unseen K w1 w2 w1' w2' m1 m2 l1 l2 :
  Sync K w1 w2 -> ~ seen q obs l1 -> ~ seen q obs l2 ->
  stored (set_label l1 w1) w1' m1 -> stored (set_label l2 w2) w2' m2 ->
  covered q m1 -> covered q m2 -> covert q obs (view w1) m1 -> covert q obs (view w2) m2 ->
  Parted K w1' w2'.
Proof.
  intros Hs Hl1 Hl2 (Hq1 & Hv1 & _ & Hc1 & Hp1) (Hq2 & Hv2 & _ & Hc2 & Hp2) Hcov1 Hcov2 H1 H2.
  exists K, (view w1), (view w2). split_and!; [done|apply Hs| |].
  - split_and!; rewrite ?Hc1, ?Hv1; try done. split_and!; [done| |by rewrite Hv1].
    rewrite Hp1. apply Hs.
  - split_and!; rewrite ?Hc2, ?Hv2; try done. split_and!; [done| |by rewrite Hv2].
    rewrite Hp2. apply Hs.
Qed.
Lemma parted_relabel K w1 w2 l1 l2 :
  Sync K w1 w2 -> ~ seen q obs l1 -> ~ seen q obs l2 ->
  Parted K (set_label l1 w1) (set_label l2 w2).
Proof.
  intros Hs H1 H2.
  assert (Hq1 : quiet (set_label l1 w1)) by apply Hs.
  assert (Hq2 : quiet (set_label l2 w2)) by apply Hs.
  apply (parted_unseen K w1 w2 _ _ (view w1) (view w2) l1 l2 Hs H1 H2);
    [by repeat split; try apply Hq1|by repeat split; try apply Hq2|apply Hs|apply Hs|reflexivity..].
Qed.

Lemma unseen_raise a l : ~ seen q obs a -> ~ seen q obs (lub a l).
Proof. intros Ha Hl. apply Ha. eapply seen_mono; [apply Flows_lub_l|exact Hl]. Qed.
Lemma unseen_raise' a l : ~ seen q obs a -> ~ seen q obs (lub l a).
Proof. intros Ha Hl. apply Ha. eapply seen_mono; [apply Flows_lub_r|exact Hl]. Qed.
End worlds.

(** ** Objects *)

Section objects.
Context {St : Type} `{BW : BackingStoreLaws St} `{LW : LabelLaws} `{SW : SerdeLaws}.
Context (q : Component) (obs : Buckle).
Implicit Types w : World St.

Local Abbreviation secure := (Secure (Sync (St := St) q obs) (Parted q obs)).
Local Abbreviation two := (Two (Sync (St := St) q obs) (Parted q obs)).
Local Abbreviation covertly := (Covertly (St := St) q obs).
Local Abbreviation anything := (fun _ _ => True).

(** *** Reads *)

Lemma read_here {t X} (r : ObjectRef t) (f : obj_data t -> SM (World St) X) (x : obj_data t) w :
  quiet w -> view w !! ukey r = Some (to_vec x) ->
  (o ← obj_get r; y ← unwrap o; f y) w = f x w.
Proof.
  intros Hq Hx. rewrite (bind_step _ _ _ _ _ (obj_get_run r w Hq)), Hx.
  cbn [mbind option_bind]. by rewrite from_to_vec.
Qed.

(** Reading a known object: what is seen is the same in both runs, and otherwise both objects
    have the same label. *)
Lemma secure_read {t X} (r : ObjectRef t) (f : obj_data t -> SM (World St) X) Q K :
  K (entry_of r) ->
  (forall x, legible q obs x -> (forall e, refers t x e -> K e) -> secure Q K (f x)) ->
  (forall x1 x2 a w1 w2, obj_label t x1 = Some a -> obj_label t x2 = Some a -> ~ seen q obs a ->
     Sync q obs K w1 w2 -> view w1 !! ukey r = Some (to_vec x1) ->
     view w2 !! ukey r = Some (to_vec x2) -> two Q K (f x1 w1) (f x2 w2)) ->
  secure Q K (o ← obj_get r; x ← unwrap o; f x).
Proof.
  intros Hr Hseen Hunseen w1 w2 Hs.
  destruct (sync_alike _ _ _ _ _ Hs t r Hr) as (x1 & x2 & H1 & H2 & [Hl Hx] & Hrefs).
  rewrite (read_here r f x1 w1), (read_here r f x2 w2) by (try apply Hs; done).
  destruct (legible_dec (q := q) (obs := obs) x1) as [Hleg|Hleg].
  - rewrite <- (Hx Hleg). by apply Hseen; [|apply Hrefs|].
  - unfold legible in Hleg. destruct (obj_label t x1) as [a|] eqn:Ha; [|by destruct Hleg].
    by apply (Hunseen x1 x2 a w1 w2).
Qed.

Lemma secure_relabel (f : Buckle -> Buckle) K :
  secure anything K (modify (fun w => set_label (f (current_label w)) w)).
Proof.
  intros w1 w2 Hs. apply two_same; [done|]. rewrite <- (sync_label _ _ _ _ _ Hs).
  by apply sync_relabel.
Qed.
Lemma secure_raise l K : secure anything K (raise_label l).
Proof. exact (secure_relabel (lub l) K). Qed.
Lemma secure_unlabel {T : Type} (x : Labeled T) K : secure (fun _ y => y = data x) K (unlabel x).
Proof.
  apply (secure_then (R := covertly)); [apply secure_raise|intros [] K1 _; by apply secure_ret|].
  intros _. apply guar_ret.
Qed.
(** Unlabeling what is not seen taints both runs. *)
Lemma two_unlabel {T : Type} (x1 x2 : Labeled T) Q K w1 w2 :
  label x1 = label x2 -> ~ seen q obs (label x1) -> Sync q obs K w1 w2 ->
  two Q K (unlabel x1 w1) (unlabel x2 w2).
Proof.
  intros Hl Hx Hs. right. apply (parted_relabel q obs K w1 w2 _ _ Hs); apply unseen_raise; [done|].
  by rewrite <- Hl.
Qed.

Lemma secure_read_data {t} {X Y : Type} (r : ObjectRef t) (un : obj_data t -> Labeled X)
    (g : X -> SM (World St) Y) Q K :
  K (entry_of r) -> (forall x, obj_label t x = Some (label (un x))) ->
  (forall x K', learns K K' -> legible q obs x -> (forall e, refers t x e -> K' e) ->
     secure Q K' (g (data (un x)))) ->
  (forall d, Guar covertly (g d)) ->
  secure Q K (o ← obj_get r; x ← unwrap o; d ← unlabel (un x); g d).
Proof.
  intros Hr Hun Hseen Hg. apply secure_read; [done| |].
  - intros x Hleg Hrefs.
    apply (secure_bind (R := covertly) (fun _ y => y = data (un x))); [apply secure_unlabel| |done].
    intros y K' HK ->. apply Hseen; [done..|]. intros e He. by apply HK, Hrefs.
  - intros x1 x2 a w1 w2 H1 H2 Ha Hs _ _. rewrite Hun in H1, H2. injection H1 as <-.
    apply (two_bind (R := covertly) (fun _ _ => False)); [|done..].
    apply two_unlabel; [congruence|done..].
Qed.

(** The contents alone. *)
Lemma secure_read_only {t} {X : Type} (r : ObjectRef t) (un : obj_data t -> Labeled X) K :
  K (entry_of r) -> (forall x, obj_label t x = Some (label (un x))) ->
  secure anything K (o ← obj_get r; x ← unwrap o; unlabel (un x)).
Proof.
  intros Hr Hun. apply secure_read; [done| |].
  - intros x _ _. eapply secure_mono; [|apply secure_unlabel]. done.
  - intros x1 x2 a w1 w2 H1 H2 Ha Hs _ _. rewrite Hun in H1, H2. injection H1 as <-.
    apply two_unlabel; [congruence|done..].
Qed.

Definition knows_all (K : Knowledge) (es : gmap string DirEntry) : Prop :=
  forall n e, es !! n = Some e -> K e.
Lemma secure_dir_list (r : ObjectRef TDirectory) K :
  K (DirEntry.Directory r) -> secure knows_all K (dir_list r).
Proof.
  intros Hr. apply (secure_read_data (t := TDirectory) r (fun x => x)); [done|done| |].
  - intros x K' _ _ Hrefs. apply secure_ret. intros n e He. apply Hrefs. by exists n.
  - intros d. apply guar_ret.
Qed.
Lemma secure_file_read (r : ObjectRef TFile) K :
  K (DirEntry.File r) -> secure anything K (file_read r).
Proof. intros Hr. by apply (secure_read_only (t := TFile) r (fun x => x)). Qed.
Lemma secure_blob_read (r : ObjectRef TBlob) K :
  K (DirEntry.Blob r) -> secure anything K (blob_read r).
Proof. intros Hr. by apply (secure_read_only (t := TBlob) r (fun x => x)). Qed.
Lemma secure_service_to_invokable (r : ObjectRef TService) K :
  K (DirEntry.Service r) -> secure anything K (service_to_invokable r).
Proof. intros Hr. by apply (secure_read_only (t := TService) r (fun x => x)). Qed.

Definition knows_gate (K : Knowledge) (g : Gate) : Prop :=
  match g with Gate.Redirect r => K (DirEntry.Gate (rd_gate r)) | Gate.Direct _ => True end.
Lemma knows_gate_refers K (x : Labeled Gate) :
  (forall e, refers TGate x e -> K e) <-> knows_gate K (data x).
Proof.
  destruct x as [l [d|g]]; [done|]. split.
  - intros H. by apply (H (DirEntry.Gate (rd_gate g))).
  - intros H e He. cbn in He. by subst.
Qed.

Lemma secure_resolve_gate fuel cur p i d K :
  knows_gate K cur -> secure anything K (resolve_gate fuel cur p i d).
Proof.
  revert cur p i d K. induction fuel as [|fuel IH]; intros cur p i d K Hc; cbn [resolve_gate].
  { apply secure_nofuel. }
  destruct cur as [g|g]; [by apply secure_ret|].
  apply (secure_read_data (t := TGate) (rd_gate g) (fun x => x)); [exact Hc|done| |].
  - intros x K' _ _ Hx. by apply IH, knows_gate_refers.
  - intros x. apply g_resolve_gate, _.
Qed.
Lemma secure_gate_to_invokable fuel (r : ObjectRef TGate) K :
  K (DirEntry.Gate r) -> secure anything K (gate_to_invokable fuel r).
Proof.
  intros Hr. apply (secure_read_data (t := TGate) r (fun x => x)); [done|done| |].
  - intros x K' _ _ Hx. by apply secure_resolve_gate, knows_gate_refers.
  - intros x. apply g_resolve_gate, _.
Qed.

Lemma secure_gate_read (r : ObjectRef TGate) K :
  K (DirEntry.Gate r) -> secure knows_gate K (o ← obj_get r; g ← unwrap o; unlabel g).
Proof.
  intros Hr. apply (secure_read (t := TGate) r (fun x => unlabel x)); [exact Hr| |].
  - intros x _ Hx. eapply secure_mono; [|apply secure_unlabel]. intros K' g HK ->.
    apply knows_gate_refers. intros e He. by apply HK, Hx.
  - intros x1 x2 a w1 w2 H1 H2 Ha Hs _ _. injection H1 as <-. injection H2 as H2.
    by apply two_unlabel.
Qed.
(** The same when the absence of the gate is not a panic. *)
Lemma secure_gate_current (r : ObjectRef TGate) K :
  K (DirEntry.Gate r) ->
  secure (fun K o => forall g, o = Some g -> knows_gate K g) K
    (o ← obj_get r;
     match o with Some g => d ← unlabel g; mret (Some d) | None => mret None end).
Proof.
  intros Hr w1 w2 Hs.
  destruct (sync_alike _ _ _ _ _ Hs TGate r Hr) as (x1 & x2 & H1 & H2 & _).
  assert (Hd : secure (fun K o => forall g, o = Some g -> knows_gate K g) K
    (d ← (o ← obj_get r; g ← unwrap o; unlabel g); mret (Some d))).
  { apply (secure_bind (R := covertly) knows_gate); [by apply secure_gate_read| |intros; apply guar_ret].
    intros g K' _ Hg. apply secure_ret. by intros g' [= <-]. }
  specialize (Hd w1 w2 Hs).
  assert (E : forall w (x : Labeled Gate), quiet w -> view w !! ukey r = Some (to_vec (t := TGate) x) ->
    (o ← obj_get r; match o with Some g => d ← unlabel g; mret (Some d) | None => mret None end) w =
    (d ← (o ← obj_get r; g ← unwrap o; unlabel g); mret (Some d)) w).
  { intros w x Hq Hx. rewrite (bind_step _ _ _ _ _ (obj_get_run r w Hq)), Hx.
    cbn [mbind option_bind]. rewrite from_to_vec.
    erewrite bind_step; [|apply unlabel_run].
    erewrite bind_step; [done|]. rewrite (read_here r _ x w Hq Hx). apply unlabel_run. }
  rewrite (E w1 x1), (E w2 x2) by (try apply Hs; done). exact Hd.
Qed.

(** *** New objects *)

Lemma new_id_here {t} (x : obj_data t) u draws w :
  quiet w -> entropy w = u :: draws -> view w !! to_be 8 u = None ->
  exists w', set_new_id x w = (Val (ObjRef u), w') /\
    stored (set_entropy draws w) w' (<[to_be 8 u := to_vec x]> (view w)).
Proof.
  intros Hq He Hu. unfold set_new_id.
  rewrite (bind_step (gets entropy) _ w (entropy w) w), He by done. cbn [reserve_uid].
  destruct (add_run u [] (set_entropy draws w) Hq) as (w1 & E1 & Hq1 & Hv1 & He1 & Hl1 & Hp1).
  change (view (set_entropy draws w)) with (view w) in *.
  rewrite bool_decide_true in E1 by done. rewrite decide_True in Hv1 by done.
  destruct (obj_set_run (ObjRef u : ObjectRef t) x w1 Hq1) as (w2 & E2 & Hq2 & Hv2 & He2 & Hl2 & Hp2).
  exists w2. split.
  - erewrite bind_step; [|by rewrite (bind_step (modify _) _ w tt (set_entropy draws w)),
      (bind_step _ _ _ _ _ E1)]. cbv zeta. by rewrite (bind_step _ _ _ _ _ E2).
  - repeat split; try apply Hq2; try congruence.
    rewrite Hv2, Hv1. unfold ukey; cbn [uid]. by rewrite insert_insert_eq.
Qed.

Lemma secure_new {t} (x : obj_data t) K :
  covers q (to_vec x) -> (forall e, refers t x e -> K e) ->
  secure (fun K r => K (entry_of r)) K (set_new_id x).
Proof.
  intros Hc Hx w1 w2 Hs. pose proof (sync_entropy _ _ _ _ _ Hs) as He.
  pose proof (sync_fresh_left _ _ _ _ _ Hs) as F1. pose proof (sync_fresh_right _ _ _ _ _ Hs) as F2.
  destruct (entropy w1) as [|u draws] eqn:E.
  - assert (Hnone : forall w, entropy w = [] -> set_new_id x w = (NoFuel, w)).
    { intros w Ew. unfold set_new_id.
      by rewrite (bind_step (gets entropy) _ w (entropy w) w), Ew by done. }
    rewrite !Hnone by done. by apply two_same.
  - assert (Hu : u ∈ u :: draws) by by left.
    pose proof (proj2 F1 u Hu) as U1. pose proof (proj2 F2 u Hu) as U2.
    destruct (new_id_here x u draws w1) as (w1' & -> & Hq1 & Hv1 & He1 & Hl1 & Hp1);
      [apply Hs|done|done|].
    destruct (new_id_here x u draws w2) as (w2' & -> & Hq2 & Hv2 & He2 & Hl2 & Hp2);
      [apply Hs|done|done|].
    left. exists (learn (entry_of (ObjRef u : ObjectRef t)) K). cbn [fst snd].
    split_and!; [apply learn_learns|done|by intros r [= <-]; left|].
    destruct Hs as [(_ & Hi1 & Hc1) (_ & Hi2 & Hc2) _ _ _ Hl Hp Hroot Ha].
    constructor; rewrite ?Hv1, ?Hv2, ?He1, ?He2, ?Hl1, ?Hl2; try done.
    + split_and!; [done|by rewrite Hp1|rewrite Hv1; by apply covered_insert].
    + split_and!; [done|by rewrite Hp2|rewrite Hv2; by apply covered_insert].
    + by apply fresh_next.
    + by apply fresh_next.
    + by rewrite Hp1, Hp2.
    + by right.
    + by apply (alike_new K (view w1) (view w2) (ObjRef u : ObjectRef t)).
Qed.
(** *** Writes *)

Lemma sync_may_write K w1 w2 l : Sync q obs K w1 w2 -> may_write l w1 = may_write l w2.
Proof. intros []. unfold may_write. congruence. Qed.

Lemma secure_set {t} (r : ObjectRef t) (y : obj_data t) K :
  K (entry_of r) -> covers q (to_vec y) -> (forall e, refers t y e -> K e) ->
  secure anything K (obj_set r y).
Proof.
  intros Hr Hc Hy w1 w2 Hs.
  destruct (obj_set_run r y w1) as (w1' & -> & H1); [apply Hs|].
  destruct (obj_set_run r y w2) as (w2' & -> & H2); [apply Hs|].
  apply two_same; [done|].
  by apply (sync_insert _ _ _ _ _ _ _ r y y Hs Hr H1 H2).
Qed.

(** Replacing the data of a known object, when the label allows it: the answer depends on the
    label alone, which is the same in both runs. *)
Lemma secure_replace {t} {X E : Type} (r : ObjectRef t) (un : obj_data t -> Labeled X)
    (mk : Labeled X -> obj_data t) v (err : LabelError -> E) K :
  K (entry_of r) -> (forall x, obj_label t x = Some (label (un x))) ->
  (forall l, covers q (to_vec (mk (MkLabeled l v)))) ->
  (forall l e, refers t (mk (MkLabeled l v)) e -> K e) ->
  secure anything K
    (o ← obj_get r; x ← unwrap o; u ← labeled_write (un x) v;
     x' ?← mret (map_err err u); _ ← obj_set r (mk x'); mret (Ok tt)).
Proof.
  intros Hr Hun Hc Hrefs w1 w2 Hs.
  destruct (sync_alike _ _ _ _ _ Hs t r Hr) as (x1 & x2 & H1 & H2 & [Hl _] & _).
  rewrite !Hun in Hl. injection Hl as Hl.
  rewrite (read_here r _ x1 w1), (read_here r _ x2 w2) by (try apply Hs; done).
  rewrite !(bind_step _ _ _ _ _ (labeled_write_run _ v _)), <- Hl.
  rewrite <- (sync_may_write K w1 w2) by done.
  destruct (may_write (label (un x1)) w1); [|by apply two_same].
  unfold try_bind.
  rewrite !(bind_step (mret _) _ _ (Ok (MkLabeled (label (un x1)) v)) _) by done.
  destruct (obj_set_run r (mk (MkLabeled (label (un x1)) v)) w1) as (w1' & E1 & S1); [apply Hs|].
  destruct (obj_set_run r (mk (MkLabeled (label (un x1)) v)) w2) as (w2' & E2 & S2); [apply Hs|].
  rewrite (bind_step _ _ _ _ _ E1), (bind_step _ _ _ _ _ E2). apply two_same; [done|].
  apply (sync_insert _ _ _ _ _ _ _ r _ _ Hs Hr S1 S2); [done..|apply alike_refl_objects|].
  intros _ e He. by eapply Hrefs.
Qed.

(** The same without a change of error. *)
Lemma secure_replace_plain {t} {X : Type} (r : ObjectRef t) (un : obj_data t -> Labeled X)
    (mk : Labeled X -> obj_data t) v K :
  K (entry_of r) -> (forall x, obj_label t x = Some (label (un x))) ->
  (forall l, covers q (to_vec (mk (MkLabeled l v)))) ->
  (forall l e, ~ refers t (mk (MkLabeled l v)) e) ->
  secure anything K
    (o ← obj_get r; x ← unwrap o; x' ?← labeled_write (un x) v; _ ← obj_set r (mk x'); mret (Ok tt)).
Proof.
  intros Hr Hun Hc Hrefs.
  eapply secure_ext; [|apply (secure_replace r un mk v (fun e : LabelError => e)); [done..|]].
  - intros w. apply bind_ext. intros o w1. apply bind_ext. intros x w2. unfold try_bind.
    rewrite !(bind_step _ _ _ _ _ (labeled_write_run _ v _)). by destruct (may_write _ _).
  - intros l e He. by destruct (Hrefs l e).
Qed.

Lemma secure_file_write (r : ObjectRef TFile) d K :
  K (DirEntry.File r) -> secure anything K (file_write r d).
Proof.
  intros Hr. apply (secure_replace_plain (t := TFile) r (fun x => x) (fun x => x) d K Hr); [done| |].
  - intros l. by apply (covers_other (t := TFile)).
  - by intros l e [].
Qed.
Lemma secure_blob_replace (r : ObjectRef TBlob) b K :
  K (DirEntry.Blob r) -> secure anything K (blob_replace r b).
Proof.
  intros Hr. apply (secure_replace_plain (t := TBlob) r (fun x => x) (fun x => x) b K Hr); [done| |].
  - intros l. by apply (covers_other (t := TBlob)).
  - by intros l e [].
Qed.

(** What a check of privileges lets through is covered by [q]. *)
Lemma secure_delegate {A : Type} (c : Component) (m : SM (World St) (result A FsError)) Q K :
  (forall e, Q K (Err e)) -> (Implies q c -> secure Q K m) ->
  secure Q K (_ ?← check_delegate c; m).
Proof.
  intros He Hm w1 w2 Hs. unfold try_bind.
  rewrite !(bind_step _ _ _ _ _ (check_delegate_run c _)).
  rewrite <- (sync_privilege _ _ _ _ _ Hs).
  destruct (implies (thread_privilege w1) c) eqn:Hi; [|apply two_same; [by intros r [= <-]|done]].
  apply Hm; [|done]. etrans; [apply Hs|exact Hi].
Qed.

Lemma secure_gate_replace (r : ObjectRef TGate) g K :
  K (DirEntry.Gate r) -> knows_gate K g -> secure anything K (gate_replace r g).
Proof.
  intros Hr Hg. apply secure_delegate; [done|]. intros _.
  apply (secure_replace (t := TGate) r (fun x => x) (fun x => x)); [done|done| |].
  - intros l. by apply (covers_other (t := TGate)).
  - intros l e He. by apply (proj2 (knows_gate_refers K (MkLabeled l g)) Hg).
Qed.
Lemma secure_service_replace (r : ObjectRef TService) s K :
  K (DirEntry.Service r) -> secure anything K (service_replace r s).
Proof.
  intros Hr. apply secure_delegate; [done|]. intros Hp.
  apply (secure_replace (t := TService) r (fun x => x) (fun x => x)); [done|done| |].
  - intros l. by apply covers_service.
  - by intros l e [].
Qed.

Lemma secure_create {t} {X : Type} l ws (x : obj_data t) (f : ObjectRef t -> X) (P : Knowledge -> X -> Prop) K :
  ((forall c, In c ws -> Implies q c) -> covers q (to_vec x)) ->
  (forall e, refers t x e -> K e) -> (forall K' r, K' (entry_of r) -> P K' (f r)) ->
  secure (fun K r => if_ok (fun a _ => P K a) r ∅) K
    (_ ?← check_create l ws; r ← set_new_id x; mret (Ok (f r))).
Proof.
  intros Hc Hx HP w1 w2 Hs. unfold try_bind.
  rewrite !(bind_step _ _ _ _ _ (check_create_run l ws _)).
  rewrite <- (sync_may_write K w1 w2), <- (sync_privilege _ _ _ _ _ Hs) by done.
  destruct (negb _); [by apply two_same; [by intros r [= <-]|]|].
  destruct (forallb _ ws) eqn:Hf; [|by apply two_same; [by intros r [= <-]|]].
  eapply (two_bind (R := covertly)); [apply secure_new; [apply Hc|exact Hx|exact Hs]| |].
  - intros c Hin. etrans; [apply Hs|]. by apply (proj1 (forallb_forall _ ws) Hf).
  - intros r K' _ Hr. by apply secure_ret, HP.
  - intros r. apply guar_ret.
Qed.
Local Abbreviation knows_result := (fun (K : Knowledge) (r : result DirEntry FsError) =>
  if_ok (fun e _ => K e) r ∅).

Lemma secure_direct_gate l g K : secure knows_result K (create_direct_gate l g).
Proof.
  apply (secure_create (t := TGate) _ _ _ DirEntry.Gate (fun K e => K e)); [|by intros e []|done].
  intros _. by apply (covers_other (t := TGate)).
Qed.
Lemma secure_redirect_gate l g K :
  K (DirEntry.Gate (rd_gate g)) -> secure knows_result K (create_redirect_gate l g).
Proof.
  intros Hg. apply (secure_create (t := TGate) _ _ _ DirEntry.Gate (fun K e => K e)); [| |done].
  - intros _. by apply (covers_other (t := TGate)).
  - intros e He. cbn in He. by subst.
Qed.
Lemma secure_create_service l s K : secure knows_result K (create_service l s).
Proof.
  apply (secure_create (t := TService) _ _ _ DirEntry.Service (fun K e => K e)); [|by intros e []|done].
  intros H. apply covers_service, H. by left.
Qed.

(** *** Directories *)

Lemma dir_write_unseen (b : bool) (r : ObjectRef TDirectory) (x : Labeled Directory) d w :
  watched q w -> view w !! ukey r = Some (to_vec (t := TDirectory) x) -> ~ seen q obs (label x) ->
  let m := if b then <[ukey r := to_vec (t := TDirectory) (MkLabeled (label x) d)]> (view w)
           else view w in
  covered q m /\ covert q obs (view w) m.
Proof.
  intros (_ & _ & Hc) Hx Hl. destruct b; cbn; [|by split].
  split; [|by apply (covert_insert (t := TDirectory) (view w) r x _ (label x))].
  apply covered_insert; [done|]. by apply (covers_other (t := TDirectory)).
Qed.

(** What [link] and [unlink] do to a directory puts no other reference into it than [e]. *)
Lemma secure_dir_loop (r : ObjectRef TDirectory) f stop K :
  K (DirEntry.Directory r) ->
  (forall d n e, entries (f d).2 !! n = Some e -> K e \/ exists n', entries d !! n' = Some e) ->
  secure anything K
    (o ← obj_get r; prev ← unwrap o; fuel ← gets cas_fuel; dir_update fuel r f stop prev).
Proof.
  intros Hr Hf w1 w2 Hs.
  destruct (sync_alike _ _ _ _ _ Hs TDirectory r Hr) as (x1 & x2 & H1 & H2 & [Hl Hx] & Hrefs).
  injection Hl as Hl. change (seen q obs (label (x1 : Labeled Directory)) -> x1 = x2) in Hx.
  change (Labeled Directory) in x1, x2.
  destruct (dir_loop_run r f stop x1 w1) as (w1' & E1 & S1); [apply Hs|done|].
  destruct (dir_loop_run r f stop x2 w2) as (w2' & E2 & S2); [apply Hs|done|].
  rewrite E1, E2. clear E1 E2.
  destruct (seen_dec (q := q) (obs := obs) (label x1)) as [Hseen|Hseen].
  - rewrite <- (Hx Hseen) in *. clear x2 H2 Hl Hx.
    set (l1 := label x1) in *.
    assert (Hs' : Sync q obs K (set_label (lub l1 (current_label w1)) w1)
                               (set_label (lub l1 (current_label w2)) w2)).
    { rewrite <- (sync_label _ _ _ _ _ Hs). by apply sync_relabel. }
    pose proof (sync_may_write _ _ _ l1 Hs') as Hm. rewrite <- Hm in S2 |- *.
    apply two_same; [done|]. destruct (_ && _).
    + eapply (sync_insert q obs _ _ _ _ _ r _ _ Hs' Hr S1 S2);
        [by apply (covers_other (t := TDirectory))..|apply alike_refl_objects|].
      intros _ e [n He]. destruct (Hf _ _ _ He) as [?|[n' He']]; [done|].
      apply (Hrefs Hseen). by exists n'.
    + apply (sync_stored q obs _ _ _ _ _ _ _ Hs' S1 S2); apply Hs'.
  - right. 
    pose proof (fun b => dir_write_unseen b r x1 (f (data x1)).2 w1 (sync_left _ _ _ _ _ Hs) H1 Hseen) as U1.
    assert (Hseen' : ~ seen q obs (label x2)) by (intros H; apply Hseen; exact (eq_ind_r _ H Hl)).
    pose proof (fun b => dir_write_unseen b r x2 (f (data x2)).2 w2 (sync_right _ _ _ _ _ Hs) H2 Hseen') as U2.
    eapply (parted_unseen q obs K w1 w2 _ _ _ _ _ _ Hs); [| |exact S1|exact S2|..];
      [by apply unseen_raise|by apply unseen_raise|apply U1|apply U2|apply U1|apply U2].
Qed.

Lemma secure_dir_link (r : ObjectRef TDirectory) n e K :
  K (DirEntry.Directory r) -> K e -> secure anything K (dir_link r n e).
Proof.
  intros Hr He. apply secure_dir_loop; [done|]. intros d n' e' H. cbn in H.
  apply lookup_insert_Some in H as [[_ <-]|[_ H]]; [by left|right; by exists n'].
Qed.
Lemma secure_dir_unlink (r : ObjectRef TDirectory) n K :
  K (DirEntry.Directory r) -> secure anything K (dir_unlink r n).
Proof.
  intros Hr. apply secure_dir_loop; [done|]. intros d n' e' H. cbn in H.
  apply lookup_delete_Some in H as [_ H]. right; by exists n'.
Qed.

(** *** Faceted directories *)

Definition knows_facets (K : Knowledge) (fs : list (Buckle * ObjectRef TDirectory)) : Prop :=
  forall p, p ∈ fs -> K (DirEntry.Directory p.2).
Lemma find_facet_knows K facet fs d :
  knows_facets K fs -> find_facet facet fs = Some d -> K (DirEntry.Directory d).
Proof.
  intros Hk Hd. unfold find_facet in Hd. destruct (List.find _ _) as [p|] eqn:Hp; [|done].
  injection Hd as <-. apply List.find_some in Hp as [Hp _]. by apply Hk, list_elem_of_In.
Qed.

(** Both runs find the same facets in a known faceted directory. *)
Lemma secure_faceted_get (r : ObjectRef TFaceted) K :
  K (DirEntry.FacetedDirectory r) ->
  secure (fun K o => knows_facets K (default [] (facets <$> o))) K (obj_get r).
Proof.
  intros Hr w1 w2 Hs.
  destruct (sync_alike _ _ _ _ _ Hs TFaceted r Hr) as (fd & x2 & H1 & H2 & [_ Hx] & Hrefs).
  specialize (Hx I). subst x2. specialize (Hrefs I).
  rewrite !obj_get_run, H1, H2 by apply Hs. apply two_same; [|done].
  intros o [= <-]. cbn [mbind option_bind]. rewrite from_to_vec. intros p Hp. apply Hrefs. by exists p.
Qed.
Lemma secure_faceted_cas (r : ObjectRef TFaceted) m (fd : FacetedDirectory) K :
  K (DirEntry.FacetedDirectory r) -> knows_facets K (facets fd) ->
  secure (fun K res => match res with
                       | Ok _ => True
                       | Err o => knows_facets K (default [] (facets <$> o))
                       end) K (obj_cas r m fd).
Proof.
  intros Hr Hfd w1 w2 Hs.
  destruct (sync_alike _ _ _ _ _ Hs TFaceted r Hr) as (fd' & x2 & H1 & H2 & [_ Hx] & Hrefs).
  specialize (Hx I). subst x2. specialize (Hrefs I).
  destruct (obj_cas_run r m fd w1) as (w1' & -> & S1); [apply Hs|].
  destruct (obj_cas_run r m fd w2) as (w2' & -> & S2); [apply Hs|].
  rewrite H1 in S1 |- *. rewrite H2 in S2 |- *. apply two_same.
  - clear S1 S2. intros a [= <-]. case_decide; [done|]. cbn [mbind option_bind].
    rewrite from_to_vec. intros p Hp. apply Hrefs. by exists p.
  - cbn [snd]. revert S1 S2. case_decide; intros S1 S2.
    + apply (sync_insert q obs _ _ _ _ _ r (fd : obj_data TFaceted) fd Hs Hr S1 S2);
        [by apply (covers_other (t := TFaceted))..|apply alike_refl_objects|].
      intros _ e (p & Hp & ->). by apply Hfd.
    + apply (sync_stored q obs _ _ _ _ _ _ _ Hs S1 S2); apply Hs.
Qed.

Lemma covertly_faceted_cas (r : ObjectRef TFaceted) m added :
  Guar covertly (obj_cas r m (MkFaceted (default [] (facets <$> m) ++ added))).
Proof.
  intros w. apply mediated_covertly, (mediated_cas (t := TFaceted)).
  - intros x ->. unfold may_replace. cbn. eauto.
  - by apply (granted_other _ (t := TFaceted)).
Qed.

Lemma secure_open_loop fuel (r : ObjectRef TFaceted) facet m K :
  K (DirEntry.FacetedDirectory r) -> knows_facets K (default [] (facets <$> m)) ->
  secure (fun K d => K (DirEntry.Directory d)) K (faceted_open_loop fuel r facet m).
Proof.
  revert m K. induction fuel as [|fuel IH]; intros m K Hr Hm; cbn [faceted_open_loop].
  { apply secure_nofuel. }
  destruct (m ≫= _) as [d|] eqn:Hd.
  { apply secure_ret. destruct m as [fd|]; [|done]. by apply (find_facet_knows K facet (facets fd)). }
  apply (secure_bind (R := covertly) (fun K d => K (DirEntry.Directory d))).
  - apply (secure_new (t := TDirectory) (MkLabeled facet (MkDirectory ∅)));
      [by apply (covers_other (t := TDirectory))|by intros e [n He]].
  - intros d K' HK Hd'. cbv zeta. eapply (secure_bind (R := covertly)).
    + apply secure_faceted_cas; [by apply HK|]. cbn [facets]. intros p [Hp|Hp]%elem_of_app.
      * by apply HK, Hm.
      * apply list_elem_of_singleton in Hp as ->. done.
    + intros [[]|o] K2 HK2 Ho; [apply secure_ret; by apply HK2|]. apply IH; [by apply HK2, HK|done].
    + intros [|]; [apply guar_ret|apply prim_open].
  - intros d. apply guar_bind; [apply covertly_faceted_cas|].
    intros [|]; [apply guar_ret|apply prim_open].
Qed.
Lemma secure_cas_fuel K : secure (fun _ fuel => fuel = 1%nat) K (gets cas_fuel).
Proof.
  apply secure_gets. intros w1 w2 Hs. unfold cas_fuel.
  destruct (sync_left _ _ _ _ _ Hs) as ([-> _] & _).
  by destruct (sync_right _ _ _ _ _ Hs) as ([-> _] & _).
Qed.

Lemma secure_faceted_open (r : ObjectRef TFaceted) facet K :
  K (DirEntry.FacetedDirectory r) ->
  secure (fun K d => K (DirEntry.Directory d)) K (faceted_open r facet).
Proof.
  intros Hr. eapply (secure_bind (R := covertly)); [by apply secure_faceted_get| |].
  - intros m K1 H1 Hm. eapply (secure_bind (R := covertly)); [apply secure_cas_fuel| |].
    + intros fuel K2 H2 _. apply secure_open_loop; [by apply H2, H1|].
      intros p Hp. by apply H2, Hm.
    + intros fuel. apply prim_open.
  - intros m. apply guar_bind; [apply guar_gets|]. intros fuel. apply prim_open.
Qed.

Lemma secure_faceted_list (r : ObjectRef TFaceted) clearance K :
  K (DirEntry.FacetedDirectory r) ->
  secure (fun K m => forall l d, m !! l = Some d -> K (DirEntry.Directory d)) K
    (faceted_list r clearance).
Proof.
  intros Hr. apply (secure_then (R := covertly)).
  - exact (secure_relabel (fun l => lub l clearance) K).
  - intros [] K1 H1. eapply (secure_bind (R := covertly)); [by apply secure_faceted_get, H1| |].
    + intros [fd|] K2 H2 Hfd; [|apply secure_panic].
      intros w1 w2 Hs. cbn [unwrap]. rewrite !(bind_step (mret fd) _ _ fd _) by done.
      apply two_same; [|done]. intros m [= <-] l d Hd.
      destruct (facets_up_to_from _ _ _ _ _ Hd) as [Hd'|(p & Hp & ->)]; [by rewrite lookup_empty in Hd'|].
      by apply Hfd.
    + intros o. solve_guar.
  - intros []. solve_guar.
Qed.
(** *** What [FS] adds for single objects *)

Lemma secure_create_file l K : secure (fun K e => K e) K (create_file l).
Proof.
  apply (secure_bind (R := covertly) (fun K (r : ObjectRef TFile) => K (DirEntry.File r))).
  - apply (secure_new (t := TFile)); [by apply (covers_other (t := TFile))|by intros e []].
  - intros r K' _ Hr. by apply secure_ret.
  - intros r. apply guar_ret.
Qed.
Lemma secure_create_directory l K : secure (fun K e => K e) K (create_directory l).
Proof.
  apply (secure_bind (R := covertly) (fun K (r : ObjectRef TDirectory) => K (DirEntry.Directory r))).
  - apply (secure_new (t := TDirectory) (MkLabeled l (MkDirectory ∅)));
      [by apply (covers_other (t := TDirectory))|by intros e [n He]].
  - intros r K' _ Hr. by apply secure_ret.
  - intros r. apply guar_ret.
Qed.
Lemma secure_create_faceted_directory K : secure (fun K e => K e) K create_faceted_directory.
Proof.
  apply (secure_bind (R := covertly) (fun K (r : ObjectRef TFaceted) => K (DirEntry.FacetedDirectory r))).
  - apply (secure_new (t := TFaceted)); [by apply (covers_other (t := TFaceted))|].
    intros e (p & Hp & _). by apply not_elem_of_nil in Hp.
  - intros r K' _ Hr. by apply secure_ret.
  - intros r. apply guar_ret.
Qed.
Lemma secure_create_blob l n K : secure knows_result K (create_blob l n).
Proof.
  apply (secure_bind (R := covertly) (fun K (r : ObjectRef TBlob) => K (DirEntry.Blob r))).
  - apply (secure_new (t := TBlob)); [by apply (covers_other (t := TBlob))|by intros e []].
  - intros r K1 H1 Hr. apply (secure_then (R := covertly)).
    + by apply secure_blob_replace.
    + intros w K2 H2. unfold try_bind. apply (secure_then (R := covertly)); [by apply secure_ret| |].
      * intros [|e] K3 H3; apply secure_ret; [by apply H3, H2|done].
      * intros [|]; apply guar_ret.
    + intros w. solve_guar.
  - intros r. solve_guar.
Qed.

Lemma secure_locals {A : Type} (f : Buckle -> Component -> A) K :
  secure anything K (gets (fun w => f (current_label w) (thread_privilege w))).
Proof.
  apply secure_gets. intros w1 w2 Hs. split; [|done].
  by rewrite (sync_label _ _ _ _ _ Hs), (sync_privilege _ _ _ _ _ Hs).
Qed.
Lemma secure_taint l K : secure anything K (taint_with_label l).
Proof.
  apply (secure_then (R := covertly)); [exact (secure_relabel (fun c => lub c l) K)| |].
  - intros _ K' _. exact (secure_locals (fun c _ => c) K').
  - intros _. apply guar_gets.
Qed.
Lemma secure_declassify c K : secure anything K (declassify_with c).
Proof.
  apply (secure_then (R := covertly)); [exact (secure_relabel (fun l => downgrade l c) K)| |].
  - intros _ K' _. exact (secure_locals (fun c _ => c) K').
  - intros _. apply guar_gets.
Qed.
End objects.
