(* ===== verification/Paths.v ===== *)
(** * Textual paths ([snapfaas/src/fs/path.rs])

    [Path::parse] and the accessors of [Path].  A Rust string is a Rocq [string] (its UTF-8
    bytes); the delimiters are ASCII, so splitting bytes is splitting characters.  The regular
    expression [^<(.+)>$] is written out: an opening bracket, at least one character and no
    line feed, a closing bracket. *)

From Stdlib Require Import Ascii String.
From stdpp Require Import base tactics option list gmap strings countable.
From S2P Require Import Prelude Labels Store FsTypes Objects Fs.
Local Open Scope string_scope.
Local Open Scope list_scope.

Module PathError.
Inductive Error : Set := InvalidName | InvalidFacet.
End PathError.

Abbreviation chars := list_ascii_of_string.
Abbreviation str := string_of_list_ascii.

Definition colon : ascii := ":"%char.
Definition newline : ascii := "010"%char.

(** ** [str::trim_matches] and [str::split] at one character *)

Fixpoint trim_start (c : ascii) (l : list ascii) : list ascii :=
  match l with
  | a :: r => if decide (a = c) then trim_start c r else l
  | [] => []
  end.
Definition trim_matches (c : ascii) (l : list ascii) : list ascii :=
  rev (trim_start c (rev (trim_start c l))).

Fixpoint split_on (c : ascii) (l : list ascii) : list (list ascii) :=
  match l with
  | [] => [[]]
  | a :: r =>
      if decide (a = c) then [] :: split_on c r
      else match split_on c r with
           | x :: xs => (a :: x) :: xs
           | [] => [[a]]
           end
  end.

(** ** The capture of [label_re] *)

Definition label_capture (c : list ascii) : option (list ascii) :=
  match c with
  | a :: r =>
      match rev r with
      | z :: m =>
          if decide (a = "<"%char /\ z = ">"%char /\ m <> [] /\ newline ∉ m)
          then Some (rev m) else None
      | [] => None
      end
  | [] => None
  end.

Section parse.
Context {St : Type} `{L : !LabelOps}.

Local Abbreviation M := (SM (World St)).

(** One iteration of the [for] loop: [is_match], then the capture. *)
Definition parse_component (c : list ascii) : M (result PathComponent PathError.Error) :=
  if decide (c = ["%"%char]) then
    l ← get_current_label; mret (Ok (PathComponent.Facet l))
  else
    match label_capture c with
    | Some lblstr =>
        mret (match buckle_parse (str lblstr) with
              | Some f => Ok (PathComponent.Facet f)
              | None => Err PathError.InvalidFacet
              end)
    | None => mret (Ok (PathComponent.Dscrp (str c)))
    end.

Fixpoint parse_components (cs : list (list ascii)) : M (result Path PathError.Error) :=
  match cs with
  | [] => mret (Ok [])
  | c :: cs =>
      p ?← parse_component c;
      ps ?← parse_components cs;
      mret (Ok (p :: ps))
  end.

(** [cs.peek().unwrap()] panics when there is no piece. *)
Definition Path_parse (input : string) : M (result Path PathError.Error) :=
  let cs := split_on colon (trim_matches colon (chars input)) in
  match cs with
  | [] => panic
  | [] :: _ => mret (Ok [])
  | ["~"%char] :: cs =>
      u ← get_ufacet;
      ps ?← parse_components cs;
      mret (Ok (PathComponent.Dscrp "home" :: PathComponent.Facet u :: ps))
  | _ => parse_components cs
  end.
End parse.

Definition Path_root : Path := [].

Definition Path_parent (p : Path) : option Path :=
  match rev p with
  | _ :: r => match r with [] => None | _ => Some (rev r) end
  | [] => None
  end.

Definition Path_file_name (p : Path) : option string :=
  match rev p with
  | PathComponent.Dscrp s :: _ => Some s
  | _ => None
  end.

Definition push_dscrp (p : Path) (s : string) : Path := p ++ [PathComponent.Dscrp s].

(** ** Splitting and joining *)

(** [join c ts]: the texts [ts] with [c] between each two. *)
Fixpoint join (c : ascii) (ts : list (list ascii)) : list ascii :=
  match ts with
  | [] => []
  | [t] => t
  | t :: ts => t ++ c :: join c ts
  end.

Lemma split_on_app c t l :
  c ∉ t -> split_on c (t ++ c :: l) = t :: split_on c l.
Proof.
  induction t as [|a t IH]; cbn; intros Hc; [by rewrite decide_True|].
  apply not_elem_of_cons in Hc as [Ha Ht]. rewrite decide_False by congruence.
  by rewrite IH.
Qed.

Lemma split_on_none c t : c ∉ t -> split_on c t = [t].
Proof.
  induction t as [|a t IH]; cbn; intros Hc; [done|].
  apply not_elem_of_cons in Hc as [Ha Ht]. rewrite decide_False by congruence.
  by rewrite IH.
Qed.

Lemma split_join c ts :
  ts <> [] -> Forall (fun t => c ∉ t) ts -> split_on c (join c ts) = ts.
Proof.
  induction ts as [|t ts IH]; [done|]. intros _ [Ht Hts]%Forall_cons_iff.
  destruct ts as [|t' ts]; [by apply split_on_none|].
  change (join c (t :: t' :: ts)) with (t ++ c :: join c (t' :: ts)).
  rewrite split_on_app by done. by rewrite IH.
Qed.

Lemma split_on_cons c l : exists t ts, split_on c l = t :: ts.
Proof. destruct l as [|a l]; cbn; [eauto|]. case_decide; [eauto|]. destruct (split_on c l); eauto. Qed.

Lemma join_split c l : join c (split_on c l) = l.
Proof.
  induction l as [|a l IH]; [done|]. cbn [split_on].
  destruct (split_on_cons c l) as (t & ts & E). rewrite E. rewrite E in IH.
  case_decide as Ha; [by rewrite <- IH, Ha|]. rewrite <- IH. by destruct ts.
Qed.

Lemma split_on_free c l : Forall (fun t => c ∉ t) (split_on c l).
Proof.
  induction l as [|a l IH]; cbn [split_on]; [repeat constructor; set_solver|].
  case_decide as Ha; [constructor; [set_solver|done]|].
  destruct (split_on c l) as [|t ts]; [repeat constructor; set_solver|].
  apply Forall_cons_iff in IH as [Ht Hts]. constructor; [|done]. set_solver.
Qed.

(** Trimming takes characters off both ends, and all there are. *)
Lemma trim_start_spec c l : exists n, l = repeat c n ++ trim_start c l.
Proof.
  induction l as [|a l [n IH]]; [by exists O|]. cbn. case_decide as Ha; [|by exists O].
  exists (S n). cbn. by rewrite <- IH, Ha.
Qed.
Lemma trim_start_head c l : head (trim_start c l) <> Some c.
Proof. induction l as [|a l IH]; cbn; [done|]. case_decide; [done|]. cbn. congruence. Qed.

(** Trimming leaves a text alone that neither starts nor ends with the character. *)
Lemma trim_start_id c l : head l <> Some c -> trim_start c l = l.
Proof. destruct l as [|a l]; cbn; [done|]. intros H. rewrite decide_False; congruence. Qed.

Lemma trim_start_repeat c n l : trim_start c (repeat c n ++ l) = trim_start c l.
Proof. induction n as [|n IH]; cbn; [done|]. by rewrite decide_True. Qed.

Lemma head_rev {A} (l : list A) : head (rev l) = list.last l.
Proof.
  induction l as [|a l IH]; [done|]. cbn [rev]. rewrite list.last_cons, <- IH.
  by destruct (rev l).
Qed.

Lemma trim_matches_pad c n k l :
  head l <> Some c -> list.last l <> Some c ->
  trim_matches c (repeat c n ++ l ++ repeat c k) = l.
Proof.
  intros Hh Hl. unfold trim_matches. rewrite trim_start_repeat.
  destruct (decide (l = [])) as [->|Hne].
  - cbn. rewrite <- (app_nil_r (repeat c k)), trim_start_repeat. done.
  - rewrite (trim_start_id _ (l ++ _)) by (by destruct l).
    rewrite rev_app_distr, rev_repeat, trim_start_repeat, trim_start_id, rev_involutive; [done|].
    by rewrite head_rev.
Qed.

Lemma last_trim_start c l : list.last (trim_start c l) = list.last l \/ trim_start c l = [].
Proof.
  induction l as [|a l IH]; cbn [trim_start]; [by right|]. case_decide; [|by left].
  destruct IH as [IH|IH]; [|by right]. destruct (trim_start c l) as [|b m] eqn:E; [by right|].
  left. rewrite IH. by destruct l.
Qed.
Lemma trim_matches_spec c l :
  exists n k, l = repeat c n ++ trim_matches c l ++ repeat c k /\
    head (trim_matches c l) <> Some c /\ list.last (trim_matches c l) <> Some c.
Proof.
  destruct (trim_start_spec c l) as [n E1].
  destruct (trim_start_spec c (rev (trim_start c l))) as [k E2].
  exists n, k. unfold trim_matches. split_and!.
  - rewrite E1 at 1. f_equal. rewrite <- (rev_involutive (trim_start c l)), E2 at 1.
    by rewrite rev_app_distr, rev_repeat.
  - rewrite head_rev. destruct (last_trim_start c (rev (trim_start c l))) as [->|Hn].
    + rewrite <- head_rev, rev_involutive. apply trim_start_head.
    + by rewrite Hn.
  - rewrite <- head_rev, rev_involutive. apply trim_start_head.
Qed.

Lemma head_join c t ts : t <> [] -> head (join c (t :: ts)) = head t.
Proof. destruct t as [|a t]; [done|]. by destruct ts. Qed.

Lemma last_join c ts t : t <> [] -> list.last (join c (ts ++ [t])) = list.last t.
Proof.
  intros Ht. induction ts as [|t' ts IH]; [done|].
  cbn [app]. change (t' :: ts ++ [t]) with ([t'] ++ (ts ++ [t])).
  destruct (ts ++ [t]) as [|u us] eqn:E; [by destruct ts|].
  change (join c ([t'] ++ u :: us)) with (t' ++ c :: join c (u :: us)).
  rewrite list.last_app, list.last_cons, IH. destruct (list.last t) eqn:El; [done|].
  apply list.last_None in El. done.
Qed.

(** ** The grammar *)

Section grammar.
Context {St : Type} `{L : !LabelOps}.
Implicit Types w : World St.

(** A label between angle brackets. *)
Definition bracketed (t l : list ascii) : Prop :=
  t = "<"%char :: l ++ [">"%char] /\ l <> [] /\ newline ∉ l.

(** What one piece between colons stands for. *)
Inductive token w : list ascii -> PathComponent -> Prop :=
  | token_current : token w ["%"%char] (PathComponent.Facet (current_label w))
  | token_label t l f :
      bracketed t l -> buckle_parse (str l) = Some f -> token w t (PathComponent.Facet f)
  | token_name t :
      t <> ["%"%char] -> (forall l, ~ bracketed t l) -> token w t (PathComponent.Dscrp (str t)).

(** What the pieces of a path stand for: a leading [~] is the caller's home facet. *)
Inductive denotes w : list (list ascii) -> Path -> Prop :=
  | denotes_home ts ps :
      Forall2 (token w) ts ps ->
      denotes w (["~"%char] :: ts)
        (PathComponent.Dscrp "home"
          :: PathComponent.Facet (MkBuckle (thread_privilege w) (thread_privilege w)) :: ps)
  | denotes_plain t ts ps :
      t <> ["~"%char] -> Forall2 (token w) (t :: ts) ps -> denotes w (t :: ts) ps.

(** The grammar of path texts: pieces without colons, the first and the last not empty, joined
    by colons, and any number of colons before and after; only colons are the root. *)
Inductive path_text w : list ascii -> Path -> Prop :=
  | text_root n : path_text w (repeat colon n) []
  | text_pieces n k ts ps :
      Forall (fun t => colon ∉ t) ts -> head ts <> Some [] -> list.last ts <> Some [] ->
      denotes w ts ps ->
      path_text w (repeat colon n ++ join colon ts ++ repeat colon k) ps.

Lemma label_capture_label t :
  t <> [] -> newline ∉ t -> label_capture ("<"%char :: t ++ [">"%char]) = Some t.
Proof.
  intros Hne Hn. cbn [label_capture]. rewrite rev_app_distr. cbn [rev app].
  rewrite decide_True; [by rewrite rev_involutive|]. split_and!; try done.
  - intros E. apply Hne. by rewrite <- (rev_involutive t), E.
  - by rewrite list_elem_of_In, <- in_rev, <- list_elem_of_In.
Qed.

Lemma label_capture_spec t l : label_capture t = Some l <-> bracketed t l.
Proof.
  split; [|intros (-> & ? & ?); by apply label_capture_label].
  destruct t as [|a r]; [done|]. cbn [label_capture].
  destruct (rev r) as [|z m] eqn:E; [done|]. case_decide as Hd; [|done].
  intros [= <-]. destruct Hd as (-> & -> & Hm & Hn).
  rewrite <- (rev_involutive r), E. cbn [rev]. split_and!; [done| |].
  - intros H. apply Hm. by rewrite <- (rev_involutive m), H.
  - by rewrite list_elem_of_In, <- in_rev, <- list_elem_of_In.
Qed.
Lemma label_capture_none t : label_capture t = None <-> forall l, ~ bracketed t l.
Proof.
  split; [by intros E l ?%label_capture_spec; congruence|]. intros H.
  destruct (label_capture t) as [l|] eqn:E; [|done]. by apply label_capture_spec, H in E.
Qed.

Lemma parse_component_token w c p :
  parse_component c w = (Val (Ok p), w) <-> token w c p.
Proof.
  unfold parse_component. split.
  - case_decide as Hc; [subst; intros [= <-]; constructor|].
    destruct (label_capture c) as [t|] eqn:E.
    + apply label_capture_spec in E.
      destruct (buckle_parse (str t)) eqn:Ep; intros [= <-]; by eapply token_label.
    + intros [= <-]. constructor; [done|by apply label_capture_none].
  - intros [|t l f Hb Hp|t Hc Hl%label_capture_none].
    + by rewrite decide_True.
    + rewrite decide_False by (destruct Hb as (-> & _); by destruct l).
      apply label_capture_spec in Hb. by rewrite Hb, Hp.
    + by rewrite decide_False, Hl.
Qed.

Lemma parse_component_pure w c :
  exists r, parse_component c w = (Val r, w) /\ (forall e, r = Err e -> e = PathError.InvalidFacet).
Proof.
  unfold parse_component. case_decide; [eexists; by split|].
  destruct (label_capture c) as [t|]; [|eexists; by split].
  destruct (buckle_parse (str t)); eexists; (split; [done|]); by intros e [= <-].
Qed.

Lemma parse_components_pure w cs :
  exists r, parse_components cs w = (Val r, w) /\
    (forall e, r = Err e -> e = PathError.InvalidFacet) /\
    (forall ps, r = Ok ps <-> Forall2 (token w) cs ps).
Proof.
  induction cs as [|c cs IH].
  - exists (Ok []). split_and!; try done. intros ps. split.
    + intros [= <-]. constructor.
    + by intros ->%list.Forall2_nil_inv_l.
  - destruct IH as (r & E & He & Hps). destruct (parse_component_pure w c) as (rc & Ec & Hec).
    cbn [parse_components]. unfold try_bind. rewrite (bind_step _ _ _ _ _ Ec).
    assert (Htok : forall p, rc = Ok p <-> token w c p).
    { intros p. rewrite <- parse_component_token, Ec. split; [by intros ->|by intros [= ->]]. }
    destruct rc as [p|e].
    + rewrite (bind_step _ _ _ _ _ E). destruct r as [ps|e]; eexists; (split; [done|]).
      * split; [done|]. intros ps'. split.
        -- intros [= <-]. constructor; [by apply Htok | by apply Hps].
        -- intros (p' & ps'' & Hp & Hr & ->)%list.Forall2_cons_inv_l.
           apply Htok in Hp. apply Hps in Hr. congruence.
      * split; [by intros ? [= <-]; apply He|]. intros ps'. split; [done|].
        intros (p' & ps'' & Hp & Hr & ->)%list.Forall2_cons_inv_l. apply Hps in Hr. congruence.
    + eexists; split; [done|]. split; [by intros ? [= <-]; apply Hec|]. intros ps'. split; [done|].
      intros (p' & ps'' & Hp & Hr & ->)%list.Forall2_cons_inv_l. apply Htok in Hp. congruence.
Qed.

Lemma parse_components_ok w cs ps :
  parse_components cs w = (Val (Ok ps), w) <-> Forall2 (token w) cs ps.
Proof.
  destruct (parse_components_pure w cs) as (r & E & _ & H). rewrite E, <- H.
  split; [by intros [= ->] | by intros ->].
Qed.

(** The pieces the parser works on. *)
Lemma pieces_join ts n k :
  ts <> [] -> Forall (fun t => colon ∉ t) ts -> head ts <> Some [] -> list.last ts <> Some [] ->
  split_on colon (trim_matches colon
    (chars (str (repeat colon n ++ join colon ts ++ repeat colon k)))) = ts.
Proof.
  intros Hne Hc Hh Hl. rewrite list_ascii_of_string_of_list_ascii.
  rewrite trim_matches_pad; [by apply split_join| |].
  - destruct ts as [|t ts]; [done|]. cbn in Hh. rewrite head_join by (by intros ->).
    apply Forall_cons_iff in Hc as [Hc _]. intros Ht. destruct t as [|a t]; [done|].
    cbn in Ht. injection Ht as ->. apply Hc. by left.
  - destruct (exists_last Hne) as (ts' & t & ->). rewrite list.last_snoc in Hl.
    rewrite last_join by (by intros ->). apply Forall_app in Hc as [_ Hc].
    apply Forall_cons_iff in Hc as [Hc _]. intros Ht. apply Hc.
    by apply list.last_Some_elem_of.
Qed.
End grammar.

Section path_theorems.
Context {St : Type} `{L : !LabelOps}.
Implicit Types w : World St.

(** What the parser makes of the pieces it works on. *)
Lemma parse_pieces w s :
  exists r, Path_parse s w = (Val r, w) /\
    (forall e, r = Err e -> e = PathError.InvalidFacet) /\
    (forall ps, r = Ok ps <->
       match split_on colon (trim_matches colon (chars s)) with
       | [] :: _ => ps = []
       | ts => denotes w ts ps
       end).
Proof.
  unfold Path_parse. destruct (split_on _ _) as [|c cs] eqn:Es.
  { destruct (split_on_cons colon (trim_matches colon (chars s))) as (? & ? & E). congruence. }
  destruct (decide (c = [])) as [->|Hc].
  { eexists; split_and!; [done|done|]. intros ps. split; [by intros [= <-]|by intros ->]. }
  destruct (decide (c = ["~"%char])) as [->|Hh].
  { destruct (parse_components_pure w cs) as (r & E & He & Hps).
    assert (Hrun : forall ps0 : Path, (u ← get_ufacet; ps ?← parse_components cs;
        mret (Ok (PathComponent.Dscrp "home" :: PathComponent.Facet u :: ps))) w =
      (Val (match r with Ok ps => Ok (PathComponent.Dscrp "home" :: PathComponent.Facet
        (MkBuckle (thread_privilege w) (thread_privilege w)) :: ps) | Err e => Err e end), w)).
    { intros _. unfold get_ufacet. rewrite (bind_step (gets _) _ w _ w) by done.
      unfold try_bind. rewrite (bind_step _ _ _ _ _ E). by destruct r. }
    exists (match r with Ok ps => Ok (PathComponent.Dscrp "home" :: PathComponent.Facet
        (MkBuckle (thread_privilege w) (thread_privilege w)) :: ps) | Err e => Err e end).
    split; [exact (Hrun [])|]. destruct r as [ps|e]; (split; [naive_solver|]); intros ps'; split.
    - intros [= <-]. constructor. by apply Hps.
    - inversion 1 as [? ? Hf|]; [|done]. subst. apply Hps in Hf. congruence.
    - done.
    - inversion 1 as [? ? Hf|]; [|done]. subst. apply Hps in Hf. congruence. }
  destruct (parse_components_pure w (c :: cs)) as (r & E & He & Hps). exists r.
  split; [|split; [exact He|]].
  - destruct c as [|a [|b c]]; [done| |destruct a as [[] [] [] [] [] [] [] []]; exact E].
    destruct a as [[] [] [] [] [] [] [] []]; try exact E. by destruct Hh.
  - intros ps. rewrite Hps. destruct c as [|a c]; [done|].
    split; [intros Hf; by constructor|]. inversion 1; subst; [by destruct Hh|done].
Qed.

(** Those pieces are the ones of the grammar. *)
Lemma path_text_pieces w l ps :
  path_text w l ps <->
    match split_on colon (trim_matches colon l) with
    | [] :: _ => ps = []
    | ts => denotes w ts ps
    end.
Proof.
  split.
  - intros [n|n k ts ps' Hc Hh Hl Hd].
    + rewrite <- (app_nil_r (repeat colon n)). pose proof (trim_matches_pad colon n 0 []) as E.
      cbn [repeat app] in E. by rewrite E.
    + assert (Hne : ts <> []) by (by inversion Hd). pose proof (pieces_join ts n k Hne Hc Hh Hl) as E.
      rewrite list_ascii_of_string_of_list_ascii in E. rewrite E.
      by destruct ts as [|[|] ts].
  - destruct (trim_matches_spec colon l) as (n & k & El & Hh & Hl).
    set (m := trim_matches colon l) in *. rewrite El. clearbody m. clear El l.
    destruct (decide (m = [])) as [->|Hm].
    { intros ->. cbn [app]. rewrite <- repeat_app. constructor. }
    pose proof (split_on_free colon m) as Hf. pose proof (join_split colon m) as Ej.
    destruct (split_on_cons colon m) as (t & ts & E). rewrite E in *. intros Hd.
    assert (Ht : t <> []).
    { intros ->. destruct ts as [|t' ts]; cbn in Ej; [congruence|]. by rewrite <- Ej in Hh. }
    rewrite <- Ej. apply text_pieces; [done|by intros [= ->]| |by destruct t].
    rewrite <- Ej in Hl. destruct (exists_last (l := t :: ts)) as (ts' & u & Eu); [done|].
    rewrite Eu in *. rewrite list.last_snoc. intros [= ->].
    destruct ts' as [|v ts']; [by injection Eu as -> _|].
    apply Hl. clear. revert v. induction ts' as [|v' ts' IH]; intros v.
    + cbn. rewrite list.last_app. by cbn.
    + change (join colon ((v :: v' :: ts') ++ [[]])) with (v ++ colon :: join colon ((v' :: ts') ++ [[]])).
      rewrite list.last_app, list.last_cons, IH. done.
Qed.

(** C37: [Path::parse] never panics, leaves the labels alone, fails only with [InvalidFacet], and
    succeeds with exactly the components that the grammar of path texts gives to its input:
    colons separate pieces, and those before the first and after the last do not count; no piece
    at all is the root, a leading [~] is the caller's home facet, [%] is the facet of the current
    label, [<l>] the facet the label syntax gives [l], anything else a name. *)
Theorem Path_parse_grammar w s :
  exists r, Path_parse s w = (Val r, w) /\
    (forall e, r = Err e -> e = PathError.InvalidFacet) /\
    (forall ps, r = Ok ps <-> path_text w (chars s) ps).
Proof.
  destruct (parse_pieces w s) as (r & E & He & Hps). exists r. split; [done|]. split; [done|].
  intros ps. by rewrite Hps, path_text_pieces.
Qed.

(** Printing and parsing: the text that joins the pieces of a path with colons, under any
    number of leading and trailing colons, parses to that path. *)
Theorem Path_parse_join w ts ps n k :
  Forall (fun t => colon ∉ t) ts -> head ts <> Some [] -> list.last ts <> Some [] ->
  head ts <> Some ["~"%char] -> Forall2 (token w) ts ps ->
  Path_parse (str (repeat colon n ++ join colon ts ++ repeat colon k)) w = (Val (Ok ps), w).
Proof.
  intros Hc Hh Hl Hhome Hf.
  set (x := repeat colon n ++ join colon ts ++ repeat colon k).
  destruct (parse_pieces w (str x)) as (r & -> & _ & Hps).
  rewrite list_ascii_of_string_of_list_ascii in Hps. do 2 f_equal. apply Hps, path_text_pieces.
  destruct ts as [|t ts].
  - apply list.Forall2_nil_inv_l in Hf as ->. unfold x. cbn [join app]. rewrite <- repeat_app.
    constructor.
  - apply text_pieces; [done..|]. apply denotes_plain; [|done]. intros ->. by apply Hhome.
Qed.

(** A path of at least two components whose last one is a name is the file name pushed on
    the parent; a path directly under the root has no parent, although the root is a path. *)
Theorem Path_parent_file_name :
  (forall d c n, Path_parent ((d ++ [c]) ++ [PathComponent.Dscrp n]) = Some (d ++ [c]) /\
     Path_file_name ((d ++ [c]) ++ [PathComponent.Dscrp n]) = Some n /\
     push_dscrp (d ++ [c]) n = (d ++ [c]) ++ [PathComponent.Dscrp n]) /\
  (forall p d n, Path_parent p = Some d -> Path_file_name p = Some n -> push_dscrp d n = p) /\
  (forall c, Path_parent (push_dscrp Path_root c) = None).
Proof.
  split_and!; [|intros p d n|done].
  - intros d c n. unfold Path_parent, Path_file_name. rewrite !rev_app_distr. cbn [rev app].
    split_and!; [|done..]. by rewrite rev_involutive.
  - unfold Path_parent, Path_file_name, push_dscrp.
    destruct (rev p) as [|c [|c' r]] eqn:E; [done..|].
    intros [= <-]. destruct c; [|done]. intros [= <-].
    rewrite <- (rev_involutive p), E. done.
Qed.
End path_theorems.
