(* ===== verification/Syscalls.v ===== *)
(** * Wire messages ([snapfaas/src/syscalls.proto], [syscalls.rs], [sched/messages.proto],
    [fs/function.rs])

    The message types that [prost] generates from the two [.proto] files, and the hand-written
    conversions between them and the types of the file system.  A message field of message type
    is an [option], as in the generated code; the conversions [unwrap] it.  Encoding to bytes
    is [prost]'s and stays a parameter ([Message.Message]). *)

From stdpp Require Import base tactics option list gmap strings countable.
From S2P Require Import Prelude Labels Store FsTypes.

(** ** Messages of [syscalls.proto] *)

Module pb.

(** [TokenList { tokens }] and [Clause { principals }] *)
Abbreviation TokenList := (list string).
Abbreviation Clause := (list TokenList).

Inductive component_kind : Type :=
  | DcFalse
  | Clauses (clauses : list Clause).

(** [Component { component: Option<component::Component> }] *)
Record Component : Type := MkComponent { component : option component_kind }.

Record Buckle : Type := MkBuckle {
  secrecy : option Component;
  integrity : option Component;
}.

Inductive DentKind : Set :=
  DentDirectory | DentFile | DentFacetedDirectory | DentGate | DentService | DentBlob.

Inductive HttpVerb : Set := HttpHead | HttpGet | HttpPost | HttpPut | HttpDelete.

(** A function whose images are blob descriptors *)
Record Function : Type := MkFunction {
  memory : Z;
  app_image : Z;
  runtime : Z;
  kernel : Z;
}.

Record DirectGate : Type := MkDirectGate {
  dg_privilege : option Component;
  dg_invoker_integrity_clearance : option Component;
  dg_function : option Function;
  dg_declassify : option Component;
}.

Record RedirectGate : Type := MkRedirectGate {
  rd_privilege : option Component;
  rd_invoker_integrity_clearance : option Component;
  rd_gate : Z;
  rd_declassify : option Component;
}.

Inductive gate_kind : Type :=
  | Direct (g : DirectGate)
  | Redirect (g : RedirectGate).

Record Gate : Type := MkGate { gate_of : option gate_kind }.

Record Service : Type := MkService {
  svc_privilege : option Component;
  svc_invoker_integrity_clearance : option Component;
  svc_taint : option Buckle;
  svc_url : string;
  svc_verb : Z;
  svc_headers : gmap string string;
}.

Record Request : Type := MkRequest {
  req_payload : bytes;
  req_blobs : gmap string Z;
  req_headers : gmap string string;
  req_invoker : list TokenList;
}.

Record Response : Type := MkResponse {
  body : option bytes;
  status_code : Z;
}.

Record DentResult : Type := MkDentResult {
  dent_success : bool;
  dent_fd : option Z;
  dent_data : option bytes;
}.

Record DentInvokeResult : Type := MkDentInvokeResult {
  invoke_success : bool;
  invoke_fd : option Z;
  invoke_data : option bytes;
  invoke_headers : gmap string bytes;
}.

Record DentOpenResult : Type := MkDentOpenResult {
  open_success : bool;
  open_fd : Z;
  open_kind : DentKind;
}.

Record DentListResult : Type := MkDentListResult {
  list_success : bool;
  list_entries : gmap string DentKind;
}.

Record DentLsFacetedResult : Type := MkDentLsFacetedResult {
  ls_faceted_success : bool;
  ls_facets : list Buckle;
}.

Record DentLsGateResult : Type := MkDentLsGateResult {
  ls_gate_success : bool;
  ls_gate : option Gate;
}.

Record BlobResult : Type := MkBlobResult {
  blob_success : bool;
  blob_fd : Z;
  blob_len : Z;
  blob_data : option bytes;
}.

Inductive dent_open_entry : Type :=
  | Name (name : string)
  | Facet (l : Buckle).

Inductive dent_create_kind : Type :=
  | CreateDirectory
  | CreateFile
  | CreateFacetedDirectory
  | CreateGate (g : Gate)
  | CreateService (s : Service)
  | CreateBlob (fd : Z).

Inductive dent_update_kind : Type :=
  | UpdateFile (data : bytes)
  | UpdateGate (g : Gate)
  | UpdateService (s : Service)
  | UpdateBlob (fd : Z).

(** The requests a function can make: [syscall::Syscall]. *)
Inductive Syscall : Type :=
  | SysResponse (r : Response)
  | SysBuckleParse (s : string)
  | SysGetCurrentLabel
  | SysTaintWithLabel (l : Buckle)
  | SysDeclassify (c : Component)
  | SysSubPrivilege (tokens : TokenList)
  | SysRoot
  | SysDentOpen (fd : Z) (entry : option dent_open_entry)
  | SysDentClose (fd : Z)
  | SysDentCreate (kind : option dent_create_kind) (l : option Buckle)
  | SysDentUpdate (kind : option dent_update_kind) (fd : Z)
  | SysDentRead (fd : Z)
  | SysDentList (fd : Z)
  | SysDentLsFaceted (fd : Z) (clearance : option Buckle)
  | SysDentLink (dir_fd : Z) (name : string) (target_fd : Z)
  | SysDentUnlink (fd : Z) (name : string)
  | SysDentInvoke (fd : Z) (sync : bool) (payload : bytes) (toblob : bool)
      (parameters : gmap string string)
  | SysDentLsGate (fd : Z)
  | SysDentGetBlob (fd : Z)
  | SysBlobCreate (size : option Z)
  | SysBlobWrite (fd : Z) (data : bytes)
  | SysBlobFinalize (fd : Z)
  | SysBlobRead (fd : Z) (offset length : option Z)
  | SysBlobClose (fd : Z).

(** What the server sends back, before encoding: one constructor per message type, [RVoid] for
    the unit value [()], which [prost] encodes as the empty message. *)
Inductive Reply : Type :=
  | RRequest (r : Request)
  | RMaybeBuckle (l : option Buckle)
  | RBuckle (l : Buckle)
  | RDentResult (r : DentResult)
  | RDentOpenResult (r : DentOpenResult)
  | RDentListResult (r : DentListResult)
  | RDentLsFacetedResult (r : DentLsFacetedResult)
  | RDentLsGateResult (r : DentLsGateResult)
  | RDentInvokeResult (r : DentInvokeResult)
  | RBlobResult (r : BlobResult)
  | RVoid.
End pb.

(** ** Messages of [sched/messages.proto] *)

Module sched.

Record Function : Type := MkFunction {
  memory : Z;
  app_image : string;
  runtime : string;
  kernel : string;
}.

Inductive ReturnCode : Set :=
  ResourceExhausted | LaunchFailed | ProcessRequestFailed | GateNotExist | Success | QueueFull.

(** [code as i32] and [ReturnCode::from_i32] *)
Definition code (c : ReturnCode) : Z :=
  match c with
  | ResourceExhausted => 0 | LaunchFailed => 1 | ProcessRequestFailed => 2
  | GateNotExist => 3 | Success => 4 | QueueFull => 5
  end.
Definition from_i32 (z : Z) : option ReturnCode :=
  match z with
  | 0%Z => Some ResourceExhausted | 1%Z => Some LaunchFailed
  | 2%Z => Some ProcessRequestFailed | 3%Z => Some GateNotExist
  | 4%Z => Some Success | 5%Z => Some QueueFull
  | _ => None
  end.

Record TaskReturn : Type := MkTaskReturn {
  return_code : Z;
  return_payload : option pb.Response;
  return_label : option pb.Buckle;
}.

Record LabeledInvoke : Type := MkLabeledInvoke {
  li_function : option Function;
  li_label : option pb.Buckle;
  li_gate_privilege : option pb.Component;
  li_payload : bytes;
  li_blobs : gmap string string;
  li_headers : gmap string string;
  li_sync : bool;
  li_invoker : option pb.Component;
}.
End sched.
Abbreviation TaskReturn := sched.TaskReturn.
Abbreviation LabeledInvoke := sched.LabeledInvoke.

(** ** Conversions ([syscalls.rs], [fs/function.rs]) *)

Section conversions.
Context {S : Type} `{L : !LabelOps}.

(** [Into<Component> for syscalls::Component] *)
Definition component_into (c : pb.Component) : SM S Component :=
  k ← unwrap (pb.component c);
  mret (match k with
        | pb.DcFalse => DCFalse
        | pb.Clauses cs => DCFormula (list_to_set ((list_to_set : _ -> Clause) <$> cs))
        end).

(** [From<Component> for syscalls::Component] *)
Definition component_from (c : Component) : pb.Component :=
  pb.MkComponent (Some
    (match c with
     | DCFalse => pb.DcFalse
     | DCFormula set => pb.Clauses (principal_iter <$> clause_iter set)
     end)).

Definition buckle_into (b : pb.Buckle) : SM S Buckle :=
  s ← unwrap (pb.secrecy b);
  s ← component_into s;
  i ← unwrap (pb.integrity b);
  i ← component_into i;
  mret (MkBuckle s i).

Definition buckle_from (b : Buckle) : pb.Buckle :=
  pb.MkBuckle (Some (component_from (secrecy b))) (Some (component_from (integrity b))).

Definition dent_kind_from (e : DirEntry) : pb.DentKind :=
  match e with
  | DirEntry.Directory _ => pb.DentDirectory
  | DirEntry.File _ => pb.DentFile
  | DirEntry.FacetedDirectory _ => pb.DentFacetedDirectory
  | DirEntry.Gate _ => pb.DentGate
  | DirEntry.Service _ => pb.DentService
  | DirEntry.Blob _ => pb.DentBlob
  end.

Definition http_verb_into (v : pb.HttpVerb) : HttpVerb :=
  match v with
  | pb.HttpHead => HEAD | pb.HttpGet => GET | pb.HttpPost => POST
  | pb.HttpPut => PUT | pb.HttpDelete => DELETE
  end.
Definition http_verb_from (v : HttpVerb) : pb.HttpVerb :=
  match v with
  | HEAD => pb.HttpHead | GET => pb.HttpGet | POST => pb.HttpPost
  | PUT => pb.HttpPut | DELETE => pb.HttpDelete
  end.

(** [HttpVerb::from_i32] *)
Definition http_verb_from_i32 (z : Z) : option pb.HttpVerb :=
  match z with
  | 0%Z => Some pb.HttpHead | 1%Z => Some pb.HttpGet | 2%Z => Some pb.HttpPost
  | 3%Z => Some pb.HttpPut | 4%Z => Some pb.HttpDelete
  | _ => None
  end.

(** [From<message::Function> for Function] and back; [usize] is 64 bits wide. *)
Definition function_from_message (f : sched.Function) : Function :=
  MkFunction (wrap_u64 (sched.memory f)) (sched.app_image f) (sched.runtime f) (sched.kernel f).
Definition function_into_message (f : Function) : sched.Function :=
  sched.MkFunction (wrap_u64 (memory f)) (app_image f) (runtime_image f) (kernel f).
End conversions.

(** ** Facts *)

Section conversion_facts.
Context {S : Type} {R : relation S} `{!PreOrder R}.

Lemma guar_component_into c : Guar R (component_into c).
Proof. unfold component_into. solve_guar. Qed.
#[local] Hint Resolve guar_component_into : guar.
Lemma guar_buckle_into b : Guar R (buckle_into b).
Proof. unfold buckle_into. solve_guar. Qed.
End conversion_facts.
#[export] Hint Resolve guar_component_into guar_buckle_into : guar.

Section roundtrip.
Context {S : Type} `{LabelLaws}.

Lemma component_into_from c (s : S) : component_into (component_from c) s = (Val c, s).
Proof.
  destruct c as [|set]; [done|]. unfold component_into, mbind, SM_bind, mret, SM_ret; cbn.
  do 3 f_equal. rewrite (clause_iter_perm set), <- list_fmap_compose.
  apply set_eq. intros c. rewrite elem_of_list_to_set, list_elem_of_fmap. split.
  - intros (d & -> & Hd). cbn. rewrite principal_iter_perm, list_to_set_elements_L.
    by apply elem_of_elements.
  - intros Hc. exists c. rewrite elem_of_elements. split; [|done].
    cbn. by rewrite principal_iter_perm, list_to_set_elements_L.
Qed.

Lemma buckle_into_from b (s : S) : buckle_into (buckle_from b) s = (Val b, s).
Proof.
  destruct b as [x y]. unfold buckle_into, buckle_from. cbn [pb.secrecy pb.integrity unwrap].
  rewrite (bind_step _ _ s (component_from x) s), (bind_step _ _ _ _ _ (component_into_from x s))
    by done.
  by rewrite (bind_step _ _ s (component_from y) s),
    (bind_step _ _ _ _ _ (component_into_from y s)) by done.
Qed.

(** A label, a component or an HTTP verb sent to a function and sent back is the one the
    file system has, whatever order the clauses and principals are listed in. *)
Theorem wire_roundtrip :
  (forall b (s : S), buckle_into (buckle_from b) s = (Val b, s)) /\
  (forall c (s : S), component_into (component_from c) s = (Val c, s)) /\
  (forall v, http_verb_into (http_verb_from v) = v) /\
  (forall v, http_verb_from (http_verb_into v) = v).
Proof.
  split_and!; [apply buckle_into_from | apply component_into_from | by intros [] | by intros []].
Qed.
End roundtrip.

(** Reading a label off the wire panics exactly when the message leaves out one of the
    nested fields, and reading it never touches the state: a missing component is not read as
    DCFalse. *)
Theorem buckle_into_total {S} b (s : S) :
  (buckle_into b s).2 = s /\
  ((buckle_into b s).1 = Panic <->
     (pb.secrecy b ≫= pb.component) = None \/ (pb.integrity b ≫= pb.component) = None) /\
  (buckle_into b s).1 <> NoFuel.
Proof.
  destruct b as [[[[x|]]|] [[[y|]]|]]; cbn; split_and!; try done; try (split; [by auto|done]);
    split; [done|]; by intros [?|?].
Qed.

(** A function description crosses the scheduler's wire unchanged when its memory is a
    [u64]. *)
Theorem function_roundtrip f :
  (0 <= memory f < u64_mod)%Z -> function_from_message (function_into_message f) = f.
Proof.
  destruct f as [m a r k]. cbn [memory]. intros Hm.
  unfold function_from_message, function_into_message, wrap_u64.
  cbn [memory app_image runtime_image kernel sched.memory sched.app_image sched.runtime
    sched.kernel]. by rewrite Z.mod_mod, Z.mod_small by (done || lia).
Qed.
