(* ===== verification/Blobstore.v ===== *)
(** * The content-addressed blob store ([snapfaas/src/blobstore/mod.rs])

    A blob is a file whose name is the hexadecimal digest of its contents, under a directory
    named by the first two digits.  The operating system's files are modelled by their contents;
    how each file operation ends is drawn from the list [io] of the state: [Done], [Short n]
    (fewer bytes than asked for) or [Fail].  The digest ([sha2]) and [hex::encode] are the
    classes [DigestOps] and [HexOps]. *)

From Stdlib Require Import Ascii String.
From stdpp Require Import base tactics option list gmap strings countable.
From S2P Require Import Prelude.

(** ** Parameters *)

Class DigestOps := {
  Digest : Type;
  d_new : Digest;
  d_update : Digest -> bytes -> Digest;
  d_finalize : Digest -> bytes;
}.

(** A digest depends on the bytes, not on how they were cut into updates. *)
Class DigestLaws {D : DigestOps} : Prop := {
  d_update_app d a b : d_update (d_update d a) b = d_update d (a ++ b);
  d_update_nil d : d_update d [] = d;
  d_nonempty d : d_finalize d <> [];
}.

Class HexOps := { hex_encode : bytes -> string }.

Class HexLaws {H : HexOps} : Prop := {
  hex_length l : String.length (hex_encode l) = (2 * length l)%nat;
  hex_ascii l a : a ∈ String.list_ascii_of_string (hex_encode l) -> (nat_of_ascii a < 128)%nat;
  hex_inj l l' : hex_encode l = hex_encode l' -> l = l';
}.

(** ** State *)

Inductive Io : Type := Done | Short (n : nat) | Fail (msg : string).

Record Blobstore : Type := MkBlobstore {
  (** [base_dir/d/n] *)
  disk : gmap (string * string) bytes;
  io : list Io;
}.

(** [Blob]: an open file keeps the contents it was opened with, because a later [persist] under
    the same name replaces the directory entry, not the file. *)
Record Blob : Type := MkBlob { name : string; contents : bytes }.

Section blobstore.
Context `{D : DigestOps} `{H : HexOps}.

Record NewBlob : Type := MkNewBlob { digest : Digest; len : Z; file : bytes }.

Local Abbreviation M := (SM Blobstore).

Definition next_io : M Io := fun s =>
  match io s with
  | [] => (Val Done, s)
  | e :: es => (Val e, MkBlobstore (disk s) es)
  end.

(** An operating-system call that only succeeds or fails. *)
Definition os_call : M (result unit string) :=
  e ← next_io; mret (match e with Fail m => Err m | _ => Ok tt end).

(** How many of [n] bytes a read or write moves. *)
Definition moved (e : Io) (n : nat) : result nat string :=
  match e with Done => Ok n | Short k => Ok (Nat.min k n) | Fail m => Err m end.

(** [str::split_at(2)]: panics past the end and inside a UTF-8 sequence. *)
Definition is_continuation (a : ascii) : bool :=
  let n := nat_of_ascii a in (128 <=? n)%nat && (n <? 192)%nat.
Definition split_at_2 {S} (s : string) : SM S (string * string) :=
  match s with
  | String a (String b rest) =>
      match rest with
      | String c _ => if is_continuation c then panic
                      else mret (String a (String b EmptyString), rest)
      | EmptyString => mret (String a (String b EmptyString), EmptyString)
      end
  | _ => panic
  end.

(** ** [impl Blobstore] *)

Definition create : M (result NewBlob string) :=
  _ ?← os_call; mret (Ok (MkNewBlob d_new 0 [])).

Definition open (name : string) : M (result Blob string) :=
  path ← split_at_2 name;
  _ ?← os_call;
  f ← gets (fun s => disk s !! path);
  mret (match f with
        | Some c => Ok (MkBlob name c)
        | None => Err "No such file or directory"%string
        end).

(** [PathBuf::join]: an absolute second path replaces the first. *)
Definition path_join (a b : string) : string :=
  match b with
  | String "/" _ => b
  | _ => if decide (a = EmptyString) then b
         else match rev (list_ascii_of_string a) with
              | "/"%char :: _ => (a +:+ b)%string
              | _ => (a +:+ "/" +:+ b)%string
              end
  end.

(** The path of a blob's file, from the base directory; the [ok()] of the conversion from an
    [OsString] built of strings is [Some]. *)
Definition local_path_string {S} (base_dir name : string) : SM S (option string) :=
  p ← split_at_2 name; mret (Some (path_join (path_join base_dir p.1) p.2)).

Definition save (new_blob : NewBlob) : M (result Blob string) :=
  let name := hex_encode (d_finalize (digest new_blob)) in
  path ← split_at_2 name;
  _ ?← os_call;
  _ ← modify (fun s => MkBlobstore (<[path := file new_blob]> (disk s)) (io s));
  _ ?← os_call;
  _ ?← os_call;
  mret (Ok (MkBlob name (file new_blob))).

(** ** [impl Blob] *)

(** [pread] takes a signed offset. *)
Definition read_at (b : Blob) (length_ : Z) (offset : Z) : M (result bytes string) :=
  e ← next_io;
  if bool_decide (2 ^ 63 <= offset)%Z then mret (Err "Invalid argument"%string)
  else
    let rest := drop (Z.to_nat offset) (contents b) in
    mret (match moved e (Nat.min (Z.to_nat length_) (length rest)) with
          | Ok n => Ok (take n rest)
          | Err m => Err m
          end).

Definition blob_len (b : Blob) : M (result Z string) :=
  _ ?← os_call; mret (Ok (Z.of_nat (length (contents b)))).

(** ** [impl Write for NewBlob] *)

Definition write (b : NewBlob) (bytes_ : bytes) : M (result (nat * NewBlob) string) :=
  e ← next_io;
  mret (match moved e (length bytes_) with
        | Ok n =>
            Ok (n, MkNewBlob (d_update (digest b) (take n bytes_))
                     (wrap_u64 (len b + Z.of_nat n)) (file b ++ take n bytes_))
        | Err m => Err m
        end).

(** [std::io::Write::write_all], which stops at a write of no bytes. *)
Fixpoint write_all (fuel : nat) (b : NewBlob) (data : bytes) : M (result NewBlob string) :=
  match data with
  | [] => mret (Ok b)
  | _ =>
      match fuel with
      | O => nofuel
      | S fuel =>
          '(n, b') ?← write b data;
          if decide (n = O) then mret (Err "failed to write whole buffer"%string)
          else write_all fuel b' (drop n data)
      end
  end.
End blobstore.

(** ** Content addressing *)

Section addressing.
Context `{DL : DigestLaws} `{HL : HexLaws}.

Definition hash (c : bytes) : bytes := d_finalize (d_update d_new c).
Definition blob_name (c : bytes) : string := hex_encode (hash c).

(** The name of every file is the digest of what it holds. *)
Definition addressed (s : Blobstore) : Prop :=
  forall d n c, disk s !! (d, n) = Some c -> (d +:+ n)%string = blob_name c.

(** The running digest and length of a blob being written are those of its file. *)
Definition consistent (b : NewBlob) : Prop :=
  digest b = d_update d_new (file b) /\ len b = wrap_u64 (Z.of_nat (length (file b))).

Lemma next_io_disk s e s' : next_io s = (Val e, s') -> disk s' = disk s.
Proof. unfold next_io. destruct (io s); by intros [= <- <-]. Qed.
Lemma next_io_run s : exists e s', next_io s = (Val e, s') /\ disk s' = disk s.
Proof. unfold next_io. destruct (io s); eexists _, _; by split. Qed.
Lemma os_call_run s : exists r s', os_call s = (Val r, s') /\ disk s' = disk s.
Proof.
  destruct (next_io_run s) as (e & s' & E & Hd). unfold os_call.
  rewrite (bind_step _ _ _ _ _ E). by eexists _, _.
Qed.

Lemma os_call_quiet s : io s = [] -> os_call s = (Val (Ok tt), s).
Proof. intros Hio. unfold os_call, next_io, mbind, SM_bind. by rewrite Hio. Qed.

Lemma split_at_2_app {S} a (s : S) d n : split_at_2 a s = (Val (d, n), s) -> (d +:+ n)%string = a.
Proof.
  destruct a as [|x [|y [|z rest]]]; cbn; try done.
  - by intros [= <- <-].
  - destruct (is_continuation z); [done|]. by intros [= <- <-].
Qed.

Lemma split_at_2_state {S} a (s s' : S) p :
  split_at_2 a s = (Val p, s) -> split_at_2 a s' = (Val p, s').
Proof.
  destruct a as [|x [|y [|z rest]]]; cbn; try done.
  - by intros [= <-].
  - destruct (is_continuation z); [done|]. by intros [= <-].
Qed.

Lemma split_at_2_name {S} c (s : S) : exists p, split_at_2 (blob_name c) s = (Val p, s).
Proof.
  unfold blob_name. pose proof (hex_length (hash c)) as Hl.
  pose proof (hex_ascii (hash c)) as Ha.
  pose proof (d_nonempty (d_update d_new c)) as Hne. fold (hash c) in Hne.
  destruct (hex_encode (hash c)) as [|x [|y [|z rest]]];
    [destruct (hash c); cbn in Hl; [done|lia] | destruct (hash c); cbn in Hl; [done|lia]
    | by eexists |].
  cbn. specialize (Ha z ltac:(cbn; right; right; by left)).
  unfold is_continuation. destruct (Nat.leb_spec 128 (nat_of_ascii z)); [lia|]. by eexists.
Qed.

Lemma consistent_write b data s n b' s' :
  consistent b -> write b data s = (Val (Ok (n, b')), s') ->
  consistent b' /\ file b' = file b ++ take n data /\ (n <= length data)%nat /\ disk s' = disk s.
Proof.
  intros [Hd Hl]. unfold write. destruct (next_io_run s) as (e & s1 & E & Hdisk).
  rewrite (bind_step _ _ _ _ _ E).
  assert (Hm : forall k, moved e (length data) = Ok k -> (k <= length data)%nat).
  { destruct e; cbn; intros k [= <-]; lia. }
  destruct (moved e (length data)) as [k|m] eqn:Em; [|done]. intros [= <- <- <-].
  cbn [file]. split_and!; [|done|by apply Hm|done]. split; cbn [digest file len].
  - by rewrite Hd, d_update_app.
  - rewrite Hl, length_app, length_take, Nat.min_l by by apply Hm. unfold wrap_u64.
    rewrite Zplus_mod_idemp_l. f_equal. lia.
Qed.

Lemma consistent_write_all fuel b data s b' s' :
  consistent b -> write_all fuel b data s = (Val (Ok b'), s') ->
  consistent b' /\ file b' = file b ++ data /\ disk s' = disk s.
Proof.
  revert b data s; induction fuel as [|fuel IH]; intros b data s Hc;
    (destruct data as [|x data]; [cbn; intros [= <- <-]; by rewrite app_nil_r|]); [done|].
  cbn [write_all]. unfold try_bind. intros (a & s1 & H1 & Hrun)%bind_val.
  destruct a as [[n b1]|m]; [|done].
  apply consistent_write in H1 as (Hc1 & Hf & Hn & Hd); [|done].
  case_decide; [done|]. apply IH in Hrun as (Hc2 & Hf2 & Hd2); [|done].
  split_and!; [done| |congruence]. by rewrite Hf2, Hf, <- app_assoc, take_drop.
Qed.

(** [save] names the blob by its contents, whatever the operating system does. *)
Lemma save_run b s :
  consistent b -> exists r s', save b s = (Val r, s') /\
    (forall blob, r = Ok blob -> blob = MkBlob (blob_name (file b)) (file b)) /\
    exists p, split_at_2 (blob_name (file b)) s = (Val p, s) /\
      (disk s' = disk s /\ (exists m, r = Err m) \/ disk s' = <[p := file b]> (disk s)).
Proof.
  intros [Hd _]. unfold save. rewrite Hd.
  change (hex_encode (d_finalize (d_update d_new (file b)))) with (blob_name (file b)).
  destruct (split_at_2_name (file b) s) as [p E].
  rewrite (bind_step _ _ _ _ _ E). unfold try_bind.
  destruct (os_call_run s) as (r1 & s1 & E1 & Hd1). rewrite (bind_step _ _ _ _ _ E1).
  destruct r1 as [[]|m]; [|eexists _, _; split; [done|]; split; [done|]; eauto 8].
  rewrite (bind_step (modify _) _ s1 tt _ eq_refl).
  set (s2 := MkBlobstore _ _).
  destruct (os_call_run s2) as (r3 & s3 & E3 & Hd3). rewrite (bind_step _ _ _ _ _ E3).
  assert (H3 : disk s3 = <[p := file b]> (disk s)) by (rewrite Hd3, <- Hd1; done).
  destruct r3 as [[]|m]; [|eexists _, _; split; [done|]; split; [done|]; eauto].
  destruct (os_call_run s3) as (r4 & s4 & E4 & Hd4). rewrite (bind_step _ _ _ _ _ E4).
  rewrite <- Hd4 in H3.
  destruct r4 as [[]|m]; eexists _, _; (split; [done|]); (split; [by intros ? [= <-]|]); eauto.
Qed.
End addressing.

Section blob_theorems.
Context `{DL : DigestLaws} `{HL : HexLaws}.

(** Content addressing.  A blob written in any number of writes and then saved is named by
    the digest of the bytes written, and opening that name gives those bytes back. *)
Theorem save_open_roundtrip s b0 s0 chunks b s1 blob s2 fuel :
  create s = (Val (Ok b0), s0) ->
  foldl (fun m d => m ≫= fun r => match r with Ok b => write_all fuel b d | Err e => mret (Err e) end)
    (mret (Ok b0)) chunks s0 = (Val (Ok b), s1) ->
  save b s1 = (Val (Ok blob), s2) -> io s2 = [] ->
  name blob = blob_name (concat chunks) /\ contents blob = concat chunks /\
  open (name blob) s2 = (Val (Ok blob), s2).
Proof.
  intros Hcr Hw Hs Hio.
  assert (Hb : consistent b /\ file b = concat chunks).
  { assert (H0 : consistent b0 /\ file b0 = []).
    { unfold create, try_bind in Hcr. apply bind_val in Hcr as ([[]|m] & ? & _ & [=]).
      subst. split; [|done]. split; [by rewrite d_update_nil|done]. }
    clear Hcr Hs. revert b s1 Hw.
    induction chunks as [|d chunks IH] using rev_ind; intros b s1.
    - intros [= -> ->]. done.
    - rewrite foldl_app. cbn [foldl]. intros ([b'|e] & s' & Hp & Hw)%bind_val; [|done].
      apply IH in Hp as [Hc Hf]. apply consistent_write_all in Hw as (Hc' & Hf' & _); [|done].
      split; [done|]. rewrite Hf', Hf, concat_app. cbn. by rewrite app_nil_r. }
  destruct Hb as [Hc Hf].
  destruct (save_run b s1 Hc) as (r & s' & E & Hok & p & Hp & Hd).
  rewrite Hs in E. injection E as <- <-. rewrite (Hok _ eq_refl). cbn [name contents].
  rewrite <- Hf. split_and!; [done..|]. unfold open.
  pose proof (split_at_2_state _ _ s2 _ Hp) as Hp'.
  rewrite (bind_step _ _ _ _ _ Hp'). unfold try_bind.
  rewrite (bind_step _ _ _ _ _ (os_call_quiet s2 Hio)), (bind_step (gets _) _ s2 _ s2 eq_refl).
  destruct Hd as [[_ [m Hm]]|Hd]; [done|]. rewrite Hd.
  by rewrite lookup_insert_eq.
Qed.

(** Every file of the store stays named by its contents, whichever step of [save] the
    operating system fails, and when the digest has no collision among the blobs involved no
    save changes the file behind a name that already exists. *)
Theorem save_preserves s b :
  consistent b -> addressed s ->
  addressed (save b s).2 /\
  ((forall d n c, disk s !! (d, n) = Some c -> blob_name c = blob_name (file b) -> c = file b) ->
   disk s ⊆ disk (save b s).2).
Proof.
  intros Hc Ha. destruct (save_run b s Hc) as (r & s' & -> & _ & p & Hp & Hd). cbn [snd].
  destruct p as [d n]. pose proof (split_at_2_app _ _ _ _ Hp) as Hn.
  destruct Hd as [[Hd _]|Hd].
  - split; [|by rewrite Hd]. intros d' n' c. rewrite Hd. apply Ha.
  - rewrite Hd. split.
    + intros d' n' c. unfold addressed in Ha. rewrite Hd.
      destruct (decide ((d, n) = (d', n'))) as [[= <- <-]|Hne].
      * rewrite lookup_insert_eq. by intros [= <-].
      * rewrite lookup_insert_ne by done. apply Ha.
    + intros Hcol. apply map_subseteq_spec. intros [d' n'] c Hl.
      destruct (decide ((d, n) = (d', n'))) as [[= <- <-]|Hne].
      * rewrite lookup_insert_eq. f_equal. symmetry. apply (Hcol d n c Hl).
        rewrite <- Hn. symmetry. by apply Ha.
      * by rewrite lookup_insert_ne.
Qed.

(** The reads of a blob, taken one after the other from where the last one ended, return
    its contents in order: a read returns exactly the bytes at the offset it is given, never
    more than asked for, and an empty read that was asked for something means the end. *)
Theorem read_at_spec blob l off s :
  (0 <= off < 2 ^ 63)%Z -> (0 <= l)%Z -> io s = [] ->
  exists r, read_at blob l off s = (Val (Ok r), s) /\
    (Z.of_nat (length r) <= l)%Z /\
    r ++ drop (Z.to_nat off + length r) (contents blob) = drop (Z.to_nat off) (contents blob) /\
    (r = [] -> l = 0%Z \/ (Z.of_nat (length (contents blob)) <= off)%Z).
Proof.
  intros Ho Hl Hio. unfold read_at, next_io. unfold mbind, SM_bind. rewrite Hio.
  rewrite bool_decide_false by lia. cbn [moved].
  set (rest := drop (Z.to_nat off) (contents blob)).
  eexists; split; [done|]. rewrite <- drop_drop. fold rest. split_and!.
  - rewrite length_take. lia.
  - rewrite length_take, (Nat.min_l (Nat.min _ _)) by lia. apply take_drop.
  - intros E. apply (f_equal length) in E. rewrite length_take in E.
    unfold rest in E. rewrite length_drop in E. cbn in E. lia.
Qed.
End blob_theorems.
