(* ===== verification/Message.v ===== *)
(** * Framed messages ([snapfaas/src/sched/message.rs], [sched/rpc.rs], [vm.rs])

    Every message between the scheduler, its workers and the frontends is its [prost] encoding
    behind a 64-bit big-endian length; every message between a VM and its system call server is
    behind a 32-bit one.  A connection is the class [Conn] of the standard library's
    [write_all] and [read_exact]; [Pipe] is a connection that does not fail. *)

From stdpp Require Import base tactics option list gmap strings countable.
From S2P Require Import Prelude Labels Store FsTypes Syscalls.

(** ** Scheduler messages *)

Inductive request_kind : Type :=
  | GetTask (thread_id : Z)
  | FinishTask (task_id : string) (task_result : option TaskReturn)
  | LabeledInvokeReq (r : LabeledInvoke)
  | UpdateResource (info : bytes)
  | DropResource
  | TerminateAll
  | Ping.

Inductive response_kind : Type :=
  | ProcessTask (task_id : string) (labeled_invoke : option LabeledInvoke)
  | Terminate
  | Fail
  | Success (r : TaskReturn)
  | Pong.

Record Request : Type := MkRequest { request_of : option request_kind }.
Record Response : Type := MkResponse { response_of : option response_kind }.

(** ** Encoding ([prost::Message]) *)

Class Message (T : Type) := {
  encode_to_vec : T -> bytes;
  decode : bytes -> option T;
}.

Class MessageLaws (T : Type) `{Message T} : Prop := {
  decode_encode_to_vec (x : T) : decode (encode_to_vec x) = Some x;
}.

(** ** Connections *)

Class Conn (C : Type) := {
  conn_write_all : bytes -> SM C (result unit string);
  conn_read_exact : Z -> SM C (result bytes string);
}.

(** [sched::Error], the causes dropped except the message of [Other] *)
Module SchedError.
Inductive Error : Type :=
  | Rpc | TaskSend | StreamConnect | StreamRead | StreamWrite | Other (msg : string).
End SchedError.

Section message.
Context {C : Type} `{!Conn C}.

Local Abbreviation M := (SM C).

(** [vec![0; size]]: an allocation past [isize::MAX] panics. *)
Definition alloc (size : Z) : M unit :=
  if bool_decide (2 ^ 63 <= size)%Z then panic else mret tt.

(** [_read_u8] *)
Definition read_frame (allow_empty : bool) : M (result bytes SchedError.Error) :=
  lenbuf ← conn_read_exact 8;
  lenbuf ?← mret (map_err (fun _ => SchedError.StreamRead) lenbuf);
  let size := of_be lenbuf in
  if allow_empty || bool_decide (0 < size)%Z then
    _ ← alloc size;
    buf ← conn_read_exact size;
    mret (map_err (fun _ => SchedError.StreamRead) buf)
  else mret (Err (SchedError.Other "Empty Payload")).

Definition read_u8 : M (result bytes SchedError.Error) := read_frame false.

Definition write_u8 (msg : bytes) : M (result unit SchedError.Error) :=
  let size := to_be 8 (wrap_u64 (Z.of_nat (length msg))) in
  r ← conn_write_all size;
  _ ?← mret (map_err (fun _ => SchedError.StreamWrite) r);
  r ← conn_write_all msg;
  _ ?← mret (map_err (fun _ => SchedError.StreamWrite) r);
  mret (Ok tt).

Definition message_write {T} `{!Message T} (msg : T) : M (result unit SchedError.Error) :=
  write_u8 (encode_to_vec msg).

(** [read], and [read_request] and [read_response] with the type fixed *)
Definition message_read {T} `{!Message T} : M (result T SchedError.Error) :=
  buf ?← read_frame true;
  mret (match decode buf with Some x => Ok x | None => Err SchedError.Rpc end).

Definition read_request `{!Message Request} : M (result Request SchedError.Error) :=
  message_read.
Definition read_response `{!Message Response} : M (result Response SchedError.Error) :=
  message_read.

(** ** Remote procedure calls ([rpc.rs]) *)

Context `{!Message Request} `{!Message Response}.

Definition ping : M (result Response SchedError.Error) :=
  _ ?← message_write (MkRequest (Some Ping));
  read_response.

(** [ManageConnection::is_valid] of the pool of connections ([sched/mod.rs]): anything that
    decodes as a response will do; the causes are dropped. *)
Definition is_valid : M (result unit unit) :=
  r ← ping;
  mret (match r with Ok _ => Ok tt | Err _ => Err tt end).

Definition get (thread_id : Z) : M (result Response SchedError.Error) :=
  _ ?← message_write (MkRequest (Some (GetTask thread_id)));
  read_response.

Definition finish (task_id : string) (r : TaskReturn) : M (result unit SchedError.Error) :=
  message_write (MkRequest (Some (FinishTask task_id (Some r)))).

Definition labeled_invoke (r : LabeledInvoke) : M (result unit SchedError.Error) :=
  message_write (MkRequest (Some (LabeledInvokeReq r))).

Definition update_resource (info : bytes) : M (result unit SchedError.Error) :=
  message_write (MkRequest (Some (UpdateResource info))).

Definition drop_resource : M (result unit SchedError.Error) :=
  message_write (MkRequest (Some DropResource)).
End message.

(** ** The channel to a VM ([impl SyscallChannel for Vm]) *)

Module SyscallChannelError.
Inductive SyscallChannelError : Set := Read | Decode | Write.
End SyscallChannelError.
Abbreviation SyscallChannelError := SyscallChannelError.SyscallChannelError.

(** [trait SyscallChannel]; a decoded system call message may be empty. *)
Class SyscallChannel (Ch : Type) := {
  send : bytes -> SM Ch (result unit SyscallChannelError);
  wait : SM Ch (result (option pb.Syscall) SyscallChannelError);
}.

Section vm_channel.
Context {C : Type} `{!Conn C} `{!Message (option pb.Syscall)}.

Definition vm_send (msg : bytes) : SM C (result unit SyscallChannelError) :=
  r ← conn_write_all (to_be 4 (wrap_u32 (Z.of_nat (length msg))));
  _ ?← mret (map_err (fun _ => SyscallChannelError.Write) r);
  r ← conn_write_all msg;
  mret (map_err (fun _ => SyscallChannelError.Write) r).

Definition vm_wait : SM C (result (option pb.Syscall) SyscallChannelError) :=
  lenbuf ← conn_read_exact 4;
  lenbuf ?← mret (map_err (fun _ => SyscallChannelError.Read) lenbuf);
  buf ← conn_read_exact (of_be lenbuf);
  buf ?← mret (map_err (fun _ => SyscallChannelError.Read) buf);
  mret (match decode buf with
        | Some sc => Ok sc
        | None => Err SyscallChannelError.Decode
        end).

Definition vm_channel : SyscallChannel C := {| send := vm_send; wait := vm_wait |}.
End vm_channel.

(** ** The HTTP reply for a finished task ([impl From<TaskReturn> for rouille::Response]) *)

Inductive HttpBody : Type :=
  | JsonError (error : string)
  | Data (mime : string) (content : bytes).

Record HttpReply : Type := MkHttpReply { status : Z; content : HttpBody }.

Definition json_error (msg : string) : HttpReply := MkHttpReply 500 (JsonError msg).

Definition task_return_into_response {S} (tr : TaskReturn) : SM S HttpReply :=
  resp ←
    match sched.from_i32 (sched.return_code tr) with
    | Some sched.QueueFull => mret (json_error "queue full")
    | Some sched.LaunchFailed => mret (json_error "failed to launch the VM")
    | Some sched.GateNotExist => mret (json_error "gate does not exist")
    | Some sched.ResourceExhausted => mret (json_error "resource exhausted")
    | Some sched.ProcessRequestFailed => mret (json_error "failed to process request")
    | Some sched.Success =>
        p ← unwrap (sched.return_payload tr);
        mret (MkHttpReply 200 (Data "application/octet-stream" (default [] (pb.body p))))
    | None => mret (json_error "unknown return code")
    end;
  if bool_decide (200 <= status resp < 400)%Z then
    p ← unwrap (sched.return_payload tr);
    mret (MkHttpReply (pb.status_code p mod 2 ^ 16) (content resp))
  else mret resp.

(** ** A connection that does not fail *)

Record Pipe : Type := MkPipe { inbox : bytes; outbox : bytes }.

#[global] Instance pipe_conn : Conn Pipe := {
  conn_write_all l := fun p => (Val (Ok tt), MkPipe (inbox p) (outbox p ++ l));
  conn_read_exact n := fun p =>
    if bool_decide (n <= Z.of_nat (length (inbox p)))%Z
    then (Val (Ok (take (Z.to_nat n) (inbox p))),
          MkPipe (drop (Z.to_nat n) (inbox p)) (outbox p))
    else (Val (Err "unexpected end of file"%string), MkPipe [] (outbox p));
}.

Definition u64_frame (msg : bytes) : bytes := to_be 8 (wrap_u64 (Z.of_nat (length msg))) ++ msg.
Definition u32_frame (msg : bytes) : bytes := to_be 4 (wrap_u32 (Z.of_nat (length msg))) ++ msg.

Lemma pipe_read_app n l rest out :
  n = Z.of_nat (length l) ->
  conn_read_exact n (MkPipe (l ++ rest) out) = (Val (Ok l), MkPipe rest out).
Proof.
  intros ->. cbn. rewrite bool_decide_true by (rewrite length_app; lia).
  by rewrite Nat2Z.id, take_app_length, drop_app_length.
Qed.

Lemma pipe_read_be n k z rest out :
  n = Z.of_nat k ->
  conn_read_exact n (MkPipe (to_be k z ++ rest) out) = (Val (Ok (to_be k z)), MkPipe rest out).
Proof. intros ->. apply pipe_read_app. by rewrite length_to_be. Qed.

Lemma pipe_read_short n l out :
  (Z.of_nat (length l) < n)%Z ->
  conn_read_exact n (MkPipe l out) = (Val (Err "unexpected end of file"%string), MkPipe [] out).
Proof. intros Hn. cbn. by rewrite bool_decide_false by lia. Qed.

Lemma write_u8_pipe msg p :
  write_u8 msg p = (Val (Ok tt), MkPipe (inbox p) (outbox p ++ u64_frame msg)).
Proof. unfold u64_frame. rewrite app_assoc. reflexivity. Qed.

Lemma of_be_length {A} (msg : list A) :
  (Z.of_nat (length msg) < 2 ^ 63)%Z ->
  of_be (to_be 8 (wrap_u64 (Z.of_nat (length msg)))) = Z.of_nat (length msg).
Proof.
  intros Hl. rewrite of_be_to_be. unfold wrap_u64, u64_mod.
  change (256 ^ Z.of_nat 8)%Z with (2 ^ 64)%Z. rewrite Z.mod_mod, Z.mod_small; lia.
Qed.

Lemma read_frame_pipe b msg rest out :
  (Z.of_nat (length msg) < 2 ^ 63)%Z -> b = true \/ msg <> [] ->
  read_frame b (MkPipe (u64_frame msg ++ rest) out) = (Val (Ok msg), MkPipe rest out).
Proof.
  intros Hl Hb. unfold read_frame, u64_frame. rewrite <- app_assoc.
  rewrite (bind_step _ _ _ _ _ (pipe_read_be 8 8 _ (msg ++ rest) out eq_refl)).
  cbn [map_err]. unfold try_bind. rewrite (bind_step (mret _) _ _ _ _ eq_refl).
  rewrite of_be_length by done.
  assert (b || bool_decide (0 < Z.of_nat (length msg))%Z = true) as ->.
  { destruct Hb as [->|Hne]; [done|]. rewrite bool_decide_true; [by rewrite orb_true_r|].
    destruct msg; [done|cbn; lia]. }
  unfold alloc. rewrite bool_decide_false by lia.
  rewrite (bind_step (mret tt) _ _ tt _ eq_refl).
  by rewrite (bind_step _ _ _ _ _ (pipe_read_app _ msg rest out eq_refl)).
Qed.

Section message_theorems.
Context {T : Type} `{ML : MessageLaws T}.

Lemma message_read_pipe (x : T) rest out :
  (Z.of_nat (length (encode_to_vec x)) < 2 ^ 63)%Z ->
  message_read (MkPipe (u64_frame (encode_to_vec x) ++ rest) out) = (Val (Ok x), MkPipe rest out).
Proof.
  intros Hl. unfold message_read, try_bind.
  rewrite (bind_step _ _ _ _ _ (read_frame_pipe true _ rest out Hl (or_introl eq_refl))).
  by rewrite decode_encode_to_vec.
Qed.

(** Writes, then reads, a list of messages. *)
Fixpoint write_list (xs : list T) : SM Pipe (result unit SchedError.Error) :=
  match xs with [] => mret (Ok tt) | x :: xs => _ ?← message_write x; write_list xs end.
Fixpoint read_list (n : nat) : SM Pipe (result (list T) SchedError.Error) :=
  match n with
  | O => mret (Ok [])
  | S n => x ?← message_read; xs ?← read_list n; mret (Ok (x :: xs))
  end.

Fixpoint frames (xs : list T) : bytes :=
  match xs with [] => [] | x :: xs => u64_frame (encode_to_vec x) ++ frames xs end.

(** C38: framing.  Whatever sequence of messages is written to a connection, the other end reads
    back exactly that sequence, with nothing left over: no message runs into the next. *)
Theorem messages_roundtrip (xs : list T) inb inb' out' :
  Forall (fun x => Z.of_nat (length (encode_to_vec x)) < 2 ^ 63)%Z xs ->
  exists wire, write_list xs (MkPipe inb []) = (Val (Ok tt), MkPipe inb wire) /\
    read_list (length xs) (MkPipe (wire ++ inb') out') = (Val (Ok xs), MkPipe inb' out').
Proof.
  intros Hxs. exists (frames xs). split.
  - assert (H0 : forall pre, write_list xs (MkPipe inb pre) =
      (Val (Ok tt), MkPipe inb (pre ++ frames xs))).
    { clear Hxs. induction xs as [|x xs IH]; intros pre; [cbn; by rewrite app_nil_r|].
      cbn [write_list]. unfold try_bind, message_write.
      rewrite (bind_step _ _ _ _ _ (write_u8_pipe _ _)). cbn [inbox outbox].
      rewrite IH. cbn [frames]. by rewrite app_assoc. }
    by rewrite H0.
  - induction Hxs as [|x xs Hx Hxs IH]; [done|]. cbn [length read_list frames].
    unfold try_bind. rewrite <- app_assoc.
    rewrite (bind_step _ _ _ _ _ (message_read_pipe x _ _ Hx)).
    by rewrite (bind_step _ _ _ _ _ IH).
Qed.

(** A frame that is cut short is reported as a read error, never as a message. *)
Theorem message_truncated (x : T) k out :
  (Z.of_nat (length (encode_to_vec x)) < 2 ^ 63)%Z ->
  (k < length (u64_frame (encode_to_vec x)))%nat ->
  message_read (T := T) (MkPipe (take k (u64_frame (encode_to_vec x))) out) =
    (Val (Err SchedError.StreamRead), MkPipe [] out).
Proof.
  intros Hl Hk. unfold message_read, try_bind, read_frame.
  set (msg := encode_to_vec x) in *. unfold u64_frame in *.
  rewrite length_app, length_to_be in Hk.
  set (hd := to_be 8 _) in *. assert (Hhd : length hd = 8%nat) by apply length_to_be.
  destruct (decide (k < 8)%nat) as [Hk8|Hk8].
  - unfold mbind at 1, SM_bind at 1. unfold mbind at 1, SM_bind at 1.
    rewrite pipe_read_short; [done|]. rewrite length_take, length_app. lia.
  - rewrite take_app_ge by lia.
    match goal with |- context [MkPipe (hd ++ ?r) out] =>
      assert (E : conn_read_exact 8 (MkPipe (hd ++ r) out) = (Val (Ok hd), MkPipe r out))
        by (apply pipe_read_app; lia) end.
    unfold mbind at 1, SM_bind at 1. rewrite (bind_step _ _ _ _ _ E).
    cbn [map_err]. unfold try_bind. rewrite (bind_step (mret _) _ _ _ _ eq_refl).
    assert (of_be hd = Z.of_nat (length msg)) as -> by by apply of_be_length.
    cbn [orb].
    unfold alloc. rewrite bool_decide_false by lia.
    rewrite (bind_step (mret tt) _ _ tt _ eq_refl).
    unfold mbind at 1, SM_bind at 1. rewrite pipe_read_short; [done|].
    rewrite Hhd, length_take. lia.
Qed.
End message_theorems.

(** The 32-bit framing to a VM carries a message exactly when it is shorter than 4 GiB;
    the length of a longer one is truncated, and the VM's end takes a proper prefix of it. *)
Theorem vm_frame_truncates msg p :
  exists wire, vm_send msg p = (Val (Ok tt), MkPipe (inbox p) (outbox p ++ wire)) /\
    (forall rest out, exists got,
       (lenbuf ← conn_read_exact 4; match lenbuf with
          | Ok l => conn_read_exact (of_be l) | Err e => mret (Err e) end)
         (MkPipe (wire ++ rest) out) = (Val (Ok got), MkPipe (drop (length got) msg ++ rest) out) /\
       got = take (Z.to_nat (Z.of_nat (length msg) mod 2 ^ 32)) msg /\
       (got = msg <-> (Z.of_nat (length msg) < 2 ^ 32)%Z)).
Proof.
  exists (u32_frame msg). split; [unfold u32_frame; rewrite app_assoc; reflexivity|].
  intros rest out. unfold u32_frame. rewrite <- app_assoc.
  set (n := (Z.of_nat (length msg) mod 2 ^ 32)%Z).
  assert (Hn : (0 <= n <= Z.of_nat (length msg))%Z).
  { split; [apply Z.mod_pos_bound; lia | apply Z.mod_le; lia]. }
  exists (take (Z.to_nat n) msg).
  rewrite (bind_step _ _ _ _ _ (pipe_read_be 4 4 _ (msg ++ rest) out eq_refl)).
  rewrite of_be_to_be. unfold wrap_u32, u32_mod.
  change (256 ^ Z.of_nat 4)%Z with (2 ^ 32)%Z. rewrite Z.mod_mod by lia. fold n.
  assert (Hlen : length (take (Z.to_nat n) msg) = Z.to_nat n) by (rewrite length_take; lia).
  split_and!; [|done|].
  - rewrite <- (take_drop (Z.to_nat n) msg) at 1. rewrite <- app_assoc.
    rewrite pipe_read_app by (rewrite Hlen; lia). by rewrite Hlen.
  - split.
    + intros E. rewrite E in Hlen. unfold n in Hlen.
      pose proof (Z.mod_pos_bound (Z.of_nat (length msg)) (2 ^ 32)). lia.
    + intros Hs. apply take_ge. unfold n. rewrite Z.mod_small; lia.
Qed.

(** The HTTP reply for a finished task: only a successful task lets its own status and body
    through; every other code, known or not, is a JSON error with status 500, and the reply
    panics exactly when a task reports success without a payload. *)
Theorem task_reply_spec {S} (tr : TaskReturn) (s : S) :
  match task_return_into_response tr s with
  | (Val r, s') => s' = s /\
      (sched.return_code tr = sched.code sched.Success ->
        exists p, sched.return_payload tr = Some p /\
          r = MkHttpReply (pb.status_code p mod 2 ^ 16)
                (Data "application/octet-stream" (default [] (pb.body p)))) /\
      (sched.return_code tr <> sched.code sched.Success ->
        status r = 500%Z /\ exists e, content r = JsonError e)
  | (Panic, s') => s' = s /\ sched.return_code tr = sched.code sched.Success /\
      sched.return_payload tr = None
  | (NoFuel, _) => False
  end.
Proof.
  destruct tr as [c p l]. unfold task_return_into_response.
  cbn [sched.return_code sched.return_payload].
  assert (Hc : sched.from_i32 c = Some sched.Success <-> c = sched.code sched.Success).
  { split; [|by intros ->]. unfold sched.from_i32.
    destruct c as [|[[[]|[]|]|[[]|[]|]|]|]; done. }
  destruct (sched.from_i32 c) as [[]|] eqn:E;
    try (cbn; split_and!; [done|intros Hs; apply Hc in Hs; congruence|by eauto]).
  destruct p as [p|]; cbn; [|split_and!; [done|by apply Hc|done]].
  split_and!; [done|by eauto|intros Hs; by destruct Hs; apply Hc].
Qed.
