(* ===== verification/SysServer.v ===== *)
(** * The system call server ([snapfaas/src/syscall_server.rs])

    One [SyscallProcessor] serves one invocation: it holds the labeled file system, the blob
    store, the connection to the scheduler and the descriptor tables of the function, and
    answers the function's system calls until the function responds.  One definition per method;
    [do_syscall] is the dispatch and [run] the loop. *)

From stdpp Require Import base tactics option list gmap strings countable.
From S2P Require Import Prelude Labels Store FsTypes Objects Fs Syscalls Blobstore.
From S2P Require Import Message.

(** ** What the server gets from [reqwest] and [strfmt] *)

Record HttpResponse : Type := MkHttpResponse {
  resp_headers : gmap string bytes;
  (** [None]: reading the body fails *)
  resp_body : option bytes;
}.

Class HttpClient (N : Type) := {
  strfmt : string -> gmap string string -> option string;
  header_name_ok : string -> bool;
  header_value_ok : string -> bool;
  http_execute : HttpVerb -> string -> gmap string string -> option bytes ->
    SM N (option HttpResponse);
}.

Module SyscallProcessorError.
Inductive SyscallProcessorError : Type :=
  | UnreachableScheduler | Channel (e : SyscallChannelError) | Blob | Database | Http
  | HttpAuth | BadStrPath | BadUrlArgs.
End SyscallProcessorError.
Abbreviation SyscallProcessorError := SyscallProcessorError.SyscallProcessorError.

(** ** State *)

Record SysState `{DigestOps} (St C N Ch : Type) : Type := MkSys {
  fs : World St;
  blobstore : Blobstore;
  sched_conn : option C;
  http_client : N;
  channel : Ch;
  create_blobs : gmap Z NewBlob;
  blobs : gmap Z Blob;
  dents : gmap Z DirEntry;
  max_blob_id : Z;
  max_dent_id : Z;
}.
Arguments MkSys {_ St C N Ch} _ _ _ _ _ _ _ _ _ _.
Arguments fs {_ St C N Ch} _.
Arguments blobstore {_ St C N Ch} _.
Arguments sched_conn {_ St C N Ch} _.
Arguments http_client {_ St C N Ch} _.
Arguments channel {_ St C N Ch} _.
Arguments create_blobs {_ St C N Ch} _.
Arguments blobs {_ St C N Ch} _.
Arguments dents {_ St C N Ch} _.
Arguments max_blob_id {_ St C N Ch} _.
Arguments max_dent_id {_ St C N Ch} _.

Section server.
Context {St C N Ch : Type} `{BS : !BackingStore St} `{L : !LabelOps} `{SD : !SerdeOps}.
Context `{DG : DigestOps} `{HX : !HexOps} `{CN : !Conn C} `{HC : !HttpClient N}.
Context `{SC : !SyscallChannel Ch} `{MR : !Message pb.Reply}.
Context `{MQ : !Message Request} `{MT : !Message TaskReturn}.

Local Abbreviation S := (SysState St C N Ch).
Local Abbreviation M := (SM S).

Definition set_fs (w : World St) (s : S) : S :=
  MkSys w (blobstore s) (sched_conn s) (http_client s) (channel s) (create_blobs s) (blobs s)
    (dents s) (max_blob_id s) (max_dent_id s).
Definition set_blobstore (b : Blobstore) (s : S) : S :=
  MkSys (fs s) b (sched_conn s) (http_client s) (channel s) (create_blobs s) (blobs s)
    (dents s) (max_blob_id s) (max_dent_id s).
Definition set_sched_conn (c : option C) (s : S) : S :=
  MkSys (fs s) (blobstore s) c (http_client s) (channel s) (create_blobs s) (blobs s)
    (dents s) (max_blob_id s) (max_dent_id s).
Definition set_http_client (n : N) (s : S) : S :=
  MkSys (fs s) (blobstore s) (sched_conn s) n (channel s) (create_blobs s) (blobs s)
    (dents s) (max_blob_id s) (max_dent_id s).
Definition set_channel (c : Ch) (s : S) : S :=
  MkSys (fs s) (blobstore s) (sched_conn s) (http_client s) c (create_blobs s) (blobs s)
    (dents s) (max_blob_id s) (max_dent_id s).
Definition set_create_blobs (m : gmap Z NewBlob) (s : S) : S :=
  MkSys (fs s) (blobstore s) (sched_conn s) (http_client s) (channel s) m (blobs s)
    (dents s) (max_blob_id s) (max_dent_id s).
Definition set_blobs (m : gmap Z Blob) (id : Z) (s : S) : S :=
  MkSys (fs s) (blobstore s) (sched_conn s) (http_client s) (channel s) (create_blobs s) m
    (dents s) id (max_dent_id s).
Definition set_dents (m : gmap Z DirEntry) (id : Z) (s : S) : S :=
  MkSys (fs s) (blobstore s) (sched_conn s) (http_client s) (channel s) (create_blobs s)
    (blobs s) m (max_blob_id s) id.

Definition on_fs {A} (m : SM (World St) A) : M A := zoom fs set_fs m.
Definition on_blobs {A} (m : SM Blobstore A) : M A := zoom blobstore set_blobstore m.
Definition on_http {A} (m : SM N A) : M A := zoom http_client set_http_client m.
Definition on_channel {A} (m : SM Ch A) : M A := zoom channel set_channel m.
(** [self.env.sched_conn.as_mut().unwrap()] *)
Definition on_sched {A} (m : SM C A) : M A := fun s =>
  match sched_conn s with
  | None => (Panic, s)
  | Some c => let '(a, c') := m c in (a, set_sched_conn (Some c') s)
  end.

(** [Result::expect] and [Result::unwrap] *)
Definition expect {A E} (r : result A E) : M A :=
  match r with Ok a => mret a | Err _ => panic end.

(** The next descriptor: [let id = self.max_dent_id; insert; self.max_dent_id += 1]. *)
Definition insert_dent (e : DirEntry) : M Z :=
  id ← gets max_dent_id;
  _ ← modify (fun s => set_dents (<[id := e]> (dents s)) (wrap_u64 (id + 1)) s);
  mret id.
Definition insert_blob (b : Blob) : M Z :=
  id ← gets max_blob_id;
  _ ← modify (fun s => set_blobs (<[id := b]> (blobs s)) (wrap_u64 (id + 1)) s);
  mret id.

Definition get_dent (fd : Z) : M (option DirEntry) := gets (fun s => dents s !! fd).

(** ** [SyscallProcessor::new] and [new_insecure] *)

Definition new (w : World St) (bs : Blobstore) (conn : option C) (http : N) (ch : Ch)
    (label : Buckle) (privilege : Component) : S :=
  let w := (clear_label w).2 in
  let w := (taint_with_label label w).2 in
  let w := (set_my_privilge privilege w).2 in
  MkSys w bs conn http ch ∅ ∅ {[ 0%Z := DirEntry.Directory ROOT_REF ]} 1 1.

Definition new_insecure (w : World St) (bs : Blobstore) (conn : option C) (http : N) (ch : Ch) :
    S :=
  MkSys w bs conn http ch ∅ ∅ ∅ 0 0.

Definition http_send (service_info : Service) (body : option bytes)
    (parameters : gmap string string) : M (result HttpResponse SyscallProcessorError) :=
  match strfmt (url service_info) parameters with
  | None => mret (Err SyscallProcessorError.BadUrlArgs)
  | Some url =>
      if forallb (fun h => header_name_ok h.1 && header_value_ok h.2)
           (map_to_list (headers service_info))
      then
        r ← on_http (http_execute (verb service_info) url (headers service_info) body);
        mret (match r with Some r => Ok r | None => Err SyscallProcessorError.Http end)
      else panic
  end.

(** ** Directory entries *)

Definition root : pb.DentResult := pb.MkDentResult true None None.

Definition dent_open (dir_fd : Z) (entry : pb.dent_open_entry) : M pb.DentOpenResult :=
  base ← get_dent dir_fd;
  result ←
    match base, entry with
    | Some (DirEntry.Directory base_dir), pb.Name name =>
        es ← on_fs (dir_list base_dir);
        match es !! name with
        | Some dent =>
            res_id ← insert_dent dent; mret (Some (res_id, dent_kind_from dent))
        | None => mret None
        end
    | Some (DirEntry.FacetedDirectory base_dir), pb.Facet label =>
        label ← buckle_into label;
        dent ← on_fs (faceted_open base_dir label);
        res_id ← insert_dent (DirEntry.Directory dent);
        mret (Some (res_id, pb.DentDirectory))
    | Some (DirEntry.FacetedDirectory base_dir), pb.Name label_name =>
        match buckle_parse label_name with
        | Some label =>
            dent ← on_fs (faceted_open base_dir label);
            res_id ← insert_dent (DirEntry.Directory dent);
            mret (Some (res_id, pb.DentDirectory))
        | None => mret None
        end
    | _, _ => mret None
    end;
  mret (match result with
        | Some (fd, kind) => pb.MkDentOpenResult true fd kind
        | None => pb.MkDentOpenResult false 0 pb.DentDirectory
        end).

(** [dent_close] builds its result and discards it. *)
Definition dent_close (fd : Z) : M unit :=
  modify (fun s => set_dents (delete fd (dents s)) (max_dent_id s) s).

(** [let DirEntry::Blob(x) = self.dents.get(&fd).ok_or(InvalidFd)? else { Err(NotABlob)? }] *)
Definition blob_entry (fd : Z) : M (result (ObjectRef TBlob) FsError) :=
  e ← get_dent fd;
  mret (match e with
        | None => Err FsError.InvalidFd
        | Some (DirEntry.Blob r) => Ok r
        | Some _ => Err FsError.NotABlob
        end).

Definition unwrap_component (c : option pb.Component) : M Component :=
  c ← unwrap c; component_into c.
Definition component_or_true (c : option pb.Component) : M Component :=
  match c with Some c => component_into c | None => mret dc_true end.

Definition create_direct_gate_entry (label : Buckle) (dg : pb.DirectGate) :
    M (result DirEntry FsError) :=
  function ← unwrap (pb.dg_function dg);
  app_image ?← blob_entry (pb.app_image function);
  runtime_image ?← blob_entry (pb.runtime function);
  kernel ?← blob_entry (pb.kernel function);
  app_image ← on_fs (blob_read app_image);
  runtime_image ← on_fs (blob_read runtime_image);
  kernel ← on_fs (blob_read kernel);
  let func := MkFunction (wrap_u64 (pb.memory function)) app_image runtime_image kernel in
  privilege ← unwrap_component (pb.dg_privilege dg);
  iic ← unwrap_component (pb.dg_invoker_integrity_clearance dg);
  declassify ← component_or_true (pb.dg_declassify dg);
  on_fs (create_direct_gate label (MkDirectGate privilege iic declassify func)).

Definition create_redirect_gate_entry (label : Buckle) (rd : pb.RedirectGate) :
    M (result DirEntry FsError) :=
  e ← get_dent (pb.rd_gate rd);
  match e with
  | Some (DirEntry.Gate gate_objref) =>
      privilege ← unwrap_component (pb.rd_privilege rd);
      iic ← unwrap_component (pb.rd_invoker_integrity_clearance rd);
      declassify ← component_or_true (pb.rd_declassify rd);
      on_fs (create_redirect_gate label (MkRedirectGate privilege iic declassify gate_objref))
  | _ => mret (Err FsError.NotAGate)
  end.

(** The service a message describes; an unknown verb is [HEAD]. *)
Definition service_from (sv : pb.Service) : M Service :=
  let verb := http_verb_into (default pb.HttpHead (http_verb_from_i32 (pb.svc_verb sv))) in
  taint ← unwrap (pb.svc_taint sv);
  taint ← buckle_into taint;
  privilege ← unwrap_component (pb.svc_privilege sv);
  iic ← unwrap_component (pb.svc_invoker_integrity_clearance sv);
  mret (MkService privilege iic taint (pb.svc_url sv) verb (pb.svc_headers sv)).

Definition dent_create (kind : pb.dent_create_kind) (label : option Buckle) :
    M (result pb.DentResult FsError) :=
  let label := default public label in
  entry ?←
    match kind with
    | pb.CreateDirectory => e ← on_fs (create_directory label); mret (Ok e)
    | pb.CreateFile => e ← on_fs (create_file label); mret (Ok e)
    | pb.CreateFacetedDirectory => e ← on_fs create_faceted_directory; mret (Ok e)
    | pb.CreateGate g =>
        match pb.gate_of g with
        | Some (pb.Direct dg) => create_direct_gate_entry label dg
        | Some (pb.Redirect rd) => create_redirect_gate_entry label rd
        | None => mret (Err FsError.NotAGate)
        end
    | pb.CreateService sv => s ← service_from sv; on_fs (create_service label s)
    | pb.CreateBlob blobfd =>
        b ← gets (fun s => blobs s !! blobfd);
        match b with
        | Some blob => on_fs (create_blob label (name blob))
        | None => mret (Err FsError.NotABlob)
        end
    end;
  res_id ← insert_dent entry;
  mret (Ok (pb.MkDentResult true (Some res_id) None)).

(** [if image > 0 { gate.function.image = ... }] *)
Definition update_image (fd : Z) (set : string -> Function -> Function) (f : Function) :
    M (result Function FsError) :=
  if bool_decide (0 < fd)%Z then
    image ?← blob_entry fd;
    b ← on_fs (blob_read image);
    mret (Ok (set b f))
  else mret (Ok f).

Definition set_app_image (b : string) (f : Function) : Function :=
  MkFunction (memory f) b (runtime_image f) (kernel f).
Definition set_runtime_image (b : string) (f : Function) : Function :=
  MkFunction (memory f) (app_image f) b (kernel f).
Definition set_kernel (b : string) (f : Function) : Function :=
  MkFunction (memory f) (app_image f) (runtime_image f) b.
Definition set_memory (m : Z) (f : Function) : Function :=
  if bool_decide (0 < m)%Z then MkFunction (wrap_u64 m) (app_image f) (runtime_image f) (kernel f)
  else f.

Definition update_function (function : pb.Function) (f : Function) :
    M (result Function FsError) :=
  f ?← update_image (pb.app_image function) set_app_image f;
  f ?← update_image (pb.runtime function) set_runtime_image f;
  f ?← update_image (pb.kernel function) set_kernel f;
  mret (Ok (set_memory (pb.memory function) f)).

(** [if let Some(c) = c { field = c.into() }] *)
Definition update_component (c : option pb.Component) (old : Component) : M Component :=
  match c with Some c => component_into c | None => mret old end.

(** [gateentry.get(fs).map(|e| e.unlabel().clone())] *)
Definition current_gate (r : ObjectRef TGate) : M (option Gate) :=
  o ← on_fs (obj_get r);
  match o with
  | Some g => d ← on_fs (unlabel g); mret (Some d)
  | None => mret None
  end.

Definition update_direct_gate (gateentry : ObjectRef TGate) (dg : pb.DirectGate) :
    M (result unit FsError) :=
  cur ← current_gate gateentry;
  match cur with
  | Some (Gate.Direct gate) =>
      f ?← match pb.dg_function dg with
           | Some f => update_function f (function gate)
           | None => mret (Ok (function gate))
           end;
      privilege ← update_component (pb.dg_privilege dg) (privilege gate);
      iic ← update_component (pb.dg_invoker_integrity_clearance dg)
              (invoker_integrity_clearance gate);
      on_fs (gate_replace gateentry
               (Gate.Direct (MkDirectGate privilege iic (declassify gate) f)))
  | _ => mret (Err FsError.NotAGate)
  end.

Definition update_redirect_gate (gateentry : ObjectRef TGate) (rd : pb.RedirectGate) :
    M (result unit FsError) :=
  cur ← current_gate gateentry;
  match cur with
  | Some (Gate.Redirect gate) =>
      e ← get_dent (pb.rd_gate rd);
      match e with
      | Some (DirEntry.Gate gate_objref) =>
          privilege ← update_component (pb.rd_privilege rd) (rd_privilege gate);
          iic ← update_component (pb.rd_invoker_integrity_clearance rd)
                  (rd_invoker_integrity_clearance gate);
          on_fs (gate_replace gateentry
            (Gate.Redirect (MkRedirectGate privilege iic (rd_declassify gate) gate_objref)))
      | _ => mret (Err FsError.NotAGate)
      end
  | _ => mret (Err FsError.NotAGate)
  end.

Definition dent_update (fd : Z) (kind : pb.dent_update_kind) :
    M (result pb.DentResult FsError) :=
  e ← get_dent fd;
  _ ?←
    match kind with
    | pb.UpdateFile data =>
        match e with
        | Some (DirEntry.File file) =>
            r ← on_fs (file_write file data); mret (map_err LabelError_into r)
        | _ => mret (Err FsError.NotAFile)
        end
    | pb.UpdateGate g =>
        match e, pb.gate_of g with
        | Some (DirEntry.Gate gateentry), Some (pb.Direct dg) => update_direct_gate gateentry dg
        | Some (DirEntry.Gate gateentry), Some (pb.Redirect rd) =>
            update_redirect_gate gateentry rd
        | _, _ => mret (Err FsError.NotAGate)
        end
    | pb.UpdateService sv =>
        match e with
        | Some (DirEntry.Service service) =>
            s ← service_from sv; on_fs (service_replace service s)
        | _ => mret (Err FsError.NotAService)
        end
    | pb.UpdateBlob blobfd =>
        b ← gets (fun s => blobs s !! blobfd);
        match b with
        | None => mret (Err FsError.NotABlob)
        | Some blob =>
            match e with
            | Some (DirEntry.Blob blobentry) =>
                r ← on_fs (blob_replace blobentry (name blob)); mret (map_err LabelError_into r)
            | _ => mret (Err FsError.NotABlob)
            end
        end
    end;
  mret (Ok (pb.MkDentResult true None None)).

Definition dent_read (fd : Z) : M pb.DentResult :=
  e ← get_dent fd;
  result ← match e with
           | Some (DirEntry.File file) => d ← on_fs (file_read file); mret (Some d)
           | _ => mret None
           end;
  mret (pb.MkDentResult (bool_decide (is_Some result)) (Some fd) result).

(** Both branches report success. *)
Definition dent_list (fd : Z) : M pb.DentListResult :=
  e ← get_dent fd;
  result ← match e with
           | Some (DirEntry.Directory dir) =>
               es ← on_fs (dir_list dir); mret (Some (dent_kind_from <$> es))
           | _ => mret None
           end;
  mret (match result with
        | Some entries => pb.MkDentListResult true entries
        | None => pb.MkDentListResult true ∅
        end).

Definition dent_list_faceted (fd : Z) (clearance : Buckle) : M pb.DentLsFacetedResult :=
  e ← get_dent fd;
  result ← match e with
           | Some (DirEntry.FacetedDirectory faceted) =>
               m ← on_fs (faceted_list faceted clearance);
               mret (Some (buckle_from <$> buckle_iter (dom m)))
           | _ => mret None
           end;
  mret (match result with
        | Some facets => pb.MkDentLsFacetedResult true facets
        | None => pb.MkDentLsFacetedResult false []
        end).

(** Opens one image of a gate's function as a blob descriptor. *)
Definition open_image (image : string) : M Z :=
  blobid ← gets max_blob_id;
  _ ← modify (fun s => set_blobs (blobs s) (wrap_u64 (blobid + 1)) s);
  b ← on_blobs (open image);
  blob ← expect b;
  _ ← modify (fun s => set_blobs (<[blobid := blob]> (blobs s)) (max_blob_id s) s);
  mret blobid.

Definition dent_ls_gate (fd : Z) : M pb.DentLsGateResult :=
  e ← get_dent fd;
  result ←
    match e with
    | Some (DirEntry.Gate gate) =>
        o ← on_fs (obj_get gate);
        g ← unwrap o;
        d ← on_fs (unlabel g);
        match d with
        | Gate.Direct dg =>
            app_image_fd ← open_image (app_image (function dg));
            runtime_fd ← open_image (runtime_image (function dg));
            kernel_fd ← open_image (kernel (function dg));
            mret (Some (pb.MkGate (Some (pb.Direct (pb.MkDirectGate
              (Some (component_from (privilege dg)))
              (Some (component_from (invoker_integrity_clearance dg)))
              (Some (pb.MkFunction (wrap_u64 (memory (function dg)))
                       app_image_fd runtime_fd kernel_fd))
              (Some (component_from (declassify dg))))))))
        | Gate.Redirect rd =>
            mret (Some (pb.MkGate (Some (pb.Redirect (pb.MkRedirectGate
              (Some (component_from (rd_privilege rd)))
              (Some (component_from (rd_invoker_integrity_clearance rd)))
              0
              (Some (component_from (rd_declassify rd))))))))
        end
    | _ => mret None
    end;
  mret (pb.MkDentLsGateResult (bool_decide (is_Some result)) result).

(** Success is that [link] returned [Ok], whether it linked or found the name taken. *)
Definition dent_link (dir_fd : Z) (name : string) (target_fd : Z) : M pb.DentResult :=
  base_dir_m ← get_dent dir_fd;
  target_obj_m ← get_dent target_fd;
  success ←
    match base_dir_m, target_obj_m with
    | Some (DirEntry.Directory base_dir), Some target =>
        r ← on_fs (dir_link base_dir name target);
        mret (match r with Ok _ => true | Err _ => false end)
    | _, _ => mret false
    end;
  mret (pb.MkDentResult success None None).

Definition dent_unlink (fd : Z) (name : string) : M pb.DentResult :=
  e ← get_dent fd;
  success ←
    match e with
    | Some (DirEntry.Directory base_dir) =>
        r ← on_fs (dir_unlink base_dir name);
        mret (match r with Ok b => b | Err _ => false end)
    | _ => mret false
    end;
  mret (pb.MkDentResult success (Some fd) None).

(** ** Invocations *)

(** [create], [write_all] and [save], each with [expect], and the new descriptor. *)
Definition save_new_blob (content : bytes) : M Z :=
  nb ← on_blobs create;
  newblob ← expect nb;
  fuel ← gets (fun s => Datatypes.S (length (io (blobstore s))));
  w ← on_blobs (write_all fuel newblob content);
  newblob ← expect w;
  b ← on_blobs (save newblob);
  blob ← expect b;
  insert_blob blob.

(** The triple [(blobfd, data, headers)] of [dent_invoke]. *)
Definition invocation : Type := option Z * option bytes * option (gmap string bytes).

Definition invoke_gate (gate_fuel : nat) (gate : ObjectRef TGate) (payload : bytes)
    (sync toblob : bool) (parameters : gmap string string) : M (option invocation) :=
  g ← on_fs (gate_to_invokable gate_fuel gate);
  p ← on_fs get_privilege;
  if negb (implies p (invoker_integrity_clearance g)) then mret None
  else
    label ← on_fs get_current_label;
    sent ← on_sched (labeled_invoke (sched.MkLabeledInvoke
      (Some (function_into_message (function g))) (Some (buckle_from label))
      (Some (component_from (privilege g))) payload ∅ parameters sync
      (Some (component_from p))));
    match sent with
    | Err _ => mret None
    | Ok _ =>
        if sync then
          res ← on_sched message_read;
          match res with
          | Err _ => mret None
          | Ok res =>
              res_label ← match sched.return_label res with
                          | Some l => buckle_into l
                          | None => mret public
                          end;
              _ ← on_fs (taint_with_label res_label);
              response ← unwrap (sched.return_payload res);
              if toblob then
                blobfd ← save_new_blob (default [] (pb.body response));
                mret (Some (Some blobfd, None, None))
              else mret (Some (None, pb.body response, None))
          end
        else mret (Some (None, Some [], None))
    end.

Definition invoke_service (service : ObjectRef TService) (payload : bytes) (toblob : bool)
    (parameters : gmap string string) : M (option invocation) :=
  service_info ← on_fs (service_to_invokable service);
  p ← on_fs get_privilege;
  if negb (implies p (svc_invoker_integrity_clearance service_info)) then mret None
  else
    _ ← on_fs (declassify_with (svc_privilege service_info));
    sendres ← http_send service_info (Some payload) parameters;
    _ ← on_fs (taint_with_label (taint service_info));
    match sendres with
    | Ok response =>
        if toblob then
          body ← unwrap (resp_body response);
          blobfd ← save_new_blob body;
          mret (Some (Some blobfd, None, Some (resp_headers response)))
        else mret (Some (None, resp_body response, Some (resp_headers response)))
    | Err _ => mret None
    end.

Definition dent_invoke (gate_fuel : nat) (fd : Z) (payload : bytes) (sync toblob : bool)
    (parameters : gmap string string) : M pb.DentInvokeResult :=
  e ← get_dent fd;
  r ← match e with
      | Some (DirEntry.Gate gate) => invoke_gate gate_fuel gate payload sync toblob parameters
      | Some (DirEntry.Service service) => invoke_service service payload toblob parameters
      | _ => mret None
      end;
  let '(blobfd, data, headers) := default (None, None, None) r in
  mret (pb.MkDentInvokeResult (bool_decide (is_Some blobfd) || bool_decide (is_Some data))
          blobfd data (default ∅ headers)).

(** ** Blobs *)

Definition dent_get_blob (fd : Z) : M pb.BlobResult :=
  e ← get_dent fd;
  match e with
  | Some (DirEntry.Blob blobentry) =>
      n ← on_fs (blob_read blobentry);
      b ← on_blobs (open n);
      blob ← expect b;
      blobfd ← gets max_blob_id;
      _ ← modify (fun s => set_blobs (blobs s) (wrap_u64 (blobfd + 1)) s);
      l ← on_blobs (blob_len blob);
      len ← expect l;
      _ ← modify (fun s => set_blobs (<[blobfd := blob]> (blobs s)) (max_blob_id s) s);
      mret (pb.MkBlobResult true blobfd len None)
  | _ => mret (pb.MkBlobResult false 0 0 None)
  end.

(** [e.to_string().into()] *)
Local Abbreviation to_bytes := String.list_byte_of_string.

Definition blob_create : M pb.BlobResult :=
  r ← on_blobs create;
  match r with
  | Ok newblob =>
      blobid ← gets max_blob_id;
      _ ← modify (fun s => set_blobs (blobs s) (wrap_u64 (blobid + 1)) s);
      _ ← modify (fun s => set_create_blobs (<[blobid := newblob]> (create_blobs s)) s);
      mret (pb.MkBlobResult true blobid 0 None)
  | Err e => mret (pb.MkBlobResult false 0 0 (Some (to_bytes e)))
  end.

Definition blob_write (fd : Z) (data : bytes) : M pb.BlobResult :=
  b ← gets (fun s => create_blobs s !! fd);
  match b with
  | Some blob =>
      r ← on_blobs (write blob data);
      match r with
      | Ok (len, blob) =>
          _ ← modify (fun s => set_create_blobs (<[fd := blob]> (create_blobs s)) s);
          mret (pb.MkBlobResult true fd (Z.of_nat len) None)
      | Err e => mret (pb.MkBlobResult false fd 0 (Some (to_bytes e)))
      end
  | None => mret (pb.MkBlobResult false fd 0 None)
  end.

Definition blob_finalize (fd : Z) : M pb.BlobResult :=
  b ← gets (fun s => create_blobs s !! fd);
  match b with
  | Some new_blob =>
      _ ← modify (fun s => set_create_blobs (delete fd (create_blobs s)) s);
      r ← on_blobs (save new_blob);
      match r with
      | Ok blob =>
          _ ← modify (fun s => set_blobs (<[fd := blob]> (blobs s)) (max_blob_id s) s);
          mret (pb.MkBlobResult true fd (len new_blob) None)
      | Err e => mret (pb.MkBlobResult false fd (len new_blob) (Some (to_bytes e)))
      end
  | None => mret (pb.MkBlobResult false fd 0 None)
  end.

(** [vec![0; length]] of more than [isize::MAX] bytes panics. *)
Definition sys_blob_read (fd offset length_ : Z) : M pb.BlobResult :=
  b ← gets (fun s => blobs s !! fd);
  match b with
  | Some blob =>
      if bool_decide (2 ^ 63 <= length_)%Z then panic
      else
        r ← on_blobs (read_at blob length_ offset);
        mret (match r with
              | Ok buf => pb.MkBlobResult true fd (Z.of_nat (length buf)) (Some buf)
              | Err e => pb.MkBlobResult false fd 0 (Some (to_bytes e))
              end)
  | None => mret (pb.MkBlobResult false fd 0 None)
  end.

Definition blob_close (fd : Z) : M pb.BlobResult :=
  b ← gets (fun s => blobs s !! fd);
  match b with
  | Some _ =>
      _ ← modify (fun s => set_blobs (delete fd (blobs s)) (max_blob_id s) s);
      mret (pb.MkBlobResult true fd 0 None)
  | None => mret (pb.MkBlobResult false fd 0 None)
  end.

(** ** Dispatch *)

(** [s.send(reply.encode_to_vec())?] *)
Definition send_reply (r : pb.Reply) : M (result unit SyscallProcessorError) :=
  r ← on_channel (send (encode_to_vec r));
  mret (map_err SyscallProcessorError.Channel r).

Definition failed : pb.DentResult := pb.MkDentResult false None None.

Definition reply {A} (f : A -> pb.Reply) (m : M A) :
    M (result (option TaskReturn) SyscallProcessorError) :=
  a ← m; _ ?← send_reply (f a); mret (Ok None).

(** [label.map(Into::into)] *)
Definition label_into (l : option pb.Buckle) : M (option Buckle) :=
  match l with Some l => b ← buckle_into l; mret (Some b) | None => mret None end.

Definition do_syscall (gate_fuel : nat) (sc : pb.Syscall) :
    M (result (option TaskReturn) SyscallProcessorError) :=
  match sc with
  | pb.SysResponse r =>
      p ← on_fs get_privilege;
      result_label ← on_fs (declassify_with p);
      mret (Ok (Some (sched.MkTaskReturn (sched.code sched.Success) (Some r)
                        (Some (buckle_from result_label)))))
  | pb.SysBuckleParse label =>
      reply (fun l => pb.RMaybeBuckle (buckle_from <$> l)) (mret (buckle_parse label))
  | pb.SysGetCurrentLabel => reply (fun l => pb.RBuckle (buckle_from l)) (on_fs get_current_label)
  (* [*cl.borrow_mut() = cl.borrow().clone().lub(..)]: what [cl.borrow()] gives lives to the end
     of the statement, and [cl.borrow_mut()] panics beside it *)
  | pb.SysTaintWithLabel label => _ ← buckle_into label; panic
  | pb.SysDeclassify component =>
      reply (fun r => pb.RMaybeBuckle (match r with Ok l => Some (buckle_from l) | Err _ => None end))
        (target ← component_into component; on_fs (declassify_to target))
  | pb.SysSubPrivilege _ => panic
  | pb.SysRoot => reply pb.RDentResult (mret root)
  | pb.SysDentOpen fd entry =>
      reply pb.RDentOpenResult (entry ← unwrap entry; dent_open fd entry)
  | pb.SysDentClose fd => reply (fun _ => pb.RVoid) (dent_close fd)
  | pb.SysDentCreate kind label =>
      reply pb.RDentResult
        (label ← label_into label;
         match kind with
         | Some kind =>
             r ← dent_create kind label;
             mret (match r with Ok r => r | Err _ => failed end)
         | None => mret failed
         end)
  | pb.SysDentUpdate kind fd =>
      reply pb.RDentResult
        (match kind with
         | Some kind =>
             r ← dent_update fd kind;
             mret (match r with Ok r => r | Err _ => failed end)
         | None => mret failed
         end)
  | pb.SysDentRead fd => reply pb.RDentResult (dent_read fd)
  | pb.SysDentList fd => reply pb.RDentListResult (dent_list fd)
  | pb.SysDentLsFaceted fd clearance =>
      reply pb.RDentLsFacetedResult
        (clearance ← label_into clearance; dent_list_faceted fd (default public clearance))
  | pb.SysDentLsGate fd => reply pb.RDentLsGateResult (dent_ls_gate fd)
  | pb.SysDentLink dir_fd name target_fd =>
      reply pb.RDentResult (dent_link dir_fd name target_fd)
  | pb.SysDentUnlink fd name => reply pb.RDentResult (dent_unlink fd name)
  | pb.SysDentInvoke fd sync payload toblob parameters =>
      reply pb.RDentInvokeResult (dent_invoke gate_fuel fd payload sync toblob parameters)
  | pb.SysDentGetBlob fd => reply pb.RBlobResult (dent_get_blob fd)
  | pb.SysBlobCreate _ => reply pb.RBlobResult blob_create
  | pb.SysBlobWrite fd data => reply pb.RBlobResult (blob_write fd data)
  | pb.SysBlobFinalize fd => reply pb.RBlobResult (blob_finalize fd)
  | pb.SysBlobRead fd offset length =>
      reply pb.RBlobResult (sys_blob_read fd (default 0%Z offset) (default 4096%Z length))
  | pb.SysBlobClose fd => reply pb.RBlobResult (blob_close fd)
  end.

(** ** The loop *)

Fixpoint first_principals (cs : list Clause) : M (list pb.TokenList) :=
  match cs with
  | [] => mret []
  | c :: cs =>
      p ← unwrap (head (principal_iter c));
      ps ← first_principals cs;
      mret (p :: ps)
  end.

Definition from_invoker_privilege_to_invoker_principal_list (invoker : Component) :
    M (list pb.TokenList) :=
  match invoker with
  | DCFalse => panic
  | DCFormula set => first_principals (clause_iter set)
  end.

(** [blobs.drain().map(..)]: a descriptor for each blob, in the map's iteration order, which is
    the order of the list. *)
Fixpoint insert_blobs (bs : list (string * Blob)) : M (list (string * Z)) :=
  match bs with
  | [] => mret []
  | (k, b) :: bs => fd ← insert_blob b; r ← insert_blobs bs; mret ((k, fd) :: r)
  end.

(** Serves system calls until a response or an error; [fuel] bounds the messages served. *)
Fixpoint serve (fuel gate_fuel : nat) : M (result TaskReturn SyscallProcessorError) :=
  match fuel with
  | O => nofuel
  | Datatypes.S fuel =>
      w ← on_channel wait;
      sc ?← mret (map_err SyscallProcessorError.Channel w);
      match sc with
      | None => serve fuel gate_fuel
      | Some sc =>
          r ?← do_syscall gate_fuel sc;
          match r with
          | Some tr => mret (Ok tr)
          | None => serve fuel gate_fuel
          end
      end
  end.

Definition run (fuel gate_fuel : nat) (payload : bytes) (bs : list (string * Blob))
    (hs : gmap string string) (invoker : Component) :
    M (result TaskReturn SyscallProcessorError) :=
  blobfds ← insert_blobs bs;
  invoker ← from_invoker_privilege_to_invoker_principal_list invoker;
  _ ?← send_reply (pb.RRequest (pb.MkRequest payload (list_to_map blobfds) hs invoker));
  serve fuel gate_fuel.
End server.
