(* ===== verification/SysGuarantee.v ===== *)
(** * What system calls may do

    The guarantees of [FsGuarantee.v] and [FsMediation.v] carried to the system call interface,
    and the discipline of the descriptor tables. *)

From stdpp Require Import base tactics option list gmap strings countable.
From S2P Require Import Prelude Labels Store FsTypes Objects Fs FsGuarantee.
From S2P Require Import FsMediation Syscalls Blobstore Message SysServer.

(** The invocation of a gate, for a relation that does not look at the connection. *)
Section unheard.
Context {St C N Ch : Type} `{BS : !BackingStore St} `{L : !LabelOps} `{SD : !SerdeOps}.
Context `{DG : DigestOps} `{HX : !HexOps} `{CN : !Conn C}.
Context `{MQ : !Message Request} `{MT : !Message TaskReturn}.
Local Abbreviation S := (SysState St C N Ch).
Context (R : relation (World St)) (RS : relation S) `{!PreOrder RS} `{!FsPrimitives R}.
Hypothesis lifted : forall A (m : SM (World St) A), Guar R m -> Guar RS (on_fs m).
Hypothesis deaf : forall s s', fs s' = fs s -> dents s' = dents s ->
  max_dent_id s' = max_dent_id s -> RS s s'.

Lemma invoke_gate_unheard f r p sy t ps : Guar RS (invoke_gate f r p sy t ps).
Proof.
  assert (Hc : forall A (m : SM C A), Guar RS (on_sched m : SM S A)).
  { intros A m s. unfold on_sched. destruct (sched_conn s) as [c|]; [|by apply deaf].
    destruct (m c). by apply deaf. }
  assert (Hb : forall A (m : SM Blobstore A), Guar RS (on_blobs m : SM S A)).
  { intros A m s. unfold on_blobs, zoom. destruct (m (blobstore s)). by apply deaf. }
  assert (Hi : forall b, Guar RS (insert_blob b)) by (intros b s; by apply deaf).
  assert (Hs : forall c, Guar RS (save_new_blob c)).
  { intros c. unfold save_new_blob, expect. solve_guar. }
  unfold invoke_gate, taint_with_label, get_privilege, get_current_label.
  repeat first [progress solve_guar | apply lifted].
Qed.
End unheard.

Section lift.
Context {St C N Ch : Type} `{BS : !BackingStore St} `{L : !LabelOps} `{SD : !SerdeOps}.
Context `{DG : DigestOps} `{HX : !HexOps} `{CN : !Conn C} `{HC : !HttpClient N}.
Context `{SC : !SyscallChannel Ch} `{MR : !Message pb.Reply}.
Context `{MQ : !Message Request} `{MT : !Message TaskReturn}.

Local Abbreviation S := (SysState St C N Ch).

(** What the guarantees of this file have in common: [RS] follows from [R] for a computation of
    the file system, does not look at blobs or the channel, and says of the conversation with
    the scheduler, which the invocation of a gate is, what it says. *)
Class SysPrimitives (R : relation (World St)) (RS : relation S) : Prop := {
  sys_preorder :: PreOrder RS;
  sys_on_fs {A} (m : SM (World St) A) : Guar R m -> Guar RS (on_fs m);
  sys_same s s' :
    fs s' = fs s -> dents s' = dents s -> max_dent_id s' = max_dent_id s ->
    sched_conn s' = sched_conn s -> RS s s';
  sys_invoke_gate f r p sy t ps : FsPrimitives R -> Guar RS (invoke_gate f r p sy t ps);
}.

Context (R : relation (World St)) (RS : relation S) `{!SysPrimitives R RS} `{!FsPrimitives R}.
Local Abbreviation G := (Guar (S := S) RS).

Lemma guar_on_fs {A} (m : SM (World St) A) : Guar R m -> G (on_fs m).
Proof. apply sys_on_fs. Qed.
Lemma guar_on_blobs {A} (m : SM Blobstore A) : G (on_blobs m).
Proof.
  intros s. unfold on_blobs, zoom. destruct (m (blobstore s)). by apply (sys_same (R := R)).
Qed.
Lemma guar_on_http {A} (m : SM N A) : G (on_http m).
Proof.
  intros s. unfold on_http, zoom. destruct (m (http_client s)). by apply (sys_same (R := R)).
Qed.
Lemma guar_on_channel {A} (m : SM Ch A) : G (on_channel m).
Proof.
  intros s. unfold on_channel, zoom. destruct (m (channel s)). by apply (sys_same (R := R)).
Qed.
Lemma guar_modify_same (f : S -> S) :
  (forall s, fs (f s) = fs s /\ dents (f s) = dents s /\ max_dent_id (f s) = max_dent_id s /\
     sched_conn (f s) = sched_conn s) ->
  G (modify f).
Proof. intros H s. destruct (H s) as (? & ? & ? & ?). by apply (sys_same (R := R)). Qed.

#[local] Hint Resolve guar_on_fs guar_on_blobs guar_on_http guar_on_channel : guar.
#[local] Hint Extern 1 (Guar _ (modify _)) => apply guar_modify_same; repeat split : guar.
#[local] Hint Extern 1 (Guar _ (on_fs _)) => apply guar_on_fs; solve_guar : guar.

Lemma g_get_dent fd : G (get_dent fd).
Proof. unfold get_dent. solve_guar. Qed.
Lemma g_insert_blob b : G (insert_blob b).
Proof. unfold insert_blob. solve_guar. Qed.
Lemma g_expect {A E} (r : result A E) :
  G (expect r).
Proof. unfold expect. solve_guar. Qed.
#[local] Hint Resolve g_get_dent g_insert_blob g_expect : guar.

Lemma g_dent_open fd e : (forall e, G (insert_dent e)) -> G (dent_open fd e).
Proof. intros Hi. unfold dent_open. solve_guar. Qed.
Lemma g_blob_entry fd : G (blob_entry fd).
Proof. unfold blob_entry. solve_guar. Qed.
Lemma g_unwrap_component c : G (unwrap_component c).
Proof. unfold unwrap_component. solve_guar. Qed.
Lemma g_component_or_true c : G (component_or_true c).
Proof. unfold component_or_true. solve_guar. Qed.
Lemma g_service_from sv : G (service_from sv).
Proof. unfold service_from, unwrap_component. solve_guar. Qed.
#[local] Hint Resolve g_blob_entry g_unwrap_component
  g_component_or_true g_service_from : guar.

Lemma g_create_direct_gate_entry l dg : G (create_direct_gate_entry l dg).
Proof. unfold create_direct_gate_entry. solve_guar. Qed.
Lemma g_create_redirect_gate_entry l rd : G (create_redirect_gate_entry l rd).
Proof. unfold create_redirect_gate_entry. solve_guar. Qed.
#[local] Hint Resolve g_create_direct_gate_entry g_create_redirect_gate_entry : guar.

(** The entry that [dent_create] adds to the table. *)
Definition new_entry (label : Buckle) (kind : pb.dent_create_kind) :
    SM S (result DirEntry FsError) :=
  match kind with
  | pb.CreateDirectory => e ← on_fs (create_directory label); mret (Ok e)
  | pb.CreateFile => e ← on_fs (create_file label); mret (Ok e)
  | pb.CreateFacetedDirectory => e ← on_fs create_faceted_directory; mret (Ok e)
  | pb.CreateGate g =>
      match pb.gate_of g with
      | Some (pb.Direct dg) => create_direct_gate_entry label dg
      | Some (pb.Redirect rd) => create_redirect_gate_entry label rd
      | None => mret (Err FsError.NotAGate)
      end
  | pb.CreateService sv => s ← service_from sv; on_fs (create_service label s)
  | pb.CreateBlob blobfd =>
      b ← gets (fun s => blobs s !! blobfd);
      match b with
      | Some blob => on_fs (create_blob label (name blob))
      | None => mret (Err FsError.NotABlob)
      end
  end.
Lemma g_new_entry l k : G (new_entry l k).
Proof. unfold new_entry. solve_guar. Qed.
#[local] Hint Resolve g_new_entry : guar.
Lemma dent_create_eq k l :
  dent_create k l =
    (entry ?← new_entry (default public l) k;
     res_id ← (insert_dent entry : SM S Z);
     mret (Ok (pb.MkDentResult true (Some res_id) None))).
Proof. done. Qed.
Lemma g_dent_create k l : (forall e, G (insert_dent e)) -> G (dent_create k l).
Proof. intros Hi. rewrite dent_create_eq. solve_guar. Qed.

Lemma g_update_image fd set f : G (update_image fd set f).
Proof. unfold update_image. solve_guar. Qed.
#[local] Hint Resolve g_update_image : guar.
Lemma g_update_function p f : G (update_function p f).
Proof. unfold update_function. solve_guar. Qed.
Lemma g_update_component c o : G (update_component c o).
Proof. unfold update_component. solve_guar. Qed.
Lemma g_current_gate r : G (current_gate r).
Proof. unfold current_gate. solve_guar. Qed.
#[local] Hint Resolve g_update_function g_update_component g_current_gate : guar.
Lemma g_update_direct_gate r dg : G (update_direct_gate r dg).
Proof. unfold update_direct_gate. solve_guar. Qed.
Lemma g_update_redirect_gate r rd : G (update_redirect_gate r rd).
Proof. unfold update_redirect_gate. solve_guar. Qed.
#[local] Hint Resolve g_update_direct_gate g_update_redirect_gate : guar.
Lemma g_dent_update fd k : G (dent_update fd k).
Proof. unfold dent_update. solve_guar. Qed.

Lemma g_open_image i : G (open_image i).
Proof. unfold open_image. solve_guar. Qed.
#[local] Hint Resolve g_dent_update g_open_image : guar.
Lemma g_dent_read fd : G (dent_read fd).
Proof. unfold dent_read. solve_guar. Qed.
Lemma g_dent_list fd : G (dent_list fd).
Proof. unfold dent_list. solve_guar. Qed.
Lemma g_dent_list_faceted fd c : G (dent_list_faceted fd c).
Proof. unfold dent_list_faceted. solve_guar. Qed.
Lemma g_dent_ls_gate fd : G (dent_ls_gate fd).
Proof. unfold dent_ls_gate. solve_guar. Qed.
Lemma g_dent_link fd n t : G (dent_link fd n t).
Proof. unfold dent_link. solve_guar. Qed.
Lemma g_dent_unlink fd n : G (dent_unlink fd n).
Proof. unfold dent_unlink. solve_guar. Qed.
Lemma g_save_new_blob c : G (save_new_blob c).
Proof. unfold save_new_blob. solve_guar. Qed.
#[local] Hint Resolve g_dent_read g_dent_list g_dent_list_faceted g_dent_ls_gate g_dent_link
  g_dent_unlink g_save_new_blob : guar.
Lemma g_invoke_gate f r p s t ps : G (invoke_gate f r p s t ps).
Proof. by apply sys_invoke_gate. Qed.
Lemma g_dent_get_blob fd : G (dent_get_blob fd).
Proof. unfold dent_get_blob. solve_guar. Qed.
Lemma g_send_reply r : G (send_reply r).
Proof. unfold send_reply. solve_guar. Qed.
Lemma g_http_send i b p : G (http_send i b p).
Proof. unfold http_send. solve_guar. Qed.
#[local] Hint Resolve g_invoke_gate g_dent_get_blob g_send_reply g_http_send : guar.

Lemma g_blob_create : G blob_create.
Proof. unfold blob_create. solve_guar. Qed.
Lemma g_blob_write fd d : G (blob_write fd d).
Proof. unfold blob_write. solve_guar. Qed.
Lemma g_blob_finalize fd : G (blob_finalize fd).
Proof. unfold blob_finalize. solve_guar. Qed.
Lemma g_blob_read_at fd o l : G (sys_blob_read fd o l).
Proof. unfold sys_blob_read. solve_guar. Qed.
Lemma g_blob_close fd : G (blob_close fd).
Proof. unfold blob_close. solve_guar. Qed.
Lemma g_label_into l : G (label_into l).
Proof. unfold label_into. solve_guar. Qed.
#[local] Hint Resolve g_blob_create g_blob_write g_blob_finalize g_blob_read_at g_blob_close
  g_label_into : guar.

Lemma g_reply_tail r :
  G (_ ?← send_reply r; mret (Ok None : result (option TaskReturn) SyscallProcessorError)).
Proof. solve_guar. Qed.
Lemma guar_reply {A} (f : A -> pb.Reply) m : G m -> G (reply f m).
Proof. intros H. unfold reply. pose proof g_reply_tail. solve_guar. Qed.

(** The system calls that may lower the current label: the response, and the invocation of a
    service. *)
Definition declassifying (s : S) (sc : pb.Syscall) : bool :=
  match sc with
  | pb.SysResponse _ => true
  | pb.SysDentInvoke fd _ _ _ _ =>
      match dents s !! fd with Some (DirEntry.Service _) => true | _ => false end
  | _ => false
  end.

Definition closing (sc : pb.Syscall) : bool :=
  match sc with pb.SysDentClose _ => true | _ => false end.

Definition opening (sc : pb.Syscall) : bool :=
  match sc with pb.SysDentOpen _ _ | pb.SysDentCreate _ _ => true | _ => false end.

Lemma g_invoke_service r p t ps :
  (forall c, Guar R (declassify_with c)) -> G (invoke_service r p t ps).
Proof. intros Hd. unfold invoke_service, get_privilege, taint_with_label. solve_guar. Qed.

(** From the guarantee at one state to the guarantee. *)
Ltac at_every_state s H :=
  clear H; revert s;
  match goal with |- forall s, ?P s (?m s).2 => change (Guar P m) end.

Lemma dent_invoke_guar f fd p sy t ps s :
  declassifying s (pb.SysDentInvoke fd sy p t ps) = false \/
    (forall c, Guar R (declassify_with c)) ->
  RS s (dent_invoke f fd p sy t ps s).2.
Proof.
  intros Hd. unfold dent_invoke, get_dent.
  apply (at_pure _ _ s (dents s !! fd)); [done|]. apply at_then.
  - cbn [declassifying] in Hd. destruct (dents s !! fd) as [[]|]; try (by apply guar_ret).
    + by apply g_invoke_gate.
    + apply g_invoke_service. by destruct Hd.
  - intros r. destruct (default _ r) as [[? ?] ?]. apply guar_ret.
Qed.

Lemma do_syscall_guar f sc s :
  declassifying s sc = false \/ (forall c, Guar R (declassify_with c)) ->
  closing sc = false \/ (forall fd, G (dent_close fd)) ->
  opening sc = false \/ (forall e, G (insert_dent e)) ->
  RS s (do_syscall f sc s).2.
Proof.
  intros Hd Hc Ho.
  destruct sc; try (
    match goal with
    | |- context [pb.SysResponse] => fail 1
    | |- context [pb.SysDentClose] => fail 1
    | |- context [pb.SysDentInvoke] => fail 1
    | |- context [pb.SysDentOpen] => fail 1
    | |- context [pb.SysDentCreate] => fail 1
    | _ => at_every_state s Hd;
        unfold do_syscall, get_current_label, taint_with_label, declassify_to;
        first [apply guar_panic | apply guar_reply; solve_guar | solve_guar]
    end).
  - destruct Hd as [[=]|Hd]. cbn [do_syscall].
    at_every_state s Hc. unfold get_privilege. solve_guar.
  - destruct Ho as [[=]|Ho]. at_every_state s Hd. apply guar_reply.
    pose proof g_dent_open. solve_guar.
  - destruct Hc as [[=]|Hc]. at_every_state s Hd. by apply guar_reply.
  - destruct Ho as [[=]|Ho]. at_every_state s Hd. apply guar_reply.
    pose proof g_dent_create. solve_guar.
  - cbn [do_syscall]. unfold reply. apply at_then; [by apply dent_invoke_guar|].
    intros. solve_guar.
Qed.

Lemma serve_guar fuel f :
  (forall c, Guar R (declassify_with c)) -> (forall fd, G (dent_close fd)) ->
  (forall e, G (insert_dent e)) ->
  G (serve fuel f).
Proof.
  intros Hd Hc Hi. induction fuel as [|fuel IH]; cbn [serve]; [apply guar_nofuel|].
  assert (Hs : forall sc, G (do_syscall f sc)).
  { intros sc s. apply do_syscall_guar; by right. }
  solve_guar.
Qed.

Lemma run_guar fuel f p bs hs inv :
  (forall c, Guar R (declassify_with c)) -> (forall fd, G (dent_close fd)) ->
  (forall e, G (insert_dent e)) ->
  G (run fuel f p bs hs inv).
Proof.
  intros Hd Hc Hi. pose proof (serve_guar fuel f Hd Hc Hi) as Hs.
  assert (Hb : G (insert_blobs bs)).
  { clear -SysPrimitives0. induction bs as [|[k b] bs IH]; cbn [insert_blobs]; solve_guar. }
  assert (Hp : forall cs, G (first_principals cs)).
  { clear -SysPrimitives0. induction cs as [|c cs IH]; cbn [first_principals]; solve_guar. }
  unfold run, from_invoker_privilege_to_invoker_principal_list. solve_guar.
Qed.
End lift.
