(* ===== verification/SysTheorems.v ===== *)
(** * Theorems about the system call interface

    The instances of [SysPrimitives], what they say of [do_syscall] and [run], and the functional
    behaviour of the calls where it matters most: descriptors, labels and invocations. *)

From stdpp Require Import base tactics option list gmap strings countable.
From S2P Require Import Prelude Labels Store FsTypes Objects Fs FsGuarantee.
From S2P Require Import FsMediation FsReads FsGates Syscalls Blobstore Message.
From S2P Require Import SysServer SysGuarantee.

(** ** Instances *)

Section instances.
Context {St C N Ch : Type} `{BS : !BackingStore St} `{L : !LabelOps} `{SD : !SerdeOps}.
Context `{DG : DigestOps}.

Local Abbreviation S := (SysState St C N Ch).

(** A guarantee of the file system, read on the server's state. *)
Definition OnFs (R : relation (World St)) (s s' : S) : Prop := R (fs s) (fs s').

#[global] Instance OnFs_preorder R `{!PreOrder R} : PreOrder (OnFs R).
Proof. split; unfold OnFs; [by intros s | intros a b c; by etrans]. Qed.

Context `{HX : !HexOps} `{CN : !Conn C} `{MQ : !Message Request} `{MT : !Message TaskReturn}.

#[global] Instance OnFs_sys R `{!PreOrder R} : SysPrimitives R (OnFs R).
Proof.
  split; try apply _; unfold OnFs.
  - intros A m Hm s. unfold on_fs, zoom. specialize (Hm (fs s)). by destruct (m (fs s)).
  - intros s s' Hs _ _ _. rewrite Hs. reflexivity.
  - intros f r p sy t ps HR. refine (invoke_gate_unheard R _ _ _ f r p sy t ps).
    + intros A m Hm s. unfold on_fs, zoom. specialize (Hm (fs s)). by destruct (m (fs s)).
    + intros s s' -> _ _. reflexivity.
Qed.

Lemma OnFs_close R `{!PreOrder R} fd : Guar (OnFs R) (dent_close fd).
Proof. intros s. unfold OnFs. reflexivity. Qed.

Lemma OnFs_insert R `{!PreOrder R} e : Guar (OnFs R) (insert_dent e).
Proof. intros s. unfold OnFs. reflexivity. Qed.

(** The relation that holds always; it makes a guarantee about descriptors alone. *)
Definition Anything (w w' : World St) : Prop := True.
#[global] Instance Anything_primitives : FsPrimitives Anything.
Proof. by split; intros; try split; try done; intros ?. Qed.

(** The descriptor table is as it was. *)
Definition SameDents (s s' : S) : Prop :=
  dents s' = dents s /\ max_dent_id s' = max_dent_id s.
#[global] Instance SameDents_preorder : PreOrder SameDents.
Proof. split; [by intros s | intros a b c [H1 H2] [H3 H4]; split; congruence]. Qed.
#[global] Instance SameDents_sys : SysPrimitives Anything SameDents.
Proof.
  split; try apply _.
  - intros A m _ s. unfold on_fs, zoom. by destruct (m (fs s)).
  - by intros s s' _ H1 H2 _.
  - intros f r p sy t ps _. refine (invoke_gate_unheard Anything _ _ _ f r p sy t ps).
    + intros A m _ s. unfold on_fs, zoom. by destruct (m (fs s)).
    + by intros s s' _ ? ?.
Qed.

(** Open descriptors are below the counter. *)
Definition fds_ok (s : S) : Prop :=
  (0 <= max_dent_id s)%Z /\
  forall fd, is_Some (dents s !! fd) -> (0 <= fd < max_dent_id s)%Z.

(** At most one descriptor was handed out: the one the counter named. *)
Definition OneDent (s s' : S) : Prop :=
  SameDents s s' \/
  exists e, dents s' = <[max_dent_id s := e]> (dents s) /\
    max_dent_id s' = wrap_u64 (max_dent_id s + 1).

Lemma one_insert e s : OneDent s (insert_dent e s).2.
Proof. right. by exists e. Qed.
Lemma one_same s s' s'' : OneDent s s' -> SameDents s' s'' -> OneDent s s''.
Proof.
  intros [[H1 H2]|(e & H1 & H2)] [H3 H4].
  - left. split; congruence.
  - right. exists e. split; congruence.
Qed.
Lemma same_one s s' s'' : SameDents s s' -> OneDent s' s'' -> OneDent s s''.
Proof.
  intros [H1 H2] [[H3 H4]|(e & H3 & H4)].
  - left. split; congruence.
  - right. exists e. rewrite <- H1, <- H2. done.
Qed.

(** A computation that leaves the table alone, followed by one that inserts at most once. *)
Lemma one_after {A B} (m : SM S A) (f : A -> SM S B) s :
  Guar SameDents m -> (forall a s', OneDent s' (f a s').2) -> OneDent s ((m ≫= f) s).2.
Proof.
  intros Hm Hf. specialize (Hm s). unfold mbind, SM_bind.
  destruct (m s) as [[a| |] s']; [|by left..]. eapply same_one; [exact Hm | apply Hf].
Qed.
Lemma one_before {A B} (m : SM S A) (f : A -> SM S B) s :
  OneDent s (m s).2 -> (forall a, Guar SameDents (f a)) -> OneDent s ((m ≫= f) s).2.
Proof.
  intros Hm Hf. unfold mbind, SM_bind.
  destruct (m s) as [[a| |] s']; [|done..]. eapply one_same; [exact Hm | apply Hf].
Qed.
End instances.

(** ** Descriptors *)

Section descriptors.
Context {St C N Ch : Type} `{BS : !BackingStore St} `{L : !LabelOps} `{SD : !SerdeOps}.
Context `{DG : DigestOps} `{HX : !HexOps} `{CN : !Conn C} `{HC : !HttpClient N}.
Context `{SC : !SyscallChannel Ch} `{MR : !Message pb.Reply}.
Context `{MQ : !Message Request} `{MT : !Message TaskReturn}.

Local Abbreviation S := (SysState St C N Ch).

Lemma one_dent_open fd e (s : S) : OneDent s (dent_open fd e s).2.
Proof.
  assert (Hfs : forall A (m : SM (World St) A), Guar SameDents (on_fs (C := C) (N := N) (Ch := Ch) m)).
  { intros A m. apply (guar_on_fs Anything SameDents m). by intros w. }
  assert (Hpre : PreOrder (SameDents (St := St) (C := C) (N := N) (Ch := Ch)))
    by apply SameDents_sys.
  unfold dent_open. apply one_after; [apply guar_gets|]. intros base s1.
  apply one_before; [|intros r; apply guar_ret].
  assert (Hdir : forall r l (s' : S), OneDent s' ((dent ← on_fs (faceted_open r l);
      res_id ← insert_dent (DirEntry.Directory dent);
      mret (Some (res_id, pb.DentDirectory))) s').2).
  { intros r l s'. apply one_after; [apply Hfs|]. intros d s2.
    apply one_before; [apply one_insert | intros; apply guar_ret]. }
  destruct base as [[d|r|r|r|r|r]|]; try by left. all: destruct e as [n|l]; try by left.
  - apply one_after; [apply Hfs|]. intros es s2. destruct (es !! n); [|by left].
    apply one_before; [apply one_insert | intros; apply guar_ret].
  - destruct (buckle_parse n); [apply Hdir | by left].
  - apply one_after; [apply guar_buckle_into|]. intros l'. apply Hdir.
Qed.

Lemma one_dent_create k l (s : S) : OneDent s (dent_create k l s).2.
Proof.
  assert (Hpre : PreOrder (SameDents (St := St) (C := C) (N := N) (Ch := Ch)))
    by apply SameDents_sys.
  rewrite dent_create_eq.
  apply one_after; [apply (g_new_entry Anything SameDents)|]. intros [e|e] s1; [|by left].
  apply one_before; [apply one_insert | intros; apply guar_ret].
Qed.

Lemma one_reply {A} (f : A -> pb.Reply) (m : SM S A) s :
  OneDent s (m s).2 -> OneDent s (reply f m s).2.
Proof.
  intros Hm. unfold reply. apply one_before; [done|]. intros a.
  apply (g_reply_tail Anything SameDents).
Qed.

Lemma one_do_syscall f sc (s : S) : closing sc = false -> OneDent s (do_syscall f sc s).2.
Proof.
  intros Hc. destruct (opening sc) eqn:Ho.
  - destruct sc; try discriminate Ho; cbn [do_syscall]; apply one_reply.
    + apply one_after; [|intros; apply one_dent_open]. destruct entry; [apply guar_ret|apply guar_panic].
    + apply one_after; [apply (g_label_into Anything SameDents)|]. intros l' s'.
      destruct kind; [|by left]. apply one_before; [apply one_dent_create|].
      intros; apply guar_ret.
  - left. apply (do_syscall_guar Anything SameDents); [right|by left|by left].
    intros c w. done.
Qed.
End descriptors.
