(* ===== verification/SysSafety.v ===== *)
(** * Safety of the system call interface

    What a function can do to labels, to the store and to its descriptors, one system call at a
    time and over a whole run. *)

From stdpp Require Import base tactics option list gmap strings countable.
From S2P Require Import Prelude Labels Store FsTypes Objects Fs FsGuarantee.
From S2P Require Import FsMediation FsReads FsGates Syscalls Blobstore Message.
From S2P Require Import SysServer SysGuarantee SysTheorems.

(** ** Relations on the store *)

Section relations.
Context {St : Type} `{BW : BackingStoreLaws St} `{LW : LabelLaws} `{SW : SerdeLaws}.
Implicit Types w : World St.

(** [Mediated] without its claim on the label. *)
Definition StoreMediated w w' : Prop :=
  quiet w ->
  quiet w' /\ thread_privilege w' = thread_privilege w /\
  store_ok (current_label w) (thread_privilege w) (view w) (view w').

(** The store and the privilege are as they were. *)
Definition StoreSame w w' : Prop :=
  interference w' = interference w /\ backing w' = backing w /\
  thread_privilege w' = thread_privilege w.

#[global] Instance StoreSame_preorder : PreOrder StoreSame.
Proof. split; [by intros w | intros a b c (? & ? & ?) (? & ? & ?); split_and!; congruence]. Qed.

Lemma mediated_store w w' : Mediated w w' -> StoreMediated w w'.
Proof. intros H Hq. by destruct (H Hq) as (? & [_ ?] & ?). Qed.

Lemma store_mediated_same w w' w'' :
  StoreMediated w w' -> StoreSame w' w'' -> StoreMediated w w''.
Proof.
  intros H (Hi & Hb & Hp) Hq. destruct (H Hq) as ([Hq1 Hq2] & Hp1 & Hs).
  split; [split; congruence|]. split; [congruence|]. unfold view in *. by rewrite Hb.
Qed.

(** A stored value and what may take its place whatever the label: the label of an object is
    there to stay. *)
Definition kept (v v' : bytes) : Prop :=
  v = v' \/ v = [] \/
  exists t (x x' : obj_data t),
    from_slice t v = Some x /\ v' = to_vec x' /\ obj_label t x' = obj_label t x.

Lemma kept_trans v1 v2 v3 : kept v1 v2 -> kept v2 v3 -> kept v1 v3.
Proof.
  intros [->|[->|(t & x & y & Hx & -> & Hxy)]] H2; [done | by right; left |].
  right; right. destruct H2 as [<-|[E|(t' & y' & z & Hy & -> & Hyz)]].
  - by exists t, x, y.
  - by apply to_vec_not_nil in E.
  - apply from_slice_to_vec in Hy as [<- Hy]. cbn in Hy. subst y'.
    exists t, x, z. split_and!; [done|done|congruence].
Qed.

Lemma authorized_kept l p v v' : authorized l p v v' -> kept v v'.
Proof.
  intros [->|[->|(t & x & y & Hx & -> & Hxy)]]; [by left | by right; left |].
  right; right. exists t, x, y. split_and!; try done. unfold may_replace in Hxy.
  destruct (obj_label t x); by destruct Hxy.
Qed.

(** What holds over any number of calls, declassifications included. *)
Definition Confined w w' : Prop :=
  quiet w ->
  quiet w' /\ thread_privilege w' = thread_privilege w /\
  (forall k v, view w !! k = Some v -> exists v', view w' !! k = Some v' /\ kept v v') /\
  (forall k v', view w' !! k = Some v' ->
     view w !! k = Some v' \/ granted (thread_privilege w) v').

#[global] Instance Confined_preorder : PreOrder Confined.
Proof.
  split.
  - intros w Hq. split_and!; try done; [|by left].
    intros k v Hk. exists v. split; [done|by left].
  - intros a b c Hab Hbc Hq. destruct (Hab Hq) as (Hqb & Hpb & Kb & Gb).
    destruct (Hbc Hqb) as (Hqc & Hpc & Kc & Gc). split_and!; [done|congruence| |].
    + intros k v Hk. destruct (Kb k v Hk) as (v' & Hk' & H1).
      destruct (Kc k v' Hk') as (v'' & Hk'' & H2). exists v''. eauto using kept_trans.
    + intros k v Hk. destruct (Gc k v Hk) as [Hk'|Hg]; [by apply Gb|].
      right. by rewrite <- Hpb.
Qed.

Lemma mediated_confined w w' : Mediated w w' -> Confined w w'.
Proof.
  intros H Hq. destruct (H Hq) as (Hq' & [_ Hp] & Hs & Hg). split_and!; try done.
  intros k v Hk. destruct (Hs k v Hk) as (v' & Hk' & Ha). eauto using authorized_kept.
Qed.

#[global] Instance Confined_primitives : FsPrimitives Confined.
Proof. eapply primitives_weaken, mediated_primitives; [apply _ | apply mediated_confined]. Qed.

Lemma confined_declassify c : Guar Confined (declassify_with (St := St) c).
Proof.
  intros w Hq. split_and!; try done; [|by left].
  intros k v Hk. exists v. split; [done|by left].
Qed.
End relations.

Section calls.
Context {St C N Ch : Type} `{BW : BackingStoreLaws St} `{LW : LabelLaws} `{SW : SerdeLaws}.
Context `{DG : DigestOps} `{HX : !HexOps} `{CN : !Conn C} `{HC : !HttpClient N}.
Context `{SC : !SyscallChannel Ch} `{MR : !Message pb.Reply}.
Context `{MQ : !Message Request} `{MT : !Message TaskReturn}.

Local Abbreviation S := (SysState St C N Ch).

(** What follows the label check of a service invocation leaves the store alone. *)
Lemma same_guar {A} (m : SM (World St) A) :
  Guar StoreSame m -> Guar (OnFs (C := C) (N := N) (Ch := Ch) StoreSame) (on_fs m).
Proof. apply (guar_on_fs StoreSame (OnFs StoreSame)). Qed.

Lemma mediated_invoke_service r p t ps (s : S) :
  OnFs StoreMediated s (invoke_service r p t ps s).2.
Proof.
  assert (HM : OnFs Mediated s (on_fs (service_to_invokable r) s).2).
  { apply (guar_on_fs Mediated (OnFs Mediated)). apply g_service_to_invokable, _. }
  unfold invoke_service. destruct (on_fs (service_to_invokable r) s) as [o s1] eqn:E.
  cbn [snd] in HM. apply mediated_store in HM. unfold mbind at 1, SM_bind. rewrite E.
  destruct o as [info| |]; try exact HM.
  match goal with |- OnFs _ _ (?k s1).2 => assert (HS : Guar (OnFs StoreSame) k) end.
  { assert (Hfs : forall A (m : SM (World St) A), Guar StoreSame m ->
      Guar (OnFs (C := C) (N := N) (Ch := Ch) StoreSame) (on_fs m)) by (intros; by apply same_guar).
    assert (Hdecl : forall c, Guar StoreSame (declassify_with (St := St) c)) by (intros c w; done).
    assert (Htaint : forall l, Guar StoreSame (taint_with_label (St := St) l)) by (intros l w; done).
    assert (Hpriv : Guar StoreSame (get_privilege (St := St))) by (intros w; done).
    pose proof (g_http_send (St := St) (C := C) (Ch := Ch) StoreSame (OnFs StoreSame)) as Hh.
    pose proof (g_save_new_blob (St := St) (C := C) (N := N) (Ch := Ch)
      StoreSame (OnFs StoreSame)) as Hb.
    solve_guar. }
  specialize (HS s1). unfold OnFs in *. by eapply store_mediated_same.
Qed.

Lemma mediated_do_syscall f sc (s : S) : OnFs StoreMediated s (do_syscall f sc s).2.
Proof.
  destruct (declassifying s sc) eqn:Hd.
  - destruct sc; try discriminate Hd.
    + intros Hq. split; [exact Hq|]. split; [done|]. apply store_ok_refl.
    + cbn [declassifying] in Hd. destruct (dents s !! fd) as [[]|] eqn:Hfd; try discriminate Hd.
      cbn [do_syscall].
      match goal with |- context [reply pb.RDentInvokeResult ?m] => set (inv := m) end.
      assert (HI : OnFs StoreMediated s (inv s).2).
      { unfold inv, dent_invoke, get_dent.
        rewrite (bind_step (gets _) _ s (dents s !! fd) s), Hfd by done.
        pose proof (mediated_invoke_service r payload toblob parameters s) as H.
        unfold mbind at 1, SM_bind. destruct (invoke_service _ _ _ _ s) as [[o| |] s1];
          try exact H. by destruct (default (None, None, None) o) as [[? ?] ?]. }
      unfold reply, mbind at 1, SM_bind. destruct (inv s) as [[a| |] s1]; try exact HI.
      pose proof (g_reply_tail StoreSame (OnFs StoreSame) (pb.RDentInvokeResult a) s1) as HT.
      by eapply store_mediated_same.
  - destruct (closing sc) eqn:Hc.
    + destruct sc; try discriminate Hc. apply mediated_store.
      apply (guar_reply Mediated (OnFs Mediated)), (OnFs_close Mediated).
    + apply mediated_store. apply (do_syscall_guar Mediated (OnFs Mediated)); [by left|by left|].
      right. intros e. apply (OnFs_insert Mediated).
Qed.

(** C8: complete mediation of a function's writes.  Without interference a system call leaves
    every stored value as it is, or replaces it where the label the thread has when the call
    starts, with its privilege, may flow to the label of the object; labels of objects never
    change, nothing is deleted, and a gate or service that appears carries no more privilege
    than the function runs with. *)
Theorem syscall_writes_mediated f sc (s : S) :
  quiet (fs s) ->
  let s' := (do_syscall f sc s).2 in
  quiet (fs s') /\ thread_privilege (fs s') = thread_privilege (fs s) /\
  store_ok (current_label (fs s)) (thread_privilege (fs s)) (view (fs s)) (view (fs s')).
Proof. apply mediated_do_syscall. Qed.

Lemma run_on_fs fuel f payload bs hs inv :
  Guar (OnFs Confined) (run fuel f payload bs hs inv : SM S _).
Proof.
  apply (run_guar Confined (OnFs Confined)); [apply confined_declassify|..]; intros x.
  - apply (OnFs_close Confined).
  - apply (OnFs_insert Confined).
Qed.

(** C6: confinement of a whole run.  Whatever system calls the function makes, in whatever
    order, and whatever it is answered: its privilege stays the one it was started with, every
    object keeps its label and stays in the store, and no gate or service is left behind whose
    privilege goes beyond that of the run. *)
Theorem run_confined fuel f payload bs hs inv (s : S) :
  quiet (fs s) ->
  let s' := (run fuel f payload bs hs inv s).2 in
  thread_privilege (fs s') = thread_privilege (fs s) /\
  (forall k v, view (fs s) !! k = Some v -> exists v', view (fs s') !! k = Some v' /\ kept v v') /\
  (forall k v', view (fs s') !! k = Some v' ->
     view (fs s) !! k = Some v' \/ granted (thread_privilege (fs s)) v').
Proof. intros Hq. by destruct (run_on_fs fuel f payload bs hs inv s Hq) as (_ & H). Qed.
End calls.

(** ** Labels and descriptors, under any interference *)

Section labels.
Context {St C N Ch : Type} `{BS : !BackingStore St} `{LW : LabelLaws} `{SD : !SerdeOps}.
Context `{DG : DigestOps} `{HX : !HexOps} `{CN : !Conn C} `{HC : !HttpClient N}.
Context `{SC : !SyscallChannel Ch} `{MR : !Message pb.Reply}.
Context `{MQ : !Message Request} `{MT : !Message TaskReturn}.

Local Abbreviation S := (SysState St C N Ch).

(** The current label of a function only rises, whatever other threads do to the store:
    the only calls after which it may be lower are the response, which lowers it with the
    function's own privilege, and the invocation of a service. *)
Theorem syscall_label_rises f sc (s : S) :
  declassifying s sc = false ->
  Flows (current_label (fs s)) (current_label (fs (do_syscall f sc s).2)) /\
  thread_privilege (fs (do_syscall f sc s).2) = thread_privilege (fs s).
Proof.
  intros Hd. destruct (closing sc) eqn:Hc.
  - destruct sc; try discriminate Hc.
    apply (guar_reply Raised (OnFs Raised)), (OnFs_close Raised).
  - apply (do_syscall_guar Raised (OnFs Raised)); [by left|by left|].
    right. intros e. apply (OnFs_insert Raised).
Qed.

(** The label of a response is the function's current label, lowered by no more than its
    own privilege allows, and it becomes the current label. *)
Theorem response_label f r (s : S) :
  exists l s', do_syscall f (pb.SysResponse r) s =
      (Val (Ok (Some (sched.MkTaskReturn 4 (Some r) (Some (buckle_from l))))), s') /\
    current_label (fs s') = l /\
    FlowsP (thread_privilege (fs s)) (current_label (fs s)) l /\ Flows l (current_label (fs s)).
Proof.
  eexists _, _; split; [reflexivity|]. cbn. split; [done|].
  split; [apply downgrade_flow | apply downgrade_le].
Qed.

(** [Declassify] answers with a label and leaves the current label as it is; the label in
    the answer, if there is one, has the current integrity and the secrecy asked for, which
    together with the privilege implies the current secrecy. *)
Theorem declassify_keeps_label target (w : World St) :
  exists r, declassify_to target w = (Val r, w) /\
    match r with
    | Ok l => l = MkBuckle target (integrity (current_label w)) /\
        FlowsP (thread_privilege w) (current_label w) l
    | Err l => l = current_label w /\
        ~ Implies (conj target (thread_privilege w)) (secrecy (current_label w))
    end.
Proof.
  eexists; split; [reflexivity|]. destruct (implies _ _) eqn:E.
  - split; [done|]. apply FlowsP_spec. split; [exact E|]. cbn. apply conj_implies_l.
  - split; [done|]. unfold Implies. by rewrite E.
Qed.

(** C15: descriptors.  A descriptor that is open keeps naming the same entry until the function
    closes it, and a descriptor that a call opens is the one the counter names: descriptors are
    never reused. *)
Theorem descriptors_never_reused f sc (s : S) :
  fds_ok s -> (max_dent_id s + 1 < u64_mod)%Z ->
  let s' := (do_syscall f sc s).2 in
  fds_ok s' /\ (max_dent_id s <= max_dent_id s' <= max_dent_id s + 1)%Z /\
  (forall fd e, dents s !! fd = Some e ->
     dents s' !! fd = Some e \/ sc = pb.SysDentClose fd) /\
  (forall fd e, dents s !! fd = None -> dents s' !! fd = Some e ->
     fd = max_dent_id s /\ max_dent_id s' = (fd + 1)%Z).
Proof.
  intros [H0 Hfd] Hmax. cbn zeta. destruct (closing sc) eqn:Hc.
  - destruct sc; try discriminate Hc.
    assert (HR : dents (do_syscall f (pb.SysDentClose fd) s).2 = delete fd (dents s) /\
                 max_dent_id (do_syscall f (pb.SysDentClose fd) s).2 = max_dent_id s).
    { cbn [do_syscall]. unfold reply, dent_close.
      rewrite (bind_step (modify _) _ s tt _ eq_refl).
      destruct (g_reply_tail Anything SameDents pb.RVoid
        (set_dents (delete fd (dents s)) (max_dent_id s) s)) as [-> ->]. done. }
    unfold fds_ok. destruct HR as [-> ->]. split_and!; try lia.
    + intros fd' [e [_ He]%lookup_delete_Some]. apply Hfd. eauto.
    + intros fd' e He. destruct (decide (fd = fd')) as [->|Hne]; [by right|].
      left. by rewrite lookup_delete_ne.
    + intros fd' e Hn [_ He]%lookup_delete_Some. congruence.
  - destruct (one_do_syscall f sc s Hc) as [[Hd Hm]|(e & Hd & Hm)]; unfold fds_ok; rewrite Hd, Hm.
    + split_and!; try lia; try done; [by left|]. intros fd e Hn He. congruence.
    + unfold wrap_u64. rewrite Z.mod_small by lia. split_and!; try lia.
      * intros fd He. destruct (decide (max_dent_id s = fd)) as [Heq|Hne]; [lia|].
        rewrite lookup_insert_ne in He by done. apply Hfd in He. lia.
      * intros fd e' He. left. rewrite lookup_insert_ne; [done|].
        specialize (Hfd _ (ex_intro _ _ He)). lia.
      * intros fd e' Hn He. destruct (decide (max_dent_id s = fd)) as [Heq|Hne]; [lia|].
        rewrite lookup_insert_ne in He by done. congruence.
Qed.

(** The table a run starts with. *)
Lemma new_fds_ok (w : World St) bs (conn : option C) (http : N) (ch : Ch) label p :
  fds_ok (new w bs conn http ch label p).
Proof.
  split; [cbn; lia|]. intros fd He. cbn in *.
  destruct (decide (fd = 0%Z)) as [->|Hne]; [lia|].
  rewrite lookup_singleton_ne in He by done. by destruct He.
Qed.

(** What an invocation starts from: the label is at least the invocation's label, whatever
    the thread did before, the privilege is the gate's, and the only descriptor is the root
    directory, under number 0. *)
Theorem processor_new (w : World St) bs (conn : option C) (http : N) (ch : Ch) label p :
  let s := new w bs conn http ch label p in
  current_label (fs s) = lub public label /\
  Flows label (current_label (fs s)) /\
  (forall l, Flows public l -> Flows label l -> Flows (current_label (fs s)) l) /\
  thread_privilege (fs s) = p /\
  backing (fs s) = backing w /\
  (forall fd e, dents s !! fd = Some e -> fd = 0%Z /\ e = DirEntry.Directory ROOT_REF) /\
  fds_ok s /\ blobs s = ∅ /\ create_blobs s = ∅.
Proof.
  cbn zeta. split_and!; try done.
  - apply Flows_lub_r.
  - intros l H1 H2. by apply Flows_lub.
  - intros fd e. cbn. rewrite lookup_singleton_Some. naive_solver.
  - apply new_fds_ok.
Qed.
End labels.
