(* ===== verification/SysCalls.v ===== *)
(** * The functional behaviour of invocations and of the calls whose replies surprise

    What [DentInvoke] sends and taints, for a gate and for a service; and the replies of
    [DentClose], [DentList] and [DentLink], which do not say what [syscalls.proto] lets a
    client expect, and [TaintWithLabel], which never replies. *)

From stdpp Require Import base tactics option list gmap strings countable.
From S2P Require Import Prelude Labels Store FsTypes Objects Fs FsGuarantee.
From S2P Require Import FsMediation FsReads FsDirs FsGates Syscalls Blobstore Message.
From S2P Require Import SysServer SysGuarantee SysTheorems.

Section invoke.
Context {St C N Ch : Type} `{BW : BackingStoreLaws St} `{LW : LabelLaws} `{SW : SerdeLaws}.
Context `{DG : DigestOps} `{HX : !HexOps} `{CN : !Conn C} `{HC : !HttpClient N}.
Context `{SC : !SyscallChannel Ch} `{MR : !Message pb.Reply}.
Context `{MQ : !Message Request} `{MT : !Message TaskReturn}.

Local Abbreviation S := (SysState St C N Ch).

Lemma on_fs_run {A} (m : SM (World St) A) (s : S) a w' :
  m (fs s) = (a, w') -> on_fs m s = (a, set_fs w' s).
Proof. intros E. unfold on_fs, zoom. by rewrite E. Qed.

(** The state after the labels of a list of objects were read. *)
Definition tainted (ls : list Buckle) (s : S) : S :=
  set_fs (set_label (taints ls (current_label (fs s))) (fs s)) s.

Definition no_invocation : pb.DentInvokeResult := pb.MkDentInvokeResult false None None ∅.

(** What the scheduler is asked to run. *)
Definition invocation_message (g : DirectGate) (l : Buckle) (p : Component) (payload : bytes)
    (parameters : gmap string string) (sync : bool) : LabeledInvoke :=
  sched.MkLabeledInvoke (Some (function_into_message (function g))) (Some (buckle_from l))
    (Some (component_from (privilege g))) payload ∅ parameters sync (Some (component_from p)).

(** The prefix of an invocation of a gate: resolution and the clearance check. *)
Lemma invoke_gate_prefix f r hops l g payload sync toblob ps (s : S) :
  quiet (fs s) -> gate_chain (view (fs s)) r hops (l, g) -> (length hops < f)%nat ->
  let s1 := tainted (hops.*1 ++ [l]) s in
  let g' := invokable hops g in
  invoke_gate f r payload sync toblob ps s =
    (if negb (implies (thread_privilege (fs s)) (invoker_integrity_clearance g'))
     then mret None
     else
       sent ← on_sched (labeled_invoke (invocation_message g' (current_label (fs s1))
                (thread_privilege (fs s)) payload ps sync));
       match sent with
       | Err _ => mret None
       | Ok _ =>
           if sync then
             res ← on_sched message_read;
             match res with
             | Err _ => mret None
             | Ok res =>
                 res_label ← match sched.return_label res with
                             | Some l => buckle_into l
                             | None => mret public
                             end;
                 _ ← on_fs (taint_with_label res_label);
                 response ← unwrap (sched.return_payload res);
                 if toblob then
                   blobfd ← save_new_blob (default [] (pb.body response));
                   mret (Some (Some blobfd, None, None))
                 else mret (Some (None, pb.body response, None))
             end
           else mret (Some (None, Some [], None))
       end) s1.
Proof.
  intros Hq Hc Hf s1 g'. unfold invoke_gate.
  rewrite (bind_step _ _ _ _ _ (on_fs_run _ s _ _ (gate_to_invokable_chain f r hops l g _ Hq Hc Hf))).
  change (set_fs _ s) with s1. fold g'.
  rewrite (bind_step (on_fs get_privilege) _ s1 (thread_privilege (fs s)) s1) by done.
  by destruct (negb _).
Qed.

(** A gate is only invoked by a caller whose privilege implies the integrity clearance of
    the whole chain of redirects: otherwise the reply is a failure and nothing is sent to the
    scheduler.  Either way the caller is tainted with the label of every gate object read. *)
Theorem invoke_gate_clearance f fd r hops l g payload sync toblob ps (s : S) :
  quiet (fs s) -> dents s !! fd = Some (DirEntry.Gate r) ->
  gate_chain (view (fs s)) r hops (l, g) -> (length hops < f)%nat ->
  ~ Implies (thread_privilege (fs s)) (invoker_integrity_clearance (invokable hops g)) ->
  dent_invoke f fd payload sync toblob ps s =
    (Val no_invocation, tainted (hops.*1 ++ [l]) s).
Proof.
  intros Hq Hfd Hc Hf Hn. unfold dent_invoke, get_dent.
  rewrite (bind_step (gets _) _ s (dents s !! fd) s), Hfd by done.
  erewrite bind_step; [|rewrite (invoke_gate_prefix f r hops l g) by done; unfold Implies in Hn;
    destruct (implies _ _); [by destruct Hn | done]].
  done.
Qed.

(** What an authorized invocation sends: the function of the direct gate at the end of the
    chain, with the privilege the chain grants, the caller's label after reading the chain and
    the caller's own privilege as invoker; an asynchronous invocation then reports success
    with an empty result. *)
Theorem invoke_gate_sends f fd r hops l g payload toblob ps (s : S) c c' :
  quiet (fs s) -> dents s !! fd = Some (DirEntry.Gate r) ->
  gate_chain (view (fs s)) r hops (l, g) -> (length hops < f)%nat ->
  Implies (thread_privilege (fs s)) (invoker_integrity_clearance (invokable hops g)) ->
  sched_conn s = Some c ->
  labeled_invoke (sched.MkLabeledInvoke (Some (function_into_message (function g)))
      (Some (buckle_from (taints (hops.*1 ++ [l]) (current_label (fs s)))))
      (Some (component_from (conj (conj_all dc_true ((fun h => rd_privilege h.2) <$> hops))
                               (privilege g))))
      payload ∅ ps false (Some (component_from (thread_privilege (fs s))))) c
    = (Val (Ok tt), c') ->
  dent_invoke f fd payload false toblob ps s =
    (Val (pb.MkDentInvokeResult true None (Some []) ∅),
     set_sched_conn (Some c') (tainted (hops.*1 ++ [l]) s)).
Proof.
  intros Hq Hfd Hc Hf Hi Hconn Hsend. unfold dent_invoke, get_dent.
  rewrite (bind_step (gets _) _ s (dents s !! fd) s), Hfd by done.
  set (s1 := tainted (hops.*1 ++ [l]) s).
  assert (Hs : on_sched (labeled_invoke (invocation_message (invokable hops g)
      (current_label (fs s1)) (thread_privilege (fs s)) payload ps false)) s1
    = (Val (Ok tt), set_sched_conn (Some c') s1)).
  { unfold on_sched. change (sched_conn s1) with (sched_conn s). rewrite Hconn.
    unfold invocation_message, invokable. cbn [function privilege].
    change (current_label (fs s1)) with (taints (hops.*1 ++ [l]) (current_label (fs s))).
    by rewrite Hsend. }
  assert (HI : invoke_gate f r payload false toblob ps s =
    (Val (Some (None, Some [], None)), set_sched_conn (Some c') s1)).
  { rewrite (invoke_gate_prefix f r hops l g) by done. unfold Implies in Hi. rewrite Hi.
    cbn [negb]. by rewrite (bind_step _ _ _ _ _ Hs). }
  by rewrite (bind_step _ _ _ _ _ HI).
Qed.

(** Invoking a service.  Without the clearance nothing happens but the taint of reading
    it.  With it, the label is lowered by the privilege of the service, the request is made,
    and the label is raised by the taint of the service, whatever the request returns; so the
    caller stays declassified after the call. *)
Theorem invoke_service_label r payload toblob ps (s : S) (x : Labeled Service) :
  quiet (fs s) -> object_at (view (fs s)) r = Some (x : obj_data TService) ->
  let l := lub (label x) (current_label (fs s)) in
  if implies (thread_privilege (fs s)) (svc_invoker_integrity_clearance (data x))
  then
    match invoke_service r payload toblob ps s with
    | (Val _, s') =>
        current_label (fs s') = lub (downgrade l (svc_privilege (data x))) (taint (data x))
    | (_, s') =>
        current_label (fs s') = downgrade l (svc_privilege (data x)) \/
        current_label (fs s') = lub (downgrade l (svc_privilege (data x))) (taint (data x))
    end
  else
    invoke_service r payload toblob ps s = (Val None, tainted [label x] s).
Proof.
  intros Hq Hx l. unfold invoke_service.
  assert (Hinv : service_to_invokable r (fs s) =
    (Val (data x), set_label l (fs s))).
  { unfold service_to_invokable. rewrite (bind_step _ _ _ _ _ (obj_get_run r _ Hq)).
    unfold object_at in Hx. by rewrite Hx. }
  rewrite (bind_step _ _ _ _ _ (on_fs_run _ s _ _ Hinv)).
  set (s1 := set_fs _ s).
  rewrite (bind_step (on_fs get_privilege) _ s1 (thread_privilege (fs s)) s1) by done.
  destruct (implies _ _); cbn [negb]; [|done].
  set (l2 := downgrade l (svc_privilege (data x))).
  rewrite (bind_step (on_fs (declassify_with _)) _ s1 l2 (set_fs (set_label l2 (fs s1)) s1))
    by done.
  set (s2 := set_fs (set_label l2 _) s1).
  assert (HS : forall w w' : SysState St C N Ch, OnFs eq w w' -> current_label (fs w') = current_label (fs w)).
  { intros w w' H. unfold OnFs in H. by rewrite H. }
  pose proof (g_http_send eq (OnFs eq) (data x) (Some payload) ps s2) as H2. apply HS in H2.
  unfold mbind at 1, SM_bind. destruct (http_send _ _ _ s2) as [[sendres| |] s3];
    cbn [snd] in H2; [|by left|by left].
  set (l4 := lub l2 (taint (data x))).
  assert (Ht : on_fs (taint_with_label (taint (data x))) s3 = (Val l4, set_fs (set_label l4 (fs s3)) s3)).
  { unfold on_fs, zoom, taint_with_label, mbind, SM_bind. cbn. by rewrite H2. }
  rewrite (bind_step _ _ _ _ _ Ht). set (s4 := set_fs _ s3).
  match goal with |- context [?k s4] => assert (HG : Guar (OnFs eq) k) end.
  { pose proof (g_save_new_blob (St := St) (C := C) (N := N) (Ch := Ch) eq (OnFs eq)) as Hb.
    destruct sendres; solve_guar. }
  specialize (HG s4). apply HS in HG. destruct (match sendres with _ => _ end s4) as [[] s5];
    cbn [snd] in HG; rewrite HG; auto.
Qed.
End invoke.

(** ** Replies *)

Section replies.
Context {St C N Ch : Type} `{BW : BackingStoreLaws St} `{LW : LabelLaws} `{SW : SerdeLaws}.
Context `{DG : DigestOps} `{HX : !HexOps} `{CN : !Conn C} `{HC : !HttpClient N}.
Context `{SC : !SyscallChannel Ch} `{MR : !Message pb.Reply}.
Context `{MQ : !Message Request} `{MT : !Message TaskReturn}.

Local Abbreviation S := (SysState St C N Ch).

(** The reply to [DentClose] is the empty message, whether the descriptor was open or not;
    the [DentResult] that the protocol promises is computed and dropped. *)
Theorem dent_close_reply f fd (s : S) :
  do_syscall f (pb.SysDentClose fd) s =
    (_ ?← send_reply pb.RVoid; mret (Ok None)) (set_dents (delete fd (dents s)) (max_dent_id s) s).
Proof. done. Qed.

(** [DentList] reports success for a descriptor that is not a directory, or not open. *)
Theorem dent_list_always_succeeds fd (s : S) :
  (forall r, dents s !! fd <> Some (DirEntry.Directory r)) ->
  dent_list fd s = (Val (pb.MkDentListResult true ∅), s).
Proof.
  intros Hd. unfold dent_list, get_dent.
  rewrite (bind_step (gets _) _ s (dents s !! fd) s) by done.
  destruct (dents s !! fd) as [[r| | | | |]|]; try done. by destruct (Hd r).
Qed.

(** [DentLink] reports success although nothing was linked when the name is taken, and
    failure only when the caller may not write the directory. *)
Theorem dent_link_reply dir_fd target_fd name r target (s : S) (x : Labeled Directory) :
  quiet (fs s) -> dents s !! dir_fd = Some (DirEntry.Directory r) ->
  dents s !! target_fd = Some target -> dir_at r (backing (fs s)) x ->
  let w1 := set_label (lub (label x) (current_label (fs s))) (fs s) in
  let free := negb (bool_decide (is_Some (entries (data x) !! name))) in
  exists w', dent_link dir_fd name target_fd s =
      (Val (pb.MkDentResult (may_write (label x) w1) None None), set_fs w' s) /\
    view w' =
      (if may_write (label x) w1 && free
       then <[ukey r := to_vec (t := TDirectory)
                (MkLabeled (label x) (MkDirectory (<[name := target]> (entries (data x)))))]>
              (view (fs s))
       else view (fs s)).
Proof.
  intros Hq Hd Ht Hx w1 free.
  destruct (dir_loop_run r (entries_insert name target) true x (fs s) Hq Hx)
    as (w' & E & _ & Hv & _).
  exists w'. unfold dent_link, get_dent.
  rewrite (bind_step (gets _) _ s (dents s !! dir_fd) s), Hd by done.
  rewrite (bind_step (gets _) _ s (dents s !! target_fd) s), Ht by done.
  change (on_fs (dir_link r name target)) with
    (on_fs (N := N) (C := C) (Ch := Ch) (o ← obj_get r; prev ← unwrap o; fuel ← gets cas_fuel;
       dir_update fuel r (entries_insert name target) true prev)).
  split.
  - erewrite bind_step; [|erewrite bind_step; [|exact (on_fs_run _ s _ _ E)]; reflexivity].
    fold w1. by destruct (may_write (label x) w1).
  - rewrite Hv. fold w1. unfold entries_insert, free. cbn [fst snd].
    by destruct (may_write (label x) w1), (bool_decide (is_Some _)).
Qed.

(** [TaintWithLabel] panics, whatever the label and the state, and nothing is changed, answered
    or read first: the thread ends with the first such call of its function. *)
Theorem taint_with_label_panics fuel f label (s s' : S) :
  on_channel wait s = (Val (Ok (Some (pb.SysTaintWithLabel label))), s') ->
  serve (Datatypes.S fuel) f s = (Panic, s').
Proof.
  intros Hw. cbn [serve]. rewrite (bind_step _ _ s _ s' Hw). cbn [map_err].
  assert (Hp : do_syscall f (pb.SysTaintWithLabel label) s' = (Panic, s')).
  { cbn [do_syscall]. unfold mbind, SM_bind.
    destruct (buckle_into_total label s') as (H1 & _ & H3).
    destruct (buckle_into label s') as [[l| |] s2]; cbn in H1, H3; by subst. }
  unfold try_bind, mbind, SM_bind, mret, SM_ret. by rewrite Hp.
Qed.
End replies.
