(* ===== verification/Authority.v ===== *)
(** * Staying within an authority

    An authority [a] is a component: the principals whose word is given, for instance those of
    all the users that an attacker controls.  What carries an integrity that [a] does not imply
    is [guarded].  This file has the relation [within] on stores, which leaves guarded objects
    alone and lets no privilege appear that [a] does not imply, the property [closed] of stores
    whose gates and services cannot be used to leave [a], and the proof that the operations of
    the file system keep to them ([Held]).  [AuthoritySys.v] does the same for system calls,
    [AuthorityWeb.v] for the web frontend, and [Integrity.v] for a system of both. *)

From stdpp Require Import base tactics option list gmap strings countable.
From S2P Require Import Prelude Labels Store FsTypes Objects Fs FsGuarantee.
From S2P Require Import FsMediation FsReads FsGates Syscalls Blobstore Message.
From S2P Require Import SysServer SysGuarantee SysTheorems SysSafety.

(** ** Stores *)

Section stores.
Context `{LW : LabelLaws} `{SW : SerdeLaws} (a : Component).

Definition gate_clearance (g : Gate) : Component :=
  match g with
  | Gate.Direct d => invoker_integrity_clearance d
  | Gate.Redirect r => rd_invoker_integrity_clearance r
  end.

(** Who may use it gains nothing by it. *)
Definition closed_gate (g : Gate) : Prop :=
  Implies a (gate_clearance g) -> Implies a (gate_privilege g).
Definition closed_service (s : Service) : Prop :=
  Implies a (svc_invoker_integrity_clearance s) -> Implies a (svc_privilege s).

Definition closed_value (v : bytes) : Prop :=
  (forall g, from_slice TGate v = Some g -> closed_gate (data g)) /\
  (forall s, from_slice TService v = Some s -> closed_service (data s)).

Definition closed (m : gmap bytes bytes) : Prop := forall k v, m !! k = Some v -> closed_value v.

(** An object whose integrity is not [a]'s to give. *)
Definition guarded (v : bytes) : Prop :=
  exists t (x : obj_data t) l,
    v = to_vec x /\ obj_label t x = Some l /\ ~ Implies a (integrity l).

Definition within (m m' : gmap bytes bytes) : Prop :=
  (forall k v, m !! k = Some v ->
     exists v', m' !! k = Some v' /\ kept v v' /\ (guarded v -> v' = v)) /\
  (forall k v', m' !! k = Some v' -> m !! k = Some v' \/ granted a v').

#[global] Instance within_preorder : PreOrder within.
Proof.
  split.
  - intros m. split; [|by left]. intros k v Hk. exists v. split_and!; [done | by left | done].
  - intros m1 m2 m3 [K1 G1] [K2 G2]. split.
    + intros k v Hk. destruct (K1 k v Hk) as (v1 & Hk1 & Ha1 & Hg1).
      destruct (K2 k v1 Hk1) as (v2 & Hk2 & Ha2 & Hg2). exists v2.
      split_and!; [done | by eapply kept_trans |]. intros Hg.
      rewrite (Hg1 Hg) in Hg2. by apply Hg2.
    + intros k v Hk. destruct (G2 k v Hk) as [Hk'|?]; [by apply G1 | by right].
Qed.

Lemma within_guarded m m' k v : within m m' -> m !! k = Some v -> guarded v -> m' !! k = Some v.
Proof. intros [Hm _] Hk Hg. destruct (Hm k v Hk) as (v' & Hk' & _ & E). by rewrite Hk', E. Qed.

Lemma granted_closed v : granted a v -> closed_value v.
Proof. intros [Hg Hs]. split; intros x Hx _; auto. Qed.

Lemma within_closed m m' : within m m' -> closed m -> closed m'.
Proof.
  intros [_ Hg] Hc k v Hk. destruct (Hg k v Hk) as [Hk'|?]; [by eapply Hc | by apply granted_closed].
Qed.

(** A write that the label check allows, at a label and with a privilege of [a], spares what is
    guarded. *)
Lemma authorized_spares l p v v' :
  Implies a p -> Implies a (integrity l) -> authorized l p v v' -> guarded v -> v' = v.
Proof.
  intros Hp Hl Ha (t & x & lx & -> & Hlx & Hn).
  destruct Ha as [->|[E|(t' & y & y' & Hy & -> & Hr)]]; [done|by apply to_vec_not_nil in E|].
  apply from_slice_to_vec in Hy as [<- Hy]. cbn in Hy. subst y.
  unfold may_replace in Hr. rewrite Hlx in Hr. destruct Hr as [_ [_ Hi]%FlowsP_spec].
  destruct Hn. etrans; [|exact Hi]. by apply Implies_conj.
Qed.

Lemma store_ok_within l p m m' :
  Implies a p -> Implies a (integrity l) -> store_ok l p m m' -> within m m'.
Proof.
  intros Hp Hl [K G]. split.
  - intros k v Hk. destruct (K k v Hk) as (v' & Hk' & Ha). exists v'.
    split_and!; [done | by eapply authorized_kept | exact (authorized_spares l p v v' Hp Hl Ha)].
  - intros k v' Hk. destruct (G k v' Hk) as [?|[Hg Hs]]; [by left|]. right.
    split; intros x Hx; (etrans; [exact Hp|auto]).
Qed.
End stores.

(** ** Threads *)

Section threads.
Context {St : Type} `{BW : BackingStoreLaws St} `{LW : LabelLaws} `{SW : SerdeLaws}.
Context (a : Component).
Implicit Types w : World St.

(** The thread has no more integrity than [a] vouches for, and no more privilege. *)
Definition modest w : Prop := Implies a (integrity (current_label w)).
Definition humble w : Prop := modest w /\ Implies a (thread_privilege w).

Lemma modest_raised w w' : Flows (current_label w) (current_label w') -> modest w -> modest w'.
Proof. intros [_ Hi]%Flows_spec Hm. unfold modest. by etrans. Qed.

Lemma modest_public w : current_label w = public -> modest w.
Proof. unfold modest. intros ->. rewrite public_spec. apply implies_true. Qed.

(** Lowering the label with a privilege of [a]. *)
Lemma modest_downgrade w p : Implies a p -> modest w -> modest (declassify_with p w).2.
Proof.
  intros Hp Hm. unfold modest. cbn.
  pose proof (downgrade_flow (current_label w) p) as [_ Hi]%FlowsP_spec.
  etrans; [|exact Hi]. by apply Implies_conj.
Qed.

(** What a thread of [a] does. *)
Definition Held w w' : Prop :=
  quiet w -> humble w -> closed a (view w) ->
  quiet w' /\ humble w' /\ within a (view w) (view w').

#[global] Instance Held_preorder : PreOrder Held.
Proof.
  split.
  - intros w Hq Hh _. done.
  - intros w1 w2 w3 H12 H23 Hq Hh Hc. destruct (H12 Hq Hh Hc) as (Hq2 & Hh2 & Hw2).
    destruct (H23 Hq2 Hh2) as (Hq3 & Hh3 & Hw3); [by eapply within_closed|].
    split; [exact Hq3|]. split; [exact Hh3|]. by etrans.
Qed.

Lemma mediated_held w w' : Mediated w w' -> Held w w'.
Proof.
  intros H Hq [Hm Hp] _. destruct (H Hq) as (Hq' & [Hl Hp'] & Hs).
  split; [exact Hq'|]. split; [|by eapply store_ok_within].
  split; [by eapply modest_raised | by rewrite Hp'].
Qed.

#[global] Instance Held_primitives : FsPrimitives Held.
Proof. eapply primitives_weaken, mediated_primitives; [apply _ | apply mediated_held]. Qed.

(** Operations on the thread alone. *)
Lemma held_same w w' :
  interference w' = interference w -> backing w' = backing w -> (humble w -> humble w') -> Held w w'.
Proof.
  intros Hi Hb Hh [Hq Hok] Hw _. unfold quiet, view. rewrite Hi, Hb.
  split; [done|]. split; [by apply Hh | reflexivity].
Qed.

Lemma held_declassify p w : Implies a p -> Held w (declassify_with p w).2.
Proof.
  intros Hp. apply held_same; [done|done|]. intros [Hm Hw]. split; [by apply modest_downgrade | exact Hw].
Qed.

(** ** Gates and services that a thread may use *)

Lemma closed_get {t} (r : ObjectRef t) w (x : obj_data t) :
  view w !! ukey r ≫= from_slice t = Some x ->
  exists v, view w !! ukey r = Some v /\ from_slice t v = Some x.
Proof. destruct (view w !! ukey r) as [v|]; [|done]. intros H. by exists v. Qed.

(** The rest of a resolution: whoever has the clearance of what comes out has been given no
    privilege. *)
Definition resolved_within (d : DirectGate) : Prop :=
  Implies a (invoker_integrity_clearance d) -> Implies a (privilege d).

Lemma resolve_within fuel cur p iic decl w d w' :
  quiet w -> closed a (view w) -> closed_gate a cur -> (Implies a iic -> Implies a p) ->
  resolve_gate fuel cur p iic decl w = (Val d, w') -> resolved_within d.
Proof.
  revert cur p iic decl w. induction fuel as [|fuel IH]; intros cur p iic decl w Hq Hc Hg Hp; [done|].
  cbn [resolve_gate]. destruct cur as [dg|rd].
  - intros [= <- _]. intros [Hi Hd]%Implies_conj. apply Implies_conj. split; [by apply Hp | by apply Hg].
  - rewrite (bind_step _ _ _ _ _ (obj_get_run (rd_gate rd) w Hq)).
    destruct (view w !! ukey (rd_gate rd) ≫= from_slice TGate) as [x|] eqn:Ex; [|done].
    destruct (closed_get _ _ _ Ex) as (v & Hv & Hx).
    apply (IH (data x) _ _ _ (set_label (lub (label x) (current_label w)) w)); try done.
    + by apply (proj1 (Hc _ _ Hv)).
    + intros [Hi Hr]%Implies_conj. apply Implies_conj. split; [by apply Hp | by apply Hg].
Qed.

Lemma invokable_within fuel r w d w' :
  quiet w -> closed a (view w) -> gate_to_invokable fuel r w = (Val d, w') -> resolved_within d.
Proof.
  intros Hq Hc. unfold gate_to_invokable. rewrite (bind_step _ _ _ _ _ (obj_get_run r w Hq)).
  destruct (view w !! ukey r ≫= from_slice TGate) as [x|] eqn:Ex; [|done].
  destruct (closed_get _ _ _ Ex) as (v & Hv & Hx).
  apply (resolve_within _ (data x) _ _ _ (set_label (lub (label x) (current_label w)) w)); try done.
  by apply (proj1 (Hc _ _ Hv)).
Qed.

Lemma service_within r w s w' :
  quiet w -> closed a (view w) -> service_to_invokable r w = (Val s, w') -> closed_service a s.
Proof.
  intros Hq Hc. unfold service_to_invokable. rewrite (bind_step _ _ _ _ _ (obj_get_run r w Hq)).
  destruct (view w !! ukey r ≫= from_slice TService) as [x|] eqn:Ex; [|done].
  destruct (closed_get _ _ _ Ex) as (v & Hv & Hx). intros [= <- _].
  by apply (proj2 (Hc _ _ Hv)).
Qed.
End threads.
