(* ===== verification/AuthoritySys.v ===== *)
(** * System calls within an authority

    What a function asks of the scheduler stays within the authority of the function: the
    interface [Heard] says what arrives at the other end of a connection, and [HeldSys] is what
    a function of [a] does to the store, to its label and over its connection.  Every system
    call and the whole loop keep to it. *)

From stdpp Require Import base tactics option list gmap strings countable.
From S2P Require Import Prelude Labels Store FsTypes Objects Fs FsGuarantee.
From S2P Require Import FsMediation FsReads FsGates Syscalls Blobstore Message.
From S2P Require Import SysServer SysGuarantee SysTheorems SysSafety Authority.

(** ** What the scheduler hears *)

(** [heard c]: the requests that have been written to [c] as a whole, in order; a connection is
    [settled] between two messages. *)
Class Heard (C : Type) `{CN : !Conn C} `{MQ : !Message Request} := {
  heard : C -> list Request;
  settled : C -> Prop;
  heard_write (q : Request) c :
    settled c ->
    settled (message_write q c).2 /\
    (heard (message_write q c).2 = heard c \/ heard (message_write q c).2 = heard c ++ [q]);
  heard_read n c :
    settled c -> settled (conn_read_exact n c).2 /\ heard (conn_read_exact n c).2 = heard c;
}.

Section hearing.
Context {C : Type} `{HD : Heard C} `{L : !LabelOps} `{LL : !LabelLaws} (a : Component).

(** An invocation whose function is to run with a privilege of [a]. *)
Definition authorized_invoke (li : LabeledInvoke) : Prop :=
  forall pc, sched.li_gate_privilege li = Some pc ->
  forall s s' p, component_into (S := unit) pc s = (Val p, s') -> Implies a p.

Definition authorized_request (q : Request) : Prop :=
  forall li, request_of q = Some (LabeledInvokeReq li) -> authorized_invoke li.

(** From one state of a connection to another, only such requests were written. *)
Definition told (o o' : option C) : Prop :=
  match o, o' with
  | Some c, Some c' =>
      settled c -> settled c' /\
      exists qs, heard c' = heard c ++ qs /\ Forall authorized_request qs
  | None, None => True
  | _, _ => False
  end.

#[global] Instance told_preorder : PreOrder told.
Proof.
  split.
  - intros [c|]; [|done]. intros Hs. split; [done|]. exists []. by rewrite app_nil_r.
  - intros [c1|] [c2|] [c3|]; cbn; try done. intros H12 H23 Hs.
    destruct (H12 Hs) as (Hs2 & q1 & E1 & F1). destruct (H23 Hs2) as (Hs3 & q2 & E2 & F2).
    split; [done|]. exists (q1 ++ q2). rewrite E2, E1, app_assoc. split; [done|].
    by apply Forall_app.
Qed.

Lemma told_same c c' : (settled c -> settled c' /\ heard c' = heard c) -> told (Some c) (Some c').
Proof. intros H Hs. destruct (H Hs) as [? E]. split; [done|]. exists []. by rewrite app_nil_r. Qed.

(** Writing one request, and reading. *)
Lemma told_write q c : authorized_request q -> told (Some c) (Some (message_write q c).2).
Proof.
  intros Hq Hs. destruct (heard_write q c Hs) as [Hs' [E|E]]; (split; [done|]).
  - exists []. by rewrite app_nil_r.
  - exists [q]. split; [done|]. by constructor.
Qed.

Definition Listens (c c' : C) : Prop := settled c -> settled c' /\ heard c' = heard c.
#[global] Instance Listens_preorder : PreOrder Listens.
Proof.
  split; [by intros c|]. intros c1 c2 c3 H12 H23 Hs. destruct (H12 Hs) as [Hs2 E2].
  destruct (H23 Hs2) as [Hs3 E3]. split; [done|]. congruence.
Qed.
Lemma listens_read n : Guar Listens (conn_read_exact (C := C) n).
Proof. intros c Hs. by apply heard_read. Qed.
Lemma listens_frame b : Guar Listens (read_frame (C := C) b).
Proof. pose proof listens_read. unfold read_frame, alloc. solve_guar. Qed.
Lemma listens_message {T} `{!Message T} : Guar Listens (message_read (C := C) (T := T)).
Proof. pose proof listens_frame. unfold message_read. solve_guar. Qed.
Lemma listens_told c c' : Listens c c' -> told (Some c) (Some c').
Proof. apply told_same. Qed.

Lemma invoke_authorized li p :
  sched.li_gate_privilege li = Some (component_from p) -> Implies a p -> authorized_invoke li.
Proof.
  intros E Hp pc Hpc s s' q Hq. rewrite E in Hpc. injection Hpc as <-.
  rewrite component_into_from in Hq. by injection Hq as <-.
Qed.

Lemma told_invoke li c : authorized_invoke li -> told (Some c) (Some (labeled_invoke li c).2).
Proof. intros H. apply told_write. intros li' [= <-]. exact H. Qed.
End hearing.

(** ** System calls *)

Section calls.
Context {St C N Ch : Type} `{BW : BackingStoreLaws St} `{LW : LabelLaws} `{SW : SerdeLaws}.
Context `{DG : DigestOps} `{HX : !HexOps} `{CN : !Conn C} `{HC : !HttpClient N}.
Context `{SC : !SyscallChannel Ch} `{MR : !Message pb.Reply}.
Context `{MQ : !Message Request} `{MT : !Message TaskReturn} `{HD : !Heard C}.
Context (a : Component).

Local Abbreviation S := (SysState St C N Ch).
Implicit Types s : S.

(** What a function of [a] does: it stays one, the store changes [within] [a], and the scheduler
    is only asked for what [a] may ask. *)
Definition HeldSys s s' : Prop :=
  quiet (fs s) -> humble a (fs s) -> closed a (view (fs s)) ->
  quiet (fs s') /\ humble a (fs s') /\ within a (view (fs s)) (view (fs s')) /\
  told a (sched_conn s) (sched_conn s').

#[global] Instance HeldSys_preorder : PreOrder HeldSys.
Proof.
  split.
  - intros s Hq Hh _. split_and!; try done; reflexivity.
  - intros s1 s2 s3 H12 H23 Hq Hh Hc. destruct (H12 Hq Hh Hc) as (Hq2 & Hh2 & Hw2 & Ht2).
    destruct (H23 Hq2 Hh2) as (Hq3 & Hh3 & Hw3 & Ht3); [by eapply within_closed|].
    split; [done|]. split; [done|]. by split; etrans.
Qed.

(** To prove it, one may assume what it assumes. *)
Lemma held_sys_from s s' :
  (quiet (fs s) -> humble a (fs s) -> closed a (view (fs s)) -> HeldSys s s') -> HeldSys s s'.
Proof. intros H Hq Hh Hc. by apply H. Qed.

Lemma held_sys_same s s' : fs s' = fs s -> sched_conn s' = sched_conn s -> HeldSys s s'.
Proof. intros E1 E2 Hq Hh Hc. rewrite E1, E2. split_and!; try done; reflexivity. Qed.

Lemma held_on_fs {A} (m : SM (World St) A) s :
  Held a (fs s) (m (fs s)).2 -> HeldSys s (on_fs m s).2.
Proof.
  intros Hm Hq Hh Hc. destruct (Hm Hq Hh Hc) as (Hq' & Hh' & Hw).
  unfold on_fs, zoom. destruct (m (fs s)) as [o w']. cbn in *. by split_and!.
Qed.

(** An operation of the file system, then the rest. *)
Lemma held_fs_then {A X} (m : SM (World St) A) (f : A -> SM S X) s :
  Guar (Held a) m ->
  (forall x w, m (fs s) = (Val x, w) -> quiet (fs s) -> closed a (view (fs s)) -> humble a w ->
     HeldSys (set_fs w s) (f x (set_fs w s)).2) ->
  HeldSys s ((on_fs m ≫= f) s).2.
Proof.
  intros Hm Hf. apply held_sys_from. intros Hq Hh Hc. specialize (Hm (fs s)).
  pose proof (held_on_fs m s Hm) as Hg. destruct (Hm Hq Hh Hc) as (_ & Hh1 & _).
  unfold mbind, SM_bind, on_fs, zoom in *.
  destruct (m (fs s)) as [[x| |] w]; try exact Hg. etrans; [exact Hg|]. by apply Hf.
Qed.

Lemma held_sched {A} (m : SM C A) s :
  (forall c, told a (Some c) (Some (m c).2)) -> HeldSys s (on_sched m s).2.
Proof.
  intros Hm Hq Hh Hc. unfold on_sched. destruct (sched_conn s) as [c|] eqn:Ec.
  - specialize (Hm c). destruct (m c) as [o c'].
    split; [exact Hq|]. split; [exact Hh|]. split; [reflexivity | exact Hm].
  - split; [exact Hq|]. split; [exact Hh|]. cbn [snd]. rewrite Ec. by split.
Qed.

(** What surrounds the conversation. *)
Lemma held_blobs {A} (m : SM Blobstore A) : Guar HeldSys (on_blobs m : SM S A).
Proof. intros s. unfold on_blobs, zoom. destruct (m _). by apply held_sys_same. Qed.
Lemma held_save_new_blob content : Guar HeldSys (save_new_blob content : SM S Z).
Proof.
  assert (forall b, Guar HeldSys (insert_blob b : SM S Z)) by (intros b s; by apply held_sys_same).
  pose proof @held_blobs. unfold save_new_blob, expect. solve_guar.
Qed.
Lemma held_taint l : Guar HeldSys (on_fs (taint_with_label l) : SM S _).
Proof. intros s. apply held_on_fs. apply prim_taint'. Qed.

Lemma invoke_gate_held f r payload sy toblob ps :
  Guar HeldSys (invoke_gate f r payload sy toblob ps : SM S _).
Proof.
  intros s. unfold invoke_gate. apply held_fs_then; [apply g_gate_to_invokable, _|].
  intros g w1 Eg Hq Hc [_ Hp1]. set (s1 := set_fs w1 s).
  rewrite (bind_step (on_fs get_privilege) _ s1 (thread_privilege (fs s1)) s1) by done.
  destruct (implies _ _) eqn:Hi; cbn [negb]; [|reflexivity].
  rewrite (bind_step (on_fs get_current_label) _ s1 (current_label (fs s1)) s1) by done.
  set (li := sched.MkLabeledInvoke _ _ _ _ _ _ _ _).
  assert (Ha : authorized_invoke a li).
  { eapply invoke_authorized; [done|]. eapply invokable_within; [exact Hq|exact Hc|exact Eg|].
    etrans; [exact Hp1 | exact Hi]. }
  match goal with |- HeldSys s1 (?m s1).2 => assert (Hk : Guar HeldSys m); [|exact (Hk s1)] end.
  assert (Hsend : Guar HeldSys (on_sched (labeled_invoke li) : SM S _)).
  { intros s2. apply held_sched. intros c. by apply told_invoke. }
  assert (Hread : Guar HeldSys (on_sched (message_read (T := TaskReturn)) : SM S _)).
  { intros s2. apply held_sched. intros c. apply listens_told, listens_message. }
  pose proof held_taint. pose proof held_save_new_blob. pose proof (@guar_buckle_into).
  solve_guar.
Qed.

#[global] Instance HeldSys_sys : SysPrimitives (Held a) HeldSys.
Proof.
  split; try apply _.
  - intros A m Hm s. apply held_on_fs, Hm.
  - intros s s' E1 _ _ E2. by apply held_sys_same.
  - intros f r p sy t ps _. apply invoke_gate_held.
Qed.

(** A service lowers the label by its own privilege, which is one of [a] if [a] has its
    clearance. *)
Lemma invoke_service_held r payload toblob ps :
  Guar HeldSys (invoke_service r payload toblob ps : SM S _).
Proof.
  intros s. unfold invoke_service. apply held_fs_then; [apply g_service_to_invokable, _|].
  intros sv w1 Eg Hq Hc [_ Hp1]. set (s1 := set_fs w1 s).
  rewrite (bind_step (on_fs get_privilege) _ s1 (thread_privilege (fs s1)) s1) by done.
  destruct (implies _ _) eqn:Hi; cbn [negb]; [|reflexivity].
  assert (Hsv : Implies a (svc_privilege sv)).
  { eapply (service_within a r); [exact Hq|exact Hc|exact Eg|]. etrans; [exact Hp1 | exact Hi]. }
  match goal with |- HeldSys s1 (?m s1).2 => assert (Hk : Guar HeldSys m); [|exact (Hk s1)] end.
  assert (Hd : Guar HeldSys (on_fs (declassify_with (svc_privilege sv)) : SM S _)).
  { intros s2. apply held_on_fs. by apply held_declassify. }
  pose proof held_taint. pose proof held_save_new_blob.
  pose proof (g_http_send (St := St) (C := C) (Ch := Ch) (Held a) HeldSys).
  solve_guar.
Qed.

Lemma dent_invoke_held f fd payload sy toblob ps :
  Guar HeldSys (dent_invoke f fd payload sy toblob ps : SM S _).
Proof.
  pose proof invoke_gate_held. pose proof invoke_service_held.
  unfold dent_invoke, get_dent. solve_guar.
Qed.

Lemma do_syscall_held f sc : Guar HeldSys (do_syscall f sc : SM S _).
Proof.
  intros s. destruct (declassifying s sc) eqn:Hd.
  - destruct sc; try discriminate Hd.
    + apply held_sys_from. intros _ [_ Hp] _. cbn [do_syscall].
      rewrite (bind_step (on_fs get_privilege) _ s (thread_privilege (fs s)) s) by by destruct s.
      apply (held_on_fs (declassify_with (thread_privilege (fs s)))). by apply held_declassify.
    + apply (guar_reply (Held a) HeldSys), dent_invoke_held.
  - apply (do_syscall_guar (Held a) HeldSys); [by left|right..]; intros x s'; by apply held_sys_same.
Qed.

Lemma serve_held fuel f : Guar HeldSys (serve fuel f : SM S _).
Proof.
  induction fuel as [|fuel IH]; cbn [serve]; [apply guar_nofuel|].
  pose proof do_syscall_held.
  assert (forall A (m : SM Ch A), Guar HeldSys (on_channel m : SM S A)).
  { intros A m s. unfold on_channel, zoom. destruct (m _). by apply held_sys_same. }
  solve_guar.
Qed.

(** A whole run, from the arguments of the function to its response. *)
Lemma run_held fuel f payload bs hs inv : Guar HeldSys (run fuel f payload bs hs inv : SM S _).
Proof.
  assert (Hb : Guar HeldSys (insert_blobs bs : SM S _)).
  { induction bs as [|[k b] bs IH]; cbn [insert_blobs]; [apply guar_ret|].
    pose proof (g_insert_blob (Held a) HeldSys b). solve_guar. }
  assert (Hp : forall cs, Guar HeldSys (first_principals cs : SM S _)).
  { induction cs as [|c cs IH]; cbn [first_principals]; solve_guar. }
  pose proof serve_held. pose proof (g_send_reply (Held a) HeldSys).
  unfold run, from_invoker_privilege_to_invoker_principal_list. solve_guar.
Qed.
End calls.
