(* ===== verification/SysTyping.v ===== *)
(** * Descriptors never dangle

    The typing of the store ([FsTyping], [FsTyped]) carried to the system call server: a state
    is [typed] when the store is well formed and every descriptor of the function refers to an
    object of its type.  [Keeps] is the calculus of computations that keep this. *)

From stdpp Require Import base tactics option list gmap strings countable.
From S2P Require Import Prelude Labels Store FsTypes Objects Fs FsGuarantee.
From S2P Require Import FsMediation FsTyping FsTyped Syscalls Blobstore Message.
From S2P Require Import SysServer SysGuarantee.

Section typed.
Context {St C N Ch : Type} `{BW : BackingStoreLaws St} `{LW : LabelLaws} `{SW : SerdeLaws}.
Context `{DG : DigestOps} `{HX : !HexOps} `{CN : !Conn C} `{HC : !HttpClient N}.
Context `{SC : !SyscallChannel Ch} `{MR : !Message pb.Reply}.
Context `{MQ : !Message Request} `{MT : !Message TaskReturn}.

Local Abbreviation S := (SysState St C N Ch).
Local Abbreviation store s := (view (fs s)).
Local Abbreviation anything := (fun _ _ => True).
Implicit Types s : S.

(** What the descriptors refer to exists. *)
Definition typed s : Prop :=
  sound (fs s) /\ forall fd e, dents s !! fd = Some e -> live (store s) e.
Definition advances s s' : Prop := typed s' /\ grows (store s) (store s').

Definition Keeps {A} (Q : A -> gmap bytes bytes -> Prop) (m : SM S A) s : Prop :=
  typed s -> let '(r, s') := m s in advances s s' /\ forall a, r = Val a -> Q a (store s').

Lemma advances_refl s : typed s -> advances s s.
Proof. by intros. Qed.
Lemma advances_trans s1 s2 s3 : advances s1 s2 -> advances s2 s3 -> advances s1 s3.
Proof. intros [_ G1] [H G2]. split; [done|]. by etrans. Qed.
Lemma advances_live s s' e : advances s s' -> live (store s) e -> live (store s') e.
Proof. intros [_ G]. apply G. Qed.
Lemma advances_live_option s s' o :
  advances s s' -> live_option o (store s) -> live_option o (store s').
Proof. intros [_ G] Ho e He. by apply G, Ho. Qed.

(** ** Composition *)

Lemma keeps_ret {A : Type} (Q : A -> gmap bytes bytes -> Prop) a s :
  Q a (store s) -> Keeps Q (mret a) s.
Proof. intros HQ Hs. split; [by apply advances_refl|]. by intros b [= <-]. Qed.
Lemma keeps_panic {A : Type} (Q : A -> gmap bytes bytes -> Prop) s : Keeps Q panic s.
Proof. intros Hs. split; [by apply advances_refl|done]. Qed.
Lemma keeps_nofuel {A : Type} (Q : A -> gmap bytes bytes -> Prop) s : Keeps Q nofuel s.
Proof. intros Hs. split; [by apply advances_refl|done]. Qed.

Lemma keeps_bind {A X : Type} (P : A -> gmap bytes bytes -> Prop) (Q : X -> gmap bytes bytes -> Prop)
    (m : SM S A) f s :
  Keeps P m s -> (forall a s', advances s s' -> P a (store s') -> Keeps Q (f a) s') ->
  Keeps Q (m ≫= f) s.
Proof.
  intros Hm Hf Hs. specialize (Hm Hs). unfold mbind, SM_bind.
  destruct (m s) as [[a| |] s'] eqn:E; destruct Hm as [Ha HP]; [|by split..].
  specialize (Hf a s' Ha (HP a eq_refl) (proj1 Ha)). destruct (f a s') as [r s2].
  destruct Hf as [Ha2 HQ]. split; [|done]. by eapply advances_trans.
Qed.
Lemma keeps_then {A X : Type} (Q : X -> gmap bytes bytes -> Prop) (m : SM S A) f s :
  Keeps anything m s -> (forall a s', advances s s' -> Keeps Q (f a) s') -> Keeps Q (m ≫= f) s.
Proof. intros Hm Hf. apply (keeps_bind anything); auto. Qed.
Lemma keeps_try {A X E : Type} (P : A -> gmap bytes bytes -> Prop)
    (Q : result X E -> gmap bytes bytes -> Prop) (m : SM S (result A E)) f s :
  Keeps (if_ok P) m s -> (forall a s', advances s s' -> P a (store s') -> Keeps Q (f a) s') ->
  (forall e g, Q (Err e) g) -> Keeps Q (try_bind m f) s.
Proof.
  intros Hm Hf He. eapply keeps_bind; [exact Hm|]. intros [a|e] s' Ha HP; [by apply Hf|].
  by apply keeps_ret.
Qed.
Lemma keeps_mono {A : Type} (P Q : A -> gmap bytes bytes -> Prop) (m : SM S A) s :
  (forall a g, P a g -> Q a g) -> Keeps P m s -> Keeps Q m s.
Proof.
  intros HPQ Hm Hs. specialize (Hm Hs). destruct (m s). destruct Hm as [? HP].
  split; [done|]. intros a Ha. by apply HPQ, HP.
Qed.

(** ** Primitives *)

Lemma keeps_fs {A : Type} (Q : A -> gmap bytes bytes -> Prop) (m : SM (World St) A) s :
  Safe Q m (fs s) -> Keeps Q (on_fs m) s.
Proof.
  intros Hm [Hs Hd]. specialize (Hm Hs). unfold on_fs, zoom.
  destruct (m (fs s)) as [r w']. destruct Hm as ([Hs' G] & _ & HQ).
  split; [|exact HQ]. split; [|exact G]. split; [exact Hs'|].
  intros fd e He. apply G. by apply (Hd fd).
Qed.

(** What leaves the file system and the descriptors alone. *)
Definition Aside s s' : Prop := fs s' = fs s /\ dents s' = dents s.
#[global] Instance Aside_preorder : PreOrder Aside.
Proof. split; [done|]. intros a b c [? ?] [? ?]. split; congruence. Qed.
#[global] Instance Aside_primitives : SysPrimitives (St := St) (C := C) (N := N) (Ch := Ch) eq Aside.
Proof.
  split; try apply _.
  - intros A m Hm s. specialize (Hm (fs s)). unfold on_fs, zoom.
    destruct (m (fs s)) as [r w']. by split.
  - by intros s s' ? ? _ _.
  - intros f r p sy t ps HR. refine (invoke_gate_unheard eq _ _ _ f r p sy t ps); [|by intros s s' ? ? _].
    intros A m Hm s. specialize (Hm (fs s)). unfold on_fs, zoom.
    destruct (m (fs s)) as [w w']. by split.
Qed.
Lemma aside_on_sched {A : Type} (m : SM C A) : Guar Aside (on_sched m).
Proof. intros s. unfold on_sched. destruct (sched_conn s) as [c|]; [|done]. by destruct (m c). Qed.
Lemma keeps_aside {A : Type} (m : SM S A) s : Guar Aside m -> Keeps anything m s.
Proof.
  intros Hm [Hs Hd]. specialize (Hm s). destruct (m s) as [r s']. destruct Hm as [Hf He].
  cbn in Hf, He. split; [|done]. unfold advances, typed. rewrite Hf, He. done.
Qed.

Lemma keeps_get_dent fd s : Keeps live_option (get_dent fd) s.
Proof.
  intros Hs. split; [by apply advances_refl|]. intros o [= <-] e He. by apply (proj2 Hs fd).
Qed.
Lemma keeps_insert_dent e s : live (store s) e -> Keeps anything (insert_dent e) s.
Proof.
  intros He [Hs Hd]. split; [|done]. split; [|done]. split; [exact Hs|].
  intros fd e' Hl. cbn in Hl. apply lookup_insert_Some in Hl as [[_ <-]|[_ Hl]]; [exact He|].
  by apply (Hd fd).
Qed.
Lemma keeps_dent_close fd s : Keeps anything (dent_close fd) s.
Proof.
  intros [Hs Hd]. split; [|done]. split; [|done]. split; [exact Hs|].
  intros fd' e Hl. cbn in Hl. apply lookup_delete_Some in Hl as [_ Hl]. by apply (Hd fd').
Qed.
End typed.

(** What is live stays live along [H : advances s s']. *)
Ltac carry H :=
  repeat match goal with
  | H' : live (view (fs ?s)) ?e |- _ =>
      match type of H with advances s _ => apply (advances_live _ _ _ H) in H' end
  | H' : live_option ?e (view (fs ?s)) |- _ =>
      match type of H with advances s _ => apply (advances_live_option _ _ _ H) in H' end
  end.

Ltac next_state := let H := fresh "Hadv" in intros ? ? H; carry H; intros; cbv beta in *.

(** The file system's operations on live references. *)
Create HintDb safe discriminated.
#[export] Hint Resolve safe_dir_list safe_file_read safe_blob_read safe_service_to_invokable
  safe_dir_link safe_dir_unlink safe_file_write safe_blob_replace safe_gate_replace
  safe_service_replace safe_gate_to_invokable safe_faceted_list : safe.

#[export] Hint Extern 1 (alive _ _) => assumption : safe.
#[export] Hint Extern 1 (live _ _) => assumption : safe.
Create HintDb keeps discriminated.

(** One step of a proof of [Keeps]. *)
Ltac keeps_step :=
  match goal with
  | H : live_option (Some ?e) ?g |- _ => specialize (H e eq_refl)
  | |- Keeps _ (match ?x with _ => _ end) _ => destruct x eqn:?
  | |- Keeps _ (let '_ := ?x in _) _ => destruct x
  | |- Keeps _ (mret _) _ => apply keeps_ret; done
  | |- Keeps _ panic _ => apply keeps_panic
  | |- Keeps _ (get_dent _ ≫= _) _ =>
      let H := fresh "Hadv" in
      eapply keeps_bind; [apply keeps_get_dent|intros ? ? H ?; carry H]
  | |- Keeps _ (_ ≫= _) _ =>
      let H := fresh "Hadv" in apply keeps_then; [|intros ? ? H; carry H]
  | |- Keeps _ (on_fs _) _ =>
      eapply keeps_mono; [|apply keeps_fs; solve [eauto 2 with safe nocore]]; done
  end.
Ltac solve_keeps := repeat keeps_step; eauto with keeps.

(** ** The methods *)

Section methods.
Context {St C N Ch : Type} `{BW : BackingStoreLaws St} `{LW : LabelLaws} `{SW : SerdeLaws}.
Context `{DG : DigestOps} `{HX : !HexOps} `{CN : !Conn C} `{HC : !HttpClient N}.
Context `{SC : !SyscallChannel Ch} `{MR : !Message pb.Reply}.
Context `{MQ : !Message Request} `{MT : !Message TaskReturn}.

Local Abbreviation S := (SysState St C N Ch).
Local Abbreviation anything := (fun _ _ => True).
Implicit Types s : S.

Local Ltac aside := apply keeps_aside.
#[local] Hint Extern 1 (Guar Aside _) =>
  first [ apply (g_unwrap_component eq) | apply (g_component_or_true eq) | apply (g_service_from eq)
        | apply (g_update_component eq) | apply (g_open_image eq) | apply (g_save_new_blob eq)
        | apply (g_expect eq) | apply (g_insert_blob eq) | apply (g_http_send eq) | apply (g_label_into eq)
        | apply (guar_on_blobs eq) | apply aside_on_sched | apply (guar_on_channel eq) ]; try apply Aside_primitives : guar.
#[local] Hint Extern 1 (Guar Aside (modify _)) =>
  apply (guar_modify_same eq Aside); repeat split : guar.
#[local] Hint Extern 5 (Keeps _ _ _) => apply keeps_aside; solve_guar : keeps.

Lemma keeps_dent_read fd s : Keeps anything (dent_read fd) s.
Proof. unfold dent_read. solve_keeps. Qed.
Lemma keeps_dent_list fd s : Keeps anything (dent_list fd) s.
Proof. unfold dent_list. solve_keeps. Qed.
Lemma keeps_dent_list_faceted fd c s : Keeps anything (dent_list_faceted fd c) s.
Proof. unfold dent_list_faceted. solve_keeps. Qed.
Lemma keeps_dent_link fd n t s : Keeps anything (dent_link fd n t) s.
Proof. unfold dent_link. solve_keeps. Qed.
Lemma keeps_dent_unlink fd n s : Keeps anything (dent_unlink fd n) s.
Proof. unfold dent_unlink. solve_keeps. Qed.

(** A call that returns a result *)
Lemma keeps_result {A X E : Type} (P : A -> gmap bytes bytes -> Prop) (m : SM S (result A E))
    (f : A -> SM S (result X E)) s :
  Keeps (if_ok P) m s -> (forall a s', advances s s' -> P a (view (fs s')) -> Keeps anything (f a) s') ->
  Keeps anything (try_bind m f) s.
Proof. intros Hm Hf. by apply (keeps_try P). Qed.
Lemma keeps_ok {A E : Type} (m : SM S (result A E)) s :
  Keeps anything m s -> Keeps (if_ok anything) m s.
Proof. apply keeps_mono. by intros [|]. Qed.

Lemma keeps_dent_open fd e s : Keeps anything (dent_open fd e) s.
Proof.
  assert (Hins : forall e k s', live (view (fs s')) e ->
    Keeps (St := St) (C := C) (N := N) (Ch := Ch) anything
      (res_id ← insert_dent e; mret (Some (res_id, k : pb.DentKind))) s').
  { intros e' k s'' He. apply keeps_then; [by apply keeps_insert_dent|]. intros. by apply keeps_ret. }
  assert (Hfac : forall r l s', live (view (fs s')) (DirEntry.FacetedDirectory r) ->
    Keeps (St := St) (C := C) (N := N) (Ch := Ch) anything
      (dent ← on_fs (faceted_open r l); res_id ← insert_dent (DirEntry.Directory dent);
       mret (Some (res_id, pb.DentDirectory))) s').
  { intros r l s'' He. eapply keeps_bind; [by apply keeps_fs, safe_faceted_open|].
    intros d s3 _ Hd. by apply Hins. }
  unfold dent_open. eapply keeps_bind; [apply keeps_get_dent|]. intros o s1 _ Ho.
  apply keeps_then; [|intros [[fd' k]|] s2 _; by apply keeps_ret].
  destruct o as [d|]; [|by apply keeps_ret]. specialize (Ho d eq_refl).
  destruct d, e; try (by apply keeps_ret).
  - eapply keeps_bind; [by apply keeps_fs, safe_dir_list|]. intros es s2 _ Hes.
    destruct (es !! name) as [dent|] eqn:En; [|by apply keeps_ret]. apply Hins. exact (Hes _ _ En).
  - destruct (buckle_parse name); [by apply Hfac|by apply keeps_ret].
  - apply keeps_then; [aside; solve_guar|]. intros b s2 Hadv. carry Hadv. by apply Hfac.
Qed.

(** Creation *)
Lemma keeps_blob_entry fd s :
  Keeps (if_ok (fun r g => live g (DirEntry.Blob r))) (blob_entry fd) s.
Proof.
  unfold blob_entry. eapply keeps_bind; [apply keeps_get_dent|]. intros o s1 _ Ho.
  apply keeps_ret. destruct o as [e|]; [|done]. specialize (Ho e eq_refl). by destruct e.
Qed.

Lemma keeps_create_direct_gate_entry l dg s :
  Keeps (if_ok (fun e g => live g e)) (create_direct_gate_entry l dg) s.
Proof.
  unfold create_direct_gate_entry. apply keeps_then; [aside; solve_guar|]. intros f s1 _.
  do 3 (eapply keeps_try; [apply keeps_blob_entry|next_state|done]).
  do 3 (apply keeps_then; [by apply keeps_fs, safe_blob_read|next_state]). cbv zeta.
  do 3 (apply keeps_then; [aside; solve_guar|next_state]).
  apply keeps_fs, safe_create_direct_gate.
Qed.
Lemma keeps_create_redirect_gate_entry l rd s :
  Keeps (if_ok (fun e g => live g e)) (create_redirect_gate_entry l rd) s.
Proof.
  unfold create_redirect_gate_entry. eapply keeps_bind; [apply keeps_get_dent|]. intros o s1 _ Ho.
  destruct o as [e|]; [|by apply keeps_ret]. specialize (Ho e eq_refl).
  destruct e; try (by apply keeps_ret).
  do 3 (apply keeps_then; [aside; solve_guar|next_state]).
  apply keeps_fs. by apply safe_create_redirect_gate.
Qed.

Lemma keeps_new_entry l k s : Keeps (if_ok (fun e g => live g e)) (new_entry l k) s.
Proof.
  assert (Hnew : forall (m : SM (World St) DirEntry) s,
    Safe (fun e g => live g e) m (fs s) ->
    Keeps (St := St) (C := C) (N := N) (Ch := Ch) (if_ok (E := FsError) (fun e g => live g e))
      (e ← on_fs m; mret (Ok e)) s).
  { intros m s1 Hm. eapply keeps_bind; [by apply keeps_fs|]. intros e s2 _ He. by apply keeps_ret. }
  destruct k as [| | |[[[dg|rd]|]]|sv|b]; cbn [new_entry pb.gate_of].
  - apply Hnew, safe_create_directory.
  - apply Hnew, safe_create_file.
  - apply Hnew, safe_create_faceted_directory.
  - apply keeps_create_direct_gate_entry.
  - apply keeps_create_redirect_gate_entry.
  - by apply keeps_ret.
  - apply keeps_then; [aside; solve_guar|]. intros sv' s1 _. apply keeps_fs, safe_create_service.
  - apply keeps_then; [aside; solve_guar|]. intros [b'|] s1 _; [|by apply keeps_ret].
    apply keeps_fs, safe_create_blob.
Qed.
Lemma keeps_dent_create k l s : Keeps anything (dent_create k l) s.
Proof.
  rewrite dent_create_eq. eapply keeps_result; [apply keeps_new_entry|]. intros e s1 _ He.
  apply keeps_then; [by apply keeps_insert_dent|]. intros. by apply keeps_ret.
Qed.

(** Updates *)
Lemma keeps_update_image fd set f s : Keeps anything (update_image fd set f) s.
Proof.
  unfold update_image. case_bool_decide; [|by apply keeps_ret].
  eapply keeps_result; [apply keeps_blob_entry|]. intros r s1 _ Hr.
  apply keeps_then; [|intros; by apply keeps_ret].
  eapply keeps_mono; [|apply keeps_fs, safe_blob_read; assumption]; done.
Qed.
Lemma keeps_update_function p f s : Keeps anything (update_function p f) s.
Proof.
  unfold update_function.
  do 3 (apply (keeps_result anything); [apply keeps_ok, keeps_update_image|intros ? ? _ _]).
  by apply keeps_ret.
Qed.
Lemma keeps_current_gate r s :
  live (view (fs s)) (DirEntry.Gate r) ->
  Keeps (fun o g => forall gt, o = Some gt -> gate_live gt g) (current_gate r) s.
Proof.
  intros Hr. unfold current_gate. eapply keeps_bind; [exact (keeps_fs _ _ s (safe_get (t := TGate) r (fs s) Hr))|].
  intros o s1 _ (x & -> & _ & Hx). eapply (keeps_bind gate_live).
  - apply keeps_fs, safe_unlabel. by apply gate_refers_live.
  - intros gt s2 _ Hgt. apply keeps_ret. by intros gt' [= <-].
Qed.
Lemma keeps_update_direct_gate r dg s :
  live (view (fs s)) (DirEntry.Gate r) -> Keeps anything (update_direct_gate r dg) s.
Proof.
  intros Hr. unfold update_direct_gate.
  apply keeps_then; [eapply keeps_mono; [|by apply keeps_current_gate]; done|].
  intros cur s1 Hadv. carry Hadv. destruct cur as [[gt|gt]|]; try (by apply keeps_ret).
  apply (keeps_result anything).
  { apply keeps_ok. destruct (pb.dg_function dg); [apply keeps_update_function|by apply keeps_ret]. }
  intros f s2 Hadv2 _. carry Hadv2.
  do 2 (apply keeps_then; [aside; solve_guar|next_state]).
  apply keeps_fs. by apply safe_gate_replace.
Qed.
Lemma keeps_update_redirect_gate r rd s :
  live (view (fs s)) (DirEntry.Gate r) -> Keeps anything (update_redirect_gate r rd) s.
Proof.
  intros Hr. unfold update_redirect_gate.
  apply keeps_then; [eapply keeps_mono; [|by apply keeps_current_gate]; done|].
  intros cur s1 Hadv. carry Hadv. destruct cur as [[gt|gt]|]; try (by apply keeps_ret).
  eapply keeps_bind; [apply keeps_get_dent|]. intros o s2 Hadv2 Ho. carry Hadv2.
  destruct o as [e|]; [|by apply keeps_ret]. specialize (Ho e eq_refl).
  destruct e; try (by apply keeps_ret).
  do 2 (apply keeps_then; [aside; solve_guar|next_state]).
  apply keeps_fs. by apply safe_gate_replace.
Qed.
Lemma keeps_dent_update fd k s : Keeps anything (dent_update fd k) s.
Proof.
  unfold dent_update. eapply keeps_bind; [apply keeps_get_dent|]. intros o s1 _ Ho.
  apply (keeps_result anything); [apply keeps_ok|intros; by apply keeps_ret].
  destruct o as [e|]; [specialize (Ho e eq_refl)|].
  - destruct k as [d|[[[dg|rd]|]]|sv|b]; cbn [pb.gate_of].
    + destruct e; solve_keeps.
    + destruct e; try (by apply keeps_ret). by apply keeps_update_direct_gate.
    + destruct e; try (by apply keeps_ret). by apply keeps_update_redirect_gate.
    + by destruct e; apply keeps_ret.
    + destruct e; solve_keeps.
    + solve_keeps.
  - destruct k as [d|[[[dg|rd]|]]|sv|b]; solve_keeps.
Qed.

(** Gates and blobs *)
Lemma keeps_dent_ls_gate fd s : Keeps anything (dent_ls_gate fd) s.
Proof.
  unfold dent_ls_gate. eapply keeps_bind; [apply keeps_get_dent|]. intros o s1 _ Ho.
  apply keeps_then; [|intros; by apply keeps_ret].
  destruct o as [e|]; [|by apply keeps_ret]. specialize (Ho e eq_refl).
  destruct e as [| | |r| |]; try (by apply keeps_ret).
  eapply keeps_bind; [exact (keeps_fs _ _ s1 (safe_get (t := TGate) r (fs s1) Ho))|].
  intros o s2 _ (x & -> & _ & _).
  apply keeps_then; [by apply keeps_ret|]. intros g s3 _.
  apply keeps_then; [by apply keeps_fs, (safe_unlabel g _ anything)|].
  intros gt s4 _. aside. solve_guar.
Qed.
Lemma keeps_dent_get_blob fd s : Keeps anything (dent_get_blob fd) s.
Proof.
  unfold dent_get_blob. eapply keeps_bind; [apply keeps_get_dent|]. intros o s1 _ Ho.
  destruct o as [e|]; [|by apply keeps_ret]. specialize (Ho e eq_refl).
  destruct e; try (by apply keeps_ret).
  apply keeps_then; [by apply keeps_fs, safe_blob_read|]. intros n s2 _.
  aside. solve_guar.
Qed.

(** Invocations *)
Lemma keeps_invoke_gate f r p sy t ps s :
  live (view (fs s)) (DirEntry.Gate r) -> Keeps anything (invoke_gate f r p sy t ps) s.
Proof.
  intros Hr. apply keeps_then; [by apply keeps_fs, safe_gate_to_invokable|]. intros g s1 _.
  apply keeps_then; [by apply keeps_fs, safe_gets|]. intros pr s2 _.
  destruct (negb _); [by apply keeps_ret|].
  apply keeps_then; [by apply keeps_fs, safe_gets|]. intros l s3 _.
  apply keeps_then; [aside; solve_guar|]. intros [sent|] s4 _; [|by apply keeps_ret].
  destruct sy; [|by apply keeps_ret].
  apply keeps_then; [aside; solve_guar|]. intros [res|] s5 _; [|by apply keeps_ret].
  apply keeps_then; [aside; solve_guar|]. intros rl s6 _.
  apply keeps_then; [by apply keeps_fs, safe_taint|]. intros u s7 _. aside. solve_guar.
Qed.
Lemma keeps_invoke_service r p t ps s :
  live (view (fs s)) (DirEntry.Service r) -> Keeps anything (invoke_service r p t ps) s.
Proof.
  intros Hr. apply keeps_then; [by apply keeps_fs, safe_service_to_invokable|]. intros g s1 _.
  apply keeps_then; [by apply keeps_fs, safe_gets|]. intros pr s2 _.
  destruct (negb _); [by apply keeps_ret|].
  apply keeps_then; [by apply keeps_fs, safe_declassify|]. intros l s3 _.
  apply keeps_then; [aside; solve_guar|]. intros sent s4 _.
  apply keeps_then; [by apply keeps_fs, safe_taint|]. intros u s7 _. aside. solve_guar.
Qed.
Lemma keeps_dent_invoke f fd p sy t ps s : Keeps anything (dent_invoke f fd p sy t ps) s.
Proof.
  unfold dent_invoke. eapply keeps_bind; [apply keeps_get_dent|]. intros o s1 _ Ho.
  apply keeps_then; [|intros r s2 _; destruct (default _ r) as [[? ?] ?]; by apply keeps_ret].
  destruct o as [e|]; [|by apply keeps_ret]. specialize (Ho e eq_refl).
  destruct e; try (by apply keeps_ret); [by apply keeps_invoke_gate|by apply keeps_invoke_service].
Qed.

(** ** The dispatch and the loop *)

Lemma keeps_send_reply r s : Keeps anything (send_reply r) s.
Proof. aside. unfold send_reply. solve_guar. Qed.
Lemma keeps_reply {A : Type} (f : A -> pb.Reply) (m : SM S A) s :
  Keeps anything m s -> Keeps anything (reply f m) s.
Proof.
  intros Hm. unfold reply. apply keeps_then; [done|]. intros a s1 _.
  apply (keeps_result anything); [apply keeps_ok, keeps_send_reply|]. intros. by apply keeps_ret.
Qed.
Lemma keeps_label_into l s : Keeps anything (label_into l) s.
Proof. aside. solve_guar. Qed.

#[local] Hint Resolve keeps_dent_open keeps_dent_close keeps_dent_create keeps_dent_update
  keeps_dent_read keeps_dent_list keeps_dent_list_faceted keeps_dent_ls_gate keeps_dent_link
  keeps_dent_unlink keeps_dent_invoke keeps_dent_get_blob keeps_label_into : keeps.
#[local] Hint Extern 1 (Guar Aside _) =>
  first [ apply (g_blob_create eq) | apply (g_blob_write eq) | apply (g_blob_finalize eq)
        | apply (g_blob_read_at eq) | apply (g_blob_close eq) ]; try apply Aside_primitives : guar.

Lemma keeps_do_syscall f sc s : Keeps anything (do_syscall f sc) s.
Proof.
  destruct sc; cbn [do_syscall]; try (apply keeps_reply).
  - apply keeps_then; [by apply keeps_fs, safe_gets|]. intros p s1 _.
    apply keeps_then; [by apply keeps_fs, safe_declassify|]. intros rl s2 _. by apply keeps_ret.
  - by apply keeps_ret.
  - by apply keeps_fs, safe_gets.
  - apply keeps_then; [aside; solve_guar|]. intros. apply keeps_panic.
  - apply keeps_then; [aside; solve_guar|]. intros. by apply keeps_fs, safe_gets.
  - apply keeps_panic.
  - by apply keeps_ret.
  - apply keeps_then; [aside; solve_guar|]. auto with keeps.
  - auto with keeps.
  - apply keeps_then; [auto with keeps|]. intros lb s1 _. destruct kind; [|by apply keeps_ret].
    apply keeps_then; [auto with keeps|]. intros. by apply keeps_ret.
  - destruct kind; [|by apply keeps_ret].
    apply keeps_then; [auto with keeps|]. intros. by apply keeps_ret.
  - auto with keeps.
  - auto with keeps.
  - apply keeps_then; auto with keeps.
  - auto with keeps.
  - auto with keeps.
  - auto with keeps.
  - auto with keeps.
  - auto with keeps.
  - auto with keeps.
  - auto with keeps.
  - auto with keeps.
  - auto with keeps.
  - auto with keeps.
Qed.

Lemma keeps_serve fuel f s : Keeps anything (serve fuel f) s.
Proof.
  revert s. induction fuel as [|fuel IH]; intros s; cbn [serve]; [apply keeps_nofuel|].
  apply keeps_then; [aside; solve_guar|]. intros w s1 _.
  apply (keeps_result anything); [apply keeps_ok; by apply keeps_ret|]. intros [sc|] s2 _ _; [|done].
  apply (keeps_result anything); [apply keeps_ok, keeps_do_syscall|]. intros [tr|] s3 _ _; [|done].
  by apply keeps_ret.
Qed.

Lemma keeps_run fuel f p bs hs inv s : Keeps anything (run fuel f p bs hs inv) s.
Proof.
  assert (Hb : Guar Aside (insert_blobs (St := St) (C := C) (N := N) (Ch := Ch) bs)).
  { induction bs as [|[k b] bs IH]; cbn [insert_blobs]; solve_guar. }
  assert (Hp : forall cs, Guar Aside (first_principals (St := St) (C := C) (N := N) (Ch := Ch) cs)).
  { induction cs as [|c cs IH]; cbn [first_principals]; solve_guar. }
  apply keeps_then; [by aside|]. intros fds s1 _.
  apply keeps_then; [aside; unfold from_invoker_privilege_to_invoker_principal_list; solve_guar|].
  intros i s2 _. apply (keeps_result anything); [apply keeps_ok, keeps_send_reply|].
  intros _ s3 _ _. apply keeps_serve.
Qed.

(** A new processor holds one descriptor, the root's. *)
Lemma new_typed w bs conn http ch l p :
  sound w -> typed (new (C := C) (N := N) (Ch := Ch) w bs conn http ch l p).
Proof.
  intros Hs. split; [exact Hs|]. intros fd e He. cbn in He.
  apply lookup_singleton_Some in He as [_ <-]. apply Hs.
Qed.

(** C10: descriptors never dangle.  A function that starts from a well-formed store and issues
    any requests, to any outcome, leaves a well-formed store with every object still there, and
    at every point of the invocation each of its descriptors refers to an object of the
    descriptor's type: one request takes a typed state to a typed state, and so does the loop
    from the state that [new] makes. *)
Theorem descriptors_never_dangle :
  (forall f sc s, typed s ->
     typed (do_syscall f sc s).2 /\ grows (view (fs s)) (view (fs (do_syscall f sc s).2))) /\
  (forall fuel f payload bs hs inv w blobs conn http ch l p,
     sound w ->
     let s := new (C := C) (N := N) (Ch := Ch) w blobs conn http ch l p in
     typed s /\ typed (run fuel f payload bs hs inv s).2).
Proof.
  split.
  - intros f sc s Hs. pose proof (keeps_do_syscall f sc s Hs) as H.
    destruct (do_syscall f sc s). by destruct H as [[? ?] _].
  - intros fuel f payload bs hs inv w blobs conn http ch l p Hw s.
    pose proof (new_typed w blobs conn http ch l p Hw) as Hs. split; [done|].
    pose proof (keeps_run fuel f payload bs hs inv s Hs) as H.
    destruct (run _ _ _ _ _ _ s). by destruct H as [[? _] _].
Qed.
End methods.
