(* ===== verification/SysSecure.v ===== *)
(** * A function learns what it may learn

    The calculus of [Observer] carried to the system call server.  Two servers are [SameSys]
    when they differ in their file systems only, and those in what the observer does not see.
    The function is the channel: what it asks next is a function of the replies it got.  So two
    runs of a function from such servers get the same replies, ask the same, send the same to
    the scheduler and to services, and return the same, as long as neither has read what the
    observer does not see; and from then on they are tainted and change nothing that is seen. *)

From stdpp Require Import base tactics option list gmap strings countable.
From S2P Require Import Prelude Labels Store FsTypes Objects Fs FsGuarantee.
From S2P Require Import FsMediation FsReads FsTyping FsTyped Observer FsSecure.
From S2P Require Import Syscalls Blobstore Message.
From S2P Require Import SysServer SysGuarantee SysTheorems.

Section states.
Context {St C N Ch : Type} `{BW : BackingStoreLaws St} `{LW : LabelLaws} `{SW : SerdeLaws}.
Context `{DG : DigestOps}.
Context (q : Component) (obs : Buckle).

Local Abbreviation S := (SysState St C N Ch).
Implicit Types s : S.

Definition SameSys (K : Knowledge) s1 s2 : Prop :=
  s2 = set_fs (fs s2) s1 /\ Sync q obs K (fs s1) (fs s2) /\
  forall fd e, dents s1 !! fd = Some e -> K e.
Definition PartedSys (K : Knowledge) s1 s2 : Prop := Parted q obs K (fs s1) (fs s2).

#[global] Instance sys_two_runs : TwoRuns SameSys PartedSys (OnFs (Covertly q obs)).
Proof.
  split; [apply _| |].
  - intros K K' s1 s2. exact (diff_forget (TwoRuns := fs_two_runs q obs) K K' _ _).
  - intros K s1 s2 s1' s2'. exact (diff_step (TwoRuns := fs_two_runs q obs) K _ _ _ _).
Qed.

(** What leaves the file system and the descriptors alone and does not look at them. *)
Definition Blind {A} (m : SM S A) : Prop :=
  forall s, fs (m s).2 = fs s /\ dents (m s).2 = dents s /\
    forall w, m (set_fs w s) = ((m s).1, set_fs w (m s).2).

Lemma blind_ret {A} (a : A) : Blind (mret a).
Proof. by intros s. Qed.
Lemma blind_panic {A} : Blind (panic (A := A)).
Proof. by intros s. Qed.
Lemma blind_bind {A X} (m : SM S A) (f : A -> SM S X) :
  Blind m -> (forall a, Blind (f a)) -> Blind (m ≫= f).
Proof.
  intros Hm Hf s. destruct (Hm s) as (Hfs & Hd & Hw). unfold mbind, SM_bind.
  destruct (m s) as [[a| |] s']; cbn [fst snd] in *.
  - destruct (Hf a s') as (Hfs' & Hd' & Hw'). split_and!; [congruence..|].
    intros w. by rewrite Hw, Hw'.
  - split_and!; [done..|]. intros w. by rewrite Hw.
  - split_and!; [done..|]. intros w. by rewrite Hw.
Qed.
Lemma blind_try {A X E} (m : SM S (result A E)) (f : A -> SM S (result X E)) :
  Blind m -> (forall a, Blind (f a)) -> Blind (try_bind m f).
Proof. intros Hm Hf. apply blind_bind; [done|]. intros [a|e]; [apply Hf|apply blind_ret]. Qed.
Lemma blind_unwrap {A} (o : option A) : Blind (unwrap o).
Proof. destruct o; [apply blind_ret|apply blind_panic]. Qed.
Lemma blind_expect {A E} (r : result A E) : Blind (expect r).
Proof. destruct r; [apply blind_ret|apply blind_panic]. Qed.
Lemma blind_gets {A} (f : S -> A) :
  (forall s w, f (set_fs w s) = f s) -> Blind (gets f).
Proof. intros Hf s. split_and!; [done..|]. intros w. unfold gets. by rewrite Hf. Qed.
Lemma blind_modify (f : S -> S) :
  (forall s, fs (f s) = fs s /\ dents (f s) = dents s /\ forall w, f (set_fs w s) = set_fs w (f s)) ->
  Blind (modify f).
Proof.
  intros Hf s. destruct (Hf s) as (? & ? & Hw). split_and!; [done..|].
  intros w. unfold modify. by rewrite Hw.
Qed.
Lemma blind_blobs {A} (m : SM Blobstore A) : Blind (on_blobs m).
Proof.
  intros s. unfold on_blobs, zoom. cbn. destruct (m (blobstore s)). by split_and!.
Qed.
Lemma blind_http {A} (m : SM N A) : Blind (on_http m).
Proof. intros s. unfold on_http, zoom. cbn. destruct (m (http_client s)). by split_and!. Qed.
Lemma blind_channel {A} (m : SM Ch A) : Blind (on_channel m).
Proof. intros s. unfold on_channel, zoom. cbn. destruct (m (channel s)). by split_and!. Qed.
Lemma blind_sched {A} (m : SM C A) : Blind (on_sched m).
Proof.
  intros s. unfold on_sched. cbn. destruct (sched_conn s) as [c|]; [|by split_and!].
  destruct (m c). by split_and!.
Qed.

Local Abbreviation secure := (Secure SameSys PartedSys).
Local Abbreviation anything := (fun _ _ => True).

Lemma secure_blind {A : Type} (m : SM S A) K : Blind m -> secure anything K m.
Proof.
  intros Hm s1 s2 (E & Hs & Hd). destruct (Hm s1) as (Hfs & Hds & Hw).
  rewrite E, Hw. destruct (m s1) as [r s1']; cbn [fst snd] in *.
  apply two_same; [done|]. split_and!; [done| |].
  - cbn [fs set_fs]. by rewrite Hfs.
  - intros fd e. rewrite Hds. apply Hd.
Qed.
Lemma guar_blind {A : Type} (m : SM S A) : Blind m -> Guar (OnFs (Covertly q obs)) m.
Proof. intros Hm s. destruct (Hm s) as (Hfs & _). unfold OnFs. rewrite Hfs. reflexivity. Qed.

Lemma secure_on_fs {A : Type} (Q : Knowledge -> A -> Prop) (m : SM (World St) A) K :
  Secure (Sync q obs) (Parted q obs) Q K m -> secure Q K (on_fs m).
Proof.
  intros Hm s1 s2 (E & Hs & Hd). specialize (Hm _ _ Hs). unfold on_fs, zoom.
  destruct (m (fs s1)) as [r1 w1'], (m (fs s2)) as [r2 w2'].
  destruct Hm as [(K' & HK & Er & HQ & Hs')|Hp]; [left|right; exact Hp].
  exists K'. cbn [fst snd] in *. split_and!; [done..|]. split_and!; [|done|].
  - cbn [fs set_fs]. rewrite E. by destruct s1.
  - intros fd e He. apply HK. by apply (Hd fd).
Qed.

Lemma secure_get_dent fd K : secure (fun K o => forall e, o = Some e -> K e) K (get_dent fd).
Proof.
  apply secure_gets. intros s1 s2 (E & Hs & Hd). rewrite E. split; [done|].
  intros e He. by apply (Hd fd).
Qed.
Lemma secure_insert_dent e K : K e -> secure anything K (insert_dent e).
Proof.
  intros He s1 s2 (E & Hs & Hd). rewrite E.
  apply (two_same _ K (Val (max_dent_id s1))
    (set_dents (<[max_dent_id s1 := e]> (dents s1)) (wrap_u64 (max_dent_id s1 + 1)) s1)); [done|].
  split_and!; [done|exact Hs|]. intros fd e' Hl. cbn in Hl.
  apply lookup_insert_Some in Hl as [[_ <-]|[_ Hl]]; [exact He|by apply (Hd fd)].
Qed.
Lemma secure_dent_close fd K : secure anything K (dent_close fd).
Proof.
  intros s1 s2 (E & Hs & Hd). rewrite E.
  apply (two_same _ K (Val tt) (set_dents (delete fd (dents s1)) (max_dent_id s1) s1)); [done|].
  split_and!; [done|exact Hs|]. intros fd' e Hl. cbn in Hl.
  apply lookup_delete_Some in Hl as [_ Hl]. by apply (Hd fd').
Qed.
End states.

Create HintDb blind discriminated.
#[export] Hint Resolve blind_ret blind_panic blind_unwrap blind_expect blind_blobs blind_http
  blind_channel blind_sched : blind.
#[export] Hint Extern 1 (Blind (gets _)) => apply blind_gets; reflexivity : blind.
#[export] Hint Extern 1 (Blind (modify _)) => apply blind_modify; intros; split_and!; reflexivity : blind.

(** One syntactic step of a proof of [Blind]. *)
Ltac blind_step :=
  match goal with
  | |- forall _, _ => intros ?
  | |- Blind (match ?x with _ => _ end) => destruct x
  | |- Blind (let '_ := ?x in _) => destruct x
  | |- Blind _ => solve [auto with blind nocore]
  | |- Blind (_ ≫= _) => apply blind_bind
  | |- Blind (try_bind _ _) => apply blind_try
  end.
Ltac solve_blind := repeat blind_step; auto with blind.

(** What is known stays known along [H : learns K K']. *)
Lemma learns_option K K' (o : option DirEntry) :
  learns K K' -> (forall e, o = Some e -> K e) -> forall e, o = Some e -> K' e.
Proof. intros HK Ho e He. by apply HK, Ho. Qed.
Ltac recall H :=
  repeat match goal with
  | H' : forall e, ?o = Some e -> ?K e |- _ =>
      match type of H with
      | learns K _ => let H2 := fresh in
          pose proof (learns_option _ _ o H H') as H2; clear H'; rename H2 into H'
      end
  | H' : ?K ?e |- _ => match type of H with learns K _ => apply H in H' end
  end.

Ltac known :=
  let H := fresh "HK" in intros ? ? H; intros; cbv beta zeta in *; recall H.

(** The file system's operations on what is known. *)
Create HintDb secure discriminated.
#[export] Hint Resolve secure_dir_list secure_file_read secure_blob_read
  secure_service_to_invokable secure_gate_to_invokable secure_dir_link secure_dir_unlink
  secure_file_write secure_blob_replace secure_gate_replace secure_service_replace
  secure_faceted_list secure_faceted_open secure_taint secure_unlabel
  secure_create_file secure_create_directory secure_create_faceted_directory secure_create_blob
  secure_direct_gate secure_redirect_gate secure_create_service : secure.

(** One step of a proof of [Secure]. *)
Ltac secure_step :=
  match goal with
  | H : forall e, Some ?x = Some e -> _ |- _ => specialize (H x eq_refl)
  | |- Secure _ _ _ _ (match ?x with _ => _ end) => destruct x eqn:?
  | |- Secure _ _ _ _ (let '_ := ?x in _) => destruct x
  | |- Secure _ _ _ _ (mret _) => apply secure_ret; done
  | |- Secure _ _ _ _ panic => apply secure_panic
  | |- Secure _ _ _ _ (get_dent _ ≫= _) =>
      let H := fresh "HK" in
      eapply secure_bind; [apply secure_get_dent|intros ? ? H ?; cbv beta in *; recall H|intros; solve_guar]
  | |- Secure _ _ _ _ (_ ≫= _) =>
      let H := fresh "HK" in
      apply secure_then; [|intros ? ? H; recall H|intros; solve_guar]
  | |- Secure _ _ _ _ (on_fs _) =>
      eapply secure_mono; [|apply secure_on_fs; solve [eauto 2 with secure nocore]]; done
  end.
Ltac solve_secure := repeat secure_step; try (apply secure_blind; solve_blind).

Section methods.
Context {St C N Ch : Type} `{BW : BackingStoreLaws St} `{LW : LabelLaws} `{SW : SerdeLaws}.
Context `{DG : DigestOps} `{HX : !HexOps} `{CN : !Conn C} `{HC : !HttpClient N}.
Context `{SC : !SyscallChannel Ch} `{MR : !Message pb.Reply}.
Context `{MQ : !Message Request} `{MT : !Message TaskReturn}.
Context (q : Component) (obs : Buckle).

Local Abbreviation S := (SysState St C N Ch).
Local Abbreviation secure := (Secure (SameSys (St := St) (C := C) (N := N) (Ch := Ch) q obs) (PartedSys q obs)).
Local Abbreviation two := (Two (SameSys (St := St) (C := C) (N := N) (Ch := Ch) q obs) (PartedSys q obs)).
Local Abbreviation R := (Covertly (St := St) q obs).
Local Abbreviation RS := (OnFs (C := C) (N := N) (Ch := Ch) R).
Local Abbreviation anything := (fun _ _ => True).

(** *** What does not concern the file system *)

Local Abbreviation blind := (Blind (St := St) (C := C) (N := N) (Ch := Ch)).

Lemma blind_component_into c : blind (component_into c).
Proof. unfold component_into. solve_blind. Qed.
#[local] Hint Resolve blind_component_into : blind.
Lemma blind_buckle_into b : blind (buckle_into b).
Proof. unfold buckle_into. solve_blind. Qed.
Lemma blind_unwrap_component c : blind (unwrap_component c).
Proof. unfold unwrap_component. solve_blind. Qed.
Lemma blind_component_or_true c : blind (component_or_true c).
Proof. unfold component_or_true. solve_blind. Qed.
Lemma blind_update_component c o : blind (update_component c o).
Proof. unfold update_component. solve_blind. Qed.
#[local] Hint Resolve blind_buckle_into blind_unwrap_component blind_component_or_true
  blind_update_component : blind.
Lemma blind_service_from sv : blind (service_from sv).
Proof. unfold service_from. solve_blind. Qed.
Lemma blind_label_into l : blind (label_into l).
Proof. unfold label_into. solve_blind. Qed.
Lemma blind_insert_blob b : blind (insert_blob b).
Proof. unfold insert_blob. solve_blind. Qed.
Lemma blind_open_image i : blind (open_image i).
Proof. unfold open_image. solve_blind. Qed.
#[local] Hint Resolve blind_service_from blind_label_into blind_insert_blob blind_open_image : blind.
Lemma blind_save_new_blob c : blind (save_new_blob c).
Proof. unfold save_new_blob. solve_blind. Qed.
Lemma blind_http_send i b p : blind (http_send i b p).
Proof. unfold http_send. solve_blind. Qed.
Lemma blind_send_reply r : blind (send_reply r).
Proof. unfold send_reply. solve_blind. Qed.
#[local] Hint Resolve blind_save_new_blob blind_http_send blind_send_reply : blind.
Lemma blind_blob_create : blind blob_create.
Proof. unfold blob_create. solve_blind. Qed.
Lemma blind_blob_write fd d : blind (blob_write fd d).
Proof. unfold blob_write. solve_blind. Qed.
Lemma blind_blob_finalize fd : blind (blob_finalize fd).
Proof. unfold blob_finalize. solve_blind. Qed.
Lemma blind_blob_read fd o l : blind (sys_blob_read fd o l).
Proof. unfold sys_blob_read. solve_blind. Qed.
Lemma blind_blob_close fd : blind (blob_close fd).
Proof. unfold blob_close. solve_blind. Qed.
Lemma blind_insert_blobs bs : blind (insert_blobs bs).
Proof. induction bs as [|[k b] bs IH]; cbn [insert_blobs]; solve_blind. Qed.
Lemma blind_principals inv : blind (from_invoker_privilege_to_invoker_principal_list inv).
Proof.
  assert (Hp : forall cs, blind (first_principals cs)).
  { induction cs as [|c cs IH]; cbn [first_principals]; solve_blind. }
  unfold from_invoker_privilege_to_invoker_principal_list. solve_blind.
Qed.
#[local] Hint Resolve blind_blob_create blind_blob_write blind_blob_finalize blind_blob_read
  blind_blob_close blind_insert_blobs blind_principals : blind.
(** *** The guarantees of what follows a read *)

Local Abbreviation G := (Guar RS).
#[local] Hint Extern 1 (Guar _ (on_fs _)) => apply (guar_on_fs R RS); solve_guar : guar.
#[local] Hint Extern 2 (Guar _ _) => apply guar_blind; solve [auto with blind nocore] : guar.
Lemma g_insert e : G (insert_dent e).
Proof. apply (OnFs_insert R). Qed.
#[local] Hint Resolve g_insert : guar.
#[local] Hint Extern 1 (Guar _ _) =>
  first [ apply (g_get_dent R RS) | apply (g_blob_entry R RS) | apply (g_update_image R RS)
        | apply (g_update_function R RS) | apply (g_current_gate R RS) ] : guar.

(** *** Reading *)

Lemma secure_dent_read fd K : secure anything K (dent_read fd).
Proof. unfold dent_read. solve_secure. Qed.
Lemma secure_dent_list fd K : secure anything K (dent_list fd).
Proof. unfold dent_list. solve_secure. Qed.
Lemma secure_dent_list_faceted fd c K : secure anything K (dent_list_faceted fd c).
Proof. unfold dent_list_faceted. solve_secure. Qed.
Lemma secure_dent_link fd n t K : secure anything K (dent_link fd n t).
Proof. unfold dent_link. solve_secure. Qed.
Lemma secure_dent_unlink fd n K : secure anything K (dent_unlink fd n).
Proof. unfold dent_unlink. solve_secure. Qed.
Lemma secure_dent_get_blob fd K : secure anything K (dent_get_blob fd).
Proof. unfold dent_get_blob. solve_secure. Qed.

Lemma secure_result {A X E : Type} (P : Knowledge -> A -> Prop) (m : SM S (result A E))
    (f : A -> SM S (result X E)) Q K :
  secure (fun K r => if_ok (fun a _ => P K a) r ∅) K m ->
  (forall a K', learns K K' -> P K' a -> secure (fun K r => if_ok (fun a _ => Q K a) r ∅) K' (f a)) ->
  (forall a, G (f a)) -> secure (fun K r => if_ok (fun a _ => Q K a) r ∅) K (try_bind m f).
Proof.
  intros Hm Hf Hg. apply (secure_try (R := RS) P); [|done|done|done].
  eapply secure_mono; [|exact Hm]. intros K' r _ Hr a ->. exact Hr.
Qed.
Lemma secure_ok {A E : Type} (m : SM S (result A E)) K :
  secure anything K m -> secure (fun K r => if_ok (fun _ _ => True) r ∅) K m.
Proof. apply secure_mono. by intros K' [|]. Qed.

(** Consecutive computations on the file system are one. *)
Lemma on_fs_bind {A X : Type} (m : SM (World St) A) (f : A -> SM (World St) X) (s : S) :
  on_fs (m ≫= f) s = (on_fs m ≫= fun a => on_fs (f a)) s.
Proof.
  unfold on_fs, zoom, mbind, SM_bind. by destruct (m (fs s)) as [[a| |] w] eqn:E.
Qed.

(** *** Opening and creating *)

Lemma secure_dent_open fd e K : secure anything K (dent_open fd e).
Proof.
  assert (Hins : forall e (k : pb.DentKind) K, K e ->
    secure anything K (res_id ← insert_dent e; mret (Some (res_id, k)))).
  { intros e' k K1 He. apply (secure_then (R := RS)); [by apply secure_insert_dent|by intros; apply secure_ret|].
    intros. solve_guar. }
  assert (Hfac : forall r l K, K (DirEntry.FacetedDirectory r) ->
    secure anything K (dent ← on_fs (faceted_open r l); res_id ← insert_dent (DirEntry.Directory dent);
       mret (Some (res_id, pb.DentDirectory)))).
  { intros r l K1 Hr. eapply (secure_bind (R := RS)); [by apply secure_on_fs, secure_faceted_open| |].
    - intros d K2 _ Hd. by apply Hins.
    - intros d. solve_guar. }
  unfold dent_open. eapply (secure_bind (R := RS)); [apply secure_get_dent| |intros; solve_guar].
  intros o K1 _ Ho. apply (secure_then (R := RS)); [|by intros [[fd' k]|] K2 _; apply secure_ret|].
  - destruct o as [d|]; [|by apply secure_ret]. specialize (Ho d eq_refl).
    destruct d, e; try (by apply secure_ret).
    + eapply (secure_bind (R := RS)); [by apply secure_on_fs, secure_dir_list| |intros; solve_guar].
      intros es K2 _ Hes. destruct (es !! name) as [dent|] eqn:En; [|by apply secure_ret].
      apply Hins. exact (Hes _ _ En).
    + destruct (buckle_parse name); [by apply Hfac|by apply secure_ret].
    + apply (secure_then (R := RS)); [apply secure_blind; solve_blind| |intros; solve_guar].
      intros b K2 HK. recall HK. by apply Hfac.
  - intros [[? ?]|]; solve_guar.
Qed.

Lemma secure_blob_entry fd K :
  secure (fun K r => if_ok (fun b _ => K (DirEntry.Blob b)) r ∅) K (blob_entry fd).
Proof.
  unfold blob_entry. eapply (secure_bind (R := RS)); [apply secure_get_dent| |intros; solve_guar].
  intros o K1 _ Ho. apply secure_ret. destruct o as [e|]; [|done].
  specialize (Ho e eq_refl). by destruct e.
Qed.

Local Abbreviation knows_result := (fun (K : Knowledge) (r : result DirEntry FsError) =>
  if_ok (fun e _ => K e) r ∅).

Lemma secure_create_direct_gate_entry l dg K :
  secure knows_result K (create_direct_gate_entry l dg).
Proof.
  unfold create_direct_gate_entry.
  apply (secure_then (R := RS)); [apply secure_blind; solve_blind| |intros; solve_guar]. intros f K0 _.
  do 3 (eapply secure_result; [apply secure_blob_entry|known|intros; solve_guar]).
  do 3 (apply (secure_then (R := RS)); [by apply secure_on_fs, secure_blob_read|known|intros; solve_guar]).
  do 3 (apply (secure_then (R := RS)); [apply secure_blind; solve_blind|known|intros; solve_guar]).
  apply secure_on_fs, secure_direct_gate.
Qed.
Lemma secure_create_redirect_gate_entry l rd K :
  secure knows_result K (create_redirect_gate_entry l rd).
Proof.
  unfold create_redirect_gate_entry.
  eapply (secure_bind (R := RS)); [apply secure_get_dent| |intros; solve_guar]. intros o K1 _ Ho.
  destruct o as [e|]; [|by apply secure_ret]. specialize (Ho e eq_refl).
  destruct e; try (by apply secure_ret).
  do 3 (apply (secure_then (R := RS)); [apply secure_blind; solve_blind|known|intros; solve_guar]).
  by apply secure_on_fs, secure_redirect_gate.
Qed.

Lemma secure_new_entry l k K : secure knows_result K (new_entry l k).
Proof.
  assert (Hnew : forall (m : SM (World St) DirEntry),
    Secure (Sync q obs) (Parted q obs) (fun K e => K e) K m ->
    secure knows_result K (e ← on_fs m; mret (Ok e))).
  { intros m Hm. eapply (secure_bind (R := RS)); [by apply secure_on_fs| |intros; solve_guar].
    intros e K2 _ He. by apply secure_ret. }
  destruct k as [| | |[[[dg|rd]|]]|sv|b]; cbn [new_entry pb.gate_of].
  - apply Hnew, secure_create_directory.
  - apply Hnew, secure_create_file.
  - apply Hnew, secure_create_faceted_directory.
  - apply secure_create_direct_gate_entry.
  - apply secure_create_redirect_gate_entry.
  - by apply secure_ret.
  - apply (secure_then (R := RS)); [apply secure_blind; solve_blind| |intros; solve_guar].
    intros sv' K1 _. apply secure_on_fs, secure_create_service.
  - apply (secure_then (R := RS)); [apply secure_blind; solve_blind| |intros [|]; solve_guar].
    intros [b'|] K1 _; [|by apply secure_ret]. apply secure_on_fs, secure_create_blob.
Qed.
Lemma secure_dent_create k l K : secure anything K (dent_create k l).
Proof.
  rewrite dent_create_eq.
  apply (secure_try (R := RS) (fun K e => K e)); [| |done|intros; solve_guar].
  - eapply secure_mono; [|apply secure_new_entry]. intros K' r _ Hr a ->. exact Hr.
  - intros e K1 _ He. apply (secure_then (R := RS)); [by apply secure_insert_dent| |intros; solve_guar].
    intros. by apply secure_ret.
Qed.

(** *** Updating *)

Lemma secure_update_image fd set f K : secure anything K (update_image fd set f).
Proof.
  unfold update_image. case_bool_decide; [|by apply secure_ret].
  apply (secure_try (R := RS) (fun K b => K (DirEntry.Blob b))); [| |done|intros; solve_guar].
  - eapply secure_mono; [|apply secure_blob_entry]. intros K' r _ Hr a ->. exact Hr.
  - intros r K1 _ Hr. apply (secure_then (R := RS)); [by apply secure_on_fs, secure_blob_read| |intros; solve_guar].
    intros. by apply secure_ret.
Qed.
Lemma secure_step_ok {A X E : Type} (m : SM S (result A E)) (f : A -> SM S (result X E)) K :
  secure anything K m -> (forall a K', learns K K' -> secure anything K' (f a)) ->
  (forall a, G (f a)) -> secure anything K (try_bind m f).
Proof.
  intros Hm Hf Hg. apply (secure_try (R := RS) anything); [|auto|done|done].
  eapply secure_mono; [|exact Hm]. done.
Qed.
Lemma secure_update_function p f K : secure anything K (update_function p f).
Proof.
  unfold update_function.
  do 3 (apply secure_step_ok; [apply secure_update_image|intros ? ? _|intros; solve_guar]).
  by apply secure_ret.
Qed.
Lemma secure_current_gate r K :
  K (DirEntry.Gate r) ->
  secure (fun K o => forall g, o = Some g -> knows_gate K g) K (current_gate r).
Proof.
  intros Hr. eapply secure_ext; [|apply secure_on_fs, (secure_gate_current q obs r K Hr)].
  intros s. rewrite on_fs_bind. apply bind_ext. intros [g|] s'; [|by destruct s'].
  rewrite on_fs_bind. apply bind_ext. intros d s''. by destruct s''.
Qed.

Lemma secure_update_direct_gate r dg K :
  K (DirEntry.Gate r) -> secure anything K (update_direct_gate r dg).
Proof.
  intros Hr. unfold update_direct_gate.
  eapply (secure_bind (R := RS)); [by apply secure_current_gate| |intros; solve_guar].
  intros cur K1 HK _. recall HK. destruct cur as [[gt|gt]|]; try (by apply secure_ret).
  apply secure_step_ok; [|known|intros; solve_guar].
  { destruct (pb.dg_function dg); [apply secure_update_function|by apply secure_ret]. }
  do 2 (apply (secure_then (R := RS)); [apply secure_blind; solve_blind|known|intros; solve_guar]).
  by apply secure_on_fs, secure_gate_replace.
Qed.
Lemma secure_update_redirect_gate r rd K :
  K (DirEntry.Gate r) -> secure anything K (update_redirect_gate r rd).
Proof.
  intros Hr. unfold update_redirect_gate.
  eapply (secure_bind (R := RS)); [by apply secure_current_gate| |intros; solve_guar].
  intros cur K1 HK _. recall HK. destruct cur as [[gt|gt]|]; try (by apply secure_ret).
  eapply (secure_bind (R := RS)); [apply secure_get_dent| |intros; solve_guar]. intros o K2 HK2 Ho. recall HK2.
  destruct o as [e|]; [|by apply secure_ret]. specialize (Ho e eq_refl).
  destruct e; try (by apply secure_ret).
  do 2 (apply (secure_then (R := RS)); [apply secure_blind; solve_blind|known|intros; solve_guar]).
  by apply secure_on_fs, secure_gate_replace.
Qed.
#[local] Hint Extern 1 (Guar _ _) =>
  first [ apply (g_update_direct_gate R RS) | apply (g_update_redirect_gate R RS) ] : guar.
Lemma secure_dent_update fd k K : secure anything K (dent_update fd k).
Proof.
  unfold dent_update. eapply (secure_bind (R := RS)); [apply secure_get_dent| |intros; solve_guar].
  intros o K1 _ Ho. apply secure_step_ok; [|intros; by apply secure_ret|intros; solve_guar].
  destruct o as [e|]; [specialize (Ho e eq_refl)|].
  - destruct k as [d|[[[dg|rd]|]]|sv|b]; cbn [pb.gate_of].
    + destruct e; solve_secure.
    + destruct e; try (by apply secure_ret). by apply secure_update_direct_gate.
    + destruct e; try (by apply secure_ret). by apply secure_update_redirect_gate.
    + by destruct e; apply secure_ret.
    + destruct e; solve_secure.
    + solve_secure.
  - destruct k as [d|[[[dg|rd]|]]|sv|b]; solve_secure.
Qed.
(** *** Gates and services *)

Lemma secure_dent_ls_gate fd K : secure anything K (dent_ls_gate fd).
Proof.
  unfold dent_ls_gate. eapply (secure_bind (R := RS)); [apply secure_get_dent| |intros; solve_guar].
  intros o K1 _ Ho. apply (secure_then (R := RS)); [|intros; by apply secure_ret|intros; solve_guar].
  destruct o as [e|]; [|by apply secure_ret]. specialize (Ho e eq_refl).
  destruct e as [| | |r| |]; try (by apply secure_ret).
  match goal with |- secure _ _ (on_fs (obj_get r) ≫= fun o => unwrap o ≫= fun g => on_fs (unlabel g) ≫= ?k) =>
    apply (secure_ext _ _ _ (on_fs (o ← obj_get r; g ← unwrap o; unlabel g) ≫= k)) end.
  { intros s. unfold on_fs, zoom, mbind, SM_bind.
    by destruct (obj_get r (fs s)) as [[[g|]| |] w]. }
  apply (secure_then (R := RS)); [|intros g K2 _; apply secure_blind; solve_blind|intros; solve_guar].
  eapply secure_mono; [|by apply secure_on_fs, secure_gate_read]. done.
Qed.

Lemma secure_get_privilege K : secure anything K (on_fs get_privilege).
Proof. apply secure_on_fs. exact (secure_locals q obs (fun _ p => p) K). Qed.
Lemma secure_get_label K : secure anything K (on_fs get_current_label).
Proof. apply secure_on_fs. exact (secure_locals q obs (fun l _ => l) K). Qed.

#[local] Hint Extern 1 (Guar _ (get_privilege)) => apply guar_gets : guar.
#[local] Hint Extern 1 (Guar _ (get_current_label)) => apply guar_gets : guar.
#[local] Hint Extern 1 (Guar _ (taint_with_label _)) => unfold taint_with_label; solve_guar : guar.

Lemma secure_invoke_gate f r p sy t ps K :
  K (DirEntry.Gate r) -> secure anything K (invoke_gate f r p sy t ps).
Proof.
  intros Hr. apply (secure_then (R := RS)); [by apply secure_on_fs, secure_gate_to_invokable| |intros; solve_guar].
  intros g K1 _. apply (secure_then (R := RS)); [apply secure_get_privilege| |intros; solve_guar].
  intros pr K2 _. destruct (negb _); [by apply secure_ret|].
  apply (secure_then (R := RS)); [apply secure_get_label| |intros; solve_guar]. intros l K3 _.
  apply (secure_then (R := RS)); [apply secure_blind; solve_blind| |intros; solve_guar].
  intros [sent|] K4 _; [|by apply secure_ret]. destruct sy; [|by apply secure_ret].
  apply (secure_then (R := RS)); [apply secure_blind; solve_blind| |intros; solve_guar].
  intros [res|] K5 _; [|by apply secure_ret].
  apply (secure_then (R := RS)); [apply secure_blind; solve_blind| |intros; solve_guar]. intros rl K6 _.
  apply (secure_then (R := RS)); [apply secure_on_fs, secure_taint| |intros; solve_guar]. intros u K7 _.
  apply secure_blind. solve_blind.
Qed.

(** What an invocation does with a service whose privilege [q] covers. *)
Definition after_info p t ps (info : Service) : SM S (option invocation) :=
  p' ← on_fs get_privilege;
  if negb (implies p' (svc_invoker_integrity_clearance info)) then mret None
  else
    _ ← on_fs (declassify_with (svc_privilege info));
    sendres ← http_send info (Some p) ps;
    _ ← on_fs (taint_with_label (taint info));
    match sendres with
    | Ok response =>
        if (t : bool) then
          body ← unwrap (resp_body response);
          blobfd ← save_new_blob body;
          mret (Some (Some blobfd, None, Some (resp_headers response)))
        else mret (Some (None, resp_body response, Some (resp_headers response)))
    | Err _ => mret None
    end.
Lemma g_after_info p t ps info : Implies q (svc_privilege info) -> G (after_info p t ps info).
Proof.
  intros Hinfo.
  assert (Hdecl : G (on_fs (declassify_with (svc_privilege info)))) by
    by apply (guar_on_fs R RS), covertly_declassify.
  unfold after_info. solve_guar.
Qed.

Lemma secure_invoke_service r p t ps K :
  K (DirEntry.Service r) -> secure anything K (invoke_service r p t ps).
Proof.
  intros Hr s1 s2 Hs. change (two anything K ((info ← on_fs (service_to_invokable r); after_info p t ps info) s1)
    ((info ← on_fs (service_to_invokable r); after_info p t ps info) s2)).
  apply (two_bind_if (R := RS) (fun info => Implies q (svc_privilege info)) anything).
  - by apply secure_on_fs; [apply secure_service_to_invokable|].
  - intros info Hi. destruct Hs as (_ & Hs & _). apply (service_covered q r (fs s1)); [apply Hs|].
    unfold on_fs, zoom in Hi. by destruct (service_to_invokable r (fs s1)).
  - intros info Hi. destruct Hs as (_ & Hs & _). apply (service_covered q r (fs s2)); [apply Hs|].
    unfold on_fs, zoom in Hi. by destruct (service_to_invokable r (fs s2)).
  - intros info K1 Hinfo _ _.
    assert (Hdecl : G (on_fs (declassify_with (svc_privilege info)))) by
      by apply (guar_on_fs R RS), covertly_declassify.
    unfold after_info. apply (secure_then (R := RS)); [apply secure_get_privilege| |intros; solve_guar].
    intros pr K2 _. destruct (negb _); [by apply secure_ret|].
    apply (secure_then (R := RS)); [apply secure_on_fs, secure_declassify| |intros; solve_guar]. intros l K3 _.
    apply (secure_then (R := RS)); [apply secure_blind; solve_blind| |intros; solve_guar]. intros sent K4 _.
    apply (secure_then (R := RS)); [apply secure_on_fs, secure_taint| |intros; solve_guar]. intros u K5 _.
    apply secure_blind. solve_blind.
  - intros info Hinfo.
    by apply g_after_info.
Qed.

Lemma covert_invoke_service r p t ps s : RS s (invoke_service r p t ps s).2.
Proof.
  intros Hw Hl. refine ((_ : RS s _) Hw Hl).
  change (RS s ((info ← on_fs (service_to_invokable r); after_info p t ps info) s).2).
  eapply at_bind; [apply surjective_pairing|apply (guar_on_fs R RS), g_service_to_invokable, _|].
  intros info Hi. apply g_after_info, (service_covered q r (fs s)); [exact Hw|].
  unfold on_fs, zoom in Hi. by destruct (service_to_invokable r (fs s)).
Qed.

Lemma secure_dent_invoke f fd p sy t ps K : secure anything K (dent_invoke f fd p sy t ps).
Proof.
  intros s1 s2 Hs. unfold dent_invoke, get_dent.
  assert (Hd : dents s2 = dents s1) by (destruct Hs as (-> & _); done).
  rewrite (bind_step (gets _) _ s1 (dents s1 !! fd) s1), (bind_step (gets _) _ s2 (dents s1 !! fd) s2)
    by (unfold gets; by rewrite ?Hd).
  assert (Hk : forall e, dents s1 !! fd = Some e -> K e) by apply Hs.
  apply (two_bind (R := RS) anything).
  - destruct (dents s1 !! fd) as [e|]; [|by apply two_same].
    specialize (Hk e eq_refl). destruct e; try (by apply two_same).
    + by apply secure_invoke_gate.
    + by apply secure_invoke_service.
  - intros r K1 _ _. destruct (default _ r) as [[? ?] ?]. by apply secure_ret.
  - intros r. destruct (default _ r) as [[? ?] ?]. apply guar_ret.
Qed.

(** *** The dispatch *)

Lemma g_tail r :
  G (_ ?← send_reply r; mret (Ok None : result (option TaskReturn) SyscallProcessorError)).
Proof. apply (g_reply_tail R RS). Qed.
Lemma secure_reply {A : Type} (f : A -> pb.Reply) (m : SM S A) K :
  secure anything K m -> secure anything K (reply f m).
Proof.
  intros Hm. unfold reply. apply (secure_then (R := RS)); [done| |intros; apply g_tail]. intros a K1 _.
  apply secure_blind. solve_blind.
Qed.

Lemma covert_do_syscall f sc : G (do_syscall f sc).
Proof.
  intros s. destruct (declassifying s sc) eqn:Hd.
  - destruct sc; try discriminate Hd.
    + intros Hw Hl. apply (covertly_declassify q obs (thread_privilege (fs s))); [apply Hw|done|done].
    + cbn [declassifying] in Hd. destruct (dents s !! fd) as [[]|] eqn:Hfd; try discriminate Hd.
      cbn [do_syscall]. unfold reply. apply at_then; [|intros; apply g_tail].
      unfold dent_invoke, get_dent. apply (at_pure _ _ s (dents s !! fd)); [done|]. rewrite Hfd.
      apply at_then; [apply covert_invoke_service|].
      intros o. destruct (default _ o) as [[? ?] ?]. apply guar_ret.
  - apply (do_syscall_guar R RS); [by left|right; intros; apply (OnFs_close R)|right; apply g_insert].
Qed.

Lemma serve_covert fuel f : G (serve fuel f).
Proof.
  pose proof (covert_do_syscall f) as Hd. induction fuel as [|fuel IH]; cbn [serve]; [apply guar_nofuel|].
  solve_guar.
Qed.

#[local] Hint Resolve secure_dent_open secure_dent_close secure_dent_create secure_dent_update
  secure_dent_read secure_dent_list secure_dent_list_faceted secure_dent_ls_gate secure_dent_link
  secure_dent_unlink secure_dent_invoke secure_dent_get_blob secure_get_label : secure.
#[local] Hint Extern 2 (Secure _ _ _ _ _) => apply secure_blind; solve_blind : secure.

Lemma secure_response r K : secure anything K (do_syscall 0 (pb.SysResponse r)).
Proof.
  intros s1 s2 Hs. cbn [do_syscall].
  assert (Hp : thread_privilege (fs s1) = thread_privilege (fs s2)) by apply Hs.
  assert (Hrun : forall s : S, on_fs get_privilege s = (Val (thread_privilege (fs s)), s)) by (by intros []).
  rewrite (bind_step _ _ s1 _ _ (Hrun s1)), (bind_step _ _ s2 _ _ (Hrun s2)), <- Hp.
  apply (two_bind (R := RS) anything).
  - by apply secure_on_fs; [apply secure_declassify|].
  - intros l K1 _ _. by apply secure_ret.
  - intros l. apply guar_ret.
Qed.
Lemma secure_do_syscall f sc K : secure anything K (do_syscall f sc).
Proof.
  assert (Hg : forall e m, G (dent_open (Ch := Ch) (C := C) (N := N) e m)) by
    (intros; apply (g_dent_open R RS), g_insert).
  assert (Hc : forall k l, G (dent_create (Ch := Ch) (C := C) (N := N) k l)) by
    (intros; apply (g_dent_create R RS), g_insert).
  assert (Hf : forall fd c, G (dent_list_faceted (Ch := Ch) (C := C) (N := N) fd c)) by
    (intros; apply (g_dent_list_faceted R RS)).
  destruct sc; cbn [do_syscall]; try (apply secure_reply); try solve [auto 2 with secure].
  - apply secure_response.
  - apply (secure_then (R := RS)); [auto 2 with secure| |intros; apply (guar_on_fs R RS), guar_gets].
    intros target K1 _. apply secure_on_fs.
    exact (secure_locals q obs (fun l p => if implies (conj target p) (secrecy l)
      then Ok (Buckle_new target (integrity l)) else Err l) K1).
  - apply (secure_then (R := RS)); [apply secure_blind; solve_blind|intros; apply secure_dent_open|done].
  - apply (secure_then (R := RS)); [auto 2 with secure| |intros; destruct kind; solve_guar].
    intros lb K1 _. destruct kind; [|by apply secure_ret].
    apply (secure_then (R := RS)); [auto 2 with secure|intros; by apply secure_ret|intros; solve_guar].
  - destruct kind; [|by apply secure_ret].
    apply (secure_then (R := RS)); [auto 2 with secure|intros; by apply secure_ret|intros; solve_guar].
  - apply (secure_then (R := RS)); [auto 2 with secure|intros; apply secure_dent_list_faceted|done].
Qed.

(** *** The loop *)

Lemma secure_serve fuel f K : secure anything K (serve fuel f).
Proof.
  revert K. induction fuel as [|fuel IH]; intros K; cbn [serve]; [apply secure_nofuel|].
  assert (Hg : G (serve (Ch := Ch) (C := C) (N := N) fuel f)) by (apply serve_covert).
  pose proof (covert_do_syscall f) as Hd.
  apply (secure_then (R := RS)); [auto 2 with secure| |].
  - intros w K1 _. apply secure_step_ok; [by apply secure_ret| |].
    + intros [sc|] K2 _; [|apply IH].
      apply secure_step_ok; [apply secure_do_syscall|intros [tr|] K3 _; [by apply secure_ret|apply IH]|].
      intros [tr|]; [apply guar_ret|done].
    + intros [sc|]; [|done]. apply guar_try; [done|]. intros [tr|]; [apply guar_ret|done].
  - intros w. apply guar_try; [apply guar_ret|]. intros [sc|]; [|done].
    apply guar_try; [done|]. intros [tr|]; [apply guar_ret|done].
Qed.

Lemma secure_run fuel f p bs hs inv K : secure anything K (run fuel f p bs hs inv).
Proof.
  pose proof (serve_covert fuel f) as Hg. pose proof blind_send_reply as Hr.
  assert (Hr' : forall r, G (send_reply r)) by (intros; apply guar_blind, Hr).
  apply (secure_then (R := RS)); [auto 2 with secure| |].
  - intros fds K1 _. apply (secure_then (R := RS)); [auto 2 with secure| |].
    + intros i K2 _. apply secure_step_ok; [auto 2 with secure|intros; apply secure_serve|done].
    + intros i. by apply guar_try.
  - intros fds. apply guar_bind; [apply guar_blind, blind_principals|]. intros i. by apply guar_try.
Qed.
End methods.
