(* ===== verification/Noninterference.v ===== *)
(** * What an observer can tell of a function

    The theorem on two runs of a function, and the one thing an observer can tell of a thread
    it may not see: that a facet has been opened. *)

From stdpp Require Import base tactics option list gmap strings countable.
From S2P Require Import Prelude Labels Store FsTypes Objects Fs FsGuarantee.
From S2P Require Import FsMediation FsReads FsGates FsTheorems FsTyping Observer FsSecure.
From S2P Require Import Syscalls Blobstore Message.
From S2P Require Import SysServer SysGuarantee SysTheorems SysSecure.

(** ** Stores after two runs have parted *)

Section parted.
Context {St : Type} `{BW : BackingStoreLaws St} `{LW : LabelLaws} `{SW : SerdeLaws}.
Context (q : Component) (obs : Buckle).
Implicit Types w : World St.

(** The known objects have the same labels and, as far as they are seen, the same contents;
    faceted directories, which have no label, may have got different facets. *)
Definition alike_but_facets (K : Knowledge) (m1 m2 : gmap bytes bytes) : Prop :=
  forall t (r : ObjectRef t), K (entry_of r) -> exists x1 x2 : obj_data t,
    m1 !! ukey r = Some (to_vec x1) /\ m2 !! ukey r = Some (to_vec x2) /\
    obj_label t x1 = obj_label t x2 /\
    match obj_label t x1 with
    | Some a => seen q obs a -> x1 = x2
    | None => exists common added1 added2,
        obj_facets t x1 = common ++ added1 /\ obj_facets t x2 = common ++ added2
    end.

(** An object after unseen changes. *)
Lemma covert_object m m' {t} (r : ObjectRef t) (x : obj_data t) :
  covert q obs m m' -> m !! ukey r = Some (to_vec x) ->
  exists x' : obj_data t, m' !! ukey r = Some (to_vec x') /\ obj_label t x' = obj_label t x /\
    (x' = x \/ match obj_label t x with
               | Some a => ~ seen q obs a
               | None => exists added, obj_facets t x' = obj_facets t x ++ added
               end).
Proof.
  intros Hm Hx. destruct (Hm _ _ Hx) as (v' & Hv' & [<-|[E|(t' & y & x' & Hy & -> & Hl & Hc)]]).
  - exists x. auto.
  - by apply to_vec_not_nil in E.
  - apply from_slice_to_vec in Hy as [<- Hy]. cbn in Hy. subst y. exists x'. auto.
Qed.

Lemma alike_covert K m1 m2 m1' m2' :
  alike q obs K m1 m2 -> covert q obs m1 m1' -> covert q obs m2 m2' ->
  alike_but_facets K m1' m2'.
Proof.
  intros Ha H1 H2 t r Hr. destruct (Ha t r Hr) as (x1 & x2 & Hx1 & Hx2 & [Hl Hx] & _).
  destruct (covert_object _ _ r x1 H1 Hx1) as (y1 & Hy1 & L1 & C1).
  destruct (covert_object _ _ r x2 H2 Hx2) as (y2 & Hy2 & L2 & C2).
  exists y1, y2. split_and!; [done|done|congruence|]. unfold legible in Hx. rewrite L1.
  rewrite <- Hl in C2. destruct (obj_label t x1) as [a|].
  - intros Ha'. destruct C1 as [->|C1]; [|done]. destruct C2 as [->|C2]; [|done]. auto.
  - specialize (Hx I). subst x2. exists (obj_facets t x1).
    destruct C1 as [->|[a1 ->]], C2 as [->|[a2 ->]].
    + exists [], []. by rewrite app_nil_r.
    + exists [], a2. by rewrite app_nil_r.
    + exists a1, []. by rewrite app_nil_r.
    + by exists a1, a2.
Qed.

Lemma parted_alike K w1 w2 :
  Parted q obs K w1 w2 ->
  ~ seen q obs (current_label w1) /\ ~ seen q obs (current_label w2) /\
  alike_but_facets K (view w1) (view w2).
Proof.
  intros (K' & m1 & m2 & HK & Ha & (_ & Hl1 & H1) & (_ & Hl2 & H2)). split_and!; [done..|].
  intros t r Hr. by apply (alike_covert K' m1 m2 _ _ Ha H1 H2), HK.
Qed.
End parted.

(** ** The theorem *)

Section runs.
Context {St C N Ch : Type} `{BW : BackingStoreLaws St} `{LW : LabelLaws} `{SW : SerdeLaws}.
Context `{DG : DigestOps} `{HX : !HexOps} `{CN : !Conn C} `{HC : !HttpClient N}.
Context `{SC : !SyscallChannel Ch} `{MR : !Message pb.Reply}.
Context `{MQ : !Message Request} `{MT : !Message TaskReturn}.

Local Abbreviation S := (SysState St C N Ch).

(** A file system in which a function may be run for the observer. *)
Definition observable (q : Component) (draws : list Z) (w : World St) : Prop :=
  quiet w /\ covered q (view w) /\ entropy w = draws /\ fresh_draws (view w) draws.

Lemma new_same q obs K draws w1 w2 blobs conn http ch l p :
  Implies q p -> observable q draws w1 -> observable q draws w2 ->
  K (DirEntry.Directory ROOT_REF) -> alike q obs K (view w1) (view w2) ->
  SameSys q obs K (new (C := C) (N := N) (Ch := Ch) w1 blobs conn http ch l p)
    (new w2 blobs conn http ch l p).
Proof.
  intros Hp (Hq1 & Hc1 & He1 & Hf1) (Hq2 & Hc2 & He2 & Hf2) Hr Ha. split_and!; [done| |].
  - subst draws. by constructor.
  - intros fd e He. cbn in He. by apply lookup_singleton_Some in He as [_ <-].
Qed.

(** C4: noninterference.  A function is run twice, with the same arguments, privilege, blobs,
    connection and behaviour, in file systems that the observer cannot distinguish: the known
    objects have the same labels, and the same contents where these may flow to the observer's
    label, with the help of whatever the function's privilege and those of the services may
    declassify.  Then either the two runs end alike: same result or panic, same conversation
    with the function, the scheduler and the services, same descriptors, same label, and file
    systems that the observer still cannot distinguish.  Or both end tainted by something the
    observer may not see, and what it may see is still the same, facets aside. *)
Theorem run_noninterference q obs K draws w1 w2 blobs conn http ch l p fuel f payload bs hs inv :
  Implies q p -> observable q draws w1 -> observable q draws w2 ->
  K (DirEntry.Directory ROOT_REF) -> alike q obs K (view w1) (view w2) ->
  let run_in w := run fuel f payload bs hs inv
    (new (C := C) (N := N) (Ch := Ch) w blobs conn http ch l p) in
  let '(r1, s1) := run_in w1 in
  let '(r2, s2) := run_in w2 in
  (r1 = r2 /\ s2 = set_fs (fs s2) s1 /\ current_label (fs s2) = current_label (fs s1) /\
   exists K', learns K K' /\ alike q obs K' (view (fs s1)) (view (fs s2))) \/
  (~ seen q obs (current_label (fs s1)) /\ ~ seen q obs (current_label (fs s2)) /\
   alike_but_facets q obs K (view (fs s1)) (view (fs s2))).
Proof.
  intros Hp H1 H2 Hr Ha run_in.
  pose proof (new_same q obs K draws w1 w2 blobs conn http ch l p Hp H1 H2 Hr Ha) as Hs.
  pose proof (secure_run q obs fuel f payload bs hs inv K _ _ Hs) as H. unfold run_in.
  destruct (run _ _ _ _ _ _ (new w1 _ _ _ _ _ _)) as [r1 s1].
  destruct (run _ _ _ _ _ _ (new w2 _ _ _ _ _ _)) as [r2 s2].
  destruct H as [(K' & HK & E & _ & Es & Hs' & _)|H]; cbn [fst snd] in *; [left|right].
  - split_and!; [done|done| |exists K'; split; [done|apply Hs']]. symmetry. apply Hs'.
  - by apply parted_alike.
Qed.
End runs.

(** ** Facets *)

Section facets.
Context {St : Type} `{BW : BackingStoreLaws St} `{LW : LabelLaws} `{SW : SerdeLaws}.
Implicit Types w : World St.

(** C5: opening a facet is seen.  A thread, whatever it has read, opens a facet that a faceted
    directory does not have; from then on everyone who lists the directory up to a clearance to
    which the facet may flow finds it there, and did not before.  Neither the label of the
    thread nor its privilege is looked at. *)
Theorem facet_covert_channel (r : ObjectRef TFaceted) facet clearance w (fd : FacetedDirectory)
    (reader : Buckle) :
  quiet w -> view w !! ukey r = Some (to_vec (t := TFaceted) fd) ->
  Exists (uid_free w) (entropy w) -> NoDup (facets fd).*1 ->
  find_facet facet (facets fd) = None -> Flows facet clearance ->
  let w' := (faceted_open r facet w).2 in
  exists m m', faceted_list r clearance (set_label reader w) =
      (Val m, set_label (lub reader clearance) w) /\ m !! facet = None /\
    faceted_list r clearance (set_label reader w') =
      (Val m', set_label (lub reader clearance) w') /\ is_Some (m' !! facet).
Proof.
  intros Hq Hr He Hn Hf Hfl w'.
  destruct (faceted_open_find_or_create r facet w fd Hq Hr He) as (d & w1 & E & _ & H).
  rewrite Hf in H. destruct H as (_ & _ & Hr1 & _ & _).
  assert (Hw : w' = w1) by (unfold w'; by rewrite E). rewrite Hw. clear w' Hw.
  assert (Hq1 : quiet w1).
  { destruct (g_faceted_open Mediated r facet w Hq) as [H _]. by rewrite E in H. }
  assert (Hr0 : object_at (view w) r = Some fd).
  { unfold object_at. rewrite Hr. exact (from_to_vec TFaceted fd). }
  destruct (faceted_list_exact r clearance (set_label reader w) fd Hq Hr0 Hn) as (m & E0 & M0).
  apply find_facet_None in Hf as Hnew.
  destruct (faceted_list_exact r clearance (set_label reader w1) _ Hq1 Hr1) as (m' & E1 & M1).
  { cbn [facets]. rewrite fmap_app. apply list.NoDup_app. split_and!; [done| |].
    - intros g Hg Hg'. apply list_elem_of_singleton in Hg' as ->. done.
    - apply list.NoDup_singleton. }
  exists m, m'. split_and!; [exact E0| |exact E1|].
  - destruct (m !! facet) as [d'|] eqn:Em; [|done]. apply M0 in Em as [Em _].
    destruct Hnew. by apply (list_elem_of_fmap_2 fst _ _ Em).
  - exists d. apply M1. split; [|done]. cbn [facets]. apply elem_of_app. right. by left.
Qed.
End facets.
