(* ===== verification/LocalRM.v ===== *)
(** * The local resource manager ([snapfaas/src/resource_manager.rs]) and the VMs it hands out

    One per machine: it caches idle VMs per function, accounts for the memory VMs take, and
    evicts cached VMs when a new one needs room.  [Vec::pop] takes from the end of a list;
    evicting visits every list of the map once per round, so the order of the map does not
    matter. *)

From stdpp Require Import base tactics option list gmap strings countable.
From S2P Require Import Prelude Labels Store FsTypes Syscalls Message.

(** [Vec::pop] *)
Definition vec_pop {A} (l : list A) : option A * list A :=
  match rev l with [] => (None, []) | x :: r => (Some x, rev r) end.

(** [Vm]: [launched] is [handle.is_some()]. *)
Record Vm : Type := MkVm {
  vm_id : Z;
  vm_function : Function;
  vm_label : Buckle;
  launched : bool;
}.

Definition vm_memory (v : Vm) : Z := memory (vm_function v).

(** A VM with its handle. *)
Definition Vm_started (v : Vm) : Vm := MkVm (vm_id v) (vm_function v) (vm_label v) true.

(** [Vm::new] *)
Definition Vm_new `{LabelOps} (id : Z) (f : Function) : Vm := MkVm id f public false.

(** [ResourceInfo] *)
Record ResourceInfo : Type := MkResourceInfo {
  stats : gmap Function Z;
  info_total_mem : Z;
  info_free_mem : Z;
}.

Record ResourceManager (C : Type) : Type := MkRM {
  cache : gmap Function (list Vm);
  total_num_vms : Z;
  total_mem : Z;
  free_mem : Z;
  rm_conn : C;
}.
Arguments MkRM {C} _ _ _ _ _.
Arguments cache {C} _.
Arguments total_num_vms {C} _.
Arguments total_mem {C} _.
Arguments free_mem {C} _.
Arguments rm_conn {C} _.

Section manager.
Context {C : Type} `{!Conn C} `{!Message Request} `{L : !LabelOps}.
(** [serde_json::to_vec(&info).unwrap()] *)
Context (info_to_vec : ResourceInfo -> bytes).

Local Abbreviation M := (SM (ResourceManager C)).

Definition rm_new (machine_memory : Z) (conn : C) : ResourceManager C :=
  MkRM ∅ 0 machine_memory machine_memory conn.

Definition set_total_mem (mem : Z) (s : ResourceManager C) : ResourceManager C :=
  if bool_decide (total_mem s < mem)%Z then s
  else if bool_decide (mem = 0)%Z then s
  else MkRM (cache s) (total_num_vms s) mem mem (rm_conn s).

Definition set_cache (c : gmap Function (list Vm)) (s : ResourceManager C) :=
  MkRM c (total_num_vms s) (total_mem s) (free_mem s) (rm_conn s).
Definition set_free_mem (m : Z) (s : ResourceManager C) :=
  MkRM (cache s) (total_num_vms s) (total_mem s) m (rm_conn s).

(** The result of the write is dropped. *)
Definition update_scheduler : M unit := modify (fun s =>
  let info := MkResourceInfo ((fun l => Z.of_nat (length l)) <$> cache s) (total_mem s)
                (free_mem s) in
  MkRM (cache s) (total_num_vms s) (total_mem s) (free_mem s)
    (update_resource (info_to_vec info) (rm_conn s)).2).

Definition get_cached_vm (f : Function) : M (option Vm) :=
  ret ← (fun s =>
    match cache s !! f with
    | Some l => let '(v, l') := vec_pop l in (Val v, set_cache (<[f := l']> (cache s)) s)
    | None => (Val None, s)
    end);
  _ ← update_scheduler;
  mret ret.

(** One round over [self.cache.values_mut()]: what is popped, and what is left. *)
Definition popped (c : gmap Function (list Vm)) : gmap Function Vm :=
  omap (fun l => (vec_pop l).1) c.
Definition left_over (c : gmap Function (list Vm)) : gmap Function (list Vm) :=
  (fun l => (vec_pop l).2) <$> c.
Definition popped_memory (c : gmap Function (list Vm)) : Z :=
  map_fold (fun _ v acc => vm_memory v + acc)%Z 0%Z (popped c).

(** The [while] loop of [dummy_evict], which has no bound in the code. *)
Fixpoint evict_rounds (fuel : nat) (mem freed : Z) : M bool :=
  if bool_decide (freed < mem)%Z then
    match fuel with
    | O => nofuel
    | S fuel =>
        n ← gets (fun s => popped_memory (cache s));
        _ ← modify (fun s =>
          set_free_mem (wrap_u64 (free_mem s + n)) (set_cache (left_over (cache s)) s));
        evict_rounds fuel mem (wrap_u64 (freed + n))
    end
  else mret true.

Definition dummy_evict (fuel : nat) (mem : Z) : M bool :=
  total ← gets total_mem;
  if bool_decide (total < mem)%Z then mret false else evict_rounds fuel mem 0.

Definition try_allocate_memory (fuel : nat) (memory : Z) : M bool :=
  free ← gets free_mem;
  ok ← (if bool_decide (memory <= free)%Z then mret true else dummy_evict fuel memory);
  if (ok : bool) then
    _ ← modify (fun s => MkRM (cache s) (wrap_u64 (total_num_vms s + 1)) (total_mem s)
                           (wrap_u64 (free_mem s - memory)) (rm_conn s));
    mret true
  else mret false.

Definition new_vm (fuel : nat) (f : Function) : M (option Vm) :=
  ok ← try_allocate_memory fuel (memory f);
  id ← gets total_num_vms;
  _ ← update_scheduler;
  mret (if (ok : bool) then Some (Vm_new id f) else None).

Definition release (vm : Vm) : M unit :=
  _ ← modify (fun s =>
    set_cache
      (match cache s !! vm_function vm with
       | Some l => <[vm_function vm := l ++ [vm]]> (cache s)
       | None => <[vm_function vm := [vm]]> (cache s)
       end) s);
  update_scheduler.

Definition delete_vm (vm : Vm) : M unit :=
  _ ← modify (fun s => set_free_mem (wrap_u64 (free_mem s + vm_memory vm)) s);
  update_scheduler.
End manager.

(** ** Memory *)

Definition vms_memory (l : list Vm) : Z := foldr (fun v acc => vm_memory v + acc)%Z 0%Z l.
Definition cache_memory (c : gmap Function (list Vm)) : Z :=
  map_fold (fun _ l acc => vms_memory l + acc)%Z 0%Z c.
(** The number of VMs in the cache, which bounds the rounds of an eviction. *)
Definition cache_size (c : gmap Function (list Vm)) : nat :=
  map_fold (fun _ l acc => length l + acc)%nat O c.

Definition vm_ok (v : Vm) : Prop := (0 <= vm_memory v)%Z.
(** Cached VMs are filed under their function. *)
Definition cache_ok (c : gmap Function (list Vm)) : Prop :=
  map_Forall (fun f l => Forall (fun v => vm_function v = f /\ vm_ok v) l) c.

Lemma vec_pop_snoc {A} (l : list A) x : vec_pop (l ++ [x]) = (Some x, l).
Proof. unfold vec_pop. rewrite rev_app_distr. cbn. by rewrite rev_involutive. Qed.

Lemma vec_pop_spec {A} (l : list A) :
  match vec_pop l with
  | (None, l') => l = [] /\ l' = []
  | (Some x, l') => l = l' ++ [x]
  end.
Proof.
  unfold vec_pop. destruct (rev l) as [|x r] eqn:E.
  - split; [|done]. by rewrite <- (rev_involutive l), E.
  - by rewrite <- (rev_involutive l), E.
Qed.

Lemma vms_memory_cons v l : vms_memory (v :: l) = (vm_memory v + vms_memory l)%Z.
Proof. done. Qed.
Lemma vms_memory_nil : vms_memory [] = 0%Z.
Proof. done. Qed.
#[global] Arguments vms_memory : simpl never.

Lemma vms_memory_app l k : vms_memory (l ++ k) = (vms_memory l + vms_memory k)%Z.
Proof. induction l as [|v l IH]; cbn [app]; rewrite ?vms_memory_cons, ?vms_memory_nil; lia. Qed.

Lemma vms_memory_nonneg l : Forall vm_ok l -> (0 <= vms_memory l)%Z.
Proof.
  induction 1 as [|v l Hv _ IH]; rewrite ?vms_memory_cons, ?vms_memory_nil; unfold vm_ok in *; lia.
Qed.

Lemma cache_memory_insert c f l :
  c !! f = None -> cache_memory (<[f := l]> c) = (vms_memory l + cache_memory c)%Z.
Proof. intros H. unfold cache_memory. rewrite map_fold_insert_L; [done|intros; lia|done]. Qed.

(** Replacing one list. *)
Lemma cache_memory_update c f l :
  cache_memory (<[f := l]> c) =
    (vms_memory l - vms_memory (default [] (c !! f)) + cache_memory c)%Z.
Proof.
  destruct (c !! f) as [l0|] eqn:E; cbn [default].
  - assert (Hc : cache_memory c = (vms_memory l0 + cache_memory (delete f c))%Z).
    { rewrite <- (cache_memory_insert _ f) by apply lookup_delete_eq. by rewrite insert_delete_id. }
    rewrite <- insert_delete_eq, cache_memory_insert by apply lookup_delete_eq.
    unfold id. lia.
  - rewrite cache_memory_insert by done. cbn [default from_option].
    rewrite vms_memory_nil. lia.
Qed.

Lemma cache_memory_nonneg c : cache_ok c -> (0 <= cache_memory c)%Z.
Proof.
  induction c as [|f l c Hf IH] using map_ind; intros Hc.
  - unfold cache_memory. by rewrite map_fold_empty.
  - apply map_Forall_insert in Hc as [Hl Hc]; [|done].
    rewrite cache_memory_insert by done. specialize (IH Hc).
    assert (0 <= vms_memory l)%Z; [|lia]. apply vms_memory_nonneg.
    eapply list.Forall_impl; [exact Hl|]. by intros v [_ ?].
Qed.

(** One round moves memory from the cache to what is freed. *)
Lemma round_memory c : (popped_memory c + cache_memory (left_over c))%Z = cache_memory c.
Proof.
  induction c as [|f l c Hf IH] using map_ind.
  - done.
  - unfold popped_memory, popped, left_over in *. rewrite fmap_insert.
    rewrite !cache_memory_insert by (rewrite ?lookup_fmap, ?Hf; done).
    pose proof (vec_pop_spec l) as Hp. destruct (vec_pop l) as [[v|] l'] eqn:E; cbn [fst snd].
    + rewrite (omap_insert_Some _ c f l v) by by rewrite E.
      rewrite map_fold_insert_L; [|intros; lia|by rewrite lookup_omap, Hf].
      subst l. rewrite vms_memory_app, vms_memory_cons, vms_memory_nil. lia.
    + rewrite (omap_insert_None _ c f l) by by rewrite E.
      rewrite delete_id by by rewrite lookup_omap, Hf. destruct Hp as [-> ->]. lia.
Qed.

Lemma round_ok c : cache_ok c -> cache_ok (left_over c).
Proof.
  intros Hc f l. unfold left_over. rewrite lookup_fmap_Some. intros (l0 & <- & Hl).
  pose proof (vec_pop_spec l0) as Hp. specialize (Hc f l0 Hl). cbn in Hc.
  destruct (vec_pop l0) as [[v|] l']; cbn; [|destruct Hp as [_ ->]; constructor].
  subst l0. by apply Forall_app in Hc as [? _].
Qed.

Lemma popped_nonneg c : cache_ok c -> (0 <= popped_memory c)%Z.
Proof.
  intros Hc. unfold popped_memory.
  assert (Hp : map_Forall (fun _ v => vm_ok v) (popped c)).
  { intros f v. unfold popped. rewrite lookup_omap_Some. intros (l & Hv & Hl).
    pose proof (vec_pop_spec l) as Hp. destruct (vec_pop l) as [o l']. cbn in Hv. subst o l.
    specialize (Hc f _ Hl). cbn in Hc. apply Forall_app in Hc as [_ Hc].
    apply Forall_cons_iff in Hc as [[_ ?] _]. done. }
  revert Hp. generalize (popped c). clear c Hc. intros m.
  induction m as [|f v m Hf IH] using map_ind; intros Hm.
  - by rewrite map_fold_empty.
  - apply map_Forall_insert in Hm as [Hv Hm]; [|done].
    rewrite map_fold_insert_L; [|intros; lia|done]. specialize (IH Hm). unfold vm_ok in Hv. lia.
Qed.

Lemma cache_size_insert c f l :
  c !! f = None -> cache_size (<[f := l]> c) = (length l + cache_size c)%nat.
Proof. intros H. unfold cache_size. rewrite map_fold_insert_L; [done|intros; lia|done]. Qed.

(** A round on a cache that holds a VM takes one out. *)
Lemma round_size c :
  (cache_size (left_over c) <= cache_size c)%nat /\
  (cache_size c <> O -> (cache_size (left_over c) < cache_size c)%nat).
Proof.
  induction c as [|f l c Hf [IH1 IH2]] using map_ind; [done|].
  unfold left_over in *. rewrite fmap_insert.
  rewrite !cache_size_insert by (rewrite ?lookup_fmap, ?Hf; done).
  pose proof (vec_pop_spec l) as Hp. destruct (vec_pop l) as [[v|] l'] eqn:E; cbn [snd].
  - subst l. rewrite length_app. cbn. lia.
  - destruct Hp as [-> ->]. cbn. lia.
Qed.

Lemma cache_size_memory c : cache_size c = O -> cache_memory c = 0%Z.
Proof.
  induction c as [|f l c Hf IH] using map_ind; [done|].
  rewrite cache_size_insert, cache_memory_insert by done. destruct l; cbn; [|lia].
  intros ?. rewrite vms_memory_nil, IH; lia.
Qed.

(** ** Theorems *)

Section theorems.
Context {C : Type} `{!Conn C} `{!Message Request} `{L : !LabelOps}.
Context (info_to_vec : ResourceInfo -> bytes).
Implicit Types s : ResourceManager C.

(** The manager's own invariant, [used] being the memory of the VMs it has handed out. *)
Definition accounted (s : ResourceManager C) (used : Z) : Prop :=
  cache_ok (cache s) /\ (0 <= free_mem s)%Z /\ (0 <= used)%Z /\ (total_mem s < u64_mod)%Z /\
  (free_mem s + cache_memory (cache s) + used)%Z = total_mem s.

(** What a round of eviction does to the sums. *)
Lemma evict_rounds_run fuel mem freed s r s' used :
  accounted s used -> (0 <= freed <= free_mem s)%Z ->
  evict_rounds fuel mem freed s = (r, s') ->
  accounted s' used /\ total_mem s' = total_mem s /\ r <> Panic /\
  (forall b, r = Val b -> b = true /\ (mem <= freed + (free_mem s' - free_mem s))%Z).
Proof.
  revert freed s; induction fuel as [|fuel IH]; intros freed s Hs Hf; cbn [evict_rounds];
    case_bool_decide as Hlt;
    try (intros [= <- <-]; (split_and!; [done|done|done|intros ? [= <-]; split; [done|lia]])).
  { intros [= <- <-]. split_and!; try done. }
  rewrite (bind_step (gets _) _ s (popped_memory (cache s)) s) by done.
  set (n := popped_memory (cache s)).
  rewrite (bind_step (modify _) _ s tt _ eq_refl). set (s1 := set_free_mem _ _).
  destruct Hs as (Hc & H0 & Hu & Ht & Hsum).
  pose proof (round_memory (cache s)) as Hr. fold n in Hr.
  pose proof (popped_nonneg _ Hc) as Hn. fold n in Hn.
  pose proof (cache_memory_nonneg _ (round_ok _ Hc)) as Hl.
  assert (Hw1 : wrap_u64 (free_mem s + n) = (free_mem s + n)%Z)
    by (unfold wrap_u64; rewrite Z.mod_small; lia).
  assert (Hw2 : wrap_u64 (freed + n) = (freed + n)%Z)
    by (unfold wrap_u64; rewrite Z.mod_small; lia).
  rewrite Hw2. intros E.
  assert (Hs1 : accounted s1 used).
  { unfold accounted, s1. cbn [set_free_mem set_cache cache free_mem total_mem].
    rewrite Hw1. split_and!; [by apply round_ok|lia..]. }
  assert (Hf1 : free_mem s1 = (free_mem s + n)%Z) by exact Hw1.
  destruct (IH (freed + n)%Z s1 Hs1 ltac:(lia) E) as (Ha & Htot & Hp & Hb).
  split_and!; [done|done|done|]. intros b Hr'. destruct (Hb b Hr'). split; [done|lia].
Qed.

Lemma evict_terminates fuel mem freed s :
  cache_ok (cache s) -> (0 <= freed)%Z -> (mem <= freed + cache_memory (cache s))%Z ->
  (freed + cache_memory (cache s) < u64_mod)%Z -> (cache_size (cache s) <= fuel)%nat ->
  (evict_rounds fuel mem freed s).1 = Val true.
Proof.
  revert freed s; induction fuel as [|fuel IH]; intros freed s Hc H0 Hm Hb Hf;
    cbn [evict_rounds]; case_bool_decide as Hlt; try done.
  { rewrite cache_size_memory in Hm by lia. lia. }
  rewrite (bind_step (gets _) _ s (popped_memory (cache s)) s) by done.
  rewrite (bind_step (modify _) _ s tt _ eq_refl). set (s1 := set_free_mem _ _).
  pose proof (round_memory (cache s)) as Hr. pose proof (popped_nonneg _ Hc) as Hn.
  pose proof (cache_memory_nonneg _ (round_ok _ Hc)) as Hl.
  unfold wrap_u64 at 1. rewrite Z.mod_small by lia.
  change (cache s1) with (left_over (cache s)) in *.
  apply IH; [by apply round_ok|lia|..]; change (cache s1) with (left_over (cache s)); try lia.
  destruct (round_size (cache s)) as [_ Hlt']. destruct (decide (cache_size (cache s) = O)) as [Hz|Hz].
  - rewrite cache_size_memory in Hm by done. lia.
  - specialize (Hlt' Hz). lia.
Qed.

Lemma evict_diverges fuel mem freed s :
  cache_ok (cache s) -> (0 <= freed)%Z -> (freed + cache_memory (cache s) < mem)%Z ->
  (mem < u64_mod)%Z -> (evict_rounds fuel mem freed s).1 = NoFuel.
Proof.
  revert freed s; induction fuel as [|fuel IH]; intros freed s Hc H0 Hm Hb;
    pose proof (cache_memory_nonneg _ Hc) as Hcm; cbn [evict_rounds];
    rewrite bool_decide_true by lia; [done|].
  rewrite (bind_step (gets _) _ s (popped_memory (cache s)) s) by done.
  rewrite (bind_step (modify _) _ s tt _ eq_refl). set (s1 := set_free_mem _ _).
  pose proof (round_memory (cache s)) as Hr. pose proof (popped_nonneg _ Hc) as Hn.
  pose proof (cache_memory_nonneg _ (round_ok _ Hc)) as Hl.
  unfold wrap_u64 at 1. rewrite Z.mod_small by lia.
  apply IH; [by apply round_ok|lia| |done]. change (cache s1) with (left_over (cache s)). lia.
Qed.

Lemma try_allocate_run fuel m s used r s' :
  accounted s used -> (0 <= m)%Z -> try_allocate_memory fuel m s = (r, s') ->
  match r with
  | Val true => accounted s' (used + m)
  | _ => accounted s' used
  end /\ total_mem s' = total_mem s /\ r <> Panic.
Proof.
  intros Hs Hm. unfold try_allocate_memory.
  rewrite (bind_step (gets _) _ s (free_mem s) s) by done.
  assert (Hgo : forall s1, accounted s1 used -> (m <= free_mem s1)%Z ->
    accounted (MkRM (cache s1) (wrap_u64 (total_num_vms s1 + 1)) (total_mem s1)
      (wrap_u64 (free_mem s1 - m)) (rm_conn s1)) (used + m)).
  { intros s1 (Hc & H0 & Hu & Ht & Hsum) Hle. pose proof (cache_memory_nonneg _ Hc).
    unfold accounted. cbn [cache free_mem total_mem]. unfold wrap_u64.
    rewrite Z.mod_small by lia. split_and!; [done|lia..]. }
  case_bool_decide as Hle.
  - rewrite (bind_step (mret true) _ s true s) by done. intros [= <- <-].
    split; [by apply Hgo|done].
  - unfold dummy_evict. intros E. unfold mbind at 1, SM_bind in E.
    rewrite (bind_step (gets _) _ s (total_mem s) s) in E by done.
    case_bool_decide as Ht; [injection E as <- <-; done|].
    destruct (evict_rounds fuel m 0 s) as [re s1] eqn:Ee.
    assert (Hf0 : (0 <= 0 <= free_mem s)%Z) by (destruct Hs as (_ & ? & _); lia).
    destruct (evict_rounds_run _ _ _ _ _ _ used Hs Hf0 Ee)
      as (Ha & Htot & Hp & Hb).
    destruct re as [b| |]; [|done|by injection E as <- <-].
    destruct (Hb b eq_refl) as [-> Hfree]. injection E as <- <-.
    split; [|done]. apply Hgo; [done|]. destruct Hs as (_ & ? & _). lia.
Qed.

(** ** The manager and its clients *)

(** One operation of a worker; [out] are the VMs the workers hold. *)
Inductive rm_step : relation (ResourceManager C * list Vm) :=
  | rm_get f v s s' out :
      get_cached_vm info_to_vec f s = (Val (Some v), s') -> rm_step (s, out) (s', v :: out)
  | rm_get_none f s s' out :
      get_cached_vm info_to_vec f s = (Val None, s') -> rm_step (s, out) (s', out)
  | rm_new_vm fuel f v s s' out :
      (0 <= memory f)%Z ->
      new_vm info_to_vec fuel f s = (Val (Some v), s') -> rm_step (s, out) (s', v :: out)
  | rm_new_none fuel f s s' out :
      (0 <= memory f)%Z ->
      new_vm info_to_vec fuel f s = (Val None, s') -> rm_step (s, out) (s', out)
  | rm_release v s s' out1 out2 :
      release info_to_vec v s = (Val tt, s') -> rm_step (s, out1 ++ v :: out2) (s', out1 ++ out2)
  | rm_delete v s s' out1 out2 :
      delete_vm info_to_vec v s = (Val tt, s') ->
      rm_step (s, out1 ++ v :: out2) (s', out1 ++ out2)
  (** the worker that holds a VM launches it *)
  | rm_launch v s out1 out2 :
      rm_step (s, out1 ++ v :: out2) (s, out1 ++ Vm_started v :: out2).

Definition rm_inv (p : ResourceManager C * list Vm) : Prop :=
  accounted p.1 (vms_memory p.2) /\ Forall vm_ok p.2.

Lemma vms_memory_remove out1 v out2 :
  vms_memory (out1 ++ v :: out2) = (vm_memory v + vms_memory (out1 ++ out2))%Z.
Proof. rewrite !vms_memory_app, vms_memory_cons. lia. Qed.

Lemma cache_ok_insert c f l :
  cache_ok c -> Forall (fun v => vm_function v = f /\ vm_ok v) l -> cache_ok (<[f := l]> c).
Proof.
  intros Hc Hl f' l'. destruct (decide (f = f')) as [->|Hne].
  - rewrite lookup_insert_eq. by intros [= <-].
  - rewrite lookup_insert_ne by done. apply Hc.
Qed.

Lemma accounted_get f s used v s' :
  accounted s used -> get_cached_vm info_to_vec f s = (Val v, s') ->
  total_mem s' = total_mem s /\
  match v with
  | Some v => accounted s' (used + vm_memory v) /\ vm_ok v /\ vm_function v = f
  | None => accounted s' used
  end.
Proof.
  intros (Hc & H0 & Hu & Ht & Hsum). unfold get_cached_vm.
  destruct (cache s !! f) as [l|] eqn:El.
  - pose proof (vec_pop_spec l) as Hp. destruct (vec_pop l) as [o l'] eqn:E.
    pose proof (cache_memory_update (cache s) f l') as Hcm. rewrite El in Hcm. cbn in Hcm.
    unfold id in Hcm. pose proof (Hc f l El) as Hl. cbn in Hl.
    unfold mbind, SM_bind. rewrite El, E. cbn -[vms_memory]. intros [= <- <-].
    destruct o as [v|]; cbn [total_mem set_cache].
    + subst l. rewrite vms_memory_app, vms_memory_cons, vms_memory_nil in Hcm.
      apply Forall_app in Hl as [Hl1 Hl2]. apply Forall_cons_iff in Hl2 as [[Hf Hv] _].
      split_and!; try done. unfold accounted. cbn [cache free_mem total_mem set_cache].
      unfold vm_ok in Hv. split_and!; [by apply cache_ok_insert|lia..].
    + destruct Hp as [-> ->]. split; [done|]. unfold accounted. cbn [cache free_mem total_mem set_cache].
      split_and!; [by apply cache_ok_insert|lia..].
  - unfold mbind, SM_bind. rewrite El. intros [= <- <-]. done.
Qed.

Lemma accounted_release v s used :
  accounted s (vm_memory v + used) -> vm_ok v -> (0 <= used)%Z ->
  accounted (release info_to_vec v s).2 used /\
  total_mem (release info_to_vec v s).2 = total_mem s.
Proof.
  intros (Hc & H0 & Hu & Ht & Hsum) Hv Hpos. unfold release.
  rewrite (bind_step (modify _) _ s tt _ eq_refl). cbn [snd update_scheduler modify total_mem].
  split; [|done]. unfold accounted. cbn [snd update_scheduler modify cache free_mem total_mem set_cache].
  pose proof (cache_memory_update (cache s) (vm_function v)) as Hcm.
  destruct (cache s !! vm_function v) as [l|] eqn:El; rewrite Hcm; cbn; unfold id.
  - rewrite vms_memory_app, vms_memory_cons, vms_memory_nil. split_and!; [|lia..].
    apply cache_ok_insert; [done|]. apply Forall_app. split; [by apply (Hc _ _ El)|].
    by repeat constructor.
  - rewrite vms_memory_cons, vms_memory_nil. split_and!; [|lia..].
    apply cache_ok_insert; [done|]. by repeat constructor.
Qed.

Lemma accounted_delete v s used :
  accounted s (vm_memory v + used) -> vm_ok v -> (0 <= used)%Z ->
  accounted (delete_vm info_to_vec v s).2 used /\
  total_mem (delete_vm info_to_vec v s).2 = total_mem s.
Proof.
  intros (Hc & H0 & Hu & Ht & Hsum) Hv Hpos. unfold delete_vm.
  rewrite (bind_step (modify _) _ s tt _ eq_refl). cbn [snd update_scheduler modify total_mem].
  split; [|done]. unfold accounted.
  cbn [snd update_scheduler modify cache free_mem total_mem set_free_mem].
  pose proof (cache_memory_nonneg _ Hc). unfold vm_ok in Hv. unfold wrap_u64.
  rewrite Z.mod_small by lia. split_and!; [done|lia..].
Qed.

Lemma new_vm_run fuel f s used v s' :
  accounted s used -> (0 <= memory f)%Z -> new_vm info_to_vec fuel f s = (Val v, s') ->
  total_mem s' = total_mem s /\
  match v with
  | Some v => accounted s' (used + vm_memory v) /\ vm_function v = f
  | None => accounted s' used
  end.
Proof.
  intros Hs Hm. unfold new_vm. intros (ok & s1 & E & H)%bind_val.
  destruct (try_allocate_run _ _ _ _ _ _ Hs Hm E) as (Ha & Ht & _).
  apply bind_val in H as (id & s2 & [= <- <-] & H).
  apply bind_val in H as ([] & s3 & Hup & [= <- <-]). injection Hup as <-.
  split; [exact Ht|]. by destruct ok.
Qed.
End theorems.

Section rm_properties.
Context {C : Type} `{!Conn C} `{!Message Request} `{L : !LabelOps}.
Context (info_to_vec : ResourceInfo -> bytes).
Implicit Types s : ResourceManager C.

Lemma rm_step_inv p p' : rm_inv p -> rm_step info_to_vec p p' -> rm_inv p' /\ total_mem p'.1 = total_mem p.1.
Proof.
  intros [Ha Ho] Hs. destruct Hs as [f v s s' out E|f s s' out E|fuel f v s s' out Hm E
    |fuel f s s' out Hm E|v s s' out1 out2 E|v s s' out1 out2 E|v s out1 out2]; cbn [fst snd] in *; unfold rm_inv; cbn [fst snd].
  - destruct (accounted_get _ _ _ _ _ _ Ha E) as (Ht & Ha' & Hv & _).
    rewrite vms_memory_cons, Z.add_comm. split_and!; try done. by constructor.
  - destruct (accounted_get _ _ _ _ _ _ Ha E) as (Ht & Ha'). by split_and!.
  - destruct (new_vm_run _ _ _ _ _ _ _ Ha Hm E) as (Ht & Ha' & Hf).
    rewrite vms_memory_cons, Z.add_comm. split_and!; try done. constructor; [|done].
    unfold vm_ok, vm_memory. by rewrite Hf.
  - destruct (new_vm_run _ _ _ _ _ _ _ Ha Hm E) as (Ht & Ha'). by split_and!.
  - rewrite vms_memory_remove in Ha. apply Forall_app in Ho as [Ho1 Ho2].
    apply Forall_cons_iff in Ho2 as [Hv Ho2].
    assert (Hout : Forall vm_ok (out1 ++ out2)) by (by apply Forall_app).
    destruct (accounted_release info_to_vec v s _ Ha Hv (vms_memory_nonneg _ Hout)) as [H1 H2].
    by rewrite E in H1, H2.
  - rewrite vms_memory_remove in Ha. apply Forall_app in Ho as [Ho1 Ho2].
    apply Forall_cons_iff in Ho2 as [Hv Ho2].
    assert (Hout : Forall vm_ok (out1 ++ out2)) by (by apply Forall_app).
    destruct (accounted_delete info_to_vec v s _ Ha Hv (vms_memory_nonneg _ Hout)) as [H1 H2].
    by rewrite E in H1, H2.
  - rewrite vms_memory_remove in *. apply Forall_app in Ho as [Ho1 Ho2].
    apply Forall_cons_iff in Ho2 as [Hv Ho2]. split_and!; [done| |done].
    apply Forall_app. split; [done|]. by constructor.
Qed.

(** Memory is conserved.  In every state that workers can reach from a fresh manager by
    taking, creating, launching, releasing and deleting VMs, the free memory, the memory of the cached VMs
    and the memory of the VMs in use add up to the total, and each of them is non-negative:
    the machine is never overcommitted and no counter wraps around. *)
Theorem memory_conserved (mem : Z) (conn : C) s out :
  (0 <= mem < u64_mod)%Z ->
  rtc (rm_step info_to_vec) (rm_new mem conn, []) (s, out) ->
  (free_mem s + cache_memory (cache s) + vms_memory out)%Z = mem /\
  (0 <= free_mem s)%Z /\ (0 <= cache_memory (cache s))%Z /\ (0 <= vms_memory out)%Z /\
  total_mem s = mem.
Proof.
  intros Hm Hr.
  assert (HI : rm_inv (s, out) /\ total_mem (s, out).1 = mem).
  { apply (rtc_invariant (rm_step info_to_vec) (fun p => rm_inv p /\ total_mem p.1 = mem)
      (rm_new mem conn, []) (s, out)); [|exact Hr|].
    - intros x y [Hx Ht] Hs. destruct (rm_step_inv _ _ Hx Hs) as [Hy Ht']. split; [done|congruence].
    - split; [|done]. split; [|constructor]. unfold accounted. cbn. rewrite vms_memory_nil.
      split_and!; try lia; [|].
      + intros f l Hl. by rewrite lookup_empty in Hl.
      + unfold cache_memory. rewrite map_fold_empty. lia. }
  destruct HI as [[(Hc & H0 & Hu & Ht & Hsum) Ho] Htot]. cbn [fst snd] in *.
  pose proof (cache_memory_nonneg _ Hc). split_and!; try done; lia.
Qed.

(** C31: when a new VM can be had.  Free memory is used first.  Otherwise a request beyond the
    total memory of the machine is refused, a request for at most the memory of the cached VMs
    evicts and succeeds, and any other request never returns: the loop evicts the whole cache
    and then spins, although the comment promises [false] only beyond the total memory, and
    although free and cached memory together may suffice. *)
Theorem try_allocate_memory_spec m s used :
  accounted s used -> (0 <= m < u64_mod)%Z ->
  (forall fuel, (cache_size (cache s) <= fuel)%nat ->
     (m <= free_mem s \/ (m <= total_mem s /\ m <= cache_memory (cache s)))%Z ->
     (try_allocate_memory fuel m s).1 = Val true) /\
  (forall fuel, (free_mem s < m)%Z -> (total_mem s < m)%Z ->
     try_allocate_memory fuel m s = (Val false, s)) /\
  (forall fuel, (free_mem s < m <= total_mem s)%Z -> (cache_memory (cache s) < m)%Z ->
     (try_allocate_memory fuel m s).1 = NoFuel).
Proof.
  intros Hs Hm. assert (Hacc := Hs). destruct Hs as (Hc & H0 & Hu & Ht & Hsum).
  pose proof (cache_memory_nonneg _ Hc) as Hcm. unfold try_allocate_memory, dummy_evict.
  split_and!; intros fuel.
  - intros Hf Hor. rewrite (bind_step (gets _) _ s (free_mem s) s) by done.
    case_bool_decide as Hle; [done|]. destruct Hor as [?|[Htot Hcache]]; [lia|].
    unfold mbind at 1, SM_bind at 1. rewrite (bind_step (gets _) _ s (total_mem s) s) by done.
    rewrite bool_decide_false by lia.
    pose proof (evict_terminates fuel m 0 s Hc ltac:(lia) ltac:(lia) ltac:(lia) Hf) as He.
    destruct (evict_rounds fuel m 0 s) as [re s1]. cbn [fst] in He. by subst re.
  - intros Hfree Htot. rewrite (bind_step (gets _) _ s (free_mem s) s) by done.
    rewrite bool_decide_false by lia. unfold mbind at 1, SM_bind at 1.
    rewrite (bind_step (gets _) _ s (total_mem s) s) by done. by rewrite bool_decide_true by lia.
  - intros Hfree Hcache. rewrite (bind_step (gets _) _ s (free_mem s) s) by done.
    rewrite bool_decide_false by lia. unfold mbind at 1, SM_bind at 1.
    rewrite (bind_step (gets _) _ s (total_mem s) s) by done. rewrite bool_decide_false by lia.
    pose proof (evict_diverges fuel m 0 s Hc ltac:(lia) ltac:(lia) ltac:(lia)) as He.
    destruct (evict_rounds fuel m 0 s) as [re s1]. cbn [fst] in He. by subst re.
Qed.

(** A VM that was released is the next one to be handed out for its function, and taking
    it leaves the cache as it was before. *)
Theorem release_get (v : Vm) s l :
  cache s !! vm_function v = Some l ->
  (get_cached_vm info_to_vec (vm_function v) (release info_to_vec v s).2).1 = Val (Some v) /\
  cache (get_cached_vm info_to_vec (vm_function v) (release info_to_vec v s).2).2 = cache s.
Proof.
  intros Hl. unfold release. rewrite (bind_step (modify _) _ s tt _ eq_refl), Hl.
  cbn [snd update_scheduler modify]. unfold get_cached_vm, mbind, SM_bind.
  cbn [cache set_cache]. rewrite lookup_insert_eq, vec_pop_snoc. cbn [fst snd cache update_scheduler modify set_cache].
  split; [done|]. cbn. by rewrite insert_insert_eq, insert_id.
Qed.

(** The total memory can only be set to a positive amount within the machine's memory. *)
Theorem set_total_mem_spec (mem : Z) s :
  (0 <= mem)%Z ->
  (set_total_mem mem s = s <-> (mem = 0 \/ total_mem s < mem \/
     (mem = total_mem s /\ mem = free_mem s))%Z) /\
  (set_total_mem mem s <> s -> total_mem (set_total_mem mem s) = mem /\
     free_mem (set_total_mem mem s) = mem /\ (0 < mem <= total_mem s)%Z).
Proof.
  intros Hm. unfold set_total_mem. destruct s as [c n t f k]; cbn.
  case_bool_decide; [split; [split; [intros _; lia|done]|done]|].
  case_bool_decide; [split; [split; [intros _; lia|done]|done]|].
  split; [|intros _; split_and!; [done|done|lia|lia]]. split.
  - intros [= -> ->]. right; right. done.
  - intros [?|[?|[-> ->]]]; [lia|lia|done].
Qed.
End rm_properties.
