(* ===== verification/SchedRM.v ===== *)
(** * The global resource manager ([snapfaas/src/sched/resource_manager.rs])

    The scheduler's view of the cluster: the nodes it knows, where VMs are cached per function,
    the idle workers per node, and the connections that wait for the reply of a synchronous
    invocation.  A connection is named by a number; what is written to connections is the list
    that [remove] returns.  A [HashMap] is a finite map, and where the code takes "the first"
    value of one, the choice is the parameter [first_key]. *)

From stdpp Require Import base tactics option list gmap strings countable.
From S2P Require Import Prelude Labels Store FsTypes Syscalls Message LocalRM.

Abbreviation Node := Z.
Abbreviation Uuid := Z.

Record NodeInfo : Type := MkNodeInfo {
  node : Node;
  node_total_mem : Z;
  node_free_mem : Z;
  dirty : bool;
}.

(** [NodeInfo::new] and [set_dirty] *)
Definition NodeInfo_new (n : Node) : NodeInfo := MkNodeInfo n 0 0 false.
Definition set_dirty (v : bool) (i : NodeInfo) : NodeInfo :=
  MkNodeInfo (node i) (node_total_mem i) (node_free_mem i) v.
Definition set_mem (total free : Z) (i : NodeInfo) : NodeInfo :=
  MkNodeInfo (node i) total free (dirty i).

(** [Worker { addr, conn }]: the address is its IP. *)
Record Worker : Type := MkWorker { worker_ip : Node; worker_conn : Z }.

Record ResourceManager : Type := MkManager {
  info : gmap Node NodeInfo;
  cached : gmap Function (list (Node * Z));
  idle : gmap Node (list Worker);
  wait_list : gmap Uuid Z;
}.

Definition set_info (i : gmap Node NodeInfo) (s : ResourceManager) :=
  MkManager i (cached s) (idle s) (wait_list s).
Definition set_cached (c : gmap Function (list (Node * Z))) (s : ResourceManager) :=
  MkManager (info s) c (idle s) (wait_list s).
Definition set_idle (i : gmap Node (list Worker)) (s : ResourceManager) :=
  MkManager (info s) (cached s) i (wait_list s).
Definition set_wait_list (w : gmap Uuid Z) (s : ResourceManager) :=
  MkManager (info s) (cached s) (idle s) w.

Definition manager_new : ResourceManager := MkManager ∅ ∅ ∅ ∅.

Definition try_add_node (n : Node) (s : ResourceManager) : bool * ResourceManager :=
  match info s !! n with
  | Some _ => (false, s)
  | None => (true, set_info (<[n := NodeInfo_new n]> (info s)) s)
  end.

Definition add_idle (ip : Node) (conn : Z) (s : ResourceManager) : ResourceManager :=
  let s := (try_add_node ip s).2 in
  let worker := MkWorker ip conn in
  set_idle
    (match idle s !! ip with
     | Some v => <[ip := v ++ [worker]]> (idle s)
     | None => <[ip := [worker]]> (idle s)
     end) s.

(** The first entry of [v] whose node is not dirty, its count decremented; [None] when the
    node of an entry is unknown, where the code unwraps. *)
Fixpoint take_first (i : gmap Node NodeInfo) (v : list (Node * Z)) :
    option (option Node * list (Node * Z)) :=
  match v with
  | [] => Some (None, [])
  | (n, k) :: v =>
      match i !! n with
      | None => None
      | Some ni =>
          if dirty ni then
            '(o, v') ← take_first i v; Some (o, (n, k) :: v')
          else Some (Some n, (n, wrap_u64 (k - 1)) :: v)
      end
  end.

(** [Vec::retain(|n| n.1 != 0)] *)
Definition retain_nonzero (v : list (Node * Z)) : list (Node * Z) :=
  List.filter (fun p => negb (bool_decide (p.2 = 0%Z))) v.
(** [self.idle.retain(|_, v| !v.is_empty())] *)
Definition retain_nonempty (m : gmap Node (list Worker)) : gmap Node (list Worker) :=
  filter (fun p => p.2 <> []) m.

(** [v.pop()] on the workers of one node *)
Definition pop_idle (n : Node) (m : gmap Node (list Worker)) :
    option Worker * gmap Node (list Worker) :=
  match m !! n with
  | None => (None, m)
  | Some v => let '(w, v') := vec_pop v in (w, <[n := v']> m)
  end.

(** [swap_remove] and [position] *)
Definition swap_remove {A} (pos : nat) (v : list A) : list A :=
  match vec_pop v with
  | (Some x, v') => <[pos := x]> v'
  | (None, _) => v
  end.
Fixpoint position (n : Node) (v : list (Node * Z)) : option nat :=
  match v with
  | [] => None
  | (m, _) :: v => if decide (m = n) then Some O else S <$> position n v
  end.

Section manager.
(** The key that iterating over the idle map meets first. *)
Context (first_key : gmap Node (list Worker) -> option Node).

(** Chooses the first safe node with a cached VM and counts that VM as taken. *)
Definition take_cached (f : Function) : SM ResourceManager (option Node) := fun s =>
  match cached s !! f with
  | None => (Val None, s)
  | Some v =>
      match take_first (info s) v with
      | None => (Panic, s)
      | Some (n, v') => (Val n, set_cached (<[f := retain_nonzero v']> (cached s)) s)
      end
  end.

(** An idle worker of the given node. *)
Definition take_worker (n : Node) : SM ResourceManager (option Worker) := fun s =>
  let '(worker, m) := pop_idle n (idle s) in (Val worker, set_idle m s).

(** An idle worker of whichever node comes first. *)
Definition take_any : SM ResourceManager (option Worker) := fun s =>
  match first_key (idle s) with
  | None => (Val None, s)
  | Some n => take_worker n s
  end.

Definition mark_dirty (w : Worker) : SM ResourceManager unit := fun s =>
  match info s !! worker_ip w with
  | None => (Panic, s)
  | Some i => (Val tt, set_info (<[worker_ip w := set_dirty true i]> (info s)) s)
  end.

Definition retain_idle : SM ResourceManager unit :=
  modify (fun s => set_idle (retain_nonempty (idle s)) s).

Definition find_idle (f : Function) : SM ResourceManager (option Worker) :=
  node ← take_cached f;
  match node with
  | Some n =>
      worker ← take_worker n;
      _ ← retain_idle;
      mret worker
  | None =>
      worker ← take_any;
      _ ← match worker with Some w => mark_dirty w | None => mret tt end;
      _ ← retain_idle;
      mret worker
  end.

(** One entry of the report: the number of VMs node [n] caches for function [k]. *)
Definition set_count (n : Node) (num_cached : Z) (v : list (Node * Z)) : list (Node * Z) :=
  let v :=
    match position n v with
    | Some pos => <[pos := (n, num_cached)]> v
    | None => v ++ [(n, num_cached)]
    end in
  List.filter (fun p => bool_decide (0 < p.2)%Z) v.
Definition update_function (n : Node) (k : Function) (num_cached : Z)
    (c : gmap Function (list (Node * Z))) : gmap Function (list (Node * Z)) :=
  match c !! k with
  | Some nodes => <[k := set_count n num_cached nodes]> c
  | None => if bool_decide (0 < num_cached)%Z then <[k := [(n, num_cached)]]> c else c
  end.

(** [update]; the functions of the report are distinct, so their order does not matter. *)
Definition update (n : Node) (r : ResourceInfo) (s : ResourceManager) : ResourceManager :=
  let '(success, s) := try_add_node n s in
  let i := default (NodeInfo_new n) (info s !! n) in
  let i := if (success : bool) then i else set_dirty false i in
  let s := set_info (<[n := set_mem (info_total_mem r) (info_free_mem r) i]> (info s)) s in
  set_cached (map_fold (update_function n) (cached s) (stats r)) s.

(** [remove]: also the connections that are sent [Terminate], in order. *)
Definition remove_entry (n : Node) (v : list (Node * Z)) : list (Node * Z) :=
  match position n v with
  | Some pos => retain_nonzero (swap_remove pos v)
  | None => v
  end.
Definition remove (n : Node) (s : ResourceManager) : ResourceManager * list Z :=
  let s := set_cached (remove_entry n <$> cached s) s in
  let s := set_info (delete n (info s)) s in
  match idle s !! n with
  | Some workers => (set_idle (delete n (idle s)) s, worker_conn <$> rev workers)
  | None => (s, [])
  end.

(** [remove_all] over the nodes in the order [nodes] of the map's keys. *)
Fixpoint remove_nodes (nodes : list Node) (s : ResourceManager) : ResourceManager * list Z :=
  match nodes with
  | [] => (s, [])
  | n :: nodes =>
      let '(s, c1) := remove n s in
      let '(s, c2) := remove_nodes nodes s in
      (s, c1 ++ c2)
  end.
End manager.

(** ** Invariant *)

Definition entry_ok (i : gmap Node NodeInfo) (p : Node * Z) : Prop :=
  is_Some (i !! p.1) /\ (0 < p.2 < u64_mod)%Z.
Definition nodes_ok (i : gmap Node NodeInfo) (v : list (Node * Z)) : Prop :=
  Forall (entry_ok i) v /\ NoDup v.*1.

Record manager_ok (s : ResourceManager) : Prop := {
  cached_ok : map_Forall (fun _ v => nodes_ok (info s) v) (cached s);
  idle_ok : map_Forall (fun n l => l <> [] /\ is_Some (info s !! n) /\
              Forall (fun w => worker_ip w = n) l) (idle s);
}.

Lemma nodes_ok_mono i i' v :
  (forall n, is_Some (i !! n) -> is_Some (i' !! n)) -> nodes_ok i v -> nodes_ok i' v.
Proof.
  intros H [Hv Hn]. split; [|done]. eapply list.Forall_impl; [exact Hv|].
  intros p [? ?]. split; auto.
Qed.

Lemma filter_nodes_ok i (P : Node * Z -> bool) v :
  Forall (fun p => P p = true -> entry_ok i p) v -> NoDup v.*1 -> nodes_ok i (List.filter P v).
Proof.
  induction v as [|p v IH]; cbn; intros Hv Hn; [done|].
  apply Forall_cons_iff in Hv as [Hp Hv]. apply list.NoDup_cons in Hn as [Hx Hn].
  destruct (IH Hv Hn) as [H1 H2]. destruct (P p) eqn:E; [|done].
  split; cbn; [by constructor; [apply Hp|]|]. apply list.NoDup_cons. split; [|done].
  intros Hin. apply Hx. apply list_elem_of_fmap in Hin as (q & -> & Hq).
  apply list_elem_of_In, filter_In in Hq as [Hq _].
  by apply list_elem_of_fmap_2, list_elem_of_In.
Qed.

(** Taking one VM keeps the nodes and never meets an unknown one. *)
Lemma take_first_ok i v :
  nodes_ok i v -> exists o v', take_first i v = Some (o, v') /\ v'.*1 = v.*1 /\
    Forall (fun p => negb (bool_decide (p.2 = 0%Z)) = true -> entry_ok i p) v' /\
    (forall n, o = Some n -> exists ni, i !! n = Some ni /\ dirty ni = false).
Proof.
  intros [Hv _]. induction Hv as [|[n k] v [[ni Hn] Hk] Hv IH]; cbn [take_first].
  - exists None, []. by repeat constructor.
  - cbn [fst snd] in *. rewrite Hn. destruct (dirty ni) eqn:Hd.
    + destruct IH as (o & v' & -> & Hf & Hok & Ho). cbn. eexists _, _. split; [done|].
      split; [cbn; congruence|]. split; [|done]. constructor; [|done]. intros _. by split; [exists ni|].
    + eexists _, _. split; [done|]. split; [done|]. split; [|by intros ? [= <-]; exists ni].
      constructor.
      * cbn. intros Hnz. unfold wrap_u64 in *. rewrite Z.mod_small in * by lia.
        split; [by exists ni|]. cbn. apply negb_true_iff, bool_decide_eq_false in Hnz. lia.
      * eapply list.Forall_impl; [exact Hv|]. done.
Qed.

Lemma position_spec n v :
  match position n v with
  | Some pos => exists k, v !! pos = Some (n, k)
  | None => n ∉ v.*1
  end.
Proof.
  induction v as [|[m k] v IH]; cbn; [apply not_elem_of_nil|].
  case_decide as Hm; [subst; by exists k|]. destruct (position n v) as [pos|]; cbn; [done|].
  rewrite not_elem_of_cons. split; [congruence|done].
Qed.

Lemma swap_remove_perm {A} pos (v : list A) x :
  v !! pos = Some x -> v ≡ₚ x :: swap_remove pos v.
Proof.
  intros Hx. unfold swap_remove. pose proof (vec_pop_spec v) as Hp.
  destruct (vec_pop v) as [[y|] v'].
  - subst v. destruct (decide (pos < length v')%nat) as [Hlt|Hge].
    + rewrite lookup_app_l in Hx by done.
      rewrite Permutation_app_comm. cbn.
      rewrite <- (take_drop_middle v' pos x Hx) at 1.
      rewrite (insert_take_drop v' pos y) by done.
      rewrite <- !Permutation_middle. apply perm_swap.
    + rewrite lookup_app_r in Hx by lia.
      apply list_lookup_singleton_Some in Hx as [Hpos ->].
      rewrite list_insert_ge by lia. by rewrite Permutation_app_comm.
  - destruct Hp as [-> _]. done.
Qed.

(** ** The operations keep the invariant *)

Lemma set_count_ok i n k v :
  nodes_ok i v -> is_Some (i !! n) -> (0 <= k < u64_mod)%Z -> nodes_ok i (set_count n k v).
Proof.
  intros [Hv Hnd] Hn Hk. unfold set_count. pose proof (position_spec n v) as Hp.
  assert (Hnew : bool_decide (0 < (n, k).2)%Z = true -> entry_ok i (n, k)).
  { intros Hpos%bool_decide_eq_true. split; [done|cbn in *; lia]. }
  apply filter_nodes_ok; destruct (position n v) as [pos|].
  - apply list.Forall_insert; [|done]. by eapply list.Forall_impl; [exact Hv|].
  - apply Forall_app. split; [by eapply list.Forall_impl; [exact Hv|]|].
    by apply list.Forall_singleton.
  - destruct Hp as [k0 Hk0]. rewrite list_fmap_insert. rewrite list_insert_id; [done|].
    by rewrite list_lookup_fmap, Hk0.
  - rewrite fmap_app. apply list.NoDup_app. split; [done|]. split.
    + intros x Hx ->%list_elem_of_singleton. done.
    + cbn. apply list.NoDup_singleton.
Qed.

Lemma remove_entry_ok i n v :
  nodes_ok i v -> nodes_ok (delete n i) (remove_entry n v) /\ n ∉ (remove_entry n v).*1.
Proof.
  intros [Hv Hnd]. unfold remove_entry. pose proof (position_spec n v) as Hp.
  destruct (position n v) as [pos|].
  - destruct Hp as [k Hk]. pose proof (swap_remove_perm _ _ _ Hk) as Hperm.
    rewrite Hperm in Hv. apply Forall_cons_iff in Hv as [_ Hv].
    assert (Hnd' : NoDup ((n, k) :: swap_remove pos v).*1) by by rewrite <- Hperm.
    cbn in Hnd'. apply list.NoDup_cons in Hnd' as [Hn Hnd'].
    assert (Hok : nodes_ok (delete n i) (retain_nonzero (swap_remove pos v))).
    { apply filter_nodes_ok; [|done]. apply list.Forall_forall. intros p Hin _.
      apply list.Forall_forall with (x := p) in Hv as [Hi Hk']; [|done]. split; [|done].
      rewrite lookup_delete_ne; [done|]. intros ->. apply Hn. by apply list_elem_of_fmap_2. }
    split; [done|]. intros Hin. destruct Hok as [Hok _].
    apply list_elem_of_fmap in Hin as (p & -> & Hin).
    apply list.Forall_forall with (x := p) in Hok as [Hi _]; [|done].
    rewrite lookup_delete_eq in Hi. by destruct Hi.
  - split; [|done]. split; [|done]. apply list.Forall_forall. intros p Hin.
    apply list.Forall_forall with (x := p) in Hv as [Hi Hk']; [|done]. split; [|done].
    rewrite lookup_delete_ne; [done|]. intros ->. apply Hp. by apply list_elem_of_fmap_2.
Qed.

Lemma try_add_node_ok n s :
  manager_ok s -> manager_ok (try_add_node n s).2 /\ is_Some (info (try_add_node n s).2 !! n) /\
    idle (try_add_node n s).2 = idle s /\ cached (try_add_node n s).2 = cached s.
Proof.
  intros [Hc Hi]. unfold try_add_node. destruct (info s !! n) as [ni|] eqn:E; cbn; [by eauto|].
  split_and!; try done; [|by rewrite lookup_insert_eq].
  assert (Hmono : forall m, is_Some (info s !! m) -> is_Some (<[n := NodeInfo_new n]> (info s) !! m)).
  { intros m. destruct (decide (n = m)) as [->|Hne]; [by rewrite lookup_insert_eq|].
    by rewrite lookup_insert_ne. }
  split; cbn.
  - intros f v Hv. eapply nodes_ok_mono; [exact Hmono|]. by apply Hc in Hv.
  - intros m l Hl. apply Hi in Hl as (? & ? & ?). auto.
Qed.

Lemma add_idle_ok ip conn s : manager_ok s -> manager_ok (add_idle ip conn s).
Proof.
  intros Hs. unfold add_idle. destruct (try_add_node_ok ip s Hs) as ([Hc Hi] & Hn & _).
  set (s1 := (try_add_node ip s).2) in *. split; cbn; [done|].
  intros m l. destruct (idle s1 !! ip) as [v|] eqn:E.
  - destruct (decide (ip = m)) as [->|Hne].
    + rewrite lookup_insert_eq. intros [= <-]. apply Hi in E as (_ & _ & Hf).
      split_and!; [by destruct v|done|]. apply Forall_app. split; [done|]. by repeat constructor.
    + rewrite lookup_insert_ne by done. apply Hi.
  - destruct (decide (ip = m)) as [->|Hne].
    + rewrite lookup_insert_eq. intros [= <-]. split_and!; [done|done|]. by repeat constructor.
    + rewrite lookup_insert_ne by done. apply Hi.
Qed.

Lemma update_ok n r s :
  manager_ok s -> map_Forall (fun _ k => 0 <= k < u64_mod)%Z (stats r) ->
  manager_ok (update n r s).
Proof.
  intros Hs Hr. unfold update. destruct (try_add_node_ok n s Hs) as ([Hc Hi] & Hn & _).
  destruct (try_add_node n s) as [b s1]. cbn [snd] in *. cbn zeta.
  set (ni := set_mem _ _ _).
  assert (Hmono : forall m, is_Some (info s1 !! m) -> is_Some (<[n := ni]> (info s1) !! m)).
  { intros m. destruct (decide (n = m)) as [->|Hne]; [by rewrite lookup_insert_eq|].
    by rewrite lookup_insert_ne. }
  split; cbn [info cached idle set_cached set_info].
  - apply (map_fold_weak_ind (fun c (st : gmap Function Z) =>
      map_Forall (fun _ k => 0 <= k < u64_mod)%Z st ->
      map_Forall (fun _ v => nodes_ok (<[n := ni]> (info s1)) v) c)
      (update_function n) (cached s1)); [| |exact Hr].
    + intros _ f v Hv. eapply nodes_ok_mono; [exact Hmono|]. by apply Hc in Hv.
    + intros f k st c Hf IH Hst. apply map_Forall_insert in Hst as [Hk Hst]; [|done].
      specialize (IH Hst). unfold update_function. destruct (c !! f) as [v|] eqn:Ev.
      * apply map_Forall_insert_2; [|done]. apply set_count_ok; [by apply IH in Ev| |done].
        by apply Hmono.
      * case_bool_decide; [|done]. apply map_Forall_insert_2; [|done].
        split; [|apply list.NoDup_singleton]. repeat constructor; cbn; [by apply Hmono|lia..].
  - intros m l Hl. apply Hi in Hl as (? & ? & ?). auto.
Qed.

Lemma remove_ok n s : manager_ok s -> manager_ok (remove n s).1.
Proof.
  intros [Hc Hi]. unfold remove. cbn zeta. cbn [idle set_info set_cached].
  assert (Hc' : map_Forall (fun _ v => nodes_ok (delete n (info s)) v) (remove_entry n <$> cached s)).
  { intros f v. rewrite lookup_fmap_Some. intros (v0 & <- & Hv).
    apply remove_entry_ok. by apply Hc in Hv. }
  destruct (idle s !! n) as [ws|] eqn:E; split; cbn; try done.
  - intros m l [Hne Hl]%lookup_delete_Some. apply Hi in Hl as (? & ? & ?).
    rewrite lookup_delete_ne by done. done.
  - intros m l Hl. destruct (decide (n = m)) as [->|Hne]; [congruence|].
    apply Hi in Hl as (? & ? & ?). rewrite lookup_delete_ne by done. done.
Qed.

(** Under the invariant nothing is retained away but what just became empty. *)
Lemma retain_nonempty_id (m : gmap Node (list Worker)) :
  map_Forall (fun _ l => l <> []) m -> retain_nonempty m = m.
Proof.
  intros H. unfold retain_nonempty. apply map_filter_id. intros n l Hl. by apply H in Hl.
Qed.
Lemma retain_nonempty_lookup m n :
  retain_nonempty m !! n = match m !! n with Some [] => None | o => o end.
Proof.
  unfold retain_nonempty. rewrite map_lookup_filter.
  destruct (m !! n) as [[|w l]|]; cbn; [|by rewrite option_guard_True|done].
  by rewrite option_guard_False by auto.
Qed.

Lemma idle_ok_pop s n l w :
  manager_ok s -> idle s !! n = Some (l ++ [w]) ->
  map_Forall (fun m l => l <> [] /\ is_Some (info s !! m) /\ Forall (fun w => worker_ip w = m) l)
    (retain_nonempty (<[n := l]> (idle s))) /\ worker_ip w = n /\ is_Some (info s !! n).
Proof.
  intros [_ Hi] Hl. pose proof (Hi _ _ Hl) as (_ & Hn & Hf). apply Forall_app in Hf as [Hf Hw].
  split; [|split; [by apply Forall_cons_iff in Hw as [? _]|done]].
  intros m l'. rewrite retain_nonempty_lookup. destruct (decide (n = m)) as [->|Hne].
  - rewrite lookup_insert_eq. destruct l; [done|]. by intros [= <-].
  - rewrite lookup_insert_ne by done. intros Hm.
    destruct (idle s !! m) as [[|]|] eqn:E; try done. injection Hm as <-. by apply Hi in E.
Qed.

Section find.
Context (first_key : gmap Node (list Worker) -> option Node).
Hypothesis first_key_some : forall m n, first_key m = Some n -> is_Some (m !! n).

(** What [find_idle] hands out, and what it leaves. *)
Definition handed_out (s s' : ResourceManager) (o : option Worker) : Prop :=
  match o with
  | Some w => exists l, idle s !! worker_ip w = Some (l ++ [w]) /\
      idle s' = retain_nonempty (<[worker_ip w := l]> (idle s))
  | None => idle s' = idle s
  end.

Lemma take_cached_ok f s :
  manager_ok s -> exists o s', take_cached f s = (Val o, s') /\ manager_ok s' /\
    info s' = info s /\ idle s' = idle s /\ wait_list s' = wait_list s /\
    (forall n, o = Some n -> exists ni, info s !! n = Some ni /\ dirty ni = false).
Proof.
  intros [Hc Hi]. unfold take_cached. destruct (cached s !! f) as [v|] eqn:Ev;
    [|by eexists _, _; split_and!].
  pose proof (Hc _ _ Ev) as Hv. cbn in Hv.
  destruct (take_first_ok _ _ Hv) as (o & v' & -> & Hf & Hok & Ho).
  eexists _, _. split_and!; try done. split; cbn; [|done].
  apply map_Forall_insert_2; [|done]. apply filter_nodes_ok; [done|]. rewrite Hf. apply Hv.
Qed.

Lemma pop_idle_spec n m :
  map_Forall (fun _ l => l <> []) m ->
  match pop_idle n m with
  | (Some w, m') => exists l, m !! n = Some (l ++ [w]) /\ m' = <[n := l]> m
  | (None, m') => m !! n = None /\ m' = m
  end.
Proof.
  intros Hm. unfold pop_idle. destruct (m !! n) as [v|] eqn:E; [|done].
  pose proof (vec_pop_spec v) as Hp. destruct (vec_pop v) as [[w|] v'].
  - subst v. by exists v'.
  - destruct Hp as [-> ->]. by apply Hm in E.
Qed.

Lemma find_idle_run f s :
  manager_ok s -> exists o s', find_idle first_key f s = (Val o, s') /\ manager_ok s' /\
    handed_out s s' o /\ wait_list s' = wait_list s.
Proof.
  intros Hs. destruct (take_cached_ok f s Hs) as (o & s1 & E & Hs1 & Hinf & Hidl & Hwl & Ho).
  unfold find_idle. rewrite (bind_step _ _ _ _ _ E).
  assert (Hne : map_Forall (fun _ l => l <> []) (idle s1)).
  { intros n l Hl. by apply (idle_ok _ Hs1) in Hl as [? _]. }
  destruct o as [n|].
  - unfold take_worker, mbind, SM_bind. pose proof (pop_idle_spec n _ Hne) as Hp.
    destruct (pop_idle n (idle s1)) as [[w|] m].
    + destruct Hp as (l & Hl & ->). destruct (idle_ok_pop _ _ _ _ Hs1 Hl) as (Hi' & Hw & _).
      eexists _, _; split; [done|]. cbn. split; [split; [apply Hs1|done]|].
      split; [|done]. exists l. rewrite Hw, <- Hidl. done.
    + destruct Hp as [Hn ->]. eexists _, _; split; [done|]. cbn.
      rewrite retain_nonempty_id by done. split; [|by rewrite Hidl].
      split; apply Hs1.
  - unfold take_any. destruct (first_key (idle s1)) as [n|] eqn:Ek.
    + unfold take_worker. pose proof (pop_idle_spec n _ Hne) as Hp.
      destruct (first_key_some _ _ Ek) as [v Hv].
      destruct (pop_idle n (idle s1)) as [[w|] m] eqn:Epop;
        [|destruct Hp as [Hp _]; congruence].
      destruct Hp as (l & Hl & ->). destruct (idle_ok_pop _ _ _ _ Hs1 Hl) as (Hi' & Hw & [ni Hni]).
      unfold mbind, SM_bind. rewrite Ek, Epop. unfold mark_dirty. cbn [info set_idle].
      rewrite Hw, Hni. eexists _, _; split; [done|]. cbn.
      assert (Hmono : forall m, is_Some (info s1 !! m) ->
        is_Some (<[n := set_dirty true ni]> (info s1) !! m)).
      { intros m. destruct (decide (n = m)) as [->|Hnm]; [by rewrite lookup_insert_eq|].
        by rewrite lookup_insert_ne. }
      split; [split; cbn|].
      * intros g v' Hg. eapply nodes_ok_mono; [exact Hmono|]. by apply (cached_ok _ Hs1) in Hg.
      * intros m' l' Hl'. apply Hi' in Hl' as (? & ? & ?). auto.
      * split; [|done]. exists l. rewrite Hw, <- Hidl. done.
    + unfold mbind, SM_bind. rewrite Ek. eexists _, _; split; [done|]. cbn.
      rewrite retain_nonempty_id by done. split; [|by rewrite Hidl]. split; apply Hs1.
Qed.
End find.

(** ** Theorems *)

Section manager_properties.
Context (first_key : gmap Node (list Worker) -> option Node).
Hypothesis first_key_some : forall m n, first_key m = Some n -> is_Some (m !! n).
Hypothesis first_key_none : forall m, first_key m = None -> m = ∅.

(** What the scheduler's threads do to the manager, each under its lock. *)
Inductive manager_step : relation ResourceManager :=
  | step_add_idle ip conn s : manager_step s (add_idle ip conn s)
  | step_find_idle f s o s' : find_idle first_key f s = (o, s') -> manager_step s s'
  | step_update n r s :
      map_Forall (fun _ k => 0 <= k < u64_mod)%Z (stats r) -> manager_step s (update n r s)
  | step_remove n s : manager_step s (remove n s).1
  | step_wait uuid conn s : manager_step s (set_wait_list (<[uuid := conn]> (wait_list s)) s)
  | step_reply uuid s : manager_step s (set_wait_list (delete uuid (wait_list s)) s).

Lemma manager_step_ok s s' : manager_ok s -> manager_step s s' -> manager_ok s'.
Proof.
  intros Hs Hst. destruct Hst as [ip conn s|f s o s' E|n r s Hr|n s|u c s|u s].
  - by apply add_idle_ok.
  - destruct (find_idle_run first_key first_key_some f s Hs)
      as (o' & s1 & E' & Hok & _). congruence.
  - by apply update_ok.
  - by apply remove_ok.
  - destruct Hs. by split.
  - destruct Hs. by split.
Qed.

(** The scheduler never panics on its own bookkeeping: in every state its threads can
    reach, choosing a worker for a function succeeds (with or without a worker), because every
    node with cached VMs or idle workers is known, counts of cached VMs are positive and no
    list of idle workers is empty. *)
Theorem find_idle_never_panics f s :
  rtc manager_step manager_new s ->
  manager_ok s /\ exists o, (find_idle first_key f s).1 = Val o.
Proof.
  intros Hr. assert (Hs : manager_ok s).
  { eapply (rtc_invariant manager_step manager_ok); [intros x y; apply manager_step_ok|exact Hr|].
    split; apply map_Forall_empty. }
  split; [done|].
  destruct (find_idle_run first_key first_key_some f s Hs) as (o & s' & -> & _).
  by exists o.
Qed.

(** The worker handed out was idle on its node, it is taken off that node's list and
    nothing else changes among the idle workers, so no worker is given two tasks at once; and
    when no safe node has a VM cached for the function, a worker is found whenever one is
    idle anywhere. *)
Theorem find_idle_hands_out f s :
  manager_ok s ->
  exists o s', find_idle first_key f s = (Val o, s') /\ manager_ok s' /\ handed_out s s' o /\
    ((take_cached f s).1 = Val None -> idle s <> ∅ -> is_Some o).
Proof.
  intros Hs. destruct (find_idle_run first_key first_key_some f s Hs)
    as (o & s' & E & Hok & Hh & _).
  exists o, s'. split_and!; try done. intros Hc Hne.
  destruct (take_cached_ok f s Hs) as (oc & s1 & E1 & Hs1 & Hinf & Hidl & _).
  rewrite E1 in Hc. cbn in Hc. injection Hc as ->.
  unfold find_idle in E. rewrite (bind_step _ _ _ _ _ E1) in E. unfold take_any in E.
  rewrite <- Hidl in Hne.
  destruct (first_key (idle s1)) as [n|] eqn:Ek; [|by destruct Hne; apply first_key_none].
  destruct (first_key_some _ _ Ek) as [v Hv].
  assert (Hnonempty : map_Forall (fun _ l => l <> []) (idle s1)).
  { intros m l Hl. by apply (idle_ok _ Hs1) in Hl as [? _]. }
  pose proof (pop_idle_spec n _ Hnonempty) as Hp. unfold take_worker in E.
  destruct (pop_idle n (idle s1)) as [[w|] m] eqn:Epop; [|destruct Hp; congruence].
  unfold mbind in E. unfold SM_bind at 1 in E. rewrite Ek, Epop in E.
  unfold SM_bind in E. destruct (mark_dirty w (set_idle m s1)) as [[[]| |] s2]; [|done..].
  cbn in E. injection E as <- _. by eexists.
Qed.

(** A safe node with a VM cached for the function but no idle worker blocks the function:
    no worker is returned, although workers may be idle on other nodes, and the count of that
    node's cached VMs is decremented all the same; the comment says that a cached VM always
    implies an idle worker. *)
Theorem find_idle_blocked f s n k ni rest :
  manager_ok s -> cached s !! f = Some ((n, k) :: rest) ->
  info s !! n = Some ni -> dirty ni = false -> idle s !! n = None ->
  exists s', find_idle first_key f s = (Val None, s') /\ idle s' = idle s /\
    cached s' = <[f := retain_nonzero ((n, wrap_u64 (k - 1)) :: rest)]> (cached s).
Proof.
  intros Hs Hc Hn Hd Hi. unfold find_idle, take_cached, mbind, SM_bind.
  rewrite Hc. cbn [take_first]. rewrite Hn, Hd. unfold take_worker, pop_idle.
  cbn [idle set_cached]. rewrite Hi. eexists; split; [done|]. cbn.
  rewrite retain_nonempty_id; [done|]. intros m l Hl. by apply (idle_ok _ Hs) in Hl as [? _].
Qed.

(** A node that leaves is forgotten: it is no longer known, no function has VMs cached on
    it, none of its workers is idle, and each of its idle workers is told to terminate. *)
Theorem remove_forgets n s :
  manager_ok s ->
  let s' := (remove n s).1 in
  manager_ok s' /\ info s' !! n = None /\ idle s' !! n = None /\
  map_Forall (fun _ v => n ∉ v.*1) (cached s') /\
  (remove n s).2 ≡ₚ worker_conn <$> default [] (idle s !! n).
Proof.
  intros Hs. cbn zeta. split; [by apply remove_ok|]. unfold remove. cbn zeta.
  cbn [idle set_info set_cached].
  assert (Hc : map_Forall (fun _ v => n ∉ v.*1) (remove_entry n <$> cached s)).
  { intros f v. rewrite lookup_fmap_Some. intros (v0 & <- & Hv).
    apply (cached_ok _ Hs) in Hv. eapply remove_entry_ok, Hv. }
  destruct (idle s !! n) as [ws|] eqn:E; cbn [fst snd].
  - split_and!; cbn; try done; [apply lookup_delete_eq..|].
    apply fmap_Permutation. symmetry. apply Permutation_rev.
  - split_and!; cbn; try done. apply lookup_delete_eq.
Qed.

(** A report changes the entry of each function by itself. *)
Lemma update_fold n c0 (st : gmap Function Z) f :
  map_fold (update_function n) c0 st !! f =
    match st !! f with Some k => update_function n f k c0 !! f | None => c0 !! f end.
Proof.
  revert f. apply (map_fold_weak_ind (fun c (st : gmap Function Z) => forall f, c !! f =
    match st !! f with Some k => update_function n f k c0 !! f | None => c0 !! f end)).
  - intros f. by rewrite lookup_empty.
  - intros g k st' c Hg IH f. destruct (decide (g = f)) as [->|Hne].
    + rewrite lookup_insert_eq. specialize (IH f). rewrite Hg in IH.
      unfold update_function. rewrite IH. destruct (c0 !! f) eqn:Ec.
      * by rewrite !lookup_insert_eq.
      * case_bool_decide; [by rewrite !lookup_insert_eq|]. by rewrite IH, Ec.
    + rewrite lookup_insert_ne by done. rewrite <- IH. unfold update_function.
      destruct (c !! g); [by rewrite lookup_insert_ne|].
      case_bool_decide; [by rewrite lookup_insert_ne|done].
Qed.

(** The count of a node: set when it is positive, and none when it is 0. *)
Lemma set_count_present n k v : (0 < k)%Z -> (n, k) ∈ set_count n k v.
Proof.
  intros Hk. unfold set_count.
  apply list_elem_of_In, filter_In. split; [|by apply bool_decide_eq_true].
  apply list_elem_of_In. pose proof (position_spec n v) as Hp. destruct (position n v) as [pos|].
  - destruct Hp as [k0 Hk0]. apply list_elem_of_lookup. exists pos.
    apply list_lookup_insert_eq. by eapply lookup_lt_Some.
  - apply elem_of_app. right. by left.
Qed.
Lemma set_count_absent n v : NoDup v.*1 -> n ∉ (set_count n 0 v).*1.
Proof.
  intros Hnd ([m k] & -> & Hin)%list_elem_of_fmap. unfold set_count in Hin. cbn in Hin, Hnd |- *.
  apply list_elem_of_In, filter_In in Hin as [Hin Hk]. apply bool_decide_eq_true in Hk. cbn in Hk.
  apply list_elem_of_In in Hin.
  pose proof (position_spec m v) as Hp. destruct (position m v) as [pos|].
  - destruct Hp as [k0 Hk0]. apply list_elem_of_lookup in Hin as [j Hj].
    assert (Hj1 : (<[pos := (m, 0%Z)]> v).*1 = v.*1).
    { rewrite list_fmap_insert, list_insert_id; [done|]. by rewrite list_lookup_fmap, Hk0. }
    assert (j = pos) as ->.
    { eapply (list.NoDup_lookup v.*1 j pos m Hnd).
      - rewrite <- Hj1, list_lookup_fmap. by setoid_rewrite Hj.
      - by rewrite list_lookup_fmap, Hk0. }
    rewrite list_lookup_insert_eq in Hj by by eapply lookup_lt_Some. injection Hj as Hj. lia.
  - apply elem_of_app in Hin as [Hin|Hin].
    + apply Hp. by apply (list_elem_of_fmap_2 fst _ _ Hin).
    + apply list_elem_of_singleton in Hin. injection Hin as Hin. lia.
Qed.

(** After a report the node is known and trusted, has the memory it reported, and counts
    as many cached VMs for each function of the report as it said. *)
Theorem update_reports n r s :
  manager_ok s -> map_Forall (fun _ k => 0 <= k < u64_mod)%Z (stats r) ->
  let s' := update n r s in
  (exists ni, info s' !! n = Some ni /\ dirty ni = false /\
     node_total_mem ni = info_total_mem r /\ node_free_mem ni = info_free_mem r) /\
  (forall f k, stats r !! f = Some k -> (0 < k)%Z ->
     exists v, cached s' !! f = Some v /\ (n, k) ∈ v) /\
  (forall f v, stats r !! f = Some 0%Z -> cached s' !! f = Some v -> n ∉ v.*1) /\
  (forall f, stats r !! f = None -> cached s' !! f = cached s !! f).
Proof.
  intros Hs Hr. cbn zeta. unfold update. destruct (try_add_node_ok n s Hs) as ([Hc Hi] & Hn & _ & Hcs).
  destruct (try_add_node n s) as [b s1] eqn:Et. cbn [snd] in *. cbn zeta.
  cbn [info cached set_cached set_info]. split.
  { eexists. rewrite lookup_insert_eq. split; [done|]. destruct Hn as [ni Hni]. rewrite Hni. cbn.
    unfold id. destruct b; [|done]. unfold try_add_node in Et.
    destruct (info s !! n); [done|]. injection Et as <-. cbn in Hni.
    rewrite lookup_insert_eq in Hni. by injection Hni as <-. }
  split_and!.
  - intros f k Hf Hk. rewrite update_fold, Hf. unfold update_function.
    destruct (cached s1 !! f) as [v|].
    + rewrite lookup_insert_eq. eexists; split; [done|]. by apply set_count_present.
    + rewrite bool_decide_true, lookup_insert_eq by done. eexists; split; [done|]. by left.
  - intros f v Hf. rewrite update_fold, Hf. unfold update_function.
    destruct (cached s1 !! f) as [v0|] eqn:Ev; [|by rewrite bool_decide_false, Ev by lia].
    rewrite lookup_insert_eq. intros [= <-]. apply set_count_absent. by apply (Hc _ _ Ev).
  - intros f Hf. by rewrite update_fold, Hf, Hcs.
Qed.
End manager_properties.
