(* ===== verification/Scheduler.v ===== *)
(** * The scheduler ([snapfaas/src/sched/rpc_server.rs] and [schedule] of [sched/mod.rs])

    One thread per connection answers requests ([serve_request]); one thread takes tasks off a
    bounded queue and gives each to an idle worker ([schedule_one]).  They share the queue and
    the resource manager, each under its own lock, so the unit of interleaving is a step of
    [sched_step]: the handler of [LabeledInvoke] is two of them, [enqueue] and [register], and
    the retry loop of the scheduling thread is one per [attempt].

    The scheduling thread waits on a condition variable when it finds no worker: it is [parked]
    then, and takes no step until it is woken.  [GetTask] and [UpdateResource] notify it;
    besides, a wait may end without a notification, as the standard library says of [Condvar],
    and a notification may come some time after the lock has been released: [step_wake].

    What is written to connections is kept, in order, in [sent]. *)

From stdpp Require Import base tactics option list gmap strings countable.
From S2P Require Import Prelude Labels Store FsTypes Syscalls Message LocalRM SchedRM.

(** [Uuid::to_string] and [Uuid::parse_str]; the nil uuid is 0. *)
Class UuidOps := {
  uuid_to_string : Uuid -> string;
  uuid_parse : string -> option Uuid;
}.
Class UuidLaws {U : UuidOps} : Prop := {
  uuid_parse_to_string u : uuid_parse (uuid_to_string u) = Some u;
}.

Inductive Task : Type :=
  | Invoke (u : Uuid) (li : LabeledInvoke)
  | TerminateTask.

Inductive sent_message : Type :=
  | SentResponse (r : Response)
  | SentReturn (r : TaskReturn).

Record Scheduler : Type := MkScheduler {
  manager : ResourceManager;
  queue : list Task;
  capacity : nat;
  sent : list (Z * sent_message);
  (** the scheduling thread is in [cvar.wait] *)
  parked : bool;
}.

Definition set_manager (m : ResourceManager) (s : Scheduler) :=
  MkScheduler m (queue s) (capacity s) (sent s) (parked s).
Definition set_queue (q : list Task) (s : Scheduler) :=
  MkScheduler (manager s) q (capacity s) (sent s) (parked s).
Definition write_to (conn : Z) (m : sent_message) (s : Scheduler) :=
  MkScheduler (manager s) (queue s) (capacity s) (sent s ++ [(conn, m)]) (parked s).
Definition set_parked (b : bool) (s : Scheduler) :=
  MkScheduler (manager s) (queue s) (capacity s) (sent s) b.

Definition on_manager {A} (m : SM ResourceManager A) : SM Scheduler A :=
  zoom manager set_manager m.

Section scheduler.
Context `{U : UuidOps} `{L : LabelOps}.
Context (first_key : gmap Node (list Worker) -> option Node).
(** [serde_json::from_slice::<ResourceInfo>] *)
Context (info_from_slice : bytes -> option ResourceInfo).
(** Whether a write to a connection succeeds. *)
Context (write_ok : Z -> bool).

Local Abbreviation M := (SM Scheduler).

(** ** The request handlers of [RpcServer::serve] *)

(** [let _ = message::write(stream, res)] *)
Definition send_to (conn : Z) (m : sent_message) : M unit :=
  modify (fun s => if write_ok conn then write_to conn m s else s).

Definition handle_ping (conn : Z) : M unit :=
  send_to conn (SentResponse (MkResponse (Some Pong))).

(** [cvar.notify_one()], which does nothing when nobody waits. *)
Definition notify_one : M unit := modify (set_parked false).

Definition handle_get_task (ip : Node) (conn : Z) : M unit :=
  _ ← modify (fun s => set_manager (add_idle ip conn (manager s)) s);
  notify_one.

Definition handle_finish_task (task_id : string) (r : option TaskReturn) : M unit :=
  r ← unwrap r;
  match uuid_parse task_id with
  | Some u =>
      if bool_decide (u = 0%Z) then mret tt
      else
        conn ← gets (fun s => wait_list (manager s) !! u);
        match conn with
        | Some c =>
            _ ← modify (fun s =>
              set_manager (set_wait_list (delete u (wait_list (manager s))) (manager s)) s);
            send_to c (SentReturn r)
        | None => mret tt
        end
  | None => mret tt
  end.

(** The answer to an invocation that finds the queue full; the label is that of a thread which
    has done nothing. *)
Definition queue_full : TaskReturn :=
  sched.MkTaskReturn (sched.code sched.QueueFull) None (Some (buckle_from public)).

(** [queue_tx.try_send]; [true] when the task is in the queue. *)
Definition enqueue (u : Uuid) (conn : Z) (li : LabeledInvoke) : M bool :=
  full ← gets (fun s => bool_decide (capacity s <= length (queue s))%nat);
  if (full : bool) then
    _ ← send_to conn (SentReturn queue_full);
    mret false
  else
    _ ← modify (fun s => set_queue (queue s ++ [Invoke u li]) s);
    mret true.

(** [wait_list.insert] *)
Definition register (u : Uuid) (conn : Z) : M unit :=
  modify (fun s =>
    set_manager (set_wait_list (<[u := conn]> (wait_list (manager s))) (manager s)) s).

(** The whole handler, as one thread runs it; [u] is the fresh [Uuid::new_v4()]. *)
Definition handle_labeled_invoke (u : Uuid) (conn : Z) (li : LabeledInvoke) : M unit :=
  ok ← enqueue u conn li;
  if (ok : bool) && sched.li_sync li then register u conn else mret tt.

Definition handle_update_resource (ip : Node) (i : bytes) : M unit :=
  _ ← match info_from_slice i with
      | Some i => modify (fun s => set_manager (update ip i (manager s)) s)
      | None => mret tt
      end;
  notify_one.

Definition terminate_all (conns : list Z) (s : Scheduler) : Scheduler :=
  foldl (fun s c => if write_ok c then write_to c (SentResponse (MkResponse (Some Terminate))) s
                    else s) s conns.

Definition handle_drop_resource (ip : Node) : M unit :=
  modify (fun s =>
    let '(m, conns) := remove ip (manager s) in terminate_all conns (set_manager m s)).

(** One turn of the [while let] loop of [serve]; [false] ends the loop. *)
Definition serve_request (u : Uuid) (ip : Node) (conn : Z) (req : Request) : M bool :=
  match request_of req with
  | Some Ping => _ ← handle_ping conn; mret true
  | Some (GetTask _) => _ ← handle_get_task ip conn; mret true
  | Some (FinishTask task_id r) => _ ← handle_finish_task task_id r; mret true
  | Some (LabeledInvokeReq li) => _ ← handle_labeled_invoke u conn li; mret true
  | Some (UpdateResource i) => _ ← handle_update_resource ip i; mret true
  | Some DropResource => _ ← handle_drop_resource ip; mret false
  | Some TerminateAll | None => mret true
  end.

(** ** The scheduling thread *)

(** The message that gives task [u] to a worker. *)
Definition process_task (u : Uuid) (li : LabeledInvoke) : sent_message :=
  SentResponse (MkResponse (Some (ProcessTask (uuid_to_string u) (Some li)))).

(** One round of the retry loop: find an idle worker and write the task to it.  [None]: no
    worker, the thread is parked; [false]: the write failed, the worker is dropped and the loop
    goes around. *)
Definition attempt (task : Task) : M (option (Worker * bool)) :=
  match task with
  | TerminateTask => panic
  | Invoke u li =>
      f ← unwrap (sched.li_function li);
      w ← on_manager (find_idle first_key (function_from_message f));
      match w with
      | None => _ ← modify (set_parked true); mret None
      | Some w =>
          if write_ok (worker_conn w) then
            _ ← modify (write_to (worker_conn w) (process_task u li));
            mret (Some (w, true))
          else mret (Some (w, false))
      end
  end.

(** The retry loop as the thread runs it by itself; [None]: it has parked. *)
Fixpoint dispatch (fuel : nat) (task : Task) : M (option Worker) :=
  match fuel with
  | O => nofuel
  | S fuel =>
      r ← attempt task;
      match r with
      | None => mret None
      | Some (w, true) => mret (Some w)
      | Some (_, false) => dispatch fuel task
      end
  end.

(** ** The whole system

    Beside the scheduler's state, what the theorems speak about: [current] is the task the
    scheduling thread holds, [accepted] the tasks that entered the queue and [started] those
    given to a worker, in order; [origin] is who asked for each task, [unregistered] the
    handlers that are between [enqueue] and [register]; [outcomes] are the tasks reported as
    finished with their results, and [replied] is everything that was written to a connection
    when a task was reported, with the task. *)

Record System : Type := MkSystem {
  state : Scheduler;
  current : option Task;
  accepted : list Task;
  started : list Task;
  origin : gmap Uuid Z;
  unregistered : gmap Uuid Z;
  outcomes : list (Uuid * TaskReturn);
  replied : list (Uuid * (Z * sent_message));
}.
Definition finished (y : System) : list Uuid := (outcomes y).*1.

Definition with_state (s : Scheduler) (y : System) : System :=
  MkSystem s (current y) (accepted y) (started y) (origin y) (unregistered y) (outcomes y)
    (replied y).

(** What a step has written, under the task [u]. *)
Definition passed_on (u : Uuid) (s s' : Scheduler) : list (Uuid * (Z * sent_message)) :=
  (fun p => (u, p)) <$> skipn (length (sent s)) (sent s').

Inductive sched_step : relation System :=
  | step_ping conn y :
      sched_step y (with_state (handle_ping conn (state y)).2 y)
  | step_get_task ip conn y :
      sched_step y (with_state (handle_get_task ip conn (state y)).2 y)
  | step_update_resource ip i y :
      sched_step y (with_state (handle_update_resource ip i (state y)).2 y)
  | step_drop_resource ip y :
      sched_step y (with_state (handle_drop_resource ip (state y)).2 y)
  | step_enqueue u conn li y s' :
      u <> 0%Z -> origin y !! u = None ->
      enqueue u conn li (state y) = (Val true, s') ->
      sched_step y
        (MkSystem s' (current y) (accepted y ++ [Invoke u li]) (started y)
           (<[u := conn]> (origin y))
           (if sched.li_sync li then <[u := conn]> (unregistered y) else unregistered y)
           (outcomes y) (replied y))
  | step_queue_full u conn li y s' :
      enqueue u conn li (state y) = (Val false, s') -> sched_step y (with_state s' y)
  | step_register u conn y :
      unregistered y !! u = Some conn ->
      sched_step y
        (MkSystem (register u conn (state y)).2 (current y) (accepted y) (started y) (origin y)
           (delete u (unregistered y)) (outcomes y) (replied y))
  | step_wake y : sched_step y (with_state (notify_one (state y)).2 y)
  | step_take task q y :
      parked (state y) = false -> current y = None -> queue (state y) = task :: q ->
      sched_step y
        (MkSystem (set_queue q (state y)) (Some task) (accepted y) (started y) (origin y)
           (unregistered y) (outcomes y) (replied y))
  | step_no_worker task y s' :
      parked (state y) = false -> current y = Some task ->
      attempt task (state y) = (Val None, s') ->
      sched_step y (with_state s' y)
  | step_broken_worker task w y s' :
      parked (state y) = false -> current y = Some task ->
      attempt task (state y) = (Val (Some (w, false)), s') ->
      sched_step y (with_state s' y)
  | step_dispatch task w y s' :
      parked (state y) = false -> current y = Some task ->
      attempt task (state y) = (Val (Some (w, true)), s') ->
      sched_step y
        (MkSystem s' None (accepted y) (started y ++ [task]) (origin y) (unregistered y)
           (outcomes y) (replied y))
  | step_finish u r y :
      u <> 0%Z ->
      let s' := (handle_finish_task (uuid_to_string u) (Some r) (state y)).2 in
      sched_step y
        (MkSystem s' (current y) (accepted y) (started y) (origin y) (unregistered y)
           (outcomes y ++ [(u, r)]) (replied y ++ passed_on u (state y) s')).

Definition initial (cap : nat) : System :=
  MkSystem (MkScheduler manager_new [] cap [] false) None [] [] ∅ ∅ [] [].
End scheduler.

(** ** Theorems *)

Section scheduler_theorems.
Context `{UL : UuidLaws} `{L : LabelOps}.
Context (first_key : gmap Node (list Worker) -> option Node).
Hypothesis first_key_some : forall m n, first_key m = Some n -> is_Some (m !! n).
Context (info_from_slice : bytes -> option ResourceInfo).
Hypothesis info_counts : forall b i, info_from_slice b = Some i ->
  map_Forall (fun _ k => 0 <= k < u64_mod)%Z (stats i).
Context (write_ok : Z -> bool).

Local Abbreviation step := (sched_step first_key info_from_slice write_ok).

(** The messages added to [sent] are no results. *)
Definition no_returns (l : list (Z * sent_message)) : Prop :=
  Forall (fun p => forall r, p.2 <> SentReturn r) l.

(** A round for an invocation, spelled out. *)
Lemma attempt_run u li f s :
  sched.li_function li = Some f -> manager_ok (manager s) ->
  exists o m, find_idle first_key (function_from_message f) (manager s) = (Val o, m) /\
    manager_ok m /\ handed_out (manager s) m o /\ wait_list m = wait_list (manager s) /\
    attempt first_key write_ok (Invoke u li) s =
      match o with
      | None => (Val None, set_parked true (set_manager m s))
      | Some w =>
          if write_ok (worker_conn w)
          then (Val (Some (w, true)), write_to (worker_conn w) (process_task u li) (set_manager m s))
          else (Val (Some (w, false)), set_manager m s)
      end.
Proof.
  intros Hf Hok.
  destruct (find_idle_run first_key first_key_some (function_from_message f) (manager s) Hok)
    as (o & m & Em & Hok' & Hh & Hwl).
  exists o, m. split_and!; try done. cbn [attempt]. rewrite Hf. cbn [unwrap].
  rewrite (bind_step (mret f) _ s f s) by done.
  rewrite (bind_step (on_manager _) _ s o (set_manager m s))
    by (unfold on_manager, zoom; by rewrite Em).
  destruct o as [w|]; [|done]. by destruct (write_ok (worker_conn w)).
Qed.

Lemma attempt_keeps task s r s' :
  attempt first_key write_ok task s = (Val r, s') -> manager_ok (manager s) ->
  queue s' = queue s /\ wait_list (manager s') = wait_list (manager s) /\
  manager_ok (manager s') /\ (r <> None -> parked s' = parked s) /\
  exists l, sent s' = sent s ++ l /\ no_returns l.
Proof.
  intros E Hok. destruct task as [u li|]; [|done].
  destruct (sched.li_function li) as [f|] eqn:Hf; [|cbn in E; by rewrite Hf in E].
  destruct (attempt_run u li f s Hf Hok) as (o & m & _ & Hok' & _ & Hwl & E').
  rewrite E' in E. destruct o as [w|];
    [destruct (write_ok (worker_conn w))|]; injection E as <- <-; split_and!; try done.
  - exists [(worker_conn w, process_task u li)]. split; [done|]. by apply list.Forall_singleton.
  - exists []. rewrite app_nil_r. split; [done|constructor].
  - exists []. rewrite app_nil_r. split; [done|constructor].
Qed.

(** What was written for a task is its result, to the connection that asked for the task. *)
Definition routed (y : System) (u : Uuid) (p : Z * sent_message) : Prop :=
  origin y !! u = Some p.1 /\ exists r, p.2 = SentReturn r /\ (u, r) ∈ outcomes y.

(** Every result that was written is one of these replies, or says that the queue was full. *)
Definition returns_known (rs : list (Uuid * (Z * sent_message))) (l : list (Z * sent_message)) :
    Prop :=
  Forall (fun p => forall r, p.2 = SentReturn r -> p ∈ rs.*2 \/ r = queue_full) l.

(** What every reachable state satisfies. *)
Record system_ok (y : System) : Prop := {
  sys_manager : manager_ok (manager (state y));
  sys_fifo : accepted y = started y ++ option_list (current y) ++ queue (state y);
  sys_wait : map_Forall (fun u c => origin y !! u = Some c) (wait_list (manager (state y)));
  sys_unreg : map_Forall (fun u c => origin y !! u = Some c) (unregistered y);
  sys_disj : forall u, is_Some (wait_list (manager (state y)) !! u) -> unregistered y !! u = None;
  sys_replied : NoDup (replied y).*1;
  sys_routed : Forall (fun p => routed y p.1 p.2 /\ unregistered y !! p.1 = None /\
    wait_list (manager (state y)) !! p.1 = None) (replied y);
  sys_parked : current y = None -> parked (state y) = false;
  sys_returns : returns_known (replied y) (sent (state y));
}.

Lemma no_returns_known rs l : no_returns l -> returns_known rs l.
Proof. intros H. eapply list.Forall_impl; [exact H|]. intros p Hp r E. by destruct (Hp r). Qed.
Lemma returns_known_app rs rs' l : returns_known rs l -> returns_known (rs ++ rs') l.
Proof.
  intros H. eapply list.Forall_impl; [exact H|]. intros p Hp r E.
  destruct (Hp r E) as [?|?]; [left|by right]. rewrite fmap_app. apply elem_of_app. by left.
Qed.

(** A step that leaves everything but the manager's info, caches and idle workers alone, and
    writes no result. *)
Lemma system_ok_state s y l :
  system_ok y -> manager_ok (manager s) -> queue s = queue (state y) ->
  wait_list (manager s) = wait_list (manager (state y)) ->
  (current y = None -> parked s = false) ->
  sent s = sent (state y) ++ l -> returns_known (replied y) l -> system_ok (with_state s y).
Proof.
  intros [] Hm Hq Hw Hp Hs Hl. split; cbn; rewrite ?Hq, ?Hw, ?Hs; try done. by apply Forall_app.
Qed.

Lemma terminate_all_state conns s :
  manager (terminate_all write_ok conns s) = manager s /\
  queue (terminate_all write_ok conns s) = queue s /\
  parked (terminate_all write_ok conns s) = parked s.
Proof.
  revert s; induction conns as [|c conns IH]; intros s; [done|].
  unfold terminate_all in *. cbn [foldl]. destruct (IH (if write_ok c then write_to c (SentResponse (MkResponse (Some Terminate))) s else s))
    as (-> & -> & ->). by destruct (write_ok c).
Qed.
Lemma terminate_all_sent conns s :
  exists l, sent (terminate_all write_ok conns s) = sent s ++ l /\ no_returns l.
Proof.
  revert s; induction conns as [|c conns IH]; intros s.
  - exists []. rewrite app_nil_r. split; [done|constructor].
  - unfold terminate_all in *. cbn [foldl].
    destruct (IH (if write_ok c then write_to c (SentResponse (MkResponse (Some Terminate))) s else s))
      as (l & -> & Hl). destruct (write_ok c); [|by exists l].
    exists ((c, SentResponse (MkResponse (Some Terminate))) :: l). cbn. rewrite <- app_assoc.
    split; [done|]. by constructor.
Qed.

Lemma enqueue_run u conn li s b s' :
  enqueue write_ok u conn li s = (Val b, s') ->
  manager s' = manager s /\ parked s' = parked s /\ (queue s' = if b then queue s ++ [Invoke u li] else queue s) /\
  sent s' = sent s ++ if negb b && write_ok conn then [(conn, SentReturn queue_full)] else [].
Proof.
  unfold enqueue. rewrite (bind_step (gets _) _ s _ s eq_refl).
  destruct (bool_decide _).
  - rewrite (bind_step (send_to _ _ _) _ s tt _ eq_refl). intros [= <- <-].
    destruct (write_ok conn); cbn; by rewrite ?app_nil_r.
  - rewrite (bind_step (modify _) _ s tt _ eq_refl). intros [= <- <-]. cbn. by rewrite app_nil_r.
Qed.

Lemma finish_run u r s :
  u <> 0%Z ->
  let s' := (handle_finish_task write_ok (uuid_to_string u) (Some r) s).2 in
  queue s' = queue s /\ parked s' = parked s /\ info (manager s') = info (manager s) /\
  cached (manager s') = cached (manager s) /\ idle (manager s') = idle (manager s) /\
  wait_list (manager s') = delete u (wait_list (manager s)) /\
  sent s' = sent s ++ match wait_list (manager s) !! u with
                      | Some c => if write_ok c then [(c, SentReturn r)] else []
                      | None => []
                      end.
Proof.
  intros Hu. cbn zeta. unfold handle_finish_task. cbn [unwrap].
  rewrite (bind_step (mret r) _ s r s) by done. rewrite uuid_parse_to_string.
  rewrite bool_decide_false by done. rewrite (bind_step (gets _) _ s _ s eq_refl).
  destruct (wait_list (manager s) !! u) as [c|] eqn:E.
  - rewrite (bind_step (modify _) _ s tt _ eq_refl). unfold send_to. cbn.
    destruct (write_ok c); cbn; by rewrite ?app_nil_r.
  - cbn. split_and!; try done; [by rewrite delete_id|by rewrite app_nil_r].
Qed.

Lemma system_ok_enqueue u conn li y s' :
  system_ok y -> origin y !! u = None -> enqueue write_ok u conn li (state y) = (Val true, s') ->
  system_ok (MkSystem s' (current y) (accepted y ++ [Invoke u li]) (started y)
    (<[u := conn]> (origin y))
    (if sched.li_sync li then <[u := conn]> (unregistered y) else unregistered y)
    (outcomes y) (replied y)).
Proof.
  intros [Hm Hf Hw Hu Hd Hnr Hr Hpk Hk] Ho E. apply enqueue_run in E as (Em & Ep & Eq & Es).
  split; cbn; rewrite ?Em, ?Ep, ?Eq, ?Es, ?app_nil_r; try done.
  - by rewrite Hf, <- !app_assoc.
  - intros v c Hv. rewrite lookup_insert_ne; [by apply Hw|]. intros ->.
    apply Hw in Hv. congruence.
  - destruct (sched.li_sync li).
    + intros v c. destruct (decide (u = v)) as [->|Hne].
      * by rewrite !lookup_insert_eq.
      * rewrite !lookup_insert_ne by done. apply Hu.
    + intros v c Hv. rewrite lookup_insert_ne; [by apply Hu|]. intros ->.
      apply Hu in Hv. congruence.
  - intros v Hv. destruct (sched.li_sync li); [|by apply Hd].
    rewrite lookup_insert_ne; [by apply Hd|].
    intros ->. destruct Hv as [c Hv]. apply Hw in Hv. congruence.
  - eapply list.Forall_impl; [exact Hr|]. intros [v c] ([H1 H1'] & H2 & H3). unfold routed in *. cbn in *.
    assert (u <> v) by (intros ->; congruence).
    destruct (sched.li_sync li); rewrite ?lookup_insert_ne by done; done.
Qed.

Lemma system_ok_register u conn y :
  system_ok y -> unregistered y !! u = Some conn ->
  system_ok (MkSystem (register u conn (state y)).2 (current y) (accepted y) (started y)
    (origin y) (delete u (unregistered y)) (outcomes y) (replied y)).
Proof.
  intros [Hm Hf Hw Hu Hd Hnr Hr Hpk Hk] Hreg. split; cbn; try done.
  - by destruct Hm.
  - intros v c. destruct (decide (u = v)) as [->|Hne].
    + rewrite lookup_insert_eq. intros [= <-]. by apply Hu.
    + rewrite lookup_insert_ne by done. apply Hw.
  - intros v c [_ Hv]%lookup_delete_Some. by apply Hu.
  - intros v. destruct (decide (u = v)) as [->|Hne]; [by rewrite lookup_delete_eq|].
    rewrite lookup_insert_ne, lookup_delete_ne by done. apply Hd.
  - eapply list.Forall_impl; [exact Hr|]. intros [v c] (H1 & H2 & H3). cbn in *.
    assert (u <> v) by (intros ->; congruence).
    by rewrite lookup_delete_ne, lookup_insert_ne.
Qed.

(** What is written when a task is reported. *)
Lemma finish_passed_on u r s :
  u <> 0%Z ->
  passed_on u s (handle_finish_task write_ok (uuid_to_string u) (Some r) s).2 =
    match wait_list (manager s) !! u with
    | Some c => if write_ok c then [(u, (c, SentReturn r))] else []
    | None => []
    end.
Proof.
  intros Hu. destruct (finish_run u r s Hu) as (_ & _ & _ & _ & _ & _ & Es). unfold passed_on.
  rewrite Es, drop_app_length. destruct (wait_list (manager s) !! u) as [c|]; [|done].
  by destruct (write_ok c).
Qed.

(** A task that has been replied to is not waited for, so that its reply is the first. *)
Lemma replied_finish u r y :
  system_ok y ->
  let new := match wait_list (manager (state y)) !! u with
             | Some c => if write_ok c then [(u, (c, SentReturn r))] else []
             | None => []
             end in
  NoDup (replied y ++ new).*1 /\
  Forall (fun p => (origin y !! p.1 = Some p.2.1 /\
      exists r', p.2.2 = SentReturn r' /\ (p.1, r') ∈ outcomes y ++ [(u, r)]) /\
    unregistered y !! p.1 = None /\
    delete u (wait_list (manager (state y))) !! p.1 = None) (replied y ++ new).
Proof.
  intros [Hm Hf Hw Hu Hd Hnr Hr Hpk Hk]. cbn zeta.
  assert (Hr' : Forall (fun p => (origin y !! p.1 = Some p.2.1 /\
      exists r', p.2.2 = SentReturn r' /\ (p.1, r') ∈ outcomes y ++ [(u, r)]) /\
    unregistered y !! p.1 = None /\
    delete u (wait_list (manager (state y))) !! p.1 = None) (replied y)).
  { eapply list.Forall_impl; [exact Hr|]. intros p ((H1 & r' & E & H1') & H2 & H3). split_and!; try done.
    - exists r'. split; [done|]. apply elem_of_app. by left.
    - apply lookup_delete_None. by right. }
  destruct (wait_list (manager (state y)) !! u) as [c|] eqn:E; [|by rewrite app_nil_r].
  destruct (write_ok c); [|by rewrite app_nil_r]. split.
  - rewrite fmap_app. apply list.NoDup_app. split; [done|]. split; [|apply list.NoDup_singleton].
    intros v Hv Hx. cbn in Hx. apply list_elem_of_singleton in Hx as ->.
    apply list_elem_of_fmap in Hv as ([v' c'] & Hu' & Hin). cbn in Hu'. subst v'.
    apply list.Forall_forall with (x := (u, c')) in Hr as (_ & _ & Hr); [|done]. cbn in *. congruence.
  - apply Forall_app. split; [done|]. apply list.Forall_singleton. cbn.
    split_and!; [by apply Hw| |apply Hd; eauto|apply lookup_delete_eq].
    exists r. split; [done|]. apply elem_of_app. right. by apply list_elem_of_singleton.
Qed.

Lemma system_ok_finish u r y :
  system_ok y -> u <> 0%Z ->
  let s' := (handle_finish_task write_ok (uuid_to_string u) (Some r) (state y)).2 in
  system_ok (MkSystem s' (current y) (accepted y) (started y) (origin y) (unregistered y)
    (outcomes y ++ [(u, r)]) (replied y ++ passed_on u (state y) s')).
Proof.
  intros Hy Hu0. cbn zeta. destruct (replied_finish u r y Hy) as [Hn1 Hr1].
  rewrite finish_passed_on by done.
  destruct Hy as [Hm Hf Hw Hu Hd Hnr Hr Hpk Hk].
  pose proof (finish_run u r (state y) Hu0) as HF. cbn zeta in HF. revert HF.
  generalize (handle_finish_task write_ok (uuid_to_string u) (Some r) (state y)).2.
  intros s' (Eq & Ep & Ei & Ec & Eidle & Ew & Es).
  split; cbn; rewrite ?Eq, ?Ep, ?Ew, ?Es; try done.
  - destruct Hm as [H1 H2]. split; rewrite ?Ec, ?Eidle; intros k v Hv; cbv beta; rewrite Ei;
      [by apply H1 in Hv|by apply H2].
  - intros v c [_ Hv]%lookup_delete_Some. by apply Hw.
  - intros v [c [_ Hv]%lookup_delete_Some]. apply Hd. eauto.
  - apply Forall_app. split; [by apply returns_known_app|].
    destruct (wait_list (manager (state y)) !! u) as [c|]; [|constructor].
    destruct (write_ok c); [|constructor]. apply list.Forall_singleton. intros r' _. left.
    rewrite fmap_app. apply elem_of_app. right. by apply list_elem_of_singleton.
Qed.

Lemma add_idle_wait ip conn m : wait_list (add_idle ip conn m) = wait_list m.
Proof. unfold add_idle, try_add_node. by destruct (info m !! ip). Qed.

Lemma update_run ip i s :
  manager_ok (manager s) ->
  exists s1, handle_update_resource info_from_slice ip i s = (Val tt, set_parked false s1) /\
    (s1 = s \/ exists ri, info_from_slice i = Some ri /\ s1 = set_manager (update ip ri (manager s)) s) /\
    manager_ok (manager s1) /\ wait_list (manager s1) = wait_list (manager s).
Proof.
  intros Hm. unfold handle_update_resource. destruct (info_from_slice i) as [ri|] eqn:Ei.
  - exists (set_manager (update ip ri (manager s)) s). split; [done|]. split; [right; by exists ri|].
    split; [apply update_ok; [done|by apply info_counts in Ei]|].
    cbn. unfold update, try_add_node. by destruct (info (manager s) !! ip).
  - exists s. split_and!; try done. by left.
Qed.

Lemma drop_resource_keeps ip s :
  manager_ok (manager s) ->
  let s' := (handle_drop_resource write_ok ip s).2 in
  manager_ok (manager s') /\ queue s' = queue s /\
  wait_list (manager s') = wait_list (manager s) /\ parked s' = parked s /\
  exists l, sent s' = sent s ++ l /\ no_returns l.
Proof.
  intros Hm. pose proof (remove_ok ip _ Hm) as Hrm. cbn.
  assert (Hwl : wait_list (remove ip (manager s)).1 = wait_list (manager s)).
  { unfold remove. cbn. by destruct (idle (manager s) !! ip). }
  destruct (remove ip (manager s)) as [m conns]; cbn in *.
  destruct (terminate_all_state conns (set_manager m s)) as (-> & -> & ->). split_and!; try done.
  apply (terminate_all_sent conns (set_manager m s)).
Qed.

Lemma system_ok_step y y' : system_ok y -> step y y' -> system_ok y'.
Proof.
  intros Hy Hs. pose proof Hy as [Hm Hf _ _ _ _ _ Hpk _].
  destruct Hs as [conn y|ip conn y|ip i y|ip y|u conn li y s' Hu0 Ho E|u conn li y s' E
    |u conn y Hreg|y|task q y _ Hcur Hq|task y s' _ Hcur E|task w y s' _ Hcur E|task w y s' Hpa Hcur E
    |u r y Hu0].
  - apply (system_ok_state _ _ (if write_ok conn then [(conn, SentResponse (MkResponse (Some Pong)))] else []));
      try done; cbn; destruct (write_ok conn); cbn; rewrite ?app_nil_r; try done; repeat constructor; done.
  - apply (system_ok_state _ _ []); try done; [by apply add_idle_ok| |by rewrite app_nil_r|constructor].
    apply add_idle_wait.
  - destruct (update_run ip i (state y) Hm) as (s & -> & Hs & Hm' & Hw).
    apply (system_ok_state _ _ []); cbn; rewrite ?app_nil_r; try done; try constructor;
      by destruct Hs as [-> | (? & _ & ->)].
  - destruct (drop_resource_keeps ip (state y) Hm) as (? & ? & ? & Ep & l & ? & ?).
    apply (system_ok_state _ _ l); try done; [by rewrite Ep|]. by apply no_returns_known.
  - by apply system_ok_enqueue.
  - apply enqueue_run in E as (Em & Ep & Eq & Es). eapply system_ok_state; [done|by rewrite Em|done|by rewrite Em|by rewrite Ep|exact Es|].
    destruct (_ && _); [|constructor]. apply list.Forall_singleton. intros r [= <-]. by right.
  - by apply system_ok_register.
  - apply (system_ok_state _ _ []); try done; cbn; [by rewrite app_nil_r|constructor].
  - destruct Hy. split; cbn; try done. by rewrite Hf, Hcur, Hq.
  - apply attempt_keeps in E as (Eq & Ew & Em & Ep & l & El & Hl); [|done].
    apply (system_ok_state _ _ l); try done; [by rewrite Hcur|]. by apply no_returns_known.
  - apply attempt_keeps in E as (Eq & Ew & Em & Ep & l & El & Hl); [|done].
    apply (system_ok_state _ _ l); try done; [by rewrite Hcur|]. by apply no_returns_known.
  - apply attempt_keeps in E as (Eq & Ew & Em & Ep & l & El & Hl); [|done].
    destruct Hy. split; cbn; rewrite ?Eq, ?Ew, ?El; try done.
    + by rewrite Hf, Hcur, <- !app_assoc.
    + intros _. by rewrite Ep, Hpa.
    + apply Forall_app. split; [done|by apply no_returns_known].
  - by apply system_ok_finish.
Qed.

Lemma system_ok_reachable cap y : rtc step (initial cap) y -> system_ok y.
Proof.
  intros Hr. eapply (rtc_invariant step system_ok); [intros ? ?; apply system_ok_step|exact Hr|].
  split; cbn; try done; try apply map_Forall_empty; try apply NoDup_nil_2; constructor.
Qed.
End scheduler_theorems.

(** ** The number of idle workers bounds the retries of [dispatch] *)

Definition idle_count (m : gmap Node (list Worker)) : nat :=
  map_fold (fun _ l acc => length l + acc)%nat O m.

Lemma idle_count_insert m n l :
  m !! n = None -> idle_count (<[n := l]> m) = (length l + idle_count m)%nat.
Proof. intros H. unfold idle_count. rewrite map_fold_insert_L; [done|intros; lia|done]. Qed.

Lemma idle_count_split m n l :
  m !! n = Some l -> idle_count m = (length l + idle_count (delete n m))%nat.
Proof.
  intros H. rewrite <- (insert_delete_id m n l H) at 1.
  by rewrite idle_count_insert by apply lookup_delete_eq.
Qed.

Lemma idle_count_retain m : idle_count (retain_nonempty m) = idle_count m.
Proof.
  induction m as [|n l m Hn IH] using map_ind; [done|].
  unfold retain_nonempty in *. destruct l as [|w l].
  - rewrite map_filter_insert_False by (cbn; auto). rewrite delete_id by done.
    by rewrite IH, idle_count_insert.
  - rewrite map_filter_insert_True by done. rewrite !idle_count_insert, IH; [done|done|].
    rewrite map_lookup_filter, Hn. done.
Qed.

Lemma handed_out_count s s' w :
  handed_out s s' (Some w) -> idle_count (idle s) = S (idle_count (idle s')).
Proof.
  intros (l & Hl & ->). rewrite idle_count_retain, (idle_count_split _ _ _ Hl).
  rewrite <- insert_delete_eq, idle_count_insert by apply lookup_delete_eq.
  rewrite length_app. cbn. lia.
Qed.

Section scheduler_properties.
Context `{UL : UuidLaws} `{L : LabelOps}.
Context (first_key : gmap Node (list Worker) -> option Node).
Hypothesis first_key_some : forall m n, first_key m = Some n -> is_Some (m !! n).
Context (info_from_slice : bytes -> option ResourceInfo).
Hypothesis info_counts : forall b i, info_from_slice b = Some i ->
  map_Forall (fun _ k => 0 <= k < u64_mod)%Z (stats i).
Context (write_ok : Z -> bool).

Local Abbreviation step := (sched_step first_key info_from_slice write_ok).


(** C27: replies are routed correctly.  Whoever is waiting under a task's number is the
    connection that asked for the task.  Whatever the scheduler writes when a task is reported is
    the result reported for that task, to the connection that asked for it, once at most; every
    result found on any connection is one of these, or says that the queue was full.  And when a
    result is reported for a task that is waited for, exactly that result is written to the
    connection that waits, if it can be written to. *)
Theorem replies_routed cap y :
  rtc step (initial cap) y ->
  map_Forall (fun u c => origin y !! u = Some c) (wait_list (manager (state y))) /\
  Forall (fun p => routed y p.1 p.2) (replied y) /\
  NoDup (replied y).*1 /\
  (forall c r, (c, SentReturn r) ∈ sent (state y) -> (c, SentReturn r) ∈ (replied y).*2 \/ r = queue_full) /\
  (forall u r c, u <> 0%Z -> wait_list (manager (state y)) !! u = Some c ->
     sent (handle_finish_task write_ok (uuid_to_string u) (Some r) (state y)).2 =
       sent (state y) ++ if write_ok c then [(c, SentReturn r)] else []).
Proof.
  intros Hr. destruct (system_ok_reachable first_key first_key_some info_from_slice info_counts
    write_ok cap y Hr) as [_ _ Hw _ _ Hn Hf _ Hk].
  split_and!; [done| |done| |].
  - eapply list.Forall_impl; [exact Hf|]. by intros p (? & _).
  - intros c r Hin. unfold returns_known in Hk. rewrite list.Forall_forall in Hk.
    by apply (Hk _ Hin).
  - intros u r c Hu Hc. destruct (finish_run write_ok u r (state y) Hu) as (_ & _ & _ & _ & _ & _ & ->).
    by rewrite Hc.
Qed.

(** Giving a task to a worker ends: when the scheduler's invariant holds, after at most one
    attempt per idle worker.  A worker whose connection is broken is dropped and the next one
    tried; the worker that is returned was sent exactly this task, and nobody else was sent
    anything. *)
Theorem dispatch_terminates fuel u li f s :
  manager_ok (manager s) -> sched.li_function li = Some f ->
  (idle_count (idle (manager s)) < fuel)%nat ->
  exists o s', dispatch first_key write_ok fuel (Invoke u li) s = (Val o, s') /\
    manager_ok (manager s') /\
    sent s' = sent s ++
      match o with Some w => [(worker_conn w, process_task u li)] | None => [] end /\
    (forall w, o = Some w -> write_ok (worker_conn w) = true).
Proof.
  revert s; induction fuel as [|fuel IH]; intros s Hok Hf Hfuel; [lia|].
  destruct (attempt_run first_key first_key_some write_ok u li f s Hf Hok)
    as (o & m & _ & Hok' & Hh & _ & E).
  cbn [dispatch]. destruct o as [w|].
  - destruct (write_ok (worker_conn w)) eqn:Hw; rewrite (bind_step _ _ _ _ _ E).
    + eexists _, _; split; [done|]. cbn. split_and!; try done. by intros ? [= <-].
    + apply handed_out_count in Hh.
      destruct (IH (set_manager m s) Hok' Hf) as (o & s' & E' & ? & ? & ?); [cbn; lia|].
      by exists o, s'.
  - rewrite (bind_step _ _ _ _ _ E). eexists _, _; split; [done|]. cbn.
    split_and!; try done. by rewrite app_nil_r.
Qed.

(** A full queue drops the invocation and answers [QueueFull] on the connection, also when
    the invocation is asynchronous, although the caller of an asynchronous invocation does not
    read an answer. *)
Theorem queue_full_reply u conn li s :
  (capacity s <= length (queue s))%nat -> write_ok conn = true ->
  handle_labeled_invoke write_ok u conn li s =
    (Val tt, write_to conn (SentReturn (sched.MkTaskReturn 5 None (Some (buckle_from public)))) s).
Proof.
  intros Hf Hw. unfold handle_labeled_invoke, enqueue.
  rewrite (bind_step (mbind _ _) _ s false
    (write_to conn (SentReturn (sched.MkTaskReturn 5 None (Some (buckle_from public)))) s)); [done|].
  rewrite (bind_step (gets _) _ s _ s eq_refl), bool_decide_true by done.
  unfold send_to. rewrite (bind_step (modify _) _ s tt _ eq_refl). by rewrite Hw.
Qed.

(** A single idle worker is found, whatever the function. *)
Lemma find_idle_single (f : Function) (ip wconn : Z) :
  (forall m, first_key m = None -> m = ∅) ->
  exists m, find_idle first_key f (add_idle ip wconn manager_new) =
    (Val (Some (MkWorker ip wconn)), m) /\ wait_list m = ∅.
Proof.
  intros Hk. set (w := MkWorker ip wconn).
  set (s := add_idle ip wconn manager_new).
  assert (Hidle : idle s = {[ip := [w]]}) by done.
  assert (Hkey : first_key (idle s) = Some ip).
  { rewrite Hidle. destruct (first_key {[ip := [w]]}) as [n|] eqn:E.
    - destruct (first_key_some _ _ E) as [v Hv]. by apply lookup_singleton_Some in Hv as [-> _].
    - apply Hk, (f_equal (fun m => m !! ip)) in E. by rewrite lookup_singleton_eq in E. }
  unfold find_idle. rewrite (bind_step (take_cached f) _ s None s) by done.
  set (s' := set_idle (<[ip := []]> (idle s)) s).
  rewrite (bind_step (take_any first_key) _ s (Some w) s').
  2: { unfold take_any, take_worker, pop_idle. rewrite Hkey, Hidle, lookup_singleton_eq. done. }
  assert (Hmark : exists s'', mark_dirty w s' = (Val tt, s'') /\ wait_list s'' = ∅).
  { unfold mark_dirty. change (info s') with (info s). change (worker_ip w) with ip.
    change (info s) with (<[ip := NodeInfo_new ip]> (∅ : gmap Node NodeInfo)).
    rewrite lookup_insert_eq. by eexists. }
  destruct Hmark as (s'' & Hmark & Hwl). rewrite (bind_step (mark_dirty w) _ s' tt s'' Hmark).
  unfold retain_idle. rewrite (bind_step (modify _) _ s'' tt _ eq_refl). by eexists.
Qed.

(** The reply to a synchronous invocation can be lost.  The handler puts the task in the
    queue before it registers the connection that waits, so the task can be started and
    finished in between: the reply is dropped, and the connection is then registered for a
    task that is over. *)
Theorem sync_reply_lost (ip wconn conn : Z) (li : LabeledInvoke) (f : sched.Function)
    (r : TaskReturn) :
  (forall m, first_key m = None -> m = ∅) ->
  sched.li_sync li = true -> sched.li_function li = Some f -> write_ok wconn = true ->
  exists y, rtc step (initial 1) y /\
    Invoke 1 li ∈ started y /\ 1%Z ∈ finished y /\
    wait_list (manager (state y)) !! 1%Z = Some conn /\
    replied y = [] /\ unregistered y = ∅ /\
    sent (state y) = [(wconn, process_task 1 li)].
Proof.
  intros Hk Hsync Hf Hw. destruct (find_idle_single (function_from_message f) ip wconn Hk)
    as (m & Hfind & Hm).
  set (s1 := MkScheduler (add_idle ip wconn manager_new) [] 1 [] false).
  set (s2 := MkScheduler m [] 1 [(wconn, process_task 1 li)] false).
  assert (Hd : attempt first_key write_ok (Invoke 1 li) s1 =
    (Val (Some (MkWorker ip wconn, true)), s2)).
  { cbn [attempt]. rewrite Hf. cbn [unwrap]. rewrite (bind_step (mret f) _ s1 f s1) by done.
    rewrite (bind_step (on_manager _) _ s1 (Some (MkWorker ip wconn)) (set_manager m s1))
      by (unfold on_manager, zoom; cbn [manager s1]; by rewrite Hfind).
    cbn [worker_conn]. by rewrite Hw. }
  assert (Hfs : (handle_finish_task write_ok (uuid_to_string 1) (Some r) s2).2 = s2).
  { unfold handle_finish_task. cbn [unwrap]. rewrite (bind_step (mret r) _ s2 r s2) by done.
    rewrite uuid_parse_to_string. cbn [bool_decide].
    rewrite bool_decide_false by done. rewrite (bind_step (gets _) _ s2 _ s2 eq_refl).
    cbn [manager s2]. by rewrite Hm. }
  eexists. split.
  { eapply rtc_l; [apply (step_get_task first_key info_from_slice write_ok ip wconn)|].
    eapply rtc_l; [eapply (step_enqueue first_key info_from_slice write_ok 1 conn li);
      [done|reflexivity|reflexivity]|]. rewrite Hsync.
    eapply rtc_l; [eapply step_take; reflexivity|].
    eapply rtc_l; [eapply (step_dispatch first_key info_from_slice write_ok); [reflexivity|reflexivity|exact Hd]|].
    eapply rtc_l; [apply (step_finish first_key info_from_slice write_ok 1 r); done|].
    eapply rtc_l; [apply (step_register first_key info_from_slice write_ok 1 conn);
      apply lookup_insert_eq|].
    apply rtc_refl. }
  unfold finished. cbn [state started outcomes unregistered replied]. rewrite Hfs.
  cbn. split_and!; try done; try (by apply list_elem_of_singleton).
  apply lookup_insert_eq.
Qed.
End scheduler_properties.
