(* ===== verification/SchedProgress.v ===== *)
(** * Progress of the scheduler

    What the scheduling thread ([schedule] of [snapfaas/src/sched/mod.rs]) achieves.  A round of
    its loop either gives the task away, or drops a worker whose connection is broken, or finds
    no worker and parks the thread until somebody wakes it.  It can find none although workers
    are idle, and is then parked beside them; but each time that happens the record of a cached
    VM has been spent, so that it has to be woken no more often than there are such records. *)

From stdpp Require Import base tactics option list gmap strings countable.
From S2P Require Import Prelude Labels Store FsTypes Syscalls Message LocalRM SchedRM.
From S2P Require Import Scheduler.

(** ** What a round uses up *)

(** The VMs recorded as cached on one function's nodes, and for all functions. *)
Fixpoint vms (v : list (Node * Z)) : nat :=
  match v with [] => O | p :: v => (Z.to_nat p.2 + vms v)%nat end.
Definition total_vms (m : gmap Function (list (Node * Z))) : nat :=
  map_fold (fun _ v acc => vms v + acc)%nat O m.
Definition recorded (s : ResourceManager) : nat := total_vms (cached s).

Lemma vms_retain v : vms (retain_nonzero v) = vms v.
Proof.
  induction v as [|[n k] v IH]; [done|]. unfold retain_nonzero in *. cbn [List.filter snd].
  destruct (decide (k = 0%Z)) as [->|Hk]; [exact IH|].
  rewrite bool_decide_false by done. cbn [negb vms snd]. by rewrite IH.
Qed.

Lemma total_vms_insert_new m f v : m !! f = None -> total_vms (<[f := v]> m) = (vms v + total_vms m)%nat.
Proof. intros H. unfold total_vms. rewrite map_fold_insert_L; [done|intros; lia|done]. Qed.
Lemma total_vms_insert m f v v' :
  m !! f = Some v -> (total_vms (<[f := v']> m) + vms v = total_vms m + vms v')%nat.
Proof.
  intros H. rewrite <- (insert_delete_id m f v H) at 2. rewrite <- insert_delete_eq.
  rewrite !total_vms_insert_new by apply lookup_delete_eq. lia.
Qed.

Lemma take_first_vms i v o v' :
  nodes_ok i v -> take_first i v = Some (o, v') ->
  vms v = match o with Some _ => S (vms v') | None => vms v' end.
Proof.
  intros [Hv _]. revert v'. induction Hv as [|[n k] v [[ni Hn] Hk] Hv IH]; intros v'; cbn [take_first].
  - by intros [= <- <-].
  - cbn [fst snd] in *. rewrite Hn. destruct (dirty ni).
    + destruct (take_first i v) as [[o1 v1]|]; [|done]. intros [= -> <-]. cbn.
      rewrite (IH v1 eq_refl). destruct o; lia.
    + intros [= <- <-]. cbn. unfold wrap_u64. rewrite Z.mod_small by lia. lia.
Qed.

Lemma take_cached_vms f s o s' :
  manager_ok s -> take_cached f s = (Val o, s') ->
  recorded s = match o with Some _ => S (recorded s') | None => recorded s' end.
Proof.
  intros Hs. unfold take_cached, recorded. destruct (cached s !! f) as [v|] eqn:Ev;
    [|by intros [= <- <-]].
  destruct (take_first (info s) v) as [[o1 v1]|] eqn:Et; [|done]. intros [= -> <-]. cbn.
  pose proof (take_first_vms (info s) v o v1 ltac:(by apply (cached_ok _ Hs) in Ev) Et) as Hv.
  pose proof (total_vms_insert (cached s) f v (retain_nonzero v1) Ev) as Ht.
  rewrite vms_retain in Ht. destruct o; lia.
Qed.

(** The idle workers whose connections satisfy [P]. *)
Definition usable (P : Worker -> bool) (l : list Worker) : list Worker := List.filter P l.
Definition usable_count (P : Worker -> bool) (m : gmap Node (list Worker)) : nat :=
  idle_count (usable P <$> m).

Lemma usable_count_retain P m : usable_count P (retain_nonempty m) = usable_count P m.
Proof.
  unfold usable_count. induction m as [|n l m Hn IH] using map_ind; [done|].
  unfold retain_nonempty in *. destruct l as [|w l].
  - rewrite map_filter_insert_False by (cbn; auto). rewrite delete_id by done.
    rewrite IH, fmap_insert, idle_count_insert; [done|]. by rewrite lookup_fmap, Hn.
  - rewrite map_filter_insert_True by done.
    rewrite !fmap_insert, !idle_count_insert, IH; [done|by rewrite lookup_fmap, Hn|].
    rewrite lookup_fmap, map_lookup_filter, Hn. done.
Qed.

Lemma handed_out_usable P s s' w :
  handed_out s s' (Some w) ->
  usable_count P (idle s) = ((if P w then 1 else 0) + usable_count P (idle s'))%nat.
Proof.
  intros (l & Hl & ->). rewrite usable_count_retain. unfold usable_count.
  rewrite <- (insert_delete_eq (idle s)), fmap_insert, idle_count_insert
    by by rewrite lookup_fmap, lookup_delete_eq.
  rewrite (idle_count_split (usable P <$> idle s) (worker_ip w) (usable P (l ++ [w])))
    by by rewrite lookup_fmap, Hl.
  rewrite fmap_delete. unfold usable. rewrite List.filter_app, length_app. cbn.
  destruct (P w); cbn; lia.
Qed.

Lemma usable_idle P s : usable_count P (idle s) <> O -> idle s <> ∅.
Proof. intros H E. rewrite E in H. by apply H. Qed.

Section find.
Context (first_key : gmap Node (list Worker) -> option Node).
Hypothesis first_key_some : forall m n, first_key m = Some n -> is_Some (m !! n).
Hypothesis first_key_none : forall m, first_key m = None -> m = ∅.

(** Whatever [take_cached] leaves in the caches, [find_idle] leaves there. *)
Lemma find_idle_cached f s o s' :
  find_idle first_key f s = (Val o, s') ->
  exists n s1, take_cached f s = (Val n, s1) /\ cached s' = cached s1.
Proof.
  unfold find_idle. intros (n & s1 & E & H)%bind_val. exists n, s1. split; [done|].
  assert (Ht : forall k w s2, take_worker k s1 = (Val w, s2) -> cached s2 = cached s1).
  { intros k w s2. unfold take_worker. destruct (pop_idle k (idle s1)). by intros [= <- <-]. }
  destruct n as [k|].
  - apply bind_val in H as (w & s2 & H1%Ht & H). by inversion H.
  - apply bind_val in H as (w & s2 & H1 & H). apply bind_val in H as (u & s3 & H2 & H).
    assert (H3 : cached s2 = cached s1).
    { unfold take_any in H1. destruct (first_key (idle s1)); [by eapply Ht|by injection H1 as <- <-]. }
    assert (H4 : cached s3 = cached s2).
    { destruct w as [w|]; [|by injection H2 as <- <-]. unfold mark_dirty in H2.
      destruct (info s2 !! worker_ip w); [by injection H2 as <- <-|done]. }
    inversion H; subst. cbn. congruence.
Qed.

Lemma find_idle_vms f s o s' :
  manager_ok s -> find_idle first_key f s = (Val o, s') ->
  (recorded s' <= recorded s)%nat /\
  (o = None -> idle s <> ∅ -> (recorded s' < recorded s)%nat).
Proof.
  intros Hs E. destruct (find_idle_cached _ _ _ _ E) as (n & s1 & E1 & Hc).
  pose proof (take_cached_vms _ _ _ _ Hs E1) as Hv.
  assert (Hv' : recorded s' = recorded s1) by (unfold recorded; by rewrite Hc).
  rewrite Hv', Hv. split; [destruct n; lia|]. intros -> Hne. destruct n as [n|]; [lia|].
  destruct (find_idle_hands_out first_key first_key_some first_key_none f s Hs)
    as (o & s2 & E2 & _ & _ & Hh). rewrite E in E2. injection E2 as <- <-.
  rewrite E1 in Hh. by destruct (Hh eq_refl Hne).
Qed.
End find.

(** ** The scheduling thread by itself *)

Section thread.
Context `{U : UuidOps} `{L : LabelOps}.
Context (first_key : gmap Node (list Worker) -> option Node).
Context (write_ok : Z -> bool).

(** Its next step: none while it is parked; otherwise take a task when it holds none, or go one
    round of the retry loop, which parks it when there is no worker. *)
Definition schedule_next (y : System) : System :=
  if parked (state y) then y
  else
    match current y with
    | None =>
        match queue (state y) with
        | task :: q =>
            MkSystem (set_queue q (state y)) (Some task) (accepted y) (started y) (origin y)
              (unregistered y) (outcomes y) (replied y)
        | [] => y
        end
    | Some task =>
        match attempt first_key write_ok task (state y) with
        | (Val None, s') => with_state s' y
        | (Val (Some (_, false)), s') => with_state s' y
        | (Val (Some (_, true)), s') =>
            MkSystem s' None (accepted y) (started y ++ [task]) (origin y) (unregistered y)
              (outcomes y) (replied y)
        | (_, _) => y
        end
    end.

(** Somebody notifies the condition variable. *)
Definition wake (y : System) : System := with_state (notify_one (state y)).2 y.

(** The thread with a number of wake-ups to come, which are spent only when it is parked. *)
Definition woken_turn (p : nat * System) : nat * System :=
  let '(wakes, y) := p in
  if parked (state y) then match wakes with O => p | S wakes => (wakes, wake y) end
  else (wakes, schedule_next y).
Definition run_woken (wakes n : nat) (y : System) : System := (Nat.iter n woken_turn (wakes, y)).2.

Definition pending (y : System) : list Task := option_list (current y) ++ queue (state y).
Definition has_function (t : Task) : Prop :=
  match t with Invoke _ li => is_Some (sched.li_function li) | TerminateTask => False end.
(** The idle workers that can still be written to. *)
Definition working (s : Scheduler) : nat :=
  usable_count (fun w => write_ok (worker_conn w)) (idle (manager s)).
End thread.

Section progress.
Context `{UL : UuidLaws} `{L : LabelOps}.
Context (first_key : gmap Node (list Worker) -> option Node).
Hypothesis first_key_some : forall m n, first_key m = Some n -> is_Some (m !! n).
Hypothesis first_key_none : forall m, first_key m = None -> m = ∅.
Context (info_from_slice : bytes -> option ResourceInfo).
Hypothesis info_counts : forall b i, info_from_slice b = Some i ->
  map_Forall (fun _ k => 0 <= k < u64_mod)%Z (stats i).
Context (write_ok : Z -> bool).

Local Abbreviation step := (sched_step first_key info_from_slice write_ok).
Local Abbreviation next := (schedule_next first_key write_ok).
Local Abbreviation turn := (woken_turn first_key write_ok).
Local Abbreviation good := (fun w => write_ok (worker_conn w)).

(** Its steps are steps of the system. *)
Lemma schedule_next_step y : next y = y \/ step y (next y).
Proof.
  unfold schedule_next. destruct (parked (state y)) eqn:Ep; [by left|].
  destruct (current y) as [task|] eqn:Ec.
  - destruct (attempt first_key write_ok task (state y)) as [[[[w []]|]| |] s'] eqn:E; try (by left); right.
    + by eapply step_dispatch.
    + by eapply step_broken_worker.
    + by eapply step_no_worker.
  - destruct (queue (state y)) as [|task q] eqn:Eq; [by left|right]. by eapply step_take.
Qed.
Lemma parked_stays y : parked (state y) = true -> forall n, Nat.iter n next y = y.
Proof.
  intros Hp n. induction n as [|n IH]; [done|]. rewrite Nat.iter_succ, IH.
  unfold schedule_next. by rewrite Hp.
Qed.
Lemma woken_turn_step p : rtc step p.2 (turn p).2.
Proof.
  destruct p as [w y]. unfold woken_turn. destruct (parked (state y)).
  - destruct w as [|w]; [done|]. apply rtc_once. apply step_wake.
  - cbn. destruct (schedule_next_step y) as [->|H]; [done|by apply rtc_once].
Qed.
Lemma woken_steps n p : rtc step p.2 (Nat.iter n turn p).2.
Proof.
  induction n as [|n IH]; [done|]. change (Nat.iter (S n) turn p) with (turn (Nat.iter n turn p)).
  etrans; [exact IH|apply woken_turn_step].
Qed.

(** What is left to use up before the task is given away. *)
Definition left_over (s : Scheduler) : nat := (recorded (manager s) + idle_count (idle (manager s)))%nat.
(** The wake-ups that the thread may need. *)
Definition needed (s : Scheduler) : nat := (recorded (manager s) + if parked s then 1 else 0)%nat.

(** One round with a working idle worker. *)
Lemma attempt_progress u li f s :
  manager_ok (manager s) -> sched.li_function li = Some f -> (0 < working write_ok s)%nat ->
  parked s = false ->
  exists r s', attempt first_key write_ok (Invoke u li) s = (Val r, s') /\
    manager_ok (manager s') /\ queue s' = queue s /\ (needed s' <= needed s)%nat /\
    match r with
    | Some (_, true) => working write_ok s = S (working write_ok s') /\ parked s' = false
    | _ => working write_ok s' = working write_ok s /\ (left_over s' < left_over s)%nat
    end.
Proof.
  intros Hok Hf Hw Hp.
  destruct (attempt_run first_key first_key_some write_ok u li f s Hf Hok)
    as (o & m & Ef & Hok' & Hh & _ & E). rewrite E.
  destruct (find_idle_vms first_key first_key_some first_key_none _ _ _ _ Hok Ef) as [Hle Hlt].
  unfold left_over, needed, working in *. rewrite Hp. destruct o as [w|].
  - pose proof (handed_out_count _ _ _ Hh) as Hc. pose proof (handed_out_usable good _ _ _ Hh) as Hu.
    destruct (write_ok (worker_conn w)); eexists _, _; split; try done; cbn; rewrite ?Hp;
      split_and!; try done; lia.
  - eexists _, _; split; [done|]. cbn. cbn in Hh. rewrite Hh.
    assert (idle (manager s) <> ∅) by (apply (usable_idle good); lia). specialize (Hlt eq_refl H).
    split_and!; try done; lia.
Qed.

(** How a state of the thread is reached from another, with the wake-ups left at both. *)
Definition gets_to (p p' : nat * System) : Prop := exists n, Nat.iter n turn p = p'.
#[local] Instance gets_to_preorder : PreOrder gets_to.
Proof.
  split; [intros p; by exists O|]. intros p q s [n <-] [k <-]. exists (k + n)%nat. apply Nat.iter_add.
Qed.
Lemma gets_to_turn p : gets_to p (turn p).
Proof. by exists 1%nat. Qed.

(** The task at hand is given to a worker: the thread is parked only as often as it can be woken. *)
Lemma current_started w y u li f :
  manager_ok (manager (state y)) -> current y = Some (Invoke u li) ->
  sched.li_function li = Some f -> (0 < working write_ok (state y))%nat ->
  (needed (state y) <= w)%nat ->
  exists w' y', gets_to (w, y) (w', y') /\
    current y' = None /\ started y' = started y ++ [Invoke u li] /\ accepted y' = accepted y /\
    queue (state y') = queue (state y) /\ manager_ok (manager (state y')) /\
    working write_ok (state y) = S (working write_ok (state y')) /\
    (needed (state y') <= w')%nat.
Proof.
  remember (2 * left_over (state y) + if parked (state y) then 1 else 0)%nat as k eqn:Hk.
  revert w y Hk. induction (lt_wf k) as [k _ IH]. intros w y -> Hok Hcur Hf Hw Hn.
  assert (Hgo : forall w1 y1, turn (w, y) = (w1, y1) -> manager_ok (manager (state y1)) ->
    current y1 = current y -> started y1 = started y -> accepted y1 = accepted y ->
    queue (state y1) = queue (state y) -> working write_ok (state y1) = working write_ok (state y) ->
    (needed (state y1) <= w1)%nat ->
    (2 * left_over (state y1) + (if parked (state y1) then 1 else 0) <
     2 * left_over (state y) + if parked (state y) then 1 else 0)%nat ->
    exists w' y', gets_to (w, y) (w', y') /\
      current y' = None /\ started y' = started y ++ [Invoke u li] /\ accepted y' = accepted y /\
      queue (state y') = queue (state y) /\ manager_ok (manager (state y')) /\
      working write_ok (state y) = S (working write_ok (state y')) /\
      (needed (state y') <= w')%nat).
  { intros w1 y1 Et Hok1 Hc1 Hs1 Ha1 Hq1 Hw1 Hn1 Hlt.
    destruct (IH _ Hlt w1 y1 eq_refl Hok1) as (w' & y' & Hg & H); [congruence|done|lia|done|].
    exists w', y'. split; [|by rewrite <- Hs1, <- Ha1, <- Hq1, <- Hw1].
    etrans; [apply gets_to_turn|]. by rewrite Et. }
  destruct (parked (state y)) eqn:Ep.
  - unfold needed in Hn. rewrite Ep in Hn. destruct w as [|w]; [lia|].
    apply (Hgo w (wake y)); unfold woken_turn; rewrite ?Ep; try done; unfold needed, left_over; cbn; lia.
  - destruct (attempt_progress u li f (state y) Hok Hf Hw Ep) as (r & s' & E & Hok' & Hq & Hn' & Hr).
    assert (Ht : turn (w, y) = (w, match r with
      | Some (_, true) => MkSystem s' None (accepted y) (started y ++ [Invoke u li]) (origin y)
          (unregistered y) (outcomes y) (replied y)
      | _ => with_state s' y end)).
    { unfold woken_turn, schedule_next. rewrite Ep, Hcur, E. by destruct r as [[x []]|]. }
    destruct r as [[x []]|].
    + eexists _, _. split; [etrans; [apply gets_to_turn|]; by rewrite Ht|]. cbn.
      destruct Hr as [-> _]. split_and!; try done. lia.
    + apply (Hgo w (with_state s' y)); try done; cbn; try lia; destruct Hr; destruct (parked s'); lia.
    + apply (Hgo w (with_state s' y)); try done; cbn; try lia; destruct Hr; destruct (parked s'); lia.
Qed.

(** The next task, from the hand or from the queue. *)
Lemma next_started w y t q f u li :
  system_ok y -> pending y = t :: q -> t = Invoke u li ->
  sched.li_function li = Some f -> (0 < working write_ok (state y))%nat ->
  (needed (state y) <= w)%nat ->
  exists w' y', gets_to (w, y) (w', y') /\
    started y' = started y ++ [t] /\ accepted y' = accepted y /\ pending y' = q /\
    working write_ok (state y) = S (working write_ok (state y')) /\ (needed (state y') <= w')%nat.
Proof.
  intros Hy Hp -> Hf Hw Hn. pose proof (sys_manager _ Hy) as Hok. unfold pending in Hp.
  destruct (current y) as [t'|] eqn:Hc.
  - injection Hp as -> Hq. destruct (current_started w y u li f Hok Hc Hf Hw Hn)
      as (w' & y' & Hg & H1 & H2 & H3 & H4 & H5 & H6 & H7). exists w', y'. unfold pending.
    rewrite H1, H4. done.
  - cbn in Hp. pose proof (sys_parked _ Hy Hc) as Ep.
    set (y1 := MkSystem (set_queue q (state y)) (Some (Invoke u li)) (accepted y) (started y)
      (origin y) (unregistered y) (outcomes y) (replied y)).
    assert (Ht : turn (w, y) = (w, y1)) by (unfold woken_turn, schedule_next; by rewrite Ep, Hc, Hp).
    destruct (current_started w y1 u li f) as (w' & y' & Hg & H1 & H2 & H3 & H4 & H5 & H6 & H7);
      [done..|]. exists w', y'. split; [etrans; [apply gets_to_turn|]; by rewrite Ht|].
    unfold pending. rewrite H1, H2, H3, H4. done.
Qed.


(** A node that has reported one cached VM, and an idle worker on another node. *)
Lemma record_beside_idle a b wconn ri (f : Function) k :
  a <> b -> stats ri = {[f := k]} -> (0 < k < u64_mod)%Z ->
  let m := add_idle b wconn (update a ri manager_new) in
  manager_ok m /\ cached m !! f = Some [(a, k)] /\ idle m = {[b := [MkWorker b wconn]]} /\
  exists ni, info m !! a = Some ni /\ dirty ni = false.
Proof.
  intros Hab Hst Hk. cbn zeta. set (m1 := update a ri manager_new).
  assert (Hok : manager_ok m1).
  { apply update_ok; [by split; intros ? ? ?|]. rewrite Hst. intros f' k' [-> ->]%lookup_singleton_Some. lia. }
  assert (Hc : cached m1 = {[f := [(a, k)]]}).
  { change (cached m1) with (map_fold (update_function a) (∅ : gmap Function (list (Node * Z))) (stats ri)).
    rewrite Hst, fin_maps.map_fold_singleton. unfold update_function.
    by rewrite lookup_empty, bool_decide_true by lia. }
  assert (Hinfo : exists ni, info m1 = <[a := ni]> (<[a := NodeInfo_new a]> ∅) /\ dirty ni = false).
  { eexists. split; [reflexivity|]. cbn. by rewrite lookup_insert_eq. }
  destruct Hinfo as (ni & Hi & Hd).
  split; [by apply add_idle_ok|]. unfold add_idle, try_add_node.
  rewrite Hi, !lookup_insert_ne, lookup_empty by done. cbn.
  rewrite Hc, lookup_singleton_eq. split_and!; [done..|]. exists ni. split; [|done].
  by rewrite lookup_insert_ne, lookup_insert_eq.
Qed.

(** The thread can be parked beside an idle worker.  A node reports a cached VM for a function,
    a worker on another node asks for a task, and an invocation of the function arrives: the
    thread follows the record, finds no idle worker on that node, and waits; the worker waits
    too, and nothing happens until a further request wakes the thread. *)
Theorem parked_beside_idle (a b wconn conn : Z) (i : bytes) (ri : ResourceInfo) (li : LabeledInvoke)
    (f : sched.Function) (k : Z) :
  a <> b -> info_from_slice i = Some ri -> stats ri = {[function_from_message f := k]} ->
  (0 < k)%Z -> sched.li_function li = Some f ->
  exists y, rtc step (initial 1) y /\ parked (state y) = true /\ current y = Some (Invoke 1 li) /\
    idle (manager (state y)) = {[b := [MkWorker b wconn]]} /\ forall n, Nat.iter n next y = y.
Proof.
  intros Hab Hi Hst Hk Hf. set (m := add_idle b wconn (update a ri manager_new)).
  assert (Hk' : (0 < k < u64_mod)%Z).
  { pose proof (info_counts i ri Hi) as H. rewrite Hst in H.
    pose proof (H _ _ (lookup_singleton_eq _ _)). cbv beta in *. lia. }
  destruct (record_beside_idle a b wconn ri (function_from_message f) k Hab Hst Hk')
    as (Hok & Hc & Hidle & ni & Hn & Hd). fold m in Hok, Hc, Hidle, Hn.
  destruct (find_idle_blocked first_key (function_from_message f) m a k ni []) as (m' & E & Hidle' & _);
    [done..|by rewrite Hidle, lookup_singleton_ne|].
  set (s := MkScheduler m [] 1 [] false).
  assert (Ha : attempt first_key write_ok (Invoke 1 li) s = (Val None, set_parked true (set_manager m' s))).
  { cbn [attempt]. rewrite Hf. cbn [unwrap]. rewrite (bind_step (mret f) _ s f s) by done.
    rewrite (bind_step (on_manager _) _ s None (set_manager m' s)); [done|].
    unfold on_manager, zoom. cbn [manager s]. by rewrite E. }
  eexists. split.
  { eapply rtc_l; [apply (step_update_resource first_key info_from_slice write_ok a i)|].
    unfold handle_update_resource. rewrite Hi.
    eapply rtc_l; [apply (step_get_task first_key info_from_slice write_ok b wconn)|].
    eapply rtc_l; [eapply (step_enqueue first_key info_from_slice write_ok 1 conn li);
      [done|reflexivity|reflexivity]|].
    eapply rtc_l; [eapply step_take; reflexivity|].
    eapply rtc_l; [eapply (step_no_worker first_key info_from_slice write_ok);
      [reflexivity|reflexivity|exact Ha]|]. apply rtc_refl. }
  cbn [state with_state parked current manager set_parked set_manager]. rewrite Hidle'.
  split_and!; try done. by apply parked_stays.
Qed.
End progress.
