(* ===== verification/Worker.v ===== *)
(** * The worker ([snapfaas/src/worker.rs]) and the launch of a VM ([vm.rs], [configs.rs])

    A worker asks the scheduler for a task, takes or makes a VM for it, launches the VM if it is
    new, lets a system call processor serve the function, and reports the result.  One turn of
    its loop is [turn]; the VMs of the machine are in the resource manager that the workers
    share.  Starting a process and accepting its connection are the class [Launcher];
    [std::process::exit] is a panic here: nothing of this program follows it. *)

From stdpp Require Import base tactics option list gmap strings pretty countable.
From S2P Require Import Prelude Labels Store FsTypes Objects Fs Syscalls.
From S2P Require Import Blobstore Message SysServer LocalRM.

(** ** [FunctionConfig] *)

Record FunctionConfig : Type := MkConfig {
  mac : option string;
  tap : option string;
  runtimefs : string;
  appfs : option string;
  vcpus : Z;
  cfg_memory : Z;
  concurrency_limit : Z;
  load_dir : option string;
  copy_base : bool;
  copy_diff : bool;
  cfg_kernel : string;
  cmdline : option string;
  dump_dir : option string;
  dump_ws : bool;
  load_ws : bool;
}.

Definition config_default : FunctionConfig :=
  MkConfig None None "" None 1 128 1 None false true "" None None false false.

(** [From<fs::Function>] *)
Definition config_from (f : Function) : FunctionConfig :=
  let d := config_default in
  MkConfig (mac d) (tap d) (runtime_image f) (Some (app_image f)) (vcpus d) (memory f)
    (concurrency_limit d) (load_dir d) (copy_base d) (copy_diff d) (kernel f) (cmdline d)
    (dump_dir d) (dump_ws d) (load_ws d).

(** The three paths [wait_and_process] puts in. *)
Definition set_images (k : string) (a : option string) (r : string) (c : FunctionConfig) :=
  MkConfig (mac c) (tap c) r a (vcpus c) (cfg_memory c) (concurrency_limit c) (load_dir c)
    (copy_base c) (copy_diff c) k (cmdline c) (dump_dir c) (dump_ws c) (load_ws c).

Record OdirectOption : Type := MkOdirect {
  base : bool; diff : bool; rootfs : bool; od_appfs : bool
}.

(** ** [Vm::launch] *)

Class Launcher (Os Ch : Type) := {
  (** [Command::new("firerunner").args(args)...spawn()] *)
  spawn : list string -> SM Os (result unit string);
  (** the VM connects; a panic is the process ending first, which ends the worker's process *)
  accept : SM Os (result Ch string);
}.

Definition flag (b : bool) (s : string) : list string := if b then [s] else [].

(** The command line of [firerunner]. *)
Definition launch_args {S} (id cid : Z) (c : FunctionConfig) (odirect : option OdirectOption) :
    SM S (list string) :=
  network ← match mac c with
            | Some m => t ← unwrap (tap c); mret ["--tap-name"; t; "--mac"; m]
            | None => mret []
            end;
  mret (
    ["--id"; pretty id; "--kernel"; cfg_kernel c; "--memory"; pretty (cfg_memory c);
     "--vcpu"; pretty (vcpus c); "--rootfs"; runtimefs c; "--vsock-cid"; pretty cid] ++
    match appfs c with Some f => ["--appfs"; f] | None => [] end ++
    match load_dir c with
    | Some d => ["--load-dir"; d] ++ flag (copy_base c) "--copy-base" ++
                flag (copy_diff c) "--copy-diff" ++ flag (load_ws c) "--load-ws"
    | None => []
    end ++
    match dump_dir c with
    | Some d => ["--dump-to"; d] ++ flag (dump_ws c) "--dump-ws"
    | None => []
    end ++
    ["--kernel-args"; default "console=ttyS0" (cmdline c)] ++
    network ++
    match odirect with
    | Some o => flag (base o) "--odirect-base" ++ flag (negb (diff o)) "--no-odirect-diff" ++
                flag (negb (rootfs o)) "--no-odirect-root" ++
                flag (negb (od_appfs o)) "--no-odirect-app"
    | None => []
    end).

Definition exit {S A} : SM S A := panic.

(** ** State *)

(** [Worker]: its part of the machine's resource manager, its [SyscallGlobalEnv], and the
    connections of the launched VMs, by VM id. *)
Record Worker (St C N Ch Os : Type) : Type := MkWorker {
  localrm : LocalRM.ResourceManager C;
  env_fs : World St;
  env_blobstore : Blobstore;
  env_conn : option C;
  http : N;
  handles : gmap Z Ch;
  os : Os;
}.
Arguments MkWorker {St C N Ch Os} _ _ _ _ _ _ _.
Arguments localrm {St C N Ch Os} _.
Arguments env_fs {St C N Ch Os} _.
Arguments env_blobstore {St C N Ch Os} _.
Arguments env_conn {St C N Ch Os} _.
Arguments http {St C N Ch Os} _.
Arguments handles {St C N Ch Os} _.
Arguments os {St C N Ch Os} _.

Section worker.
Context {St C N Ch Os : Type} `{BS : !BackingStore St} `{L : !LabelOps} `{SD : !SerdeOps}.
Context `{DG : DigestOps} `{HX : !HexOps} `{CN : !Conn C} `{HC : !HttpClient N}.
Context `{SC : !SyscallChannel Ch} `{MR : !Message pb.Reply}.
Context `{MQ : !Message Request} `{MT : !Message TaskReturn} `{MS : !Message Response}.
Context `{LA : !Launcher Os Ch}.
Context (info_to_vec : ResourceInfo -> bytes).
(** Bounds on the loops below: rounds of eviction, messages of a run, redirects of a gate. *)
Context (evict_fuel run_fuel gate_fuel : nat).

Local Abbreviation S := (Worker St C N Ch Os).
Local Abbreviation M := (SM S).

Definition set_localrm (r : LocalRM.ResourceManager C) (s : S) : S :=
  MkWorker r (env_fs s) (env_blobstore s) (env_conn s) (http s) (handles s) (os s).
Definition set_env_blobstore (b : Blobstore) (s : S) : S :=
  MkWorker (localrm s) (env_fs s) b (env_conn s) (http s) (handles s) (os s).
Definition set_env_conn (c : option C) (s : S) : S :=
  MkWorker (localrm s) (env_fs s) (env_blobstore s) c (http s) (handles s) (os s).
Definition set_handles (h : gmap Z Ch) (s : S) : S :=
  MkWorker (localrm s) (env_fs s) (env_blobstore s) (env_conn s) (http s) h (os s).
Definition set_os (o : Os) (s : S) : S :=
  MkWorker (localrm s) (env_fs s) (env_blobstore s) (env_conn s) (http s) (handles s) o.

Definition on_rm {A} (m : SM (LocalRM.ResourceManager C) A) : M A := zoom localrm set_localrm m.
Definition on_store {A} (m : SM Blobstore A) : M A := zoom env_blobstore set_env_blobstore m.
Definition on_os {A} (m : SM Os A) : M A := zoom os set_os m.
Definition on_conn {A} (m : SM C A) : M A := fun s =>
  match env_conn s with
  | None => (Panic, s)
  | Some c => let '(a, c') := m c in (a, set_env_conn (Some c') s)
  end.

(** [vm.launch(..)]: the VM with its handle. *)
Definition launch (cid : Z) (force_exit : bool) (config : FunctionConfig)
    (odirect : option OdirectOption) (vm : Vm) : M (result Vm string) :=
  if launched vm then mret (Ok vm)
  else
    args ← launch_args (vm_id vm) cid config odirect;
    _ ?← on_os (spawn args);
    if force_exit then exit
    else
      conn ?← on_os accept;
      _ ← modify (fun s => set_handles (<[vm_id vm := conn]> (handles s)) s);
      mret (Ok (Vm_started vm)).

(** ** [Worker] *)

Definition try_allocate (f : Function) (payload_label : Buckle) : M (option Vm) :=
  cached ← on_rm (get_cached_vm info_to_vec f);
  match cached with
  | Some vm =>
      if can_flow_to (vm_label vm) payload_label then mret (Some vm)
      else
        _ ← on_rm (release info_to_vec vm);
        on_rm (new_vm info_to_vec evict_fuel f)
  | None => on_rm (new_vm info_to_vec evict_fuel f)
  end.

(** The configuration of one attempt; the blob store's directory is the default one. *)
Definition vm_config (f : Function) : M FunctionConfig :=
  k ← local_path_string "blobs" (kernel f);
  a ← local_path_string "blobs" (app_image f);
  r ← local_path_string "blobs" (runtime_image f);
  mret (set_images (default "" k) a (default "" r) (config_from f)).

(** The blobs of the invocation, in the order the map lists them. *)
Fixpoint open_blobs (bs : list (string * string)) : M (list (string * Blobstore.Blob)) :=
  match bs with
  | [] => mret []
  | (k, b) :: bs =>
      r ← on_store (open b);
      match r with
      | Ok b => rest ← open_blobs bs; mret ((k, b) :: rest)
      | Err _ => panic
      end
  end.

(** [SyscallProcessor::new(&mut self.env, label, privilege).run(.., &mut vm)]. *)
Definition process (label : Buckle) (privilege : Component) (payload : bytes)
    (blobs : list (string * Blobstore.Blob)) (hs : gmap string string)
    (invoker : option pb.Component) (vm : Vm) : M (result TaskReturn SyscallProcessorError) := fun s =>
  match handles s !! vm_id vm with
  | None => (Panic, s)
  | Some ch =>
      let p := new (env_fs s) (env_blobstore s) (env_conn s) (http s) ch label privilege in
      let '(r, p) := (invoker ← unwrap_component invoker;
                      run run_fuel gate_fuel payload blobs hs invoker) p in
      (r, MkWorker (localrm s) (fs p) (blobstore p) (sched_conn p) (http_client p)
            (<[vm_id vm := channel p]> (handles s)) (os s))
  end.

Definition wrap_i32 (z : Z) : Z := ((z + 2 ^ 31) mod 2 ^ 32 - 2 ^ 31)%Z.

(** The retry loop of one task: [cnt] attempts so far.  Nothing bounds the attempts that end in
    a failed launch. *)
Fixpoint retry (fuel : nat) (cid cnt : Z) (invoke : LabeledInvoke) (label : Buckle)
    (privilege : Component) (ret : TaskReturn) (vm : Vm) : M TaskReturn :=
  match fuel with
  | O => nofuel
  | Datatypes.S fuel =>
      let cnt := wrap_i32 (cnt + 1) in
      config ← vm_config (vm_function vm);
      l ← launch cid false config None vm;
      match l with
      | Err _ => retry fuel cid cnt invoke label privilege ret vm
      | Ok vm =>
          blobs ← open_blobs (map_to_list (sched.li_blobs invoke));
          r ← process label privilege (sched.li_payload invoke) blobs (sched.li_headers invoke)
                (sched.li_invoker invoke) vm;
          match r with
          | Ok result =>
              _ ← on_rm (release info_to_vec vm);
              mret result
          | Err _ =>
              if decide (cnt = 5%Z) then
                let ret := if launched vm then ret
                           else sched.MkTaskReturn (sched.code sched.LaunchFailed)
                                  (sched.return_payload ret) (sched.return_label ret) in
                _ ← on_rm (delete_vm info_to_vec vm);
                _ ← modify (fun s => set_handles (delete (vm_id vm) (handles s)) s);
                mret ret
              else retry fuel cid cnt invoke label privilege ret vm
          end
      end
  end.

(** One task: [Some(Kind::ProcessTask(r))]. *)
Definition process_task (fuel : nat) (cid : Z) (task_id : string)
    (labeled_invoke : option LabeledInvoke) : M unit :=
  match labeled_invoke with
  | None => mret tt
  | Some invoke =>
      label ← unwrap (sched.li_label invoke);
      label ← buckle_into label;
      privilege ← unwrap (sched.li_gate_privilege invoke);
      privilege ← component_into privilege;
      f ← unwrap (sched.li_function invoke);
      vm ← try_allocate (function_from_message f) label;
      current ← gets (fun s => current_label (env_fs s));
      let report code := sched.MkTaskReturn (sched.code code) None (Some (buckle_from current)) in
      ret ← match vm with
            | Some vm =>
                retry fuel cid 0 invoke label privilege (report sched.ProcessRequestFailed) vm
            | None => mret (report sched.ResourceExhausted)
            end;
      _ ← on_conn (finish task_id ret);
      mret tt
  end.

(** One turn of the loop of [wait_and_process]; [false] ends it. *)
Definition turn (fuel : nat) (thread_id cid : Z) : M bool :=
  r ← on_conn (get thread_id);
  match r with
  | Err _ => mret true
  | Ok resp =>
      match response_of resp with
      | Some Terminate => mret false
      | Some (ProcessTask task_id li) => _ ← process_task fuel cid task_id li; mret true
      | _ => mret true
      end
  end.

Fixpoint wait_and_process (turns fuel : nat) (thread_id cid : Z) : M unit :=
  match turns with
  | O => nofuel
  | Datatypes.S turns =>
      again ← turn fuel thread_id cid;
      if (again : bool) then wait_and_process turns fuel thread_id cid else mret tt
  end.
End worker.

(** ** What a worker reports *)

Section reports.
Context {St C N Ch Os : Type} `{BS : !BackingStore St} `{L : !LabelOps} `{SD : !SerdeOps}.
Context `{DG : DigestOps} `{HX : !HexOps} `{CN : !Conn C} `{HC : !HttpClient N}.
Context `{SC : !SyscallChannel Ch} `{MR : !Message pb.Reply}.
Context `{MQ : !Message Request} `{MT : !Message TaskReturn} `{MS : !Message Response}.
Context `{LA : !Launcher Os Ch}.
Context (info_to_vec : ResourceInfo -> bytes) (evict_fuel run_fuel gate_fuel : nat).
Implicit Types s : Worker St C N Ch Os.

(** The function's response is the only result of a run. *)
Definition succeeded {E} (r : result TaskReturn E) : Prop :=
  match r with Ok tr => sched.return_code tr = sched.code sched.Success | Err _ => True end.

Lemma reply_returns {A} (f : A -> pb.Reply) (m : SM (SysState St C N Ch) A) :
  Returns (fun r => match r with Ok o => o = None | Err _ => True end) (SysServer.reply f m).
Proof.
  apply returns_then. intros a. apply returns_try; [|done]. intros []. by apply returns_ret.
Qed.

Lemma do_syscall_returns gf sc :
  Returns (fun r => match r with Ok (Some tr) => sched.return_code tr = sched.code sched.Success
                    | _ => True end)
    (do_syscall (St:=St) (C:=C) (N:=N) (Ch:=Ch) gf sc).
Proof.
  destruct sc; cbn [do_syscall];
    try (intros s0 a s1 E; apply reply_returns in E; destruct a; [by subst|done]).
  - apply returns_then. intros p. apply returns_then. intros l. by apply returns_ret.
  - apply returns_then. intros. apply returns_panic.
  - apply returns_panic.
Qed.

Lemma serve_returns fuel gf : Returns succeeded (serve (St:=St) (C:=C) (N:=N) (Ch:=Ch) fuel gf).
Proof.
  induction fuel as [|fuel IH]; cbn [serve]; [apply returns_nofuel|].
  apply returns_then. intros w. apply returns_try; [|done]. intros [sc|]; [|done].
  eapply returns_bind; [apply do_syscall_returns|].
  intros [[tr|]|e] H; [by apply returns_ret|done|by apply returns_ret].
Qed.

Lemma process_returns label privilege payload blobs hs invoker vm :
  Returns succeeded (process (Os:=Os) run_fuel gate_fuel label privilege payload blobs hs
    invoker vm : SM (Worker St C N Ch Os) _).
Proof.
  intros s r s' E. unfold process in E. destruct (handles s !! vm_id vm) as [ch|]; [|done].
  destruct ((unwrap_component invoker ≫= _) _) as [r1 p1] eqn:Er. injection E as -> _.
  revert Er. apply (returns_then succeeded). intros iv. apply returns_then. intros bs.
  apply returns_then. intros inv.
  apply returns_try; [|done]. intros []. apply serve_returns.
Qed.

(** A launched VM is the one that was asked for, with its handle. *)
Lemma launch_returns cid force config odirect vm :
  Returns (fun r => match r with Ok vm' => vm' = Vm_started vm | Err _ => True end)
    (launch cid force config odirect vm : SM (Worker St C N Ch Os) _).
Proof.
  unfold launch. destruct (launched vm) eqn:El.
  { apply returns_ret. destruct vm; cbn in *. by subst. }
  apply returns_then. intros args. apply returns_try; [|done]. intros [].
  destruct force; [apply returns_panic|]. apply returns_try; [|done]. intros conn.
  apply returns_then. intros []. by apply returns_ret.
Qed.

(** The code of a task that was given a VM. *)
Definition attempted (ret : TaskReturn) : Prop :=
  sched.return_code ret = sched.code sched.Success \/
  sched.return_code ret = sched.code sched.ProcessRequestFailed.

Lemma retry_returns fuel cid cnt invoke label privilege ret vm :
  attempted ret ->
  Returns attempted (retry info_to_vec run_fuel gate_fuel fuel cid cnt invoke label privilege ret vm
    : SM (Worker St C N Ch Os) _).
Proof.
  intros Hret. revert cnt vm. induction fuel as [|fuel IH]; intros cnt vm; cbn [retry];
    [apply returns_nofuel|].
  apply returns_then. intros config. eapply returns_bind; [apply launch_returns|].
  intros [vm'|e] Hvm; [|apply IH]. subst vm'.
  apply returns_then. intros blobs. eapply returns_bind; [apply process_returns|]. intros [r|e] Hr.
  - apply returns_then. intros []. apply returns_ret. by left.
  - case_decide; [|apply IH]. apply returns_then. intros []. apply returns_then. intros [].
    by apply returns_ret.
Qed.

(** Operations on the resource manager touch nothing else. *)
Definition only_rm : relation (Worker St C N Ch Os) := fun s s' => s' = set_localrm (localrm s') s.
#[local] Instance only_rm_preorder : PreOrder only_rm.
Proof. split; [by intros []|]. unfold only_rm. by intros [] [] [] -> ->. Qed.

Lemma on_rm_only {A} (m : SM (LocalRM.ResourceManager C) A) : Guar only_rm (on_rm (St:=St) m).
Proof. intros s. unfold on_rm, zoom, only_rm. by destruct (m (localrm s)). Qed.
#[local] Hint Resolve on_rm_only : guar.

Lemma try_allocate_only f label :
  Guar only_rm (try_allocate info_to_vec evict_fuel f label : SM (Worker St C N Ch Os) _).
Proof. unfold try_allocate. solve_guar. Qed.

(** What [process_task] does before it has a VM. *)
Lemma process_task_start fuel cid task_id invoke s s' :
  process_task info_to_vec evict_fuel run_fuel gate_fuel fuel cid task_id (Some invoke) s =
    (Val tt, s') ->
  exists f label privilege vm s1 ret s2 r,
    sched.li_function invoke = Some f /\
    try_allocate info_to_vec evict_fuel (function_from_message f) label s = (Val vm, s1) /\
    let report code := sched.MkTaskReturn (sched.code code) None
                         (Some (buckle_from (current_label (env_fs s1)))) in
    match vm with
    | Some vm => retry info_to_vec run_fuel gate_fuel fuel cid 0 invoke label privilege
                   (report sched.ProcessRequestFailed) vm s1 = (Val ret, s2)
    | None => ret = report sched.ResourceExhausted /\ s2 = s1
    end /\
    on_conn (finish task_id ret) s2 = (Val r, s').
Proof.
  unfold process_task. intros H.
  apply bind_val in H as (l & s1 & E1 & H).
  pose proof (guar_unwrap (R:=eq) (sched.li_label invoke) s) as K. rewrite E1 in K. cbn in K. subst s1.
  apply bind_val in H as (label & s1 & E2 & H).
  pose proof (guar_buckle_into (R:=eq) l s) as K. rewrite E2 in K. cbn in K. subst s1.
  apply bind_val in H as (p & s1 & E3 & H).
  pose proof (guar_unwrap (R:=eq) (sched.li_gate_privilege invoke) s) as K. rewrite E3 in K.
  cbn in K. subst s1.
  apply bind_val in H as (privilege & s1 & E4 & H).
  pose proof (guar_component_into (R:=eq) p s) as K. rewrite E4 in K. cbn in K. subst s1.
  destruct (sched.li_function invoke) as [f|]; [|done].
  apply bind_val in H as (f' & s1 & [= <- <-] & H).
  apply bind_val in H as (vm & s1 & E & H).
  apply bind_val in H as (cur & s1' & [= <- <-] & H).
  apply bind_val in H as (ret & s2 & Er & H).
  apply bind_val in H as (r & s3 & Ef & [= <-]).
  exists f, label, privilege, vm, s1, ret, s2, r. split_and!; [done|done| |done].
  destruct vm as [vm|]; [exact Er|]. by injection Er as <- <-.
Qed.

(** A task ends with exactly one message to the scheduler beyond those of the function: the
    result of that task.  Its code is [ResourceExhausted] when there was no VM for it, and then
    no file was touched; otherwise it is the function's response or [ProcessRequestFailed],
    never [LaunchFailed]: a launched VM is all the final attempt can have. *)
Theorem task_reported fuel cid task_id invoke s s' :
  process_task info_to_vec evict_fuel run_fuel gate_fuel fuel cid task_id (Some invoke) s =
    (Val tt, s') ->
  exists s1 c r ret c', env_conn s1 = Some c /\ finish task_id ret c = (Val r, c') /\
    s' = set_env_conn (Some c') s1 /\
    sched.return_code ret <> sched.code sched.LaunchFailed /\
    ((sched.return_code ret = sched.code sched.ResourceExhausted /\ env_fs s1 = env_fs s) \/
     attempted ret).
Proof.
  intros (f & label & privilege & vm & s1 & ret & s2 & r & _ & Ea & Hr & Hf)%process_task_start.
  unfold on_conn in Hf. destruct (env_conn s2) as [c|] eqn:Ec; [|done].
  destruct (finish task_id ret c) as [a c'] eqn:Efin. injection Hf as -> <-.
  exists s2, c, r, ret, c'.
  pose proof (try_allocate_only (function_from_message f) label s) as Ho.
  rewrite Ea in Ho. cbn in Ho. destruct vm as [vm|].
  - assert (Hc : attempted ret) by (revert Hr; apply retry_returns; by right).
    split_and!; [done..| |by right]. by destruct Hc as [-> | ->].
  - destruct Hr as [-> ->]. split_and!; [done..|]. left. split; [done|]. by rewrite Ho.
Qed.

(** ** Attempts *)

Lemma launch_launched cid force config odirect vm s :
  launched vm = true -> launch cid force config odirect vm s = (Val (Ok vm), s).
Proof. intros H. unfold launch. by rewrite H. Qed.

Lemma retry_step f1 f2 cid cnt invoke label privilege ret vm s :
  launched vm = true ->
  (wrap_i32 (cnt + 1) = 5%Z \/ forall s',
    retry info_to_vec run_fuel gate_fuel f1 cid (wrap_i32 (cnt + 1)) invoke label privilege ret vm s' =
    retry info_to_vec run_fuel gate_fuel f2 cid (wrap_i32 (cnt + 1)) invoke label privilege ret vm s') ->
  retry info_to_vec run_fuel gate_fuel (Datatypes.S f1) cid cnt invoke label privilege ret vm s =
  retry info_to_vec run_fuel gate_fuel (Datatypes.S f2) cid cnt invoke label privilege ret vm s.
Proof.
  intros Hl Hgo. cbn [retry]. apply bind_ext. intros config s1.
  rewrite !(bind_step (launch cid false config None vm) _ s1 (Ok vm) s1)
    by (by apply launch_launched).
  apply bind_ext. intros blobs s2. apply bind_ext. intros [r|e] s3; [done|].
  case_decide as Hd; [done|]. by destruct Hgo as [?|Hgo].
Qed.

Lemma retry_fuel n k cid invoke label privilege ret vm s :
  launched vm = true -> (n < 5)%nat ->
  retry info_to_vec run_fuel gate_fuel (Datatypes.S n + k) cid (4 - Z.of_nat n) invoke label
    privilege ret vm s =
  retry info_to_vec run_fuel gate_fuel (Datatypes.S n) cid (4 - Z.of_nat n) invoke label
    privilege ret vm s.
Proof.
  intros Hl. revert s. induction n as [|n IH]; intros s Hn; apply retry_step; [done|by left|done|].
  right. intros s'.
  replace (wrap_i32 (4 - Z.of_nat (Datatypes.S n) + 1)) with (4 - Z.of_nat n)%Z
    by (unfold wrap_i32; rewrite Z.mod_small; lia).
  apply IH. lia.
Qed.

(** A VM that is launched serves at most five attempts: the loop then ends by itself, whatever
    fuel is left. *)
Theorem attempts_bounded k cid invoke label privilege ret vm s :
  launched vm = true ->
  retry info_to_vec run_fuel gate_fuel (5 + k) cid 0 invoke label privilege ret vm s =
  retry info_to_vec run_fuel gate_fuel 5 cid 0 invoke label privilege ret vm s.
Proof. intros Hl. apply (retry_fuel 4); [done|lia]. Qed.

Lemma launch_args_total {S} id cid c odirect (s : S) :
  mac c = None -> exists args, launch_args id cid c odirect s = (Val args, s).
Proof. intros Hm. unfold launch_args. rewrite Hm. by eexists. Qed.

(** When no process can be spawned, the loop never ends: a failed launch goes back to the
    start of the loop past the check of the number of attempts. *)
Theorem launch_failure_spins fuel cid cnt invoke label privilege ret vm s :
  launched vm = false ->
  (forall args o, exists e o', spawn args o = (Val (Err e), o')) ->
  (forall s, exists c, vm_config (vm_function vm) s = (Val c, s) /\ mac c = None) ->
  (retry info_to_vec run_fuel gate_fuel fuel cid cnt invoke label privilege ret vm s).1 = NoFuel.
Proof.
  intros Hl Hs Hc. revert cnt s. induction fuel as [|fuel IH]; intros cnt s; cbn [retry]; [done|].
  destruct (Hc s) as (c & E & Hm). rewrite (bind_step _ _ _ _ _ E).
  assert (El : exists e s', launch cid false c None vm s = (Val (Err e), s')).
  { unfold launch. rewrite Hl.
    destruct (launch_args_total (vm_id vm) cid c None s Hm) as (args & Ea).
    destruct (Hs args (os s)) as (e & o & Es). exists e, (set_os o s).
    rewrite (bind_step _ _ _ _ _ Ea). unfold try_bind.
    rewrite (bind_step (on_os (spawn args)) _ s (Err e) (set_os o s)); [done|].
    unfold on_os, zoom. by rewrite Es. }
  destruct El as (e & s' & El). rewrite (bind_step _ _ _ _ _ El). apply IH.
Qed.

(** ** The VMs a task takes and gives back *)

(** Everything else leaves the resource manager alone. *)
Definition same_rm : relation (Worker St C N Ch Os) := fun s s' => localrm s' = localrm s.
#[local] Instance same_rm_preorder : PreOrder same_rm.
Proof. split; [done|]. unfold same_rm. by intros ? ? ? -> ->. Qed.

Lemma on_store_same {A} (m : SM Blobstore A) : Guar same_rm (on_store (Os:=Os) m).
Proof. intros s. unfold on_store, zoom. by destruct (m (env_blobstore s)). Qed.
Lemma on_os_same {A} (m : SM Os A) : Guar same_rm (on_os (St:=St) m).
Proof. intros s. unfold on_os, zoom. by destruct (m (os s)). Qed.
Lemma on_conn_same {A} (m : SM C A) : Guar same_rm (on_conn (St:=St) m).
Proof. intros s. unfold on_conn. destruct (env_conn s) as [c|]; [|done]. by destruct (m c). Qed.
Lemma set_handles_same f : Guar same_rm (modify (fun s => set_handles (f s) s)).
Proof. done. Qed.
Lemma process_same label privilege payload blobs hs invoker vm :
  Guar same_rm (process run_fuel gate_fuel label privilege payload blobs hs invoker vm).
Proof.
  intros s. unfold process. destruct (handles s !! vm_id vm) as [ch|]; [|done].
  by destruct ((unwrap_component invoker ≫= _) _).
Qed.
#[local] Hint Resolve on_store_same on_os_same on_conn_same set_handles_same process_same : guar.

Lemma launch_same cid force config odirect vm : Guar same_rm (launch cid force config odirect vm).
Proof. unfold launch, launch_args, exit. solve_guar. Qed.
Lemma vm_config_same f : Guar same_rm (vm_config f).
Proof. unfold vm_config, local_path_string, split_at_2. solve_guar. Qed.
Lemma open_blobs_same bs : Guar same_rm (open_blobs bs).
Proof. induction bs as [|[k b] bs IH]; cbn [open_blobs]; solve_guar. Qed.
#[local] Hint Resolve launch_same vm_config_same open_blobs_same : guar.

Lemma same_step {A} (m : SM (Worker St C N Ch Os) A) s a s' :
  Guar same_rm m -> m s = (a, s') -> localrm s' = localrm s.
Proof. intros Hm E. specialize (Hm s). by rewrite E in Hm. Qed.

Lemma on_rm_val {A} (m : SM (LocalRM.ResourceManager C) A) s a s' :
  on_rm m s = (Val a, s') -> m (localrm s) = (Val a, localrm s').
Proof.
  unfold on_rm, zoom. destruct (m (localrm s)) as [x r]. by intros [= -> <-].
Qed.

Local Abbreviation managed s out s' out' :=
  (rtc (rm_step info_to_vec) (localrm s, out) (localrm s', out')).

Lemma new_vm_managed f s v s' out :
  (0 <= memory f)%Z -> on_rm (new_vm info_to_vec evict_fuel f) s = (Val v, s') ->
  managed s out s' (match v with Some v => v :: out | None => out end).
Proof.
  intros Hm E%on_rm_val. apply rtc_once.
  destruct v; [by eapply rm_new_vm|by eapply rm_new_none].
Qed.

(** Allocation is a few steps of the manager, the last of which hands the VM out. *)
Lemma try_allocate_managed f label s v s' out :
  (0 <= memory f)%Z -> try_allocate info_to_vec evict_fuel f label s = (Val v, s') ->
  managed s out s' (match v with Some v => v :: out | None => out end).
Proof.
  intros Hm (o & s1 & E & H)%bind_val. apply on_rm_val in E. destruct o as [v0|].
  - destruct (can_flow_to (vm_label v0) label).
    + injection H as <- <-. apply rtc_once. by eapply rm_get.
    + apply bind_val in H as ([] & s2 & Er & H). apply on_rm_val in Er.
      eapply rtc_l; [exact (rm_get info_to_vec _ _ _ _ _ E)|].
      eapply rtc_l; [exact (rm_release info_to_vec v0 _ _ [] out Er)|].
      by apply (new_vm_managed f).
  - eapply rtc_l; [exact (rm_get_none info_to_vec _ _ _ _ E)|]. by apply (new_vm_managed f).
Qed.

Lemma started_id v : launched v = true -> Vm_started v = v.
Proof. destruct v. cbn. by intros ->. Qed.

Lemma retry_managed fuel cid cnt invoke label privilege ret0 vm s ret s' out :
  retry info_to_vec run_fuel gate_fuel fuel cid cnt invoke label privilege ret0 vm s =
    (Val ret, s') ->
  managed s (vm :: out) s' out.
Proof.
  revert cnt vm s. induction fuel as [|fuel IH]; intros cnt vm s; cbn [retry]; [done|].
  intros (config & s1 & E1 & H)%bind_val. apply (same_step _ _ _ _ (vm_config_same _)) in E1.
  apply bind_val in H as (l & s2 & E2 & H). pose proof (launch_returns _ _ _ _ _ _ _ _ E2) as Hl.
  apply (same_step _ _ _ _ (launch_same _ _ _ _ _)) in E2.
  destruct l as [vm'|e]; [|rewrite <- E1, <- E2; by eapply IH]. subst vm'.
  apply bind_val in H as (blobs & s3 & E3 & H). apply (same_step _ _ _ _ (open_blobs_same _)) in E3.
  apply bind_val in H as (r & s6 & E6 & H).
  apply (same_step _ _ _ _ (process_same _ _ _ _ _ _ _)) in E6.
  eapply rtc_l; [exact (rm_launch info_to_vec vm (localrm s) [] out)|]. cbn [app].
  rewrite <- E1, <- E2, <- E3, <- E6. destruct r as [r|e].
  - apply bind_val in H as ([] & s7 & E7%on_rm_val & [= <- <-]). apply rtc_once.
    exact (rm_release info_to_vec (Vm_started vm) _ _ [] out E7).
  - case_decide; [|by eapply IH].
    apply bind_val in H as ([] & s7 & E7%on_rm_val & H).
    apply bind_val in H as ([] & s8 & [= <-] & [= <- <-]). apply rtc_once.
    exact (rm_delete info_to_vec (Vm_started vm) _ _ [] out E7).
Qed.

(** A task that ends has given back the VM it took: seen from the resource manager it is a
    sequence of the manager's own steps that takes, launches, releases and deletes VMs and
    starts and ends with the same VMs in use.  With the conservation of memory, no task leaks
    memory of the machine. *)
Theorem task_returns_vm fuel cid task_id invoke s s' out :
  process_task info_to_vec evict_fuel run_fuel gate_fuel fuel cid task_id (Some invoke) s =
    (Val tt, s') ->
  rtc (rm_step info_to_vec) (localrm s, out) (localrm s', out).
Proof.
  intros (f & label & privilege & vm & s1 & ret & s2 & r & _ & Ea & Hr & Hf)%process_task_start.
  apply (same_step _ _ _ _ (on_conn_same _)) in Hf. rewrite Hf.
  assert (Hm : (0 <= memory (function_from_message f))%Z)
    by (apply Z.mod_pos_bound; done).
  pose proof (try_allocate_managed _ _ _ _ _ out Hm Ea) as Hs.
  destruct vm as [vm|]; [|by destruct Hr as [_ ->]].
  etrans; [exact Hs|]. by eapply retry_managed.
Qed.
End reports.

(** ** The labels of VMs *)

Section vm_labels.
Context {C : Type} `{CN : !Conn C} `{MQ : !Message Request} `{L : !LabelOps}.
Context (info_to_vec : ResourceInfo -> bytes).
Implicit Types r : LocalRM.ResourceManager C.

Definition public_vm (v : Vm) : Prop := vm_label v = public.
Definition public_cache (c : gmap Function (list Vm)) : Prop :=
  map_Forall (fun _ l => Forall public_vm l) c.
Definition keeps_public : relation (LocalRM.ResourceManager C) :=
  fun r r' => public_cache (cache r) -> public_cache (cache r').
#[local] Instance keeps_public_preorder : PreOrder keeps_public.
Proof. split; [by intros r H|]. intros r1 r2 r3 H1 H2 H. by apply H2, H1. Qed.

Lemma public_left_over c : public_cache c -> public_cache (left_over c).
Proof.
  intros Hc f l. unfold left_over. rewrite lookup_fmap_Some. intros (l0 & <- & Hl).
  specialize (Hc f l0 Hl). cbn in Hc. pose proof (vec_pop_spec l0) as Hp.
  destruct (vec_pop l0) as [[v|] l']; cbn; [|destruct Hp as [_ ->]; constructor].
  subst l0. by apply Forall_app in Hc as [? _].
Qed.

Lemma public_insert c f l :
  public_cache c -> Forall public_vm l -> public_cache (<[f := l]> c).
Proof. intros Hc Hl. apply map_Forall_insert_2; [exact Hl|exact Hc]. Qed.

Lemma evict_public fuel mem freed : Guar keeps_public (evict_rounds fuel mem freed).
Proof.
  revert freed. induction fuel as [|fuel IH]; intros freed; cbn [evict_rounds]; solve_guar.
  intros r Hr. by apply public_left_over.
Qed.
#[local] Hint Resolve evict_public : guar.

Lemma new_vm_public fuel f : Guar keeps_public (new_vm info_to_vec fuel f).
Proof. unfold new_vm, try_allocate_memory, dummy_evict. solve_guar; intros r Hr; exact Hr. Qed.

Lemma new_vm_returns fuel f :
  Returns (fun o => forall v, o = Some v -> public_vm v /\ launched v = false)
    (new_vm info_to_vec fuel f).
Proof.
  apply returns_then. intros ok. apply returns_then. intros id. apply returns_then. intros [].
  apply returns_ret. destruct ok; [|done]. by intros v [= <-].
Qed.

(** Every VM that is cached or in use has the label it was made with. *)
Definition all_public (p : LocalRM.ResourceManager C * list Vm) : Prop :=
  public_cache (cache p.1) /\ Forall public_vm p.2.

Lemma get_public f r v r' :
  public_cache (cache r) -> get_cached_vm info_to_vec f r = (Val v, r') ->
  public_cache (cache r') /\ (forall w, v = Some w -> public_vm w).
Proof.
  intros Hc. unfold get_cached_vm, mbind, SM_bind.
  destruct (cache r !! f) as [l|] eqn:El.
  - pose proof (vec_pop_spec l) as Hp. destruct (vec_pop l) as [o l'].
    pose proof (Hc f l El) as Hl. cbn in Hl. cbn. intros [= <- <-]. destruct o as [w|].
    + subst l. apply Forall_app in Hl as [Hl Hw]. apply Forall_cons_iff in Hw as [Hw _].
      split; [by apply public_insert|]. by intros ? [= <-].
    + destruct Hp as [_ ->]. split; [by apply public_insert|done].
  - cbn. by intros [= <- <-].
Qed.

Lemma rm_step_public p p' : all_public p -> rm_step info_to_vec p p' -> all_public p'.
Proof.
  intros [Hc Ho] Hs. destruct Hs as [f v r r' out E|f r r' out E|fuel f v r r' out Hm E
    |fuel f r r' out Hm E|v r r' out1 out2 E|v r r' out1 out2 E|v r out1 out2]; cbn [fst snd] in *.
  - destruct (get_public _ _ _ _ Hc E) as [Hc' Hv]. split; [done|]. constructor; [by apply Hv|done].
  - by destruct (get_public _ _ _ _ Hc E) as [Hc' _].
  - pose proof (new_vm_public fuel f r) as Hn. rewrite E in Hn. split; [by apply Hn|].
    constructor; [|done]. by apply (new_vm_returns fuel f _ _ _ E).
  - pose proof (new_vm_public fuel f r) as Hn. rewrite E in Hn. split; [by apply Hn|done].
  - apply Forall_app in Ho as [Ho1 Ho2]. apply Forall_cons_iff in Ho2 as [Hv Ho2].
    split; [|by apply Forall_app]. injection E as <-. cbn.
    destruct (cache r !! vm_function v) as [l|] eqn:El; apply public_insert; try done.
    + apply Forall_app. split; [exact (Hc _ _ El)|by constructor].
    + by constructor.
  - apply Forall_app in Ho as [Ho1 Ho2]. apply Forall_cons_iff in Ho2 as [Hv Ho2].
    split; [|by apply Forall_app]. by injection E as <-.
  - apply Forall_app in Ho as [Ho1 Ho2]. apply Forall_cons_iff in Ho2 as [Hv Ho2].
    split; [done|]. apply Forall_app. split; [done|by constructor].
Qed.
End vm_labels.

Section reuse.
Context {St C N Ch Os : Type} `{BS : !BackingStore St} `{L : !LabelOps} `{LL : !LabelLaws}.
Context `{DG : DigestOps} `{CN : !Conn C} `{MQ : !Message Request}.
Context (info_to_vec : ResourceInfo -> bytes) (evict_fuel : nat).
Implicit Types s : Worker St C N Ch Os.

Lemma public_flow l : can_flow_to public l = implies dc_true (integrity l).
Proof. rewrite flow_spec, public_spec. cbn. by rewrite implies_true. Qed.

(** C32: The label check at allocation does not see what a VM has run.  In every state that workers
    reach, the VM cached last for a function is handed out to a task exactly when the task's
    label asks for no integrity, whatever secrets the tasks it served before were labelled with:
    no operation changes the label a VM is made with.  A task whose label asks for integrity
    gets a VM that was never launched, or none. *)
Theorem vm_reuse_ignores_taint mem conn s out f l v label :
  rtc (rm_step info_to_vec) (rm_new mem conn, []) (localrm s, out) ->
  cache (localrm s) !! f = Some (l ++ [v]) ->
  (implies dc_true (integrity label) = true ->
     (try_allocate info_to_vec evict_fuel f label s).1 = Val (Some v)) /\
  (implies dc_true (integrity label) = false ->
     forall w, (try_allocate info_to_vec evict_fuel f label s).1 = Val (Some w) ->
       launched w = false).
Proof.
  intros Hr Hl.
  assert (Hp : all_public (localrm s, out)).
  { apply (rtc_invariant (rm_step info_to_vec) all_public (rm_new mem conn, [])); [|exact Hr|].
    - intros p p'. apply rm_step_public.
    - split; [apply map_Forall_empty|constructor]. }
  destruct Hp as [Hc _]. pose proof (Hc f _ Hl) as Hv. cbn in Hv.
  apply Forall_app in Hv as [_ Hv]. apply Forall_cons_iff in Hv as [Hv _].
  assert (E : exists s1, on_rm (get_cached_vm info_to_vec f) s = (Val (Some v), s1)).
  { unfold on_rm, zoom, get_cached_vm, mbind, SM_bind. rewrite Hl, vec_pop_snoc. by eexists. }
  destruct E as (s1 & E). unfold try_allocate. rewrite (bind_step _ _ _ _ _ E).
  rewrite Hv, public_flow. split; intros ->; [done|]. intros w Hw.
  refine (returns_fst (fun o => forall w, o = Some w -> launched w = false) _ _ _ _ Hw w eq_refl).
  apply returns_then. intros [] s2 o s3 Hn%on_rm_val w' ->.
  by apply (new_vm_returns info_to_vec evict_fuel f _ _ _ Hn).
Qed.
End reuse.
