(* ===== verification/Machine.v ===== *)
(** * The workers of one machine ([snapfaas/bins/multivm/main.rs], [snapfaas/src/worker.rs])

    [multivm] starts a pool of workers that share the resource manager behind a lock.  Here they
    are interleaved: a step is what one worker does while it holds the lock, or to the VM it
    holds.  [TaskRun.task_served] shows that a task of Worker.v is a sequence of such steps. *)

From stdpp Require Import base tactics option list gmap strings countable.
From S2P Require Import Prelude Labels Store FsTypes Objects Fs Syscalls.
From S2P Require Import Blobstore Message SysServer LocalRM Worker.

(** ** State *)

(** The connections of the launched VMs, by VM, and what each worker, by its number, holds; a
    worker whose thread has panicked is gone. *)
Record Machine (C Ch : Type) : Type := MkMachine {
  rm : LocalRM.ResourceManager C;
  conns : gmap Z Ch;
  workers : gmap Z (option Vm);
}.
Arguments MkMachine {C Ch} _ _ _.
Arguments rm {C Ch} _.
Arguments conns {C Ch} _.
Arguments workers {C Ch} _.

Section machine.
Context {C Ch : Type} `{CN : !Conn C} `{MQ : !Message Request} `{L : !LabelOps}.
Context (info_to_vec : ResourceInfo -> bytes) (evict_fuel : nat).

(** [Worker::try_allocate], which keeps the lock from the first call to the last. *)
Definition allocate (f : Function) (payload_label : Buckle) :
    SM (LocalRM.ResourceManager C) (option Vm) :=
  cached ← get_cached_vm info_to_vec f;
  match cached with
  | Some vm =>
      if can_flow_to (vm_label vm) payload_label then mret (Some vm)
      else
        _ ← release info_to_vec vm;
        new_vm info_to_vec evict_fuel f
  | None => new_vm info_to_vec evict_fuel f
  end.

(** [new_workerpool]: a worker for every 128 MB, none of which holds a VM; [multivm] gives the
    manager its memory first. *)
Definition new_workerpool (r : LocalRM.ResourceManager C) : Machine C Ch :=
  MkMachine r ∅ (list_to_map ((fun i => ((i + 100)%Z, None)) <$> seqZ 0 (total_mem r / 128))).

(** What worker [w] does for a task whose function is [f] and whose label is [label]. *)
Inductive worker_step (w : Z) (f : Function) (label : Buckle) : relation (Machine C Ch) :=
  | m_allocate o r' m :
      workers m !! w = Some None -> (0 <= memory f)%Z ->
      allocate f label (rm m) = (Val o, r') ->
      worker_step w f label m (MkMachine r' (conns m) (<[w := o]> (workers m)))
  | m_launch v ch m :
      workers m !! w = Some (Some v) -> launched v = false ->
      worker_step w f label m
        (MkMachine (rm m) (<[vm_id v := ch]> (conns m)) (<[w := Some (Vm_started v)]> (workers m)))
  | m_talk v ch ch' m :
      workers m !! w = Some (Some v) -> conns m !! vm_id v = Some ch ->
      worker_step w f label m (MkMachine (rm m) (<[vm_id v := ch']> (conns m)) (workers m))
  | m_release v r' m :
      workers m !! w = Some (Some v) -> launched v = true ->
      release info_to_vec v (rm m) = (Val tt, r') ->
      worker_step w f label m (MkMachine r' (conns m) (<[w := None]> (workers m)))
  | m_delete v r' m :
      workers m !! w = Some (Some v) -> delete_vm info_to_vec v (rm m) = (Val tt, r') ->
      worker_step w f label m (MkMachine r' (delete (vm_id v) (conns m)) (<[w := None]> (workers m))).

(** The workers, one at a time. *)
Inductive machine_step : relation (Machine C Ch) :=
  | m_work w f label m m' : worker_step w f label m m' -> machine_step m m'
  (** the thread panics: the VM is dropped, and its memory never given back *)
  | m_panic w o m :
      workers m !! w = Some o -> machine_step m (MkMachine (rm m) (conns m) (delete w (workers m))).
End machine.

(** ** The VMs of a machine *)

Definition cached_vms (c : gmap Function (list Vm)) : list Vm := concat (snd <$> map_to_list c).
Definition held_vms (ws : gmap Z (option Vm)) : list Vm := omap snd (map_to_list ws).

Lemma cached_vms_insert_new c f l : c !! f = None -> cached_vms (<[f := l]> c) ≡ₚ l ++ cached_vms c.
Proof. intros H. unfold cached_vms. by rewrite map_to_list_insert. Qed.

Lemma cached_vms_insert c f l :
  cached_vms (<[f := l]> c) ++ default [] (c !! f) ≡ₚ l ++ cached_vms c.
Proof.
  destruct (c !! f) as [l0|] eqn:E; cbn [default from_option id].
  - rewrite <- (insert_delete_eq c f l).
    assert (Hc : cached_vms c ≡ₚ l0 ++ cached_vms (delete f c)).
    { rewrite <- cached_vms_insert_new by apply lookup_delete_eq. by rewrite insert_delete_id. }
    rewrite cached_vms_insert_new by apply lookup_delete_eq. rewrite Hc. solve_Permutation.
  - rewrite app_nil_r. by apply cached_vms_insert_new.
Qed.

Lemma held_vms_insert_new ws w o : ws !! w = None -> held_vms (<[w := o]> ws) ≡ₚ option_list o ++ held_vms ws.
Proof. intros H. unfold held_vms. rewrite map_to_list_insert by done. by destruct o. Qed.

Lemma held_vms_delete ws w o : ws !! w = Some o -> held_vms ws ≡ₚ option_list o ++ held_vms (delete w ws).
Proof.
  intros H. rewrite <- held_vms_insert_new by apply lookup_delete_eq. by rewrite insert_delete_id.
Qed.
Lemma held_vms_insert ws w o o' :
  ws !! w = Some o -> held_vms (<[w := o']> ws) ++ option_list o ≡ₚ option_list o' ++ held_vms ws.
Proof.
  intros H. rewrite <- (insert_delete_eq ws w o'), held_vms_insert_new by apply lookup_delete_eq.
  rewrite (held_vms_delete ws w o H). solve_Permutation.
Qed.

(** A round of eviction takes VMs out. *)
Lemma left_over_vms c : cached_vms (left_over c) ⊆+ cached_vms c.
Proof.
  induction c as [|f l c Hf IH] using map_ind; [done|].
  unfold left_over in *. rewrite fmap_insert.
  rewrite !cached_vms_insert_new by (rewrite ?lookup_fmap, ?Hf; done).
  apply submseteq_app; [|done]. pose proof (vec_pop_spec l) as Hp.
  destruct (vec_pop l) as [[v|] l']; cbn [snd].
  - subst l. by apply submseteq_inserts_r.
  - by destruct Hp as [-> ->].
Qed.

(** ** What each operation does to them *)

Section operations.
Context {C : Type} `{CN : !Conn C} `{MQ : !Message Request} `{L : !LabelOps}.
Context (info_to_vec : ResourceInfo -> bytes).
Implicit Types r : LocalRM.ResourceManager C.
Local Abbreviation vms r := (cached_vms (cache r)).

Lemma get_vms f r o r' :
  get_cached_vm info_to_vec f r = (Val o, r') ->
  option_list o ++ vms r' ≡ₚ vms r /\ total_num_vms r' = total_num_vms r.
Proof.
  unfold get_cached_vm, mbind, SM_bind. destruct (cache r !! f) as [l|] eqn:El.
  - pose proof (vec_pop_spec l) as Hp. pose proof (cached_vms_insert (cache r) f) as Hi.
    destruct (vec_pop l) as [x l']. cbn. intros [= <- <-]. cbn [cache total_num_vms]. split; [|done].
    specialize (Hi l'). rewrite El in Hi. cbn in Hi. destruct x as [v|].
    + subst l. apply (Permutation_app_inv_l l'). rewrite <- Hi. cbn. solve_Permutation.
    + destruct Hp as [-> ->]. cbn in *. by rewrite app_nil_r in Hi.
  - cbn. by intros [= <- <-].
Qed.

Lemma release_vms v r : vms (release info_to_vec v r).2 ≡ₚ v :: vms r.
Proof.
  unfold release. rewrite (bind_step (modify _) _ r tt _ eq_refl). cbn [snd update_scheduler modify cache set_cache].
  destruct (cache r !! vm_function v) as [l|] eqn:El.
  - pose proof (cached_vms_insert (cache r) (vm_function v) (l ++ [v])) as Hi. rewrite El in Hi.
    cbn in Hi. apply (Permutation_app_inv_r l). rewrite Hi. solve_Permutation.
  - pose proof (cached_vms_insert (cache r) (vm_function v) [v]) as Hi. rewrite El in Hi.
    cbn in Hi. by rewrite app_nil_r in Hi.
Qed.
Lemma release_total v r : total_num_vms (release info_to_vec v r).2 = total_num_vms r.
Proof. done. Qed.

Lemma evict_vms fuel mem freed r :
  vms (evict_rounds fuel mem freed r).2 ⊆+ vms r /\
  total_num_vms (evict_rounds fuel mem freed r).2 = total_num_vms r.
Proof.
  revert freed r. induction fuel as [|fuel IH]; intros freed r; cbn [evict_rounds];
    case_bool_decide; try done.
  rewrite (bind_step (gets _) _ r (popped_memory (cache r)) r) by done.
  rewrite (bind_step (modify _) _ r tt _ eq_refl). set (r1 := set_free_mem _ _).
  destruct (IH (wrap_u64 (freed + popped_memory (cache r))) r1) as [H1 H2].
  split; [|exact H2]. etrans; [exact H1|]. apply left_over_vms.
Qed.

(** A new VM has the next number; the cached ones may be fewer. *)
Lemma new_vm_vms fuel f r o r' :
  new_vm info_to_vec fuel f r = (Val o, r') ->
  vms r' ⊆+ vms r /\
  match o with
  | None => total_num_vms r' = total_num_vms r
  | Some v => total_num_vms r' = wrap_u64 (total_num_vms r + 1) /\ vm_id v = total_num_vms r' /\
              launched v = false
  end.
Proof.
  unfold new_vm, try_allocate_memory, dummy_evict. intros (ok & r1 & E & H)%bind_val.
  apply bind_val in H as (id & r2 & [= <- <-] & H).
  apply bind_val in H as ([] & r3 & [= <-] & [= <- <-]). cbn [cache total_num_vms].
  rewrite (bind_step (gets _) _ r (free_mem r) r) in E by done.
  apply bind_val in E as (b & r2 & Eb & E).
  assert (Hb : vms r2 ⊆+ vms r /\ total_num_vms r2 = total_num_vms r).
  { case_bool_decide; [by injection Eb as _ <-|].
    rewrite (bind_step (gets _) _ r (total_mem r) r) in Eb by done.
    case_bool_decide; [by injection Eb as _ <-|].
    pose proof (evict_vms fuel (memory f) 0 r) as He. by rewrite Eb in He. }
  destruct Hb as [Hs Ht]. destruct b.
  - rewrite (bind_step (modify _) _ r2 tt _ eq_refl) in E. injection E as <- <-.
    cbn [cache total_num_vms]. rewrite Ht. split; [done|]. done.
  - injection E as <- <-. by split.
Qed.

Lemma allocate_vms fuel f label r o r' :
  allocate info_to_vec fuel f label r = (Val o, r') ->
  (option_list o ++ vms r' ⊆+ vms r /\ total_num_vms r' = total_num_vms r) \/
  (exists v, o = Some v /\ vms r' ⊆+ vms r /\ total_num_vms r' = wrap_u64 (total_num_vms r + 1) /\
     vm_id v = total_num_vms r' /\ launched v = false).
Proof.
  intros (c & r1 & E & H)%bind_val. apply get_vms in E as [Ev Et].
  assert (Hnew : forall r2, vms r2 ⊆+ vms r -> total_num_vms r2 = total_num_vms r ->
    new_vm info_to_vec fuel f r2 = (Val o, r') -> 
    (option_list o ++ vms r' ⊆+ vms r /\ total_num_vms r' = total_num_vms r) \/
    (exists v, o = Some v /\ vms r' ⊆+ vms r /\ total_num_vms r' = wrap_u64 (total_num_vms r + 1) /\
       vm_id v = total_num_vms r' /\ launched v = false)).
  { intros r2 Hs Ht2 Hn. apply new_vm_vms in Hn as [Hs' Ho]. rewrite Ht2 in Ho.
    destruct o as [v|].
    - right. exists v. split; [done|]. split; [by etrans|done].
    - left. split; [by etrans|done]. }
  destruct c as [v|].
  - destruct (can_flow_to (vm_label v) label).
    + injection H as <- <-. left. split; [|done]. by rewrite Ev.
    + apply bind_val in H as ([] & r2 & Er & H).
      pose proof (release_vms v r1) as Hr. pose proof (release_total v r1) as Ht. rewrite Er in Hr, Ht.
      cbn in Hr, Ht. apply (Hnew r2); [|congruence|done]. rewrite Hr. cbn in Ev. by rewrite Ev.
  - apply (Hnew r1); [|done|done]. cbn in Ev. by rewrite Ev.
Qed.
End operations.

(** ** The invariant *)

Lemma submseteq_ids (a b : list Vm) : a ⊆+ b -> NoDup (vm_id <$> b) -> NoDup (vm_id <$> a).
Proof.
  intros (k & E)%submseteq_Permutation. rewrite E, fmap_app. by intros (? & _ & _)%list.NoDup_app.
Qed.
Lemma submseteq_Forall {A} (P : A -> Prop) (a b : list A) : a ⊆+ b -> Forall P b -> Forall P a.
Proof.
  intros Hs Hb. apply list.Forall_forall. intros x Hx.
  apply (proj1 (list.Forall_forall P b) Hb). by eapply elem_of_submseteq.
Qed.

Section invariant.
Context {C Ch : Type} `{CN : !Conn C} `{MQ : !Message Request} `{L : !LabelOps}.
Context (info_to_vec : ResourceInfo -> bytes) (evict_fuel : nat).
Implicit Types (m : Machine C Ch) (r : LocalRM.ResourceManager C) (cs : gmap Z Ch).

Definition connected cs (v : Vm) : Prop := launched v = true -> is_Some (cs !! vm_id v).

(** The VMs of a machine: numbered apart, none of them with a number that is still to be given,
    and connected if launched. *)
Record vms_ok cs (total : Z) (vs : list Vm) : Prop := {
  ids_apart : NoDup (vm_id <$> vs);
  ids_given : Forall (fun v => (vm_id v <= total)%Z) vs;
  all_connected : Forall (connected cs) vs;
}.

#[local] Instance vms_ok_proper cs total : Proper ((≡ₚ) ==> iff) (vms_ok cs total).
Proof. intros a b E. split; intros [Hn Hi Hc]; split; by rewrite E in * || rewrite <- E in *. Qed.

Lemma vms_ok_sub cs total total' a b :
  vms_ok cs total b -> a ⊆+ b -> (total <= total')%Z -> vms_ok cs total' a.
Proof.
  intros [Hn Hi Hc] Hs Ht. split.
  - by eapply submseteq_ids.
  - eapply list.Forall_impl; [exact (submseteq_Forall _ _ _ Hs Hi)|]. intros x Hx. cbn in Hx. lia.
  - by eapply submseteq_Forall.
Qed.

Lemma vms_ok_new cs total v a b :
  vms_ok cs total b -> a ⊆+ v :: b -> vm_id v = (total + 1)%Z -> launched v = false ->
  vms_ok cs (total + 1) a.
Proof.
  intros [Hn Hi Hc] Hs Hv Hl.
  assert (Hb : vms_ok cs (total + 1) (v :: b)); [|by eapply vms_ok_sub; [exact Hb|exact Hs|lia]].
  split.
  - cbn. apply list.NoDup_cons. split; [|done]. intros (w & E & Hw)%list_elem_of_fmap.
    pose proof (proj1 (list.Forall_forall _ b) Hi w Hw) as Hlt. cbn in Hlt. lia.
  - constructor; [lia|]. eapply list.Forall_impl; [exact Hi|]. intros x Hx. cbn in Hx. lia.
  - constructor; [|done]. unfold connected. by rewrite Hl.
Qed.

Lemma vms_ok_started cs total v ch a b :
  vms_ok cs total (v :: b) -> a ≡ₚ Vm_started v :: b -> vms_ok (<[vm_id v := ch]> cs) total a.
Proof.
  intros [Hn Hi Hc] ->. apply Forall_cons_iff in Hi as [Hv Hi]. apply Forall_cons_iff in Hc as [_ Hc].
  split; [done|by constructor|]. constructor.
  - intros _. cbn. rewrite lookup_insert_eq. by eexists.
  - eapply list.Forall_impl; [exact Hc|]. intros x Hx Hl. destruct (decide (vm_id v = vm_id x)) as [->|Hne].
    + rewrite lookup_insert_eq. by eexists.
    + rewrite lookup_insert_ne by done. by apply Hx.
Qed.

(** Closing the connection of a VM that is dropped closes no other. *)
Lemma vms_ok_dropped cs total v b : vms_ok cs total (v :: b) -> vms_ok (delete (vm_id v) cs) total b.
Proof.
  intros [Hn Hi Hc]. apply Forall_cons_iff in Hi as [_ Hi]. apply Forall_cons_iff in Hc as [_ Hc].
  cbn in Hn. apply list.NoDup_cons in Hn as [Hv Hn]. split; [done|done|].
  apply list.Forall_forall. intros x Hx Hl.
  rewrite lookup_delete_ne by (intros E; apply Hv; rewrite E; by apply list_elem_of_fmap_2).
  by apply (proj1 (list.Forall_forall _ b) Hc x Hx).
Qed.

Definition all_vms m : list Vm := cached_vms (cache (rm m)) ++ held_vms (workers m).

(** The memory of a machine: the workers that panicked have taken [lost] with them. *)
Record memory_ok (mem lost : Z) m : Prop := {
  ok_lost : (0 <= lost)%Z;
  ok_total_mem : total_mem (rm m) = mem;
  ok_held : Forall vm_ok (held_vms (workers m));
  ok_accounted : accounted (rm m) (vms_memory (held_vms (workers m)) + lost);
}.

Record machine_ok (mem n : Z) m : Prop := {
  ok_total : (0 <= total_num_vms (rm m) <= n)%Z;
  ok_vms : vms_ok (conns m) (total_num_vms (rm m)) (all_vms m);
  ok_cached : Forall (fun v => launched v = true) (cached_vms (cache (rm m)));
  ok_memory : exists lost, memory_ok mem lost m;
}.

Lemma allocate_accounted f label r o r' used :
  accounted r used -> (0 <= memory f)%Z ->
  allocate info_to_vec evict_fuel f label r = (Val o, r') ->
  total_mem r' = total_mem r /\
  match o with
  | Some v => accounted r' (vm_memory v + used) /\ vm_ok v /\ vm_function v = f
  | None => accounted r' used
  end.
Proof.
  intros Ha Hm (c & r1 & E & H)%bind_val. destruct (accounted_get info_to_vec _ _ _ _ _ Ha E) as [Ht Hc].
  assert (Hnew : forall r2, accounted r2 used -> total_mem r2 = total_mem r ->
    new_vm info_to_vec evict_fuel f r2 = (Val o, r') ->
    total_mem r' = total_mem r /\
    match o with
    | Some v => accounted r' (vm_memory v + used) /\ vm_ok v /\ vm_function v = f
    | None => accounted r' used
    end).
  { intros r2 Ha2 Ht2 Hn. destruct (new_vm_run info_to_vec _ _ _ _ _ _ Ha2 Hm Hn) as [Ht' Ho].
    split; [congruence|]. destruct o as [v|]; [|done]. destruct Ho as [Ho Hf].
    rewrite Z.add_comm. split_and!; [done| |done]. unfold vm_ok, vm_memory. by rewrite Hf. }
  destruct c as [v|]; [|by apply (Hnew r1)]. destruct Hc as (Hc & Hv & Hf). rewrite Z.add_comm in Hc.
  destruct (can_flow_to (vm_label v) label).
  - injection H as <- <-. done.
  - apply bind_val in H as ([] & r2 & Er & H).
    assert (Hu : (0 <= used)%Z) by (destruct Ha as (_ & _ & ? & _); done).
    destruct (accounted_release info_to_vec v r1 used Hc Hv Hu) as [Hr Htr]. rewrite Er in Hr, Htr.
    apply (Hnew r2); [done|cbn in Htr; congruence|done].
Qed.

(** The VM that a worker holds, and those of the others. *)
Lemma holding_split m w v :
  workers m !! w = Some (Some v) ->
  all_vms m ≡ₚ v :: cached_vms (cache (rm m)) ++ held_vms (delete w (workers m)) /\
  held_vms (workers m) ≡ₚ v :: held_vms (delete w (workers m)).
Proof.
  intros Hw. pose proof (held_vms_delete _ _ _ Hw) as E. cbn in E. split; [|done].
  unfold all_vms. rewrite E. solve_Permutation.
Qed.
Lemma held_put ws w o o' :
  ws !! w = Some o -> held_vms (<[w := o']> ws) ≡ₚ option_list o' ++ held_vms (delete w ws).
Proof.
  intros Hw. rewrite <- (insert_delete_eq ws w o'). apply held_vms_insert_new, lookup_delete_eq.
Qed.

#[local] Instance vms_memory_proper : Proper ((≡ₚ) ==> eq) vms_memory.
Proof.
  intros a b. induction 1 as [|x a b _ IH|x y a|a b c _ IH1 _ IH2]; rewrite ?vms_memory_cons; [done|lia|lia|congruence].
Qed.

(** A worker's step does not lose memory. *)
Lemma worker_step_memory mem lost w f label m m' :
  memory_ok mem lost m -> worker_step info_to_vec evict_fuel w f label m m' -> memory_ok mem lost m'.
Proof.
  intros [Hl Ht Hh Ha] Hs. destruct Hs as [o r' m Hw Hm E|v ch m Hw _|v ch ch' m _ _|v r' m Hw _ E|v r' m Hw E].
  - destruct (allocate_accounted _ _ _ _ _ _ Ha Hm E) as [Htot Hacc].
    pose proof (held_put _ _ _ o Hw) as Hheld. pose proof (held_vms_delete _ _ _ Hw) as Hold. cbn in Hold.
    split; cbn [rm workers]; [done|congruence| |]; rewrite Hheld, <- Hold; destruct o as [v|]; try done.
    + constructor; [by apply Hacc|done].
    + cbn. rewrite vms_memory_cons, <- Z.add_assoc. apply Hacc.
  - pose proof (held_put _ _ _ (Some (Vm_started v)) Hw) as Hput. pose proof (held_vms_delete _ _ _ Hw) as Hheld.
    cbn in Hheld. rewrite Hheld in Hh, Ha. split; cbn [rm workers]; [done|done|rewrite Hput..]; [|exact Ha].
    apply Forall_cons_iff in Hh as [? ?]. by constructor.
  - done.
  - pose proof (held_put _ _ _ None Hw) as Hput. pose proof (held_vms_delete _ _ _ Hw) as Hheld. cbn in Hheld, Hput.
    rewrite Hheld in Hh, Ha. apply Forall_cons_iff in Hh as [Hvm Hh].
    rewrite vms_memory_cons, <- Z.add_assoc in Ha. pose proof (vms_memory_nonneg _ Hh).
    destruct (accounted_release info_to_vec v (rm m) _ Ha Hvm ltac:(lia)) as [Ha' Htot].
    rewrite E in Ha', Htot. split; cbn [rm workers]; [done|cbn in Htot; congruence|by rewrite Hput..].
  - pose proof (held_put _ _ _ None Hw) as Hput. pose proof (held_vms_delete _ _ _ Hw) as Hheld. cbn in Hheld, Hput.
    rewrite Hheld in Hh, Ha. apply Forall_cons_iff in Hh as [Hvm Hh].
    rewrite vms_memory_cons, <- Z.add_assoc in Ha. pose proof (vms_memory_nonneg _ Hh).
    destruct (accounted_delete info_to_vec v (rm m) _ Ha Hvm ltac:(lia)) as [Ha' Htot].
    rewrite E in Ha', Htot. split; cbn [rm workers]; [done|cbn in Htot; congruence|by rewrite Hput..].
Qed.

Lemma panic_memory mem lost m w o :
  memory_ok mem lost m -> workers m !! w = Some o ->
  memory_ok mem (vms_memory (option_list o) + lost) (MkMachine (rm m) (conns m) (delete w (workers m))).
Proof.
  intros [Hl Ht Hh Ha] Hw. pose proof (held_vms_delete _ _ _ Hw) as Hheld. rewrite Hheld in Hh, Ha.
  apply Forall_app in Hh as [Ho Hh]. pose proof (vms_memory_nonneg _ Ho).
  split; cbn [rm workers]; [lia|done|done|]. rewrite vms_memory_app in Ha.
  replace (vms_memory (held_vms (delete w (workers m))) + (vms_memory (option_list o) + lost))%Z
    with (vms_memory (option_list o) + vms_memory (held_vms (delete w (workers m))) + lost)%Z by lia.
  exact Ha.
Qed.

Lemma allocate_step_ok mem n m w f label o r' :
  (n + 1 < u64_mod)%Z -> machine_ok mem n m -> workers m !! w = Some None -> (0 <= memory f)%Z ->
  allocate info_to_vec evict_fuel f label (rm m) = (Val o, r') ->
  machine_ok mem (n + 1) (MkMachine r' (conns m) (<[w := o]> (workers m))).
Proof.
  intros Hn [Ht Hv Hc (lost & Hlost)] Hw Hm E.
  pose proof (held_put _ _ _ o Hw) as Hheld. pose proof (held_vms_delete _ _ _ Hw) as Hold. cbn in Hold.
  assert (Ha' : exists lost, memory_ok mem lost (MkMachine r' (conns m) (<[w := o]> (workers m)))).
  { exists lost. eapply worker_step_memory; [exact Hlost|by apply (m_allocate _ _ w f label)]. }
  destruct (allocate_vms _ _ _ _ _ _ _ E) as [[Hs Hnum]|(v & -> & Hs & Hnum & Hid & Hl)].
  - split; cbn [rm conns workers]; [lia| | |done].
    + rewrite Hnum. apply (vms_ok_sub _ _ _ _ _ Hv); [|lia]. unfold all_vms. cbn [rm workers].
      rewrite Hheld, <- Hold, app_assoc, (Permutation_app_comm (cached_vms _) (option_list o)).
      by apply submseteq_app.
    + eapply submseteq_Forall; [|exact Hc]. etrans; [|exact Hs]. apply submseteq_inserts_l. done.
  - unfold wrap_u64 in Hnum. rewrite Z.mod_small in Hnum by lia.
    split; cbn [rm conns workers]; [lia| | |done].
    + rewrite Hnum. apply (vms_ok_new _ _ v _ _ Hv); [|lia|done]. unfold all_vms. cbn [rm workers].
      rewrite Hheld, <- Hold. cbn. rewrite <- Permutation_middle. apply submseteq_skip, submseteq_app; done.
    + by eapply submseteq_Forall.
Qed.

Lemma launch_step_ok mem n m w v ch :
  machine_ok mem n m -> workers m !! w = Some (Some v) -> launched v = false ->
  machine_ok mem (n + 1) (MkMachine (rm m) (<[vm_id v := ch]> (conns m)) (<[w := Some (Vm_started v)]> (workers m))).
Proof.
  intros [Ht Hv Hc (lost & Hlost)] Hw Hl.
  destruct (holding_split _ _ _ Hw) as [Hall _]. pose proof (held_put _ _ _ (Some (Vm_started v)) Hw) as Hput.
  rewrite Hall in Hv. split; cbn [rm conns workers]; [lia| |done|].
  + apply (vms_ok_started _ _ v ch _ _ Hv). unfold all_vms. cbn [rm workers]. rewrite Hput. cbn. solve_Permutation.
  + exists lost. eapply worker_step_memory; [exact Hlost|]. by apply (m_launch _ _ w (vm_function v) public).
Qed.

Lemma talk_step_ok mem n m w v ch ch' :
  machine_ok mem n m -> workers m !! w = Some (Some v) -> conns m !! vm_id v = Some ch ->
  machine_ok mem (n + 1) (MkMachine (rm m) (<[vm_id v := ch']> (conns m)) (workers m)).
Proof.
  intros [Ht Hv Hc (lost & Hlost)] Hw Hch.
  split; cbn [rm conns workers]; [lia| |done|by exists lost; destruct Hlost].
  destruct Hv as [Hi Hg Hcs]. split; [done|done|]. eapply list.Forall_impl; [exact Hcs|].
  intros x Hx Hlx. destruct (decide (vm_id v = vm_id x)) as [->|Hne].
  + rewrite lookup_insert_eq. by eexists.
  + rewrite lookup_insert_ne by done. by apply Hx.
Qed.

Lemma release_step_ok mem n m w v r' :
  machine_ok mem n m -> workers m !! w = Some (Some v) -> launched v = true ->
  release info_to_vec v (rm m) = (Val tt, r') ->
  machine_ok mem (n + 1) (MkMachine r' (conns m) (<[w := None]> (workers m))).
Proof.
  intros [Ht Hv Hc (lost & Hlost)] Hw Hl E.
  destruct (holding_split _ _ _ Hw) as [Hall _]. pose proof (held_put _ _ _ None Hw) as Hput. cbn in Hput.
  pose proof (release_vms info_to_vec v (rm m)) as Hr. rewrite E in Hr. cbn in Hr.
  pose proof (release_total info_to_vec v (rm m)) as Hrt. rewrite E in Hrt. cbn in Hrt.
  split; cbn [rm conns workers]; [lia| | |].
  + rewrite Hrt. eapply vms_ok_sub; [exact Hv| |lia]. unfold all_vms at 1. cbn [rm workers].
    rewrite Hr, Hput, Hall. done.
  + rewrite Hr. by constructor.
  + exists lost. eapply worker_step_memory; [exact Hlost|].
    by apply (m_release _ _ w (vm_function v) public v).
Qed.

Lemma delete_step_ok mem n m w v r' :
  machine_ok mem n m -> workers m !! w = Some (Some v) -> delete_vm info_to_vec v (rm m) = (Val tt, r') ->
  machine_ok mem (n + 1) (MkMachine r' (delete (vm_id v) (conns m)) (<[w := None]> (workers m))).
Proof.
  intros [Ht Hv Hc (lost & Hlost)] Hw E.
  destruct (holding_split _ _ _ Hw) as [Hall _]. pose proof (held_put _ _ _ None Hw) as Hput. cbn in Hput.
  assert (Hr : cache r' = cache (rm m) /\ total_num_vms r' = total_num_vms (rm m))
    by (injection E as <-; done). destruct Hr as [Hr Hrt].
  split; cbn [rm conns workers]; [lia| | |].
  + rewrite Hrt. rewrite Hall in Hv. apply vms_ok_dropped in Hv.
    eapply vms_ok_sub; [exact Hv| |lia]. unfold all_vms. cbn [rm workers]. by rewrite Hr, Hput.
  + by rewrite Hr.
  + exists lost. eapply worker_step_memory; [exact Hlost|].
    by apply (m_delete _ _ w (vm_function v) public v).
Qed.

Lemma panic_step_ok mem n m w o :
  machine_ok mem n m -> workers m !! w = Some o ->
  machine_ok mem (n + 1) (MkMachine (rm m) (conns m) (delete w (workers m))).
Proof.
  intros [Ht Hv Hc (lost & Hlost)] Hw. pose proof (held_vms_delete _ _ _ Hw) as Hheld.
  split; cbn [rm conns workers]; [lia| |done|].
  + eapply vms_ok_sub; [exact Hv| |lia]. unfold all_vms. cbn [rm workers].
    apply submseteq_app; [done|]. rewrite Hheld. by apply submseteq_inserts_l.
  + eexists. by eapply panic_memory.
Qed.

Lemma machine_step_ok mem n m m' :
  (n + 1 < u64_mod)%Z -> machine_ok mem n m -> machine_step info_to_vec evict_fuel m m' ->
  machine_ok mem (n + 1) m'.
Proof.
  intros Hn Hok Hs. destruct Hs as [w f label m m' []|];
    eauto using allocate_step_ok, launch_step_ok, talk_step_ok, release_step_ok, delete_step_ok,
      panic_step_ok.
Qed.
End invariant.

Section pool.
Context {C Ch : Type} `{CN : !Conn C} `{MQ : !Message Request} `{L : !LabelOps}.
Context (info_to_vec : ResourceInfo -> bytes) (evict_fuel : nat).
Implicit Types m : Machine C Ch.

Lemma new_workerpool_held (r : LocalRM.ResourceManager C) :
  held_vms (workers (new_workerpool (Ch := Ch) r)) = [].
Proof.
  unfold new_workerpool. cbn [workers].
  set (l := (fun i => ((i + 100)%Z, @None Vm)) <$> seqZ 0 (total_mem r / 128)).
  assert (Hl : forall w o, (list_to_map l : gmap Z (option Vm)) !! w = Some o -> o = None).
  { intros w o H%elem_of_list_to_map_2. apply list_elem_of_fmap in H as (i & [= _ ->] & _). done. }
  unfold held_vms. destruct (omap snd _) as [|v vs] eqn:E; [done|].
  assert (Hv : v ∈ omap snd (map_to_list (list_to_map l : gmap Z (option Vm)))) by (rewrite E; by left).
  apply list_elem_of_omap in Hv as ([w o] & Hin & Ho). cbn in Ho. subst o.
  apply elem_of_map_to_list, Hl in Hin. done.
Qed.

Lemma pool_memory_ok (r : LocalRM.ResourceManager C) :
  accounted r 0 -> memory_ok (total_mem r) 0 (new_workerpool (Ch := Ch) r).
Proof.
  intros Ha. split; rewrite ?new_workerpool_held; [done|done|constructor|]. by rewrite vms_memory_nil.
Qed.

Lemma pool_ok (r : LocalRM.ResourceManager C) :
  accounted r 0 -> cache r = ∅ -> total_num_vms r = 0%Z ->
  machine_ok (total_mem r) 0 (new_workerpool (Ch := Ch) r).
Proof.
  intros Ha Hc Hn. pose proof (new_workerpool_held r) as Hh.
  assert (Hcv : cached_vms (cache r) = []) by (by rewrite Hc).
  split; unfold all_vms; rewrite ?Hh; cbn [new_workerpool rm conns]; rewrite ?Hcv, ?Hn; cbn [app].
  - done.
  - split; constructor.
  - constructor.
  - exists 0%Z. by apply pool_memory_ok.
Qed.

(** The manager as [multivm] makes it. *)
Definition manager_of (machine_memory memory : Z) (conn : C) : LocalRM.ResourceManager C :=
  set_total_mem memory (rm_new machine_memory conn).
Lemma manager_fresh machine_memory memory conn :
  (0 <= machine_memory < u64_mod)%Z -> (0 <= memory)%Z ->
  let r := manager_of machine_memory memory conn in
  accounted r 0 /\ cache r = ∅ /\ total_num_vms r = 0%Z.
Proof.
  intros Hmm Hmem. cbn zeta. unfold manager_of.
  assert (Hr : forall x, (0 <= x < u64_mod)%Z -> accounted (rm_new x conn) 0).
  { intros x Hx. unfold accounted, cache_memory. cbn. rewrite map_fold_empty. split_and!; [|lia..].
    intros f l Hl. by rewrite lookup_empty in Hl. }
  split; [|unfold set_total_mem; by repeat case_bool_decide].
  unfold set_total_mem. cbn. repeat case_bool_decide; [by apply Hr..|]. apply (Hr memory). lia.
Qed.

(** C33: the workers of a machine do not disturb one another.  However the workers of [multivm]
    are interleaved, and whichever of them panic: no VM is held by two workers, or by one while
    it is cached; a VM that is cached has been launched, and one that has been launched is
    connected; and the memory of the cached VMs and of those held never exceeds the machine's. *)
Theorem vm_exclusive machine_memory memory conn n m :
  (0 <= machine_memory < u64_mod)%Z -> (0 <= memory)%Z -> (Z.of_nat n < u64_mod)%Z ->
  let r := manager_of machine_memory memory conn in
  nsteps (machine_step info_to_vec evict_fuel) n (new_workerpool r) m ->
  NoDup (vm_id <$> all_vms m) /\
  (forall w1 w2 v1 v2, workers m !! w1 = Some (Some v1) -> workers m !! w2 = Some (Some v2) ->
     vm_id v1 = vm_id v2 -> w1 = w2) /\
  Forall (fun v => launched v = true) (cached_vms (cache (rm m))) /\
  Forall (fun v => launched v = true -> is_Some (conns m !! vm_id v)) (all_vms m) /\
  (cache_memory (cache (rm m)) + vms_memory (held_vms (workers m)) <= total_mem r)%Z.
Proof.
  intros Hmm Hmem Hn r Hs.
  assert (H0 : machine_ok (total_mem r) 0 (new_workerpool (Ch := Ch) r)).
  { by destruct (manager_fresh machine_memory memory conn Hmm Hmem) as (? & ? & ?); apply pool_ok. }
  assert (Hok : machine_ok (total_mem r) (Z.of_nat n) m).
  { clear Hmm Hmem. revert H0 Hn. replace (Z.of_nat n) with (0 + Z.of_nat n)%Z by lia.
    generalize 0%Z as k. induction Hs as [m|n m1 m2 m3 H1 _ IH]; intros k Hk Hn.
    - by rewrite Z.add_0_r.
    - replace (k + Z.of_nat (S n))%Z with ((k + 1) + Z.of_nat n)%Z by lia. apply IH; [|lia].
      eapply machine_step_ok; [|exact Hk|exact H1]. lia. }
  destruct Hok as [_ [Hi _ Hcs] Hc (lost & [Hlost Htot Hh Ha])].
  split_and!; [done| |done|done|].
  - intros w1 w2 v1 v2 H1 H2 E. destruct (decide (w1 = w2)) as [|Hne]; [done|]. exfalso.
    assert (H2' : delete w1 (workers m) !! w2 = Some (Some v2)) by by rewrite lookup_delete_ne.
    unfold all_vms in Hi. rewrite (held_vms_delete _ _ _ H1), (held_vms_delete _ _ _ H2') in Hi.
    cbn in Hi. rewrite fmap_app in Hi. apply list.NoDup_app in Hi as (_ & _ & Hi).
    cbn in Hi. apply list.NoDup_cons in Hi as [Hi _]. apply Hi. rewrite E. by left.
  - destruct Ha as (_ & Hfree & _ & _ & Hsum). rewrite <- Htot. lia.
Qed.
End pool.
