(* ===== verification/Conversation.v ===== *)
(** * What a worker says to the scheduler

    The connection of a worker carries its requests for tasks, its reports, and the invocations
    of the functions it runs.  Here it is shown that the code of [worker.rs] and
    [syscall_server.rs] uses it turn by turn: a request for a task and its answer; then, for a
    task, any number of invocations, each followed by the reading of a result when it is
    synchronous, and the report.  This is the conversation that [Cluster.v] gives its workers. *)

From stdpp Require Import base tactics option list gmap strings countable.
From S2P Require Import Prelude Labels Store FsTypes Objects Fs FsGuarantee FsMediation Syscalls.
From S2P Require Import Blobstore Message SysServer SysGuarantee SysTheorems LocalRM Worker.

Lemma bind_run {S A B} (m : SM S A) (f : A -> SM S B) s :
  (m ≫= f) s = match m s with
               | (Val a, s') => f a s'
               | (Panic, s') => (Panic, s')
               | (NoFuel, s') => (NoFuel, s')
               end.
Proof. done. Qed.

(** ** Invocations *)

Section invocations.
Context {C : Type} `{CN : !Conn C} `{MQ : !Message Request} `{MT : !Message TaskReturn}.

(** One invocation, from the connection before to the connection after. *)
Inductive invocation : relation C :=
  (** asynchronous, or it could not be written *)
  | invoke_only li r c c' :
      labeled_invoke li c = (r, c') -> sched.li_sync li = false \/ r <> Val (Ok tt) ->
      invocation c c'
  (** synchronous: its result is read *)
  | invoke_read li r c c1 c' :
      sched.li_sync li = true -> labeled_invoke li c = (Val (Ok tt), c1) ->
      message_read (T := TaskReturn) c1 = (r, c') -> invocation c c'.

(** What may have happened to a connection, where there is one. *)
Definition invocations (o o' : option C) : Prop :=
  match o, o' with
  | Some c, Some c' => rtc invocation c c'
  | None, None => True
  | _, _ => False
  end.

#[global] Instance invocations_preorder : PreOrder invocations.
Proof.
  split; [by intros [c|]; cbn|]. intros [a|] [b|] [c|]; cbn; try done. by intros ? ?; etrans.
Qed.
End invocations.

(** ** The system call server *)

Section server.
Context {St C N Ch : Type} `{BS : !BackingStore St} `{L : !LabelOps} `{SD : !SerdeOps}.
Context `{DG : DigestOps} `{HX : !HexOps} `{CN : !Conn C} `{HC : !HttpClient N}.
Context `{SC : !SyscallChannel Ch} `{MR : !Message pb.Reply}.
Context `{MQ : !Message Request} `{MT : !Message TaskReturn}.

Local Abbreviation S := (SysState St C N Ch).

Definition Talks (s s' : S) : Prop := invocations (sched_conn s) (sched_conn s').
Definition Silent (s s' : S) : Prop := sched_conn s' = sched_conn s.

#[global] Instance Talks_preorder : PreOrder Talks.
Proof. split; unfold Talks; [by intros s|intros a b c ? ?; by etrans]. Qed.
#[global] Instance Silent_preorder : PreOrder Silent.
Proof. split; unfold Silent; [by intros s|intros a b c ? ?; congruence]. Qed.

Lemma silent_talks {A} (m : SM S A) : Guar Silent m -> Guar Talks m.
Proof. intros Hm s. specialize (Hm s). unfold Talks. by rewrite Hm. Qed.

Lemma silent_on_fs {A} (m : SM (World St) A) : Guar Silent (on_fs m).
Proof. intros s. unfold on_fs, zoom. by destruct (m (fs s)). Qed.
Lemma silent_on_blobs {A} (m : SM Blobstore A) : Guar Silent (on_blobs m).
Proof. intros s. unfold on_blobs, zoom. by destruct (m (blobstore s)). Qed.

Lemma silent_save_new_blob content : Guar Silent (save_new_blob content : SM S Z).
Proof.
  assert (forall b, Guar Silent (insert_blob b : SM S Z)) by done.
  pose proof @silent_on_blobs. unfold save_new_blob, expect. solve_guar.
Qed.

(** [invoke_gate], after the invocation has been written. *)
Lemma invoke_gate_talks f r p sy t ps : Guar Talks (invoke_gate f r p sy t ps).
Proof.
  assert (Hfs : forall A (m : SM (World St) A), Guar Talks (on_fs m)).
  { intros A m. apply silent_talks, silent_on_fs. }
  unfold invoke_gate. apply guar_bind; [apply Hfs|]. intros g.
  apply guar_bind; [apply Hfs|]. intros priv.
  destruct (negb _); [apply guar_ret|]. apply guar_bind; [apply Hfs|]. intros label s.
  set (li := sched.MkLabeledInvoke _ _ _ _ _ _ _ _).
  rewrite bind_run. unfold on_sched at 1.
  destruct (sched_conn s) as [c|] eqn:Ec; [|by unfold Talks; cbn; rewrite Ec].
  destruct (labeled_invoke li c) as [o c1] eqn:El.
  assert (Hone : sy = false \/ o <> Val (Ok tt) -> Talks s (set_sched_conn (Some c1) s)).
  { intros Ho. unfold Talks. rewrite Ec. cbn. apply rtc_once. by eapply invoke_only. }
  destruct o as [[[]|e]| |]; try (apply Hone; by right).
  destruct sy; [|apply Hone; by left].
  set (s1 := set_sched_conn (Some c1) s).
  rewrite bind_run. unfold on_sched. change (sched_conn s1) with (Some c1). cbn beta match.
  destruct (message_read c1) as [o c2] eqn:Er.
  set (s2 := set_sched_conn (Some c2) s1).
  assert (Ht : Talks s s2).
  { unfold Talks. rewrite Ec. cbn. apply rtc_once. by eapply (invoke_read li). }
  destruct o as [[res|e]| |]; try exact Ht.
  etrans; [exact Ht|].
  match goal with |- Talks s2 (?m s2).2 => assert (Hm : Guar Talks m); [|exact (Hm s2)] end.
  apply silent_talks. pose proof @silent_on_fs. pose proof silent_save_new_blob.
  pose proof (@guar_buckle_into). solve_guar.
Qed.

#[global] Instance Talks_sys : SysPrimitives Anything Talks.
Proof.
  split; try apply _.
  - intros A m _. apply silent_talks, silent_on_fs.
  - intros s s' _ _ _ E. unfold Talks. by rewrite E.
  - intros f r p sy t ps _. apply invoke_gate_talks.
Qed.

(** A whole run of a function. *)
Lemma run_talks fuel f p bs hs inv : Guar Talks (run fuel f p bs hs inv).
Proof.
  apply (run_guar Anything); try apply _.
  - by intros c w.
  - intros fd. by apply silent_talks.
  - intros e. by apply silent_talks.
Qed.
End server.

(** ** The worker *)

Section worker.
Context {St C N Ch Os : Type} `{BS : !BackingStore St} `{L : !LabelOps} `{SD : !SerdeOps}.
Context `{DG : DigestOps} `{HX : !HexOps} `{CN : !Conn C} `{HC : !HttpClient N}.
Context `{SC : !SyscallChannel Ch} `{MR : !Message pb.Reply}.
Context `{MQ : !Message Request} `{MT : !Message TaskReturn} `{MS : !Message Response}.
Context `{LA : !Launcher Os Ch}.
Context (info_to_vec : ResourceInfo -> bytes) (evict_fuel run_fuel gate_fuel : nat).
Implicit Types s : Worker St C N Ch Os.

Definition WorkerTalks s s' : Prop := invocations (env_conn s) (env_conn s').
Definition same_conn s s' : Prop := env_conn s' = env_conn s.

#[local] Instance worker_talks_preorder : PreOrder WorkerTalks.
Proof. split; unfold WorkerTalks; [by intros s|intros a b c ? ?; by etrans]. Qed.
#[local] Instance same_conn_preorder : PreOrder same_conn.
Proof. split; unfold same_conn; [by intros s|intros a b c ? ?; congruence]. Qed.

Lemma same_conn_talks {A} (m : SM (Worker St C N Ch Os) A) : Guar same_conn m -> Guar WorkerTalks m.
Proof. intros Hm s. specialize (Hm s). unfold WorkerTalks. by rewrite Hm. Qed.

Lemma on_rm_conn {A} (m : SM (LocalRM.ResourceManager C) A) : Guar same_conn (on_rm (St:=St) m).
Proof. intros s. unfold on_rm, zoom. by destruct (m (localrm s)). Qed.
Lemma on_store_conn {A} (m : SM Blobstore A) : Guar same_conn (on_store (Os:=Os) m).
Proof. intros s. unfold on_store, zoom. by destruct (m (env_blobstore s)). Qed.
Lemma on_os_conn {A} (m : SM Os A) : Guar same_conn (on_os (St:=St) m).
Proof. intros s. unfold on_os, zoom. by destruct (m (os s)). Qed.
Lemma set_handles_conn f : Guar same_conn (modify (fun s => set_handles (f s) s)).
Proof. done. Qed.
#[local] Hint Resolve on_rm_conn on_store_conn on_os_conn set_handles_conn : guar.

Lemma launch_conn cid force config odirect vm : Guar same_conn (launch cid force config odirect vm).
Proof. unfold launch, launch_args, exit. solve_guar. Qed.
Lemma vm_config_conn f : Guar same_conn (vm_config f).
Proof. unfold vm_config, local_path_string, split_at_2. solve_guar. Qed.
Lemma open_blobs_conn bs : Guar same_conn (open_blobs bs).
Proof. induction bs as [|[k b] bs IH]; cbn [open_blobs]; solve_guar. Qed.
Lemma try_allocate_conn f label : Guar same_conn (try_allocate info_to_vec evict_fuel f label).
Proof. unfold try_allocate. solve_guar. Qed.

Lemma process_talks label privilege payload blobs hs invoker vm :
  Guar WorkerTalks (process run_fuel gate_fuel label privilege payload blobs hs invoker vm).
Proof.
  intros s. unfold process. destruct (handles s !! vm_id vm) as [ch|]; [|reflexivity].
  set (p0 := new _ _ _ _ _ _ _).
  assert (Hm : Guar Talks (iv ← unwrap_component invoker; run run_fuel gate_fuel payload blobs hs iv
    : SM (SysState St C N Ch) _)).
  { apply guar_bind; [apply (g_unwrap_component Anything); apply _|]. intros iv. apply run_talks. }
  specialize (Hm p0). revert Hm. destruct ((unwrap_component invoker ≫= _) p0) as [r p]. done.
Qed.

Lemma retry_talks fuel cid cnt invoke label privilege ret vm :
  Guar WorkerTalks (retry info_to_vec run_fuel gate_fuel fuel cid cnt invoke label privilege ret vm).
Proof.
  revert cnt vm. induction fuel as [|fuel IH]; intros cnt vm; cbn [retry]; [apply guar_nofuel|].
  apply guar_bind; [apply same_conn_talks, vm_config_conn|]. intros config.
  apply guar_bind; [apply same_conn_talks, launch_conn|]. intros [vm'|e]; [|apply IH].
  apply guar_bind; [apply same_conn_talks, open_blobs_conn|]. intros blobs.
  apply guar_bind; [apply process_talks|].
  intros [r|e]; [|case_decide; [|apply IH]]; apply same_conn_talks; solve_guar.
Qed.

(** The conversation of a task: invocations, and then the report. *)
Lemma process_task_talks fuel cid task_id invoke s s' c :
  process_task info_to_vec evict_fuel run_fuel gate_fuel fuel cid task_id (Some invoke) s =
    (Val tt, s') -> env_conn s = Some c ->
  exists c1 ret r c', rtc invocation c c1 /\ finish task_id ret c1 = (Val r, c') /\
    env_conn s' = Some c'.
Proof.
  intros (f & label & privilege & vm & s1 & ret & s2 & r & _ & Ea & Hr & Hf)%process_task_start Hc.
  pose proof (try_allocate_conn (function_from_message f) label s) as Ho.
  rewrite Ea in Ho. change (env_conn s1 = env_conn s) in Ho.
  assert (Ht : WorkerTalks s1 s2).
  { destruct vm as [vm|]; [|by destruct Hr as [_ ->]].
    match type of Hr with ?m s1 = _ => assert (Hg : Guar WorkerTalks m) by apply retry_talks end.
    specialize (Hg s1). by rewrite Hr in Hg. }
  unfold WorkerTalks in Ht. rewrite Ho, Hc in Ht. unfold on_conn in Hf.
  destruct (env_conn s2) as [c1|]; [|done]. destruct (finish task_id ret c1) as [a c'] eqn:Ef.
  injection Hf as -> <-. by exists c1, ret, r, c'.
Qed.

(** C25: a turn of a worker is one exchange on its connection.  It asks for a task and reads one
    answer.  If that is a task, the function's invocations follow, each written and, when it is
    synchronous, answered by one message that is read before anything else; then the report of
    that task is written, and nothing more.  Otherwise nothing follows, and only the order to
    terminate ends the loop. *)
Theorem turn_follows_protocol fuel thread_id cid s b s' c :
  turn info_to_vec evict_fuel run_fuel gate_fuel fuel thread_id cid s = (Val b, s') ->
  env_conn s = Some c ->
  exists answer c1, get thread_id c = (Val answer, c1) /\
    match answer with
    | Ok (MkResponse (Some (ProcessTask task_id (Some li)))) =>
        b = true /\ exists c2 ret r c3, rtc invocation c1 c2 /\
          finish task_id ret c2 = (Val r, c3) /\ env_conn s' = Some c3
    | Ok (MkResponse (Some Terminate)) => b = false /\ env_conn s' = Some c1
    | _ => b = true /\ env_conn s' = Some c1
    end.
Proof.
  intros H Hc. unfold turn in H. apply bind_val in H as (answer & s1 & E & H).
  unfold on_conn in E. rewrite Hc in E. destruct (get thread_id c) as [a c1] eqn:Eg.
  injection E as -> <-. exists answer, c1. split; [done|].
  destruct answer as [[[[id [li|]| | | |]|]]|e]; cbn [response_of] in H;
    try (by injection H as <- <-).
  apply bind_val in H as ([] & s2 & E & [= <- <-]). split; [done|].
  by eapply process_task_talks in E.
Qed.
End worker.
