(* ===== verification/AuthorityTask.v ===== *)
(** * Tasks of the worker within an authority

    A worker that is given an invocation of [a] runs the function as one of [a]: the label of
    the invocation only taints, and the privilege is the one that the invocation names. *)

From stdpp Require Import base tactics option list gmap strings countable.
From S2P Require Import Prelude Labels Store FsTypes Objects Fs FsGuarantee.
From S2P Require Import FsMediation FsReads FsGates Syscalls Blobstore Message.
From S2P Require Import SysServer SysGuarantee SysTheorems SysSafety LocalRM Worker Conversation.
From S2P Require Import Authority AuthoritySys.

(** ** What an invocation starts *)

(** The label and the privilege that [process_task] reads from an invocation. *)
Definition starts `{L : LabelOps} (li : LabeledInvoke) (label : Buckle) (privilege : Component) : Prop :=
  exists lb pb, sched.li_label li = Some lb /\ buckle_into lb tt = (Val label, tt) /\
    sched.li_gate_privilege li = Some pb /\ component_into pb tt = (Val privilege, tt).

Section starting.
Context `{LW : LabelLaws} (a : Component).

(** Conversions do not look at the state. *)
Lemma component_into_any {S1 S2} pb (s1 s1' : S1) (s2 : S2) c :
  component_into pb s1 = (Val c, s1') -> component_into pb s2 = (Val c, s2).
Proof.
  unfold component_into. destruct (pb.component pb) as [k|]; [|done].
  intros [= <- _]. reflexivity.
Qed.

Lemma authorized_starts li label privilege :
  authorized_invoke a li -> starts li label privilege -> Implies a privilege.
Proof. intros Ha (lb & pb & _ & _ & Hp & E). by eapply Ha. Qed.

Lemma authorized_any {S} li pb (s s' : S) p :
  authorized_invoke a li -> sched.li_gate_privilege li = Some pb ->
  component_into pb s = (Val p, s') -> Implies a p.
Proof. intros Ha Hp E. eapply Ha; [exact Hp|]. by eapply (component_into_any pb s s' tt). Qed.

(** What the worker gives a new system call processor: the label may be anything, because it
    only taints. *)
Lemma new_humble {St C N Ch} `{DG : DigestOps} (w : World St) bs (conn : option C) (http : N) (ch : Ch)
    label privilege :
  Implies a privilege -> humble a (fs (new w bs conn http ch label privilege)).
Proof.
  intros Hp. split; [|exact Hp]. unfold new; cbn.
  eapply (modest_raised a (set_label public w)); [|by apply modest_public].
  apply Flows_lub_l.
Qed.
End starting.

(** ** A worker's task *)

Section worker.
Context {St C N Ch Os : Type} `{BW : BackingStoreLaws St} `{LW : LabelLaws} `{SW : SerdeLaws}.
Context `{DG : DigestOps} `{HX : !HexOps} `{CN : !Conn C} `{HC : !HttpClient N}.
Context `{SC : !SyscallChannel Ch} `{MR : !Message pb.Reply}.
Context `{MQ : !Message Request} `{MT : !Message TaskReturn} `{MS : !Message Response}.
Context `{LA : !Launcher Os Ch} `{HD : !Heard C}.
Context (info_to_vec : ResourceInfo -> bytes) (evict_fuel run_fuel gate_fuel : nat).
Context (a : Component).

Local Abbreviation S := (Worker St C N Ch Os).
Implicit Types s : S.

Definition HeldWork s s' : Prop :=
  quiet (env_fs s) -> closed a (view (env_fs s)) ->
  quiet (env_fs s') /\ within a (view (env_fs s)) (view (env_fs s')) /\
  told a (env_conn s) (env_conn s').

#[local] Instance HeldWork_preorder : PreOrder HeldWork.
Proof.
  split.
  - intros s Hq _. split_and!; try done; reflexivity.
  - intros s1 s2 s3 H12 H23 Hq Hc. destruct (H12 Hq Hc) as (Hq2 & Hw2 & Ht2).
    destruct (H23 Hq2) as (Hq3 & Hw3 & Ht3); [by eapply within_closed|].
    split; [done|]. by split; etrans.
Qed.

(** Everything but the runs and the report leaves the file system and the connection alone. *)
Definition beside s s' : Prop := env_fs s' = env_fs s /\ env_conn s' = env_conn s.
#[local] Instance beside_preorder : PreOrder beside.
Proof. split; [done|]. intros s1 s2 s3 [? ?] [? ?]. split; congruence. Qed.
Lemma beside_held {A} (m : SM S A) : Guar beside m -> Guar HeldWork m.
Proof.
  intros Hm s. destruct (Hm s) as [E1 E2]. intros Hq Hc. rewrite E1, E2.
  split_and!; try done; reflexivity.
Qed.
Lemma beside_rm {A} (m : SM (LocalRM.ResourceManager C) A) : Guar beside (on_rm m : SM S A).
Proof. intros s. unfold on_rm, zoom. by destruct (m (localrm s)). Qed.
Lemma beside_store {A} (m : SM Blobstore A) : Guar beside (on_store m : SM S A).
Proof. intros s. unfold on_store, zoom. by destruct (m (env_blobstore s)). Qed.
Lemma beside_os {A} (m : SM Os A) : Guar beside (on_os m : SM S A).
Proof. intros s. unfold on_os, zoom. by destruct (m (os s)). Qed.
Lemma beside_handles f : Guar beside (modify (fun s => set_handles (f s) s)).
Proof. done. Qed.
#[local] Hint Resolve beside_rm beside_store beside_os beside_handles : guar.

Lemma beside_launch cid force config odirect vm : Guar beside (launch cid force config odirect vm : SM S _).
Proof. unfold launch, launch_args, exit. solve_guar. Qed.
Lemma beside_vm_config f : Guar beside (vm_config f : SM S _).
Proof. unfold vm_config, local_path_string, split_at_2. solve_guar. Qed.
Lemma beside_open_blobs bs : Guar beside (open_blobs bs : SM S _).
Proof. induction bs as [|[k b] bs IH]; cbn [open_blobs]; solve_guar. Qed.
Lemma beside_try_allocate f label : Guar beside (try_allocate info_to_vec evict_fuel f label : SM S _).
Proof. unfold try_allocate. solve_guar. Qed.

Lemma process_held label privilege payload blobs hs invoker vm :
  Implies a privilege ->
  Guar HeldWork (process run_fuel gate_fuel label privilege payload blobs hs invoker vm : SM S _).
Proof.
  intros Hp s. unfold process. destruct (handles s !! vm_id vm) as [ch|]; [|reflexivity].
  set (p0 := new _ _ _ _ _ _ _).
  assert (Hh : humble a (fs p0)) by by apply new_humble.
  assert (Hm : Guar (HeldSys a) (iv ← unwrap_component invoker; run run_fuel gate_fuel payload blobs hs iv
    : SM (SysState St C N Ch) _)).
  { apply guar_bind; [apply (g_unwrap_component (Held a)); apply _|]. intros iv. apply run_held. }
  specialize (Hm p0). revert Hm. destruct ((unwrap_component invoker ≫= _) p0) as [r p]. intros Hm Hq Hc.
  destruct (Hm Hq Hh Hc) as (Hq' & _ & Hw & Ht). done.
Qed.

Lemma retry_held fuel cid cnt invoke label privilege ret vm :
  Implies a privilege ->
  Guar HeldWork (retry info_to_vec run_fuel gate_fuel fuel cid cnt invoke label privilege ret vm : SM S _).
Proof.
  intros Hp. revert cnt vm. induction fuel as [|fuel IH]; intros cnt vm; cbn [retry]; [apply guar_nofuel|].
  apply guar_bind; [apply beside_held, beside_vm_config|]. intros config.
  apply guar_bind; [apply beside_held, beside_launch|]. intros [vm'|e]; [|apply IH].
  apply guar_bind; [apply beside_held, beside_open_blobs|]. intros blobs.
  apply guar_bind; [by apply process_held|].
  intros [r|e]; [|case_decide; [|apply IH]]; apply beside_held; solve_guar.
Qed.

Lemma on_conn_held {A} (m : SM C A) :
  (forall c, told a (Some c) (Some (m c).2)) -> Guar HeldWork (on_conn m : SM S A).
Proof.
  intros Hm s Hq Hc. unfold on_conn. destruct (env_conn s) as [c|] eqn:Ec.
  - specialize (Hm c). destruct (m c) as [o c'].
    split; [exact Hq|]. split; [reflexivity | exact Hm].
  - split; [exact Hq|]. cbn [snd]. rewrite Ec. by split.
Qed.

Lemma finish_held task_id ret : Guar HeldWork (on_conn (finish task_id ret) : SM S _).
Proof. apply on_conn_held. intros c. apply told_write. by intros li. Qed.

Lemma process_task_held fuel cid task_id li :
  authorized_invoke a li ->
  Guar HeldWork (process_task info_to_vec evict_fuel run_fuel gate_fuel fuel cid task_id (Some li) : SM S _).
Proof.
  intros Ha. unfold process_task. apply guar_bind; [solve_guar|]. intros lb.
  apply guar_bind; [apply guar_buckle_into; apply _|]. intros label.
  destruct (sched.li_gate_privilege li) as [pb|] eqn:Ep; [|by intros s].
  intros s. rewrite (bind_step (unwrap (Some pb)) _ s pb s) by done.
  pose proof (guar_component_into (R := eq) pb s) as K. unfold mbind at 1, SM_bind at 1.
  destruct (component_into pb s) as [[p| |] s1] eqn:Ec; cbn in K; subst s1; try reflexivity.
  assert (Hp : Implies a p) by by eapply authorized_any.
  match goal with |- HeldWork s (?m s).2 => assert (Hg : Guar HeldWork m); [|exact (Hg s)] end.
  apply guar_bind; [solve_guar|]. intros f.
  apply guar_bind; [apply beside_held, beside_try_allocate|]. intros vm.
  apply guar_bind; [apply guar_gets|]. intros cur. cbv zeta.
  apply guar_bind; [destruct vm; [by apply retry_held | apply guar_ret]|]. intros ret.
  apply guar_bind; [apply finish_held|]. intros r. apply guar_ret.
Qed.

(** C7: a turn of a worker stays within the authority of the task that it is given.  If what
    the scheduler answers is not a task beyond [a], then at the end of the turn no guarded
    object has changed, whatever the function did in however many attempts, and whatever the
    worker has asked of the scheduler is of [a] too. *)
Theorem turn_within fuel thread_id cid s c :
  quiet (env_fs s) -> closed a (view (env_fs s)) -> env_conn s = Some c ->
  (forall task_id li c', get thread_id c = (Val (Ok (MkResponse (Some (ProcessTask task_id (Some li))))), c') ->
     authorized_invoke a li) ->
  let s' := (turn info_to_vec evict_fuel run_fuel gate_fuel fuel thread_id cid s).2 in
  quiet (env_fs s') /\ within a (view (env_fs s)) (view (env_fs s')) /\
  told a (env_conn s) (env_conn s').
Proof.
  intros Hq Hc Ec Ha.
  assert (H0 : forall c', told a (Some c) (Some c') -> HeldWork s (set_env_conn (Some c') s)).
  { intros c' Ht _ _. split; [exact Hq|]. split; [reflexivity|]. by rewrite Ec. }
  assert (Hget : Guar (fun c c' => told a (Some c) (Some c')) (get thread_id)).
  { assert (HP : PreOrder (fun c c' : C => told a (Some c) (Some c')))
      by (split; [intros x; reflexivity|intros x y z ? ?; by etrans]).
    apply guar_bind; [intros c1; apply told_write; by intros li|].
    intros [r|e]; [|apply guar_ret]. intros c1. apply listens_told, listens_message. }
  specialize (Hget c). cbv zeta. cut (HeldWork s (turn info_to_vec evict_fuel run_fuel gate_fuel
    fuel thread_id cid s).2); [intros H; by apply H|].
  unfold turn, mbind, SM_bind, on_conn. rewrite Ec.
  destruct (get thread_id c) as [o c1] eqn:Eg. cbn in Hget. specialize (H0 c1 Hget).
  destruct o as [[[k]|e]| |]; try exact H0. cbn [response_of].
  destruct k as [[id [li|]| | | |]|]; try exact H0.
  etrans; [exact H0|]. set (s1 := set_env_conn (Some c1) s).
  pose proof (process_task_held fuel cid id li (Ha id li c1 eq_refl) s1) as Hp.
  by destruct (process_task _ _ _ _ _ _ _ _ s1) as [[[]| |] s2].
Qed.
End worker.
