(* ===== verification/TaskRun.v ===== *)
(** * A task on its machine

    The code of [worker.rs] takes VMs from the machine it runs on and talks to the scheduler.
    Here its two sides are put together: what a worker does for a task, on the machine and on its
    connection, is a sequence of the steps of Machine.v and of the invocations of Conversation.v;
    no invocation is made without a launched VM, and the result is reported when the VM has been
    given back. *)

From stdpp Require Import base tactics option list gmap strings countable.
From S2P Require Import Prelude Labels Store FsTypes Objects Fs FsGuarantee Syscalls.
From S2P Require Import Blobstore Message SysServer LocalRM Worker Machine Conversation.

Section task_run.
Context {St C N Ch Os : Type} `{BS : !BackingStore St} `{L : !LabelOps} `{SD : !SerdeOps}.
Context `{DG : DigestOps} `{HX : !HexOps} `{CN : !Conn C} `{HC : !HttpClient N}.
Context `{SC : !SyscallChannel Ch} `{MR : !Message pb.Reply}.
Context `{MQ : !Message Request} `{MT : !Message TaskReturn} `{MS : !Message Response}.
Context `{LA : !Launcher Os Ch}.
Context (info_to_vec : ResourceInfo -> bytes) (evict_fuel run_fuel gate_fuel : nat).
Implicit Types (s : Worker St C N Ch Os) (ws : gmap Z (option Vm)).

(** A worker's connection and its machine. *)
Abbreviation Side := (option C * Machine C Ch)%type.

(** What worker [w] does for a task whose function is [f] and whose label is [label]. *)
Inductive serves (w : Z) (f : Function) (label : Buckle) : relation Side :=
  | s_work o m m' :
      worker_step info_to_vec evict_fuel w f label m m' -> serves w f label (o, m) (o, m')
  | s_invoke c c' v m :
      workers m !! w = Some (Some v) -> launched v = true -> invocation c c' ->
      serves w f label (Some c, m) (Some c', m).

(** A worker's code seen from outside, [ws] being what the workers hold. *)
Definition on_machine s ws : Machine C Ch := MkMachine (localrm s) (handles s) ws.
Definition side s ws : Side := (env_conn s, on_machine s ws).

Lemma serves_invocations w f label o o' v m :
  workers m !! w = Some (Some v) -> launched v = true -> invocations o o' ->
  rtc (serves w f label) (o, m) (o', m).
Proof.
  intros Hw Hl. destruct o as [c|], o' as [c'|]; try done. cbn.
  induction 1 as [|c1 c2 c3 H1 _ IH]; [done|]. eapply rtc_l; [by eapply s_invoke|exact IH].
Qed.

(** ** What is neither *)

Definition same_vms : relation (Worker St C N Ch Os) := fun s s' =>
  localrm s' = localrm s /\ handles s' = handles s.
#[local] Instance same_vms_preorder : PreOrder same_vms.
Proof. split; [done|]. intros ? ? ? [H1 H2] [H3 H4]. split; congruence. Qed.

Lemma on_store_vms {A} (m : SM Blobstore A) : Guar same_vms (on_store m).
Proof. intros s. unfold on_store, zoom. by destruct (m (env_blobstore s)). Qed.
Lemma on_os_vms {A} (m : SM Os A) : Guar same_vms (on_os m).
Proof. intros s. unfold on_os, zoom. by destruct (m (os s)). Qed.
Lemma on_conn_vms {A} (m : SM C A) : Guar same_vms (on_conn m).
Proof. intros s. unfold on_conn. destruct (env_conn s) as [c|]; [|done]. by destruct (m c). Qed.
#[local] Hint Resolve on_store_vms on_os_vms on_conn_vms : guar.
Lemma vm_config_vms f : Guar same_vms (vm_config f).
Proof. unfold vm_config, local_path_string, split_at_2. solve_guar. Qed.
Lemma open_blobs_vms bs : Guar same_vms (open_blobs bs).
Proof. induction bs as [|[k b] bs IH]; cbn [open_blobs]; solve_guar. Qed.
Lemma launch_args_vms id cid c o : Guar same_vms (launch_args id cid c o).
Proof. unfold launch_args. solve_guar. Qed.

Lemma machine_same {A} (m : SM (Worker St C N Ch Os) A) s a s' ws :
  Guar same_vms m -> m s = (a, s') -> on_machine s' ws = on_machine s ws.
Proof. intros Hm E. specialize (Hm s). rewrite E in Hm. cbn in Hm. unfold on_machine. by destruct Hm as [-> ->]. Qed.
Lemma conn_same {A} (m : SM (Worker St C N Ch Os) A) s a s' :
  Guar same_conn m -> m s = (a, s') -> env_conn s' = env_conn s.
Proof. intros Hm E. specialize (Hm s). by rewrite E in Hm. Qed.
Lemma side_same {A} (m : SM (Worker St C N Ch Os) A) s a s' ws :
  Guar same_vms m -> Guar same_conn m -> m s = (a, s') -> side s' ws = side s ws.
Proof.
  intros Hv Hc E. unfold side. by rewrite (machine_same _ _ _ _ ws Hv E), (conn_same _ _ _ _ Hc E).
Qed.

(** ** The operations of the loop *)

Lemma try_allocate_machine f label s o s' :
  try_allocate info_to_vec evict_fuel f label s = (Val o, s') ->
  allocate info_to_vec evict_fuel f label (localrm s) = (Val o, localrm s') /\ handles s' = handles s.
Proof.
  assert (E : try_allocate info_to_vec evict_fuel f label s =
    on_rm (allocate info_to_vec evict_fuel f label) s).
  { unfold try_allocate, allocate, on_rm, zoom, mbind, SM_bind.
    destruct (get_cached_vm info_to_vec f (localrm s)) as [[[v|]| |] r]; [|done..].
    destruct (can_flow_to (vm_label v) label); [done|]. cbn.
    destruct (release info_to_vec v r) as [[[]| |] r2]; [|done..]. cbn.
    by destruct (new_vm info_to_vec evict_fuel f r2). }
  rewrite E. unfold on_rm, zoom. destruct (allocate _ _ _ _ _) as [x r]. by intros [= -> <-].
Qed.

Lemma on_rm_side {A} (m : SM (LocalRM.ResourceManager C) A) s a s' ws :
  on_rm m s = (a, s') ->
  m (localrm s) = (a, localrm s') /\
  side s' ws = (env_conn s, MkMachine (localrm s') (handles s) ws).
Proof. unfold on_rm, zoom. destruct (m (localrm s)) as [x r]. by intros [= -> <-]. Qed.

(** A launch is a step of a VM that was not launched, or nothing. *)
Lemma launch_serves w f label cid config odirect vm s l s' ws :
  ws !! w = Some (Some vm) -> launch cid false config odirect vm s = (Val l, s') ->
  match l with
  | Ok vm' => rtc (serves w f label) (side s ws) (side s' (<[w := Some vm']> ws)) /\ launched vm' = true
  | Err _ => side s' ws = side s ws
  end.
Proof.
  intros Hw E. pose proof (conn_same _ _ _ _ (launch_conn _ _ _ _ _) E) as Hc. revert E.
  unfold launch. destruct (launched vm) eqn:El.
  { intros [= <- <-]. by rewrite insert_id. }
  intros (args & s1 & E1 & H)%bind_val. apply (machine_same _ _ _ _ ws (launch_args_vms _ _ _ _)) in E1.
  unfold try_bind in H. apply bind_val in H as (r & s2 & E2 & H).
  apply (machine_same _ _ _ _ ws (on_os_vms _)) in E2. unfold side. rewrite Hc. destruct r as [[]|e].
  2:{ injection H as <- <-. congruence. }
  cbn in H. apply bind_val in H as (c & s3 & E3 & H). apply (machine_same _ _ _ _ ws (on_os_vms _)) in E3.
  destruct c as [ch|e]; [|injection H as <- <-; congruence].
  apply bind_val in H as ([] & s4 & [= <-] & [= <- <-]). split; [|done].
  rewrite <- E1, <- E2, <- E3. apply rtc_once, s_work.
  by apply (m_launch info_to_vec evict_fuel w f label vm ch (on_machine s3 ws)).
Qed.

(** The function runs: its invocations, and what is said on the VM's channel. *)
Lemma process_serves w f label l privilege payload blobs hs invoker vm s r s' ws :
  ws !! w = Some (Some vm) -> launched vm = true ->
  process run_fuel gate_fuel l privilege payload blobs hs invoker vm s = (Val r, s') ->
  rtc (serves w f label) (side s ws) (side s' ws).
Proof.
  intros Hw Hl E. pose proof (process_talks run_fuel gate_fuel l privilege payload blobs hs invoker vm s) as Ht.
  rewrite E in Ht. change (invocations (env_conn s) (env_conn s')) in Ht.
  etrans; [by eapply (serves_invocations w f label _ _ vm (on_machine s ws))|].
  revert E. unfold process. destruct (handles s !! vm_id vm) as [ch|] eqn:Eh; [|done].
  destruct ((unwrap_component invoker ≫= _) _) as [x p]. intros [= -> <-].
  apply rtc_once, s_work. by apply (m_talk info_to_vec evict_fuel w f label vm ch (channel p) (on_machine s ws)).
Qed.

Lemma retry_serves w f label fuel cid cnt invoke l privilege ret0 vm s ret s' ws :
  ws !! w = Some (Some vm) ->
  retry info_to_vec run_fuel gate_fuel fuel cid cnt invoke l privilege ret0 vm s = (Val ret, s') ->
  rtc (serves w f label) (side s ws) (side s' (<[w := None]> ws)).
Proof.
  revert cnt vm s ws. induction fuel as [|fuel IH]; intros cnt vm s ws Hw; cbn [retry]; [done|].
  intros (config & s1 & E1 & H)%bind_val.
  apply (side_same _ _ _ _ ws (vm_config_vms _) (vm_config_conn _)) in E1. rewrite <- E1.
  apply bind_val in H as (r & s2 & E2 & H). apply (launch_serves w f label _ _ _ _ _ _ _ ws Hw) in E2.
  destruct r as [vm'|e]; [|rewrite <- E2; by eapply IH].
  destruct E2 as [E2 Hl]. etrans; [exact E2|].
  replace (<[w := None]> ws) with (<[w := None]> (<[w := Some vm']> ws)) by apply insert_insert_eq.
  set (ws' := <[w := Some vm']> ws) in *.
  assert (Hw' : ws' !! w = Some (Some vm')) by apply lookup_insert_eq.
  apply bind_val in H as (blobs & s3 & E3 & H).
  apply (side_same _ _ _ _ ws' (open_blobs_vms _) (open_blobs_conn _)) in E3.
  rewrite <- E3.
  apply bind_val in H as (r & s4 & E4 & H).
  apply (process_serves w f label _ _ _ _ _ _ _ _ _ _ ws' Hw' Hl) in E4.
  etrans; [exact E4|]. destruct r as [r|e].
  - apply bind_val in H as ([] & s5 & E5 & [= <- <-]).
    apply (on_rm_side _ _ _ _ (<[w := None]> ws')) in E5 as [E5 ->].
    apply rtc_once, s_work. by apply (m_release info_to_vec evict_fuel w f label vm' _ (on_machine s4 ws')).
  - case_decide; [|by eapply IH].
    apply bind_val in H as ([] & s5 & E5 & H).
    apply (on_rm_side _ _ _ _ (<[w := None]> ws')) in E5 as [E5 E6].
    apply bind_val in H as ([] & s6 & [= <-] & [= <- <-]).
    apply rtc_once. injection E6 as Ec Eh. unfold side, on_machine. cbn [localrm handles env_conn set_handles].
    rewrite Ec, Eh. apply s_work.
    by apply (m_delete info_to_vec evict_fuel w f label vm' _ (on_machine s4 ws')).
Qed.

(** C34: a worker's task, from the scheduler's message to the report of its result, is a sequence
    of steps of that worker, for the function of the task, on its machine and its connection,
    which starts and ends with the worker holding no VM: a VM that it takes it gives back or
    deletes.  It makes invocations only while it holds a launched VM; the report is the last
    thing it says, and is said when it holds none. *)
Theorem task_served w fuel cid task_id invoke s s' ws :
  ws !! w = Some None ->
  process_task info_to_vec evict_fuel run_fuel gate_fuel fuel cid task_id (Some invoke) s =
    (Val tt, s') ->
  exists f label c1 ret r c',
    sched.li_function invoke = Some f /\
    rtc (serves w (function_from_message f) label) (side s ws) (Some c1, on_machine s' ws) /\
    finish task_id ret c1 = (Val r, c') /\ env_conn s' = Some c'.
Proof.
  intros Hw (f & label & privilege & vm & s1 & ret & s2 & r & Hf & Ea & Hr & Hfin)%process_task_start.
  pose proof (machine_same _ _ _ _ ws (on_conn_vms _) Hfin) as Hm.
  unfold on_conn in Hfin. destruct (env_conn s2) as [c1|] eqn:Ec; [|done].
  destruct (finish task_id ret c1) as [a c'] eqn:Efin. injection Hfin as -> <-.
  exists f, label, c1, ret, r, c'. split_and!; [done| |done|done]. rewrite Hm, <- Ec.
  change (rtc (serves w (function_from_message f) label) (side s ws) (side s2 ws)).
  pose proof (conn_same _ _ _ _ (try_allocate_conn _ _ _ _) Ea) as Hc.
  assert (Hmem : (0 <= memory (function_from_message f))%Z) by (apply Z.mod_pos_bound; done).
  apply try_allocate_machine in Ea as [Ea Eh].
  apply (rtc_l _ _ (side s1 (<[w := vm]> ws))).
  { unfold side. rewrite Hc. apply s_work. unfold on_machine at 2. rewrite Eh.
    exact (m_allocate info_to_vec evict_fuel w _ label vm _ (on_machine s ws) Hw Hmem Ea). }
  destruct vm as [vm|].
  - apply (retry_serves w (function_from_message f) label _ _ _ _ _ _ _ _ _ _ _ (<[w := Some vm]> ws)) in Hr;
      [|apply lookup_insert_eq].
    by rewrite insert_insert_eq, (insert_id ws w None Hw) in Hr.
  - destruct Hr as [_ ->]. by rewrite insert_id.
Qed.

(** On the machine alone. *)
Lemma serves_machine w f label x y :
  rtc (serves w f label) x y -> rtc (machine_step info_to_vec evict_fuel) x.2 y.2.
Proof.
  induction 1 as [|x y z H _ IH]; [done|]. destruct H as [o m m' H|]; [|exact IH].
  eapply rtc_l; [by eapply m_work|exact IH].
Qed.
End task_run.
