(* ===== verification/Cluster.v ===== *)
(** * The scheduler and its workers together

    [Scheduler.v] says what the scheduler does to whatever arrives on its connections; here the
    connections of the workers have workers behind them, which ask and answer as [worker.rs] and
    [syscall_server.rs] do: one message at a time on one connection, for tasks and for the
    invocations of the function they run alike.  A worker is where it is in that conversation
    ([Phase]); what the scheduler has written and nobody has read yet is [inbox]. *)

From stdpp Require Import base tactics option list gmap strings countable.
From S2P Require Import Prelude Labels Store FsTypes Syscalls Message LocalRM SchedRM.
From S2P Require Import Scheduler SchedProgress.

(** ** The conversation of a worker *)

Inductive Phase : Type :=
  (** at the top of the loop of [wait_and_process] *)
  | Ready
  (** in [rpc::get], which has written [GetTask] and reads *)
  | Waiting
  (** in the task [u] *)
  | Busy (u : Uuid) (li : LabeledInvoke)
  (** in [message::read] of a synchronous invocation [v] made by the task *)
  | Calling (u : Uuid) (li : LabeledInvoke) (v : Uuid)
  (** terminated, or its thread has panicked *)
  | Gone.

Abbreviation mail := (list (Z * sent_message)).

(** The messages that have been written to a connection and not read. *)
Definition unread (c : Z) (l : mail) : list sent_message :=
  snd <$> filter (fun p => p.1 = c) l.
(** Reading the next one. *)
Fixpoint receive (c : Z) (l : mail) : option (sent_message * mail) :=
  match l with
  | [] => None
  | (d, m) :: l =>
      if decide (c = d) then Some (m, l)
      else match receive c l with
           | Some (m', l') => Some (m', (d, m) :: l')
           | None => None
           end
  end.

(** [results]: what each finished task was reported with, in order. *)
Record Cluster : Type := MkCluster {
  sched : System;
  inbox : mail;
  phases : gmap Z Phase;
  results : list (Uuid * TaskReturn);
}.

(** The scheduler has done something; what it has written is in the post. *)
Definition deliver (y : System) (ps : gmap Z Phase) (x : Cluster) : Cluster :=
  MkCluster y (inbox x ++ skipn (length (sent (state (sched x)))) (sent (state y))) ps (results x).
Definition with_phases (l : mail) (ps : gmap Z Phase) (x : Cluster) : Cluster :=
  MkCluster (sched x) l ps (results x).
Definition with_results (r : list (Uuid * TaskReturn)) (x : Cluster) : Cluster :=
  MkCluster (sched x) (inbox x) (phases x) r.

(** Whether the answer to [GetTask] makes [wait_and_process] do something else than ask again. *)
Definition is_work (m : sent_message) : bool :=
  match m with
  | SentResponse (MkResponse (Some (ProcessTask _ (Some _)))) => true
  | SentResponse (MkResponse (Some Terminate)) => true
  | _ => false
  end.

Section cluster.
Context `{U : UuidOps} `{L : LabelOps}.
Context (first_key : gmap Node (list Worker) -> option Node).
Context (info_from_slice : bytes -> option ResourceInfo).
Context (write_ok : Z -> bool).
(** Whether asynchronous invocations may meet a full queue. *)
Context (overflow : bool).

Local Abbreviation st x := (state (sched x)).

(** The system after a task has been queued, and after one has been reported. *)
Definition after_enqueue (u : Uuid) (conn : Z) (li : LabeledInvoke) (s' : Scheduler) (y : System) :
    System :=
  MkSystem s' (current y) (accepted y ++ [Invoke u li]) (started y)
    (<[u := conn]> (origin y))
    (if sched.li_sync li then <[u := conn]> (unregistered y) else unregistered y)
    (outcomes y) (replied y).
Definition after_finish (u : Uuid) (r : TaskReturn) (y : System) : System :=
  let s' := (handle_finish_task write_ok (uuid_to_string u) (Some r) (state y)).2 in
  MkSystem s' (current y) (accepted y) (started y) (origin y) (unregistered y)
    (outcomes y ++ [(u, r)]) (replied y ++ passed_on u (state y) s').

(** What an invocation does, with or without room in the queue. *)
Definition invoked (b : bool) (v : Uuid) (c : Z) (li : LabeledInvoke) (s' : Scheduler) (y : System) :
    System :=
  if b then after_enqueue v c li s' y else with_state s' y.

(** What everybody but the workers does to the scheduler: clients on connections of their own,
    the resource managers of the machines, and the scheduling thread. *)
Inductive other_step (workers : gmap Z Phase) : relation System :=
  | o_ping conn y :
      workers !! conn = None ->
      other_step workers y (with_state (handle_ping write_ok conn (state y)).2 y)
  | o_update_resource ip i y :
      other_step workers y (with_state (handle_update_resource info_from_slice ip i (state y)).2 y)
  | o_drop_resource ip y :
      other_step workers y (with_state (handle_drop_resource write_ok ip (state y)).2 y)
  | o_enqueue u conn li y s' :
      workers !! conn = None -> u <> 0%Z -> origin y !! u = None ->
      enqueue write_ok u conn li (state y) = (Val true, s') ->
      other_step workers y (after_enqueue u conn li s' y)
  | o_queue_full u conn li y s' :
      workers !! conn = None ->
      enqueue write_ok u conn li (state y) = (Val false, s') ->
      other_step workers y (with_state s' y)
  | o_register u conn y :
      unregistered y !! u = Some conn ->
      other_step workers y
        (MkSystem (register u conn (state y)).2 (current y) (accepted y) (started y) (origin y)
           (delete u (unregistered y)) (outcomes y) (replied y))
  | o_wake y : other_step workers y (with_state (notify_one (state y)).2 y)
  | o_schedule y : other_step workers y (schedule_next first_key write_ok y).

Inductive cluster_step : relation Cluster :=
  | c_other y x :
      other_step (phases x) (sched x) y -> cluster_step x (deliver y (phases x) x)
  (** [rpc::get] writes *)
  | c_ask c ip x :
      phases x !! c = Some Ready ->
      cluster_step x
        (deliver (with_state (handle_get_task ip c (st x)).2 (sched x)) (<[c := Waiting]> (phases x)) x)
  (** and reads: a task, the order to terminate, or something else (a result whose code is 0 can
      be decoded as the order to terminate: that is [c_die]) *)
  | c_task c u li l x :
      phases x !! c = Some Waiting -> receive c (inbox x) = Some (process_task u li, l) ->
      cluster_step x (with_phases l (<[c := Busy u li]> (phases x)) x)
  | c_terminate c l x :
      phases x !! c = Some Waiting ->
      receive c (inbox x) = Some (SentResponse (MkResponse (Some Terminate)), l) ->
      cluster_step x (with_phases l (<[c := Gone]> (phases x)) x)
  | c_unknown c m l x :
      phases x !! c = Some Waiting -> receive c (inbox x) = Some (m, l) -> is_work m = false ->
      cluster_step x (with_phases l (<[c := Ready]> (phases x)) x)
  (** [rpc::labeled_invoke], synchronous, and the read of its result *)
  | c_call c u li v li' b s' x :
      phases x !! c = Some (Busy u li) -> sched.li_sync li' = true ->
      v <> 0%Z -> origin (sched x) !! v = None ->
      enqueue write_ok v c li' (st x) = (Val b, s') ->
      cluster_step x
        (deliver (invoked b v c li' s' (sched x)) (<[c := Calling u li v]> (phases x)) x)
  | c_answer c u li v r l x :
      phases x !! c = Some (Calling u li v) -> receive c (inbox x) = Some (SentReturn r, l) ->
      cluster_step x (with_phases l (<[c := Busy u li]> (phases x)) x)
  (** another message in place of the result: a task cannot be decoded as one and the invocation
      fails, the order to terminate is an empty result; either way the message is gone *)
  | c_misread c u li v r l x :
      phases x !! c = Some (Calling u li v) -> receive c (inbox x) = Some (SentResponse r, l) ->
      cluster_step x (with_phases l (<[c := Busy u li]> (phases x)) x)
  (** the same, asynchronous: nothing is read *)
  | c_cast c u li v li' b s' x :
      phases x !! c = Some (Busy u li) -> sched.li_sync li' = false ->
      v <> 0%Z -> origin (sched x) !! v = None ->
      enqueue write_ok v c li' (st x) = (Val b, s') -> (b = false -> overflow = true) ->
      cluster_step x (deliver (invoked b v c li' s' (sched x)) (phases x) x)
  (** [rpc::finish]; 0 is no task's number *)
  | c_report c u li r x :
      phases x !! c = Some (Busy u li) -> u <> 0%Z ->
      cluster_step x
        (with_results (results x ++ [(u, r)])
           (deliver (after_finish u r (sched x)) (<[c := Ready]> (phases x)) x))
  | c_die c p x :
      phases x !! c = Some p -> cluster_step x (with_phases (inbox x) (<[c := Gone]> (phases x)) x).

(** The same, one choice at a time and executable: what the choice leads to, if it is open. *)
Inductive Action : Type :=
  | Ask (c ip : Z)
  | Read (c : Z)
  | Client (u conn : Z) (li : LabeledInvoke)
  | Registered (u : Uuid)
  | Schedule
  | Submit (c : Z) (v : Uuid) (li : LabeledInvoke)
  | Report (c : Z) (r : TaskReturn)
  | Die (c : Z).

Definition read_mail (p : Phase) (m : sent_message) : option Phase :=
  match p, m with
  | Waiting, SentResponse (MkResponse (Some (ProcessTask id (Some li)))) =>
      u ← uuid_parse id; if decide (id = uuid_to_string u) then Some (Busy u li) else None
  | Waiting, SentResponse (MkResponse (Some Terminate)) => Some Gone
  | Waiting, _ => Some Ready
  | Calling u li _, _ => Some (Busy u li)
  | _, _ => None
  end.

Definition perform (a : Action) (x : Cluster) : option Cluster :=
  match a with
  | Ask c ip =>
      match phases x !! c with
      | Some Ready =>
          Some (deliver (with_state (handle_get_task ip c (st x)).2 (sched x))
                  (<[c := Waiting]> (phases x)) x)
      | _ => None
      end
  | Read c =>
      p ← phases x !! c; '(m, l) ← receive c (inbox x); p' ← read_mail p m;
      Some (with_phases l (<[c := p']> (phases x)) x)
  | Client u conn li =>
      match phases x !! conn, origin (sched x) !! u, enqueue write_ok u conn li (st x) with
      | None, None, (Val b, s') =>
          if decide (u = 0%Z) then None
          else Some (deliver (invoked b u conn li s' (sched x)) (phases x) x)
      | _, _, _ => None
      end
  | Registered u =>
      conn ← unregistered (sched x) !! u;
      Some (deliver (MkSystem (register u conn (st x)).2 (current (sched x)) (accepted (sched x))
                       (started (sched x)) (origin (sched x)) (delete u (unregistered (sched x)))
                       (outcomes (sched x)) (replied (sched x))) (phases x) x)
  | Schedule => Some (deliver (schedule_next first_key write_ok (sched x)) (phases x) x)
  | Submit c v li =>
      match phases x !! c, origin (sched x) !! v, enqueue write_ok v c li (st x) with
      | Some (Busy u lu), None, (Val b, s') =>
          if decide (v = 0%Z) then None
          else if sched.li_sync li then
            Some (deliver (invoked b v c li s' (sched x)) (<[c := Calling u lu v]> (phases x)) x)
          else if b || overflow then Some (deliver (invoked b v c li s' (sched x)) (phases x) x)
          else None
      | _, _, _ => None
      end
  | Report c r =>
      match phases x !! c with
      | Some (Busy u li) =>
          if decide (u = 0%Z) then None
          else Some (with_results (results x ++ [(u, r)])
                 (deliver (after_finish u r (sched x)) (<[c := Ready]> (phases x)) x))
      | _ => None
      end
  | Die c => _ ← phases x !! c; Some (with_phases (inbox x) (<[c := Gone]> (phases x)) x)
  end.

Fixpoint perform_all (l : list Action) (x : Cluster) : option Cluster :=
  match l with
  | [] => Some x
  | a :: l => x' ← perform a x; perform_all l x'
  end.

Lemma perform_step a x x' : perform a x = Some x' -> cluster_step x x'.
Proof.
  destruct a as [c ip|c|u conn li|u| |c v li|c r|c]; cbn [perform].
  - destruct (phases x !! c) as [[]|] eqn:Hp; try done. intros [= <-]. by constructor.
  - destruct (phases x !! c) as [p|] eqn:Hp; [|done]. destruct (receive c (inbox x)) as [[m l]|] eqn:Hr; [|done].
    cbn [mbind option_bind]. destruct (read_mail p m) as [p'|] eqn:E; [|done]. intros [= <-].
    destruct p as [| |u li|u li v|]; try done.
    + destruct m as [[[[id [li|]| | | |]|]]|r]; cbn in E;
        try (injection E as <-; by eapply c_unknown); [|injection E as <-; by apply c_terminate].
      destruct (uuid_parse id) as [u|]; [|done]. cbn in E. destruct (decide _) as [->|]; [|done].
      injection E as <-. by apply c_task.
    + cbn in E. injection E as <-. destruct m; [by eapply c_misread|by eapply c_answer].
  - destruct (phases x !! conn) eqn:Hp; [done|]. destruct (origin (sched x) !! u) eqn:Ho; [done|].
    destruct (enqueue write_ok u conn li (st x)) as [[b| |] s'] eqn:E; try done.
    destruct (decide (u = 0%Z)); [done|]. intros [= <-]. apply c_other.
    destruct b; [by eapply o_enqueue|by eapply o_queue_full].
  - destruct (unregistered (sched x) !! u) as [conn|] eqn:Hu; [|done]. intros [= <-].
    by apply c_other, o_register.
  - intros [= <-]. apply c_other, o_schedule.
  - destruct (phases x !! c) as [[| |u lu|u lu w|]|] eqn:Hp; try done.
    destruct (origin (sched x) !! v) eqn:Ho; [done|].
    destruct (enqueue write_ok v c li (st x)) as [[b| |] s'] eqn:E; try done.
    destruct (decide (v = 0%Z)); [done|]. destruct (sched.li_sync li) eqn:Hs.
    + intros [= <-]. by eapply c_call.
    + destruct (b || overflow) eqn:Hb; [|done]. intros [= <-].
      eapply c_cast; try done. by destruct b.
  - destruct (phases x !! c) as [[| |u lu|u lu w|]|] eqn:Hp; try done.
    destruct (decide (u = 0%Z)); [done|]. intros [= <-]. by eapply c_report.
  - destruct (phases x !! c) as [p|] eqn:Hp; [|done]. intros [= <-]. by eapply c_die.
Qed.

Lemma perform_all_steps l x x' : perform_all l x = Some x' -> rtc cluster_step x x'.
Proof.
  revert x; induction l as [|a l IH]; intros x; cbn; [by intros [= <-]|].
  destruct (perform a x) as [y|] eqn:E; [|done]. cbn. intros H.
  eapply rtc_l; [by eapply perform_step|by apply IH].
Qed.

(** Workers on the connections [cs], and nothing asked yet. *)
Definition cluster_initial (cap : nat) (cs : list Z) : Cluster :=
  MkCluster (initial cap) [] (list_to_map ((fun c => (c, Ready)) <$> cs)) [].

(** A worker in phase [ph] has task [u]: it runs it, or the message that gives it the task is on
    its way. *)
Definition carried (ph : option Phase) (box : list sent_message) (u : Uuid) (li : LabeledInvoke) :
    Prop :=
  match ph with
  | Some (Busy u' li') | Some (Calling u' li' _) => u' = u /\ li' = li
  | Some Waiting => process_task u li ∈ box
  | _ => False
  end.
Definition carries (ps : gmap Z Phase) (l : mail) (c : Z) : Uuid -> LabeledInvoke -> Prop :=
  carried (ps !! c) (unread c l).
Definition holds (x : Cluster) (c : Z) (u : Uuid) : Prop :=
  exists li, carries (phases x) (inbox x) c u li.
End cluster.

(** ** Mail *)

Lemma unread_nil c : unread c [] = [].
Proof. done. Qed.
Lemma unread_app c l l' : unread c (l ++ l') = unread c l ++ unread c l'.
Proof. unfold unread. by rewrite list.filter_app, fmap_app. Qed.
Lemma unread_cons c d m l : unread c ((d, m) :: l) = if decide (d = c) then m :: unread c l else unread c l.
Proof. unfold unread. rewrite list.filter_cons. cbn. by destruct (decide (d = c)). Qed.

Lemma receive_spec c l m l' :
  receive c l = Some (m, l') ->
  unread c l = m :: unread c l' /\ forall d, d <> c -> unread d l = unread d l'.
Proof.
  revert l'. induction l as [|[d n] l IH]; intros l'; cbn [receive]; [done|].
  destruct (decide (c = d)) as [<-|Hne].
  - intros [= -> ->]. split; [by rewrite unread_cons, decide_True|].
    intros d Hd. by rewrite unread_cons, decide_False.
  - destruct (receive c l) as [[m' l0]|]; [|done]. intros [= -> <-].
    destruct (IH l0 eq_refl) as [H1 H2]. split.
    + rewrite !unread_cons, !decide_False by done. exact H1.
    + intros e He. rewrite !unread_cons. by rewrite (H2 e He).
Qed.

#[local] Arguments unread : simpl never.

(** ** Idle workers of a connection *)

Definition idle_at (c : Z) (m : ResourceManager) : nat :=
  usable_count (fun w => bool_decide (worker_conn w = c)) (idle m).
#[local] Arguments idle_at : simpl never.

Lemma usable_count_insert P (m : gmap Node (list Worker)) n l :
  usable_count P (<[n := l]> m) =
    (length (usable P l) + usable_count P (delete n m))%nat.
Proof.
  unfold usable_count. rewrite <- insert_delete_eq, fmap_insert, idle_count_insert; [done|].
  by rewrite lookup_fmap, lookup_delete_eq.
Qed.
Lemma usable_count_split P (m : gmap Node (list Worker)) n :
  usable_count P m = (length (usable P (default [] (m !! n))) + usable_count P (delete n m))%nat.
Proof.
  destruct (m !! n) as [l|] eqn:E; cbn [default from_option id].
  - rewrite <- (insert_id m n l E) at 1. apply usable_count_insert.
  - by rewrite delete_id.
Qed.

Lemma idle_at_add_idle c ip conn m :
  idle_at c (add_idle ip conn m) =
    ((if decide (conn = c) then 1 else 0) + idle_at c m)%nat.
Proof.
  unfold idle_at. set (P := fun w => _).
  assert (Hi : idle (add_idle ip conn m) = <[ip := default [] (idle m !! ip) ++ [MkWorker ip conn]]> (idle m)).
  { unfold add_idle, try_add_node. destruct (info m !! ip); cbn; by destruct (idle m !! ip). }
  rewrite Hi, usable_count_insert, (usable_count_split P (idle m) ip).
  unfold usable. rewrite List.filter_app, length_app. cbn [List.filter]. unfold P at 2. cbn [worker_conn].
  destruct (decide (conn = c)); [rewrite bool_decide_true by done|rewrite bool_decide_false by done]; cbn; lia.
Qed.

Lemma unread_terminates write_ok c conns s :
  exists l, sent (terminate_all write_ok conns s) = sent s ++ l /\
    (length (unread c l) <= count_occ Z.eq_dec conns c)%nat /\
    Forall (fun m => m = SentResponse (MkResponse (Some Terminate))) (unread c l).
Proof.
  revert s. induction conns as [|d conns IH]; intros s.
  { exists []. rewrite app_nil_r. by split_and!. }
  unfold terminate_all in *. cbn [foldl].
  destruct (IH (if write_ok d then write_to d (SentResponse (MkResponse (Some Terminate))) s else s))
    as (l & E & Hl & Hf). rewrite E. destruct (write_ok d).
  - exists ((d, SentResponse (MkResponse (Some Terminate))) :: l). cbn [sent write_to].
    rewrite <- app_assoc. split; [done|]. rewrite unread_cons. cbn [count_occ].
    destruct (decide (d = c)) as [->|Hne].
    + destruct (Z.eq_dec c c); [|done]. cbn. split; [lia|by constructor].
    + destruct (Z.eq_dec d c); [done|]. by split.
  - exists l. split; [done|]. split; [|done]. cbn. destruct (Z.eq_dec d c); lia.
Qed.

Lemma idle_at_remove c ip m :
  (idle_at c (remove ip m).1 + count_occ Z.eq_dec (remove ip m).2 c)%nat = idle_at c m.
Proof.
  set (P := fun w => bool_decide (worker_conn w = c)).
  assert (Hr : (idle (remove ip m).1, (remove ip m).2) =
    match idle m !! ip with
    | Some ws => (delete ip (idle m), worker_conn <$> rev ws) | None => (idle m, []) end).
  { unfold remove. cbn. by destruct (idle m !! ip). }
  unfold idle_at. fold P. destruct (idle m !! ip) as [ws|] eqn:E; injection Hr as -> ->; [|cbn; lia].
  rewrite (usable_count_split P (idle m) ip), E. cbn [default from_option id].
  assert (Hc : forall l : list Worker, count_occ Z.eq_dec (worker_conn <$> l) c = length (usable P l)).
  { induction l as [|w l IH]; [done|]. cbn. unfold P at 1. destruct (Z.eq_dec (worker_conn w) c).
    - rewrite bool_decide_true by done. cbn. by rewrite IH.
    - by rewrite bool_decide_false. }
  assert (Hr : count_occ Z.eq_dec (worker_conn <$> rev ws) c = count_occ Z.eq_dec (worker_conn <$> ws) c).
  { apply Permutation_count_occ. by rewrite <- Permutation_rev. }
  rewrite Hr, Hc. lia.
Qed.

(** ** The conversation of a worker is in step

    What may be on the way to a worker, and what the scheduler may still write to it, in each
    phase; [n] is how often it is idle for the scheduler, [out v] says that the scheduler will
    answer invocation [v] to it, and [res v r] that [r] answers [v]. *)

Definition wire_ok (res : Uuid -> TaskReturn -> Prop) (ph : option Phase) (n : nat)
    (box : list sent_message) (out : Uuid -> Prop) : Prop :=
  match ph with
  | None => n = O
  | Some Ready | Some (Busy _ _) => n = O /\ box = [] /\ forall v, ~ out v
  | Some Waiting =>
      (n + length box <= 1)%nat /\ Forall (fun m => is_work m = true) box /\ forall v, ~ out v
  | Some (Calling _ _ v0) =>
      n = O /\ ((box = [] /\ forall v, out v -> v = v0) \/
               ((exists r, box = [SentReturn r] /\ res v0 r) /\ forall v, ~ out v))
  | Some Gone => (n <= 1)%nat
  end.

(** The scheduler writes what an idle worker expects, and forgets it or owes less. *)
Lemma wire_ok_words (res res' : Uuid -> TaskReturn -> Prop) ph n n' box l (out out' : Uuid -> Prop) :
  wire_ok res ph n box out -> (n' + length l <= n)%nat -> Forall (fun m => is_work m = true) l ->
  (forall v r, res v r -> res' v r) -> (forall v, out' v -> out v) ->
  wire_ok res' ph n' (box ++ l) out'.
Proof.
  intros H Hn Hl Hr Ho.
  assert (Hno : (forall v, ~ out v) -> forall v, ~ out' v) by (intros Hv v ?%Ho; by apply (Hv v)).
  assert (n = O -> l = []) by (intros ->; apply nil_length_inv; lia).
  destruct ph as [[| |u li|u li v0|]|]; cbn in *; try lia.
  - destruct H as (-> & -> & H). rewrite H0 by done. split_and!; [lia|done|auto].
  - destruct H as (? & ? & H). split_and!; [rewrite length_app; lia|by apply Forall_app_2|auto].
  - destruct H as (-> & -> & H). rewrite H0 by done. split_and!; [lia|done|auto].
  - destruct H as (-> & H). rewrite H0, app_nil_r by done. split; [lia|].
    destruct H as [[? H]|[(r & ? & ?) H]]; [left|right]; split; eauto.
Qed.

Section custody.
Context `{U : UuidOps} `{L : LabelOps}.

(** The answers that the scheduler owes to [c]. *)
Definition owes (y : System) (c : Z) (v : Uuid) : Prop :=
  wait_list (manager (state y)) !! v = Some c \/ unregistered y !! v = Some c.

Definition answers (rs : list (Uuid * TaskReturn)) (v : Uuid) (r : TaskReturn) : Prop :=
  (v, r) ∈ rs \/ r = queue_full.

Definition in_step (x : Cluster) : Prop :=
  forall c, wire_ok (answers (results x)) (phases x !! c) (idle_at c (manager (state (sched x))))
              (unread c (inbox x)) (owes (sched x) c).

(** ** Every task is in one place *)

Definition task_id (t : Task) : option Uuid :=
  match t with Invoke u _ => Some u | TerminateTask => None end.

(** [K c u li]: worker [c] has task [u]; [G c]: it is gone. *)
Record custody (K : Z -> Uuid -> LabeledInvoke -> Prop) (G : Z -> Prop)
    (st : list Task) (fin : list Uuid) (se : mail) : Prop := {
  cu_started c u li : K c u li ->
    Invoke u li ∈ st /\ u ∉ fin /\ (c, process_task u li) ∈ se;
  cu_exclusive c c' u li li' : K c u li -> K c' u li' -> c = c';
  cu_placed u li : Invoke u li ∈ st ->
    u ∈ fin \/ (exists c, K c u li) \/ (exists c, G c /\ (c, process_task u li) ∈ se);
}.

Lemma custody_weaken (K K' : Z -> Uuid -> LabeledInvoke -> Prop) (G G' : Z -> Prop) st fin se l :
  custody K G st fin se ->
  (forall c u li, K' c u li -> K c u li) ->
  (forall c u li, K c u li -> K' c u li \/ G' c) -> (forall c, G c -> G' c) ->
  custody K' G' st fin (se ++ l).
Proof.
  intros [H1 H2 H3] HK HG HGG. split.
  - intros c u li (? & ? & ?)%HK%H1. split_and!; try done. apply elem_of_app; by left.
  - intros c c' u li li' ?%HK ?%HK. eauto.
  - intros u li Hu. destruct (H3 u li Hu) as [?|[[c Hc]|(c & ? & ?)]]; [by left|..].
    + destruct (HG c u li Hc) as [?|?]; right; [left; eauto|right].
      exists c. split; [done|]. apply elem_of_app. left. by apply (H1 c u li).
    + right; right. exists c. split; [by apply HGG|]. apply elem_of_app; by left.
Qed.
End custody.

(** What the scheduler's records say of the tasks' numbers. *)
Record books (y : System) : Prop := {
  bk_ids : NoDup (omap task_id (accepted y));
  bk_known u : u ∈ omap task_id (accepted y) -> is_Some (origin y !! u);
  bk_once : NoDup (finished y);
  bk_finished u : u ∈ finished y -> u ∈ omap task_id (started y);
}.

Lemma started_number u li (l : list Task) : Invoke u li ∈ l -> u ∈ omap task_id l.
Proof. intros H. apply list_elem_of_omap. by exists (Invoke u li). Qed.
Lemma number_started u (l : list Task) : u ∈ omap task_id l -> exists li, Invoke u li ∈ l.
Proof. intros ([v li|] & ? & [= <-])%list_elem_of_omap. by exists li. Qed.

Section cluster_theorems.
Context `{UL : UuidLaws} `{L : LabelOps}.
Context (first_key : gmap Node (list Worker) -> option Node).
Hypothesis first_key_some : forall m n, first_key m = Some n -> is_Some (m !! n).
Context (info_from_slice : bytes -> option ResourceInfo).
Hypothesis info_counts : forall b i, info_from_slice b = Some i ->
  map_Forall (fun _ k => 0 <= k < u64_mod)%Z (stats i).
Context (write_ok : Z -> bool).

Local Abbreviation sstep := (sched_step first_key info_from_slice write_ok).
Local Abbreviation step := (cluster_step first_key info_from_slice write_ok).
Local Abbreviation ostep := (other_step first_key info_from_slice write_ok).
Local Abbreviation st x := (state (sched x)).

(** *** What is written *)

Lemma process_task_inj u li u' li' : process_task u li = process_task u' li' -> u = u' /\ li = li'.
Proof.
  intros [= E ->]. split; [|done]. apply (f_equal uuid_parse) in E.
  rewrite !uuid_parse_to_string in E. by injection E.
Qed.

Lemma deliver_inbox y ps x l :
  sent (state y) = sent (st x) ++ l -> inbox (deliver y ps x) = inbox x ++ l.
Proof. intros E. cbn. by rewrite E, drop_app_length. Qed.

Lemma deliver_eq y ps x l :
  sent (state y) = sent (st x) ++ l -> deliver y ps x = MkCluster y (inbox x ++ l) ps (results x).
Proof. intros E. unfold deliver. by rewrite E, drop_app_length. Qed.

(** *** Steps of the scheduler that do not concern the workers *)

(** Nothing is written to a worker. *)
Definition quiet (ps : gmap Z Phase) (l : mail) : Prop :=
  forall c, is_Some (ps !! c) -> unread c l = [].
(** No task is given to a worker. *)
Definition no_task (ps : gmap Z Phase) (l : mail) : Prop :=
  forall c u li, is_Some (ps !! c) -> process_task u li ∉ unread c l.

Lemma quiet_nil ps : quiet ps [].
Proof. done. Qed.
Lemma quiet_no_task ps l : quiet ps l -> no_task ps l.
Proof. intros H c u li Hc. rewrite H by done. set_solver. Qed.
Lemma quiet_conn ps conn (b : bool) m : ps !! conn = None -> quiet ps (if b then [(conn, m)] else []).
Proof.
  intros Hn c [p Hp]. destruct b; [|done]. rewrite unread_cons, decide_False; [done|]. naive_solver.
Qed.

Lemma carries_no_task ps l l' c u li :
  no_task ps l' -> carries ps (l ++ l') c u li <-> carries ps l c u li.
Proof.
  intros H. unfold carries, carried. destruct (ps !! c) as [[]|] eqn:E; try done.
  rewrite unread_app, elem_of_app. split; [intros [?|Hm]; [done|]|by left].
  exfalso. by apply (H c u li).
Qed.

Lemma in_step_quiet y x l :
  in_step x -> sent (state y) = sent (st x) ++ l -> quiet (phases x) l ->
  (forall c, idle_at c (manager (state y)) = idle_at c (manager (st x))) ->
  (forall c v, is_Some (phases x !! c) -> owes y c v -> owes (sched x) c v) ->
  in_step (deliver y (phases x) x).
Proof.
  intros Hx Hl Hq Hi Ho c. cbn. rewrite Hl, drop_app_length, unread_app, Hi. specialize (Hx c).
  destruct (phases x !! c) as [p|] eqn:E; [|exact Hx].
  rewrite (Hq c) by eauto. eapply wire_ok_words; [exact Hx|cbn; lia|done|done|].
  intros v. apply Ho. eauto.
Qed.

(** [idle_at] only looks at the idle workers. *)
Lemma idle_at_eq c m m' : idle m = idle m' -> idle_at c m = idle_at c m'.
Proof. unfold idle_at. by intros ->. Qed.

Lemma attempt_effect task s r s' :
  attempt first_key write_ok task s = (Val r, s') -> manager_ok (manager s) ->
  exists u li, task = Invoke u li /\
    match r with
    | None => sent s' = sent s /\ forall c, idle_at c (manager s') = idle_at c (manager s)
    | Some (w, b) =>
        sent s' = sent s ++ (if b then [(worker_conn w, process_task u li)] else []) /\
        forall c, idle_at c (manager s) =
          ((if decide (worker_conn w = c) then 1 else 0) + idle_at c (manager s'))%nat
    end.
Proof.
  intros E Hok. destruct task as [u li|]; [|done]. exists u, li. split; [done|].
  destruct (sched.li_function li) as [f|] eqn:Hf; [|cbn in E; by rewrite Hf in E].
  destruct (attempt_run first_key first_key_some write_ok u li f s Hf Hok)
    as (o & m & _ & _ & Hh & _ & E').
  rewrite E' in E. destruct o as [w|].
  - assert (Hu : forall c, idle_at c (manager s) =
      ((if decide (worker_conn w = c) then 1 else 0) + idle_at c m)%nat).
    { intros c. unfold idle_at. rewrite (handed_out_usable _ _ _ _ Hh).
      destruct (decide _) as [Hc|Hc]; [by rewrite bool_decide_true|by rewrite bool_decide_false]. }
    destruct (write_ok (worker_conn w)); injection E as <- <-; (split; [|exact Hu]); [done|].
    by rewrite app_nil_r.
  - injection E as <- <-. split; [done|]. intros c. by apply idle_at_eq.
Qed.

Definition custody_of (x : Cluster) : Prop :=
  custody (carries (phases x) (inbox x)) (fun c => phases x !! c = Some Gone)
    (started (sched x)) (finished (sched x)) (sent (st x)).

Lemma custody_deliver y ps x l :
  custody_of x -> sent (state y) = sent (st x) ++ l ->
  started y = started (sched x) -> finished y = finished (sched x) ->
  no_task (phases x) l ->
  (forall c u li, carries ps (inbox x ++ l) c u li -> carries (phases x) (inbox x ++ l) c u li) ->
  (forall c u li, carries (phases x) (inbox x ++ l) c u li ->
    carries ps (inbox x ++ l) c u li \/ ps !! c = Some Gone) ->
  (forall c, phases x !! c = Some Gone -> ps !! c = Some Gone) ->
  custody_of (deliver y ps x).
Proof.
  intros Hc Hl Hst Hfi Hn H1 H2 H3. unfold custody_of.
  rewrite (deliver_inbox y ps x l Hl). cbn. rewrite Hl, Hst, Hfi.
  eapply custody_weaken; [exact Hc|..|exact H3].
  - intros c u li H%H1. by apply carries_no_task in H.
  - intros c u li H. apply H2. by apply carries_no_task.
Qed.

Lemma custody_same y x l :
  custody_of x -> sent (state y) = sent (st x) ++ l ->
  started y = started (sched x) -> finished y = finished (sched x) ->
  no_task (phases x) l -> custody_of (deliver y (phases x) x).
Proof. intros. eapply custody_deliver; eauto. Qed.

Definition sound (x : Cluster) : Prop := in_step x /\ custody_of x.

Lemma sound_quiet y x l :
  sound x -> sent (state y) = sent (st x) ++ l -> quiet (phases x) l ->
  started y = started (sched x) -> finished y = finished (sched x) ->
  (forall c, idle_at c (manager (state y)) = idle_at c (manager (st x))) ->
  (forall c v, is_Some (phases x !! c) -> owes y c v -> owes (sched x) c v) ->
  sound (deliver y (phases x) x).
Proof.
  intros [H1 H2] Hl Hq ? ? ? ?. split; [by eapply in_step_quiet|].
  eapply custody_same; eauto using quiet_no_task.
Qed.

Lemma sound_drop_resource ip x :
  sound x -> manager_ok (manager (st x)) ->
  sound (deliver (with_state (handle_drop_resource write_ok ip (st x)).2 (sched x)) (phases x) x).
Proof.
  intros [Hw Hc] Hm. destruct (drop_resource_keeps write_ok ip (st x) Hm) as (_ & _ & Hwl & _).
  set (s' := (handle_drop_resource write_ok ip (st x)).2) in *.
  assert (exists m conns, remove ip (manager (st x)) = (m, conns) /\
    s' = terminate_all write_ok conns (set_manager m (st x))) as (m & conns & Er & Es).
  { destruct (remove ip (manager (st x))) as [m conns] eqn:Er. exists m, conns.
    split; [done|]. unfold s', handle_drop_resource. cbn. by rewrite Er. }
  clearbody s'.
  assert (Hn : forall c, (idle_at c (manager s') + count_occ Z.eq_dec conns c)%nat =
    idle_at c (manager (st x))).
  { intros c. rewrite <- (idle_at_remove c ip (manager (st x))), Er, Es.
    by rewrite (proj1 (terminate_all_state write_ok conns _)). }
  assert (exists l, sent s' = sent (st x) ++ l /\ forall c,
    (length (unread c l) <= count_occ Z.eq_dec conns c)%nat /\
    Forall (fun m => m = SentResponse (MkResponse (Some Terminate))) (unread c l)) as (l & Hl & Hu).
  { rewrite Es. destruct (unread_terminates write_ok 0 conns (set_manager m (st x))) as (l & El & _).
    exists l. split; [exact El|]. intros c.
    destruct (unread_terminates write_ok c conns (set_manager m (st x))) as (l' & El' & ?).
    rewrite El in El'. by apply app_inv_head in El' as <-. }
  split.
  - intros c. rewrite (deliver_inbox (with_state s' (sched x)) (phases x) x l Hl), unread_app. cbn.
    specialize (Hn c). destruct (Hu c) as [Hlen Hall].
    eapply wire_ok_words; [exact (Hw c)|lia| |done|by unfold owes; cbn; rewrite Hwl].
    eapply list.Forall_impl; [exact Hall|]. by intros ? ->.
  - eapply custody_same; try done. intros c u li _ Hin.
    destruct (Hu c) as [_ Hall]. rewrite list.Forall_forall in Hall. by apply Hall in Hin.
Qed.

(** A task taken out of the queue is new: no worker has had it. *)
Lemma current_new y u li :
  system_ok y -> books y -> current y = Some (Invoke u li) ->
  u ∉ omap task_id (started y) /\ u ∉ finished y.
Proof.
  intros Hs [Hn _ _ Hf] Hc. rewrite (sys_fifo _ Hs), Hc in Hn. cbn [option_list app] in Hn.
  rewrite omap_app in Hn. apply list.NoDup_app in Hn as (_ & Hn & _).
  assert (u ∉ omap task_id (started y)) by (intros H; apply (Hn u H); cbn; set_solver).
  split; [done|]. by intros ?%Hf.
Qed.

Lemma custody_given K K' (G : Z -> Prop) st fin se c0 u0 li0 :
  custody K G st fin se -> u0 ∉ omap task_id st -> u0 ∉ fin ->
  (forall c u li, K' c u li <-> K c u li \/ (c = c0 /\ u = u0 /\ li = li0) /\ ~ G c0) ->
  G c0 \/ ~ G c0 ->
  custody K' G (st ++ [Invoke u0 li0]) fin (se ++ [(c0, process_task u0 li0)]).
Proof.
  intros [H1 H2 H3] Hst Hfin HK HG.
  assert (Hnew : forall c li, ~ K c u0 li).
  { intros c li (H & _)%H1. by apply Hst, (started_number u0 li). }
  split.
  - intros c u li [H|[(-> & -> & ->) _]]%HK.
    + destruct (H1 c u li H) as (? & ? & ?). split_and!; [apply elem_of_app; by left|done|apply elem_of_app; by left].
    + split_and!; [apply elem_of_app; right; by apply list_elem_of_singleton|done|].
      apply elem_of_app; right; by apply list_elem_of_singleton.
  - intros c c' u li li' [H|[(-> & -> & ->) _]]%HK [H'|[(-> & E & ->) _]]%HK; eauto.
    + subst u. by apply Hnew in H.
    + by apply Hnew in H'.
  - intros u li [Hu|[= -> ->]%list_elem_of_singleton]%elem_of_app.
    + destruct (H3 u li Hu) as [?|[[c Hc]|(c & ? & ?)]]; [by left| |].
      * right; left. exists c. apply HK; by left.
      * right; right. exists c. split; [done|]. apply elem_of_app; by left.
    + right. destruct HG as [HG|HG].
      * right. exists c0. split; [done|]. apply elem_of_app; right; by apply list_elem_of_singleton.
      * left. exists c0. apply HK. by right.
Qed.

Lemma sound_dispatch u li w s' x :
  sound x -> system_ok (sched x) -> books (sched x) -> current (sched x) = Some (Invoke u li) ->
  attempt first_key write_ok (Invoke u li) (st x) = (Val (Some (w, true)), s') ->
  sound (deliver
    (MkSystem s' None (accepted (sched x)) (started (sched x) ++ [Invoke u li]) (origin (sched x))
       (unregistered (sched x)) (outcomes (sched x)) (replied (sched x))) (phases x) x).
Proof.
  intros [Hw Hc] Hs Hb Hcur E. destruct (current_new _ _ _ Hs Hb Hcur) as [Hst Hfin].
  destruct (attempt_keeps first_key first_key_some write_ok _ _ _ _ E (sys_manager _ Hs)) as (_ & Hwl & _).
  destruct (attempt_effect _ _ _ _ E (sys_manager _ Hs)) as (u' & li' & [= <- <-] & Hl & Hi).
  set (y := MkSystem s' _ _ _ _ _ _ _). set (c0 := worker_conn w) in *.
  assert (Hin : inbox (deliver y (phases x) x) = inbox x ++ [(c0, process_task u li)])
    by (by apply deliver_inbox).
  assert (Hph : phases x !! c0 = Some Waiting /\ unread c0 (inbox x) = [] \/ phases x !! c0 = Some Gone).
  { specialize (Hw c0). specialize (Hi c0). rewrite decide_True in Hi by done.
    destruct (phases x !! c0) as [[]|]; cbn in Hw; try lia; [|by right]. left. split; [done|].
    apply nil_length_inv. lia. }
  split.
  - intros c. rewrite Hin, unread_app, unread_cons. cbn. specialize (Hi c).
    eapply wire_ok_words; [exact (Hw c)| | |done|by unfold owes; cbn; rewrite Hwl].
    + rewrite unread_nil. destruct (decide (c0 = c)); cbn in Hi |- *; lia.
    + destruct (decide (c0 = c)); by repeat constructor.
  - unfold custody_of. rewrite Hin. cbn. rewrite Hl.
    eapply custody_given; [exact Hc|done|done| |].
    + intros c v lv. unfold carries, carried. destruct Hph as [[Hp Hu]|Hp].
      * destruct (decide (c = c0)) as [->|Hne].
        -- rewrite Hp, unread_app, Hu, unread_cons, decide_True by done. cbn.
           rewrite list_elem_of_singleton. split; [intros [-> ->]%process_task_inj; right; by split|].
           intros [?|[(_ & -> & ->) _]]; [set_solver|done].
        -- assert (unread c (inbox x ++ [(c0, process_task u li)]) = unread c (inbox x)) as ->.
           { by rewrite unread_app, unread_cons, decide_False, app_nil_r. }
           split; [by left|]. by intros [?|[[? _] _]].
      * destruct (decide (c = c0)) as [->|Hne]; [rewrite Hp; tauto|].
        assert (unread c (inbox x ++ [(c0, process_task u li)]) = unread c (inbox x)) as ->.
        { by rewrite unread_app, unread_cons, decide_False, app_nil_r. }
        split; [by left|]. by intros [?|[[? _] _]].
    + cbn. destruct Hph as [[-> _]| ->]; [by right|by left].
Qed.

Lemma custody_finish K K' (G : Z -> Prop) st fin se l c u li :
  custody K G st fin se -> K c u li -> (forall u' li', K c u' li' -> u' = u) ->
  (forall c' u' li', K' c' u' li' <-> K c' u' li' /\ c' <> c) ->
  custody K' G st (fin ++ [u]) (se ++ l).
Proof.
  intros [H1 H2 H3] Hc Hone HK. split.
  - intros c' u' li' [H Hne]%HK. destruct (H1 _ _ _ H) as (? & Hf & ?).
    split_and!; [done| |apply elem_of_app; by left].
    intros [?| ->%list_elem_of_singleton]%elem_of_app; [done|]. by apply Hne, (H2 _ _ u li' li).
  - intros c1 c2 v l1 l2 [? _]%HK [? _]%HK. eauto.
  - intros v lv Hv. destruct (H3 v lv Hv) as [?|[[c' Hc']|(c' & ? & ?)]].
    + left. apply elem_of_app; by left.
    + destruct (decide (c' = c)) as [->|Hne].
      * apply Hone in Hc' as ->. left. apply elem_of_app; right. by apply list_elem_of_singleton.
      * right; left. exists c'. by apply HK.
    + right; right. exists c'. split; [done|]. apply elem_of_app; by left.
Qed.

(** What the report of task [u] does to the post: it may answer whoever waits for it. *)
Definition report_mail (u : Uuid) (r : TaskReturn) (x : Cluster) : mail :=
  match wait_list (manager (st x)) !! u with
  | Some c => if write_ok c then [(c, SentReturn r)] else []
  | None => []
  end.
Local Abbreviation reported c u r x := (with_results (results x ++ [(u, r)])
    (deliver (after_finish write_ok u r (sched x)) (<[c := Ready]> (phases x)) x)).

Lemma report_mail_to u r x d :
  unread d (report_mail u r x) = [] \/
  wait_list (manager (st x)) !! u = Some d /\ unread d (report_mail u r x) = [SentReturn r].
Proof.
  unfold report_mail. destruct (wait_list (manager (st x)) !! u) as [d'|]; [|by left].
  destruct (write_ok d'); [|by left]. rewrite unread_cons, unread_nil.
  destruct (decide (d' = d)) as [->|]; [by right|by left].
Qed.

Lemma reported_inbox c u r x :
  u <> 0%Z -> inbox (reported c u r x) = inbox x ++ report_mail u r x.
Proof.
  intros Hu.
  by apply (deliver_inbox (after_finish write_ok u r (sched x)) (<[c := Ready]> (phases x)) x), finish_run.
Qed.

Lemma finished_report u r y :
  finished (after_finish write_ok u r y) = finished y ++ [u].
Proof. unfold finished, after_finish. cbn [outcomes]. by rewrite fmap_app. Qed.

Lemma in_step_report c u li r x :
  in_step x -> system_ok (sched x) -> phases x !! c = Some (Busy u li) -> u <> 0%Z ->
  in_step (reported c u r x).
Proof.
  intros Hw Hs Hp Hu d. rewrite reported_inbox, unread_app by done.
  destruct (finish_run write_ok u r (st x) Hu) as (_ & _ & _ & _ & Hidle & Hwl & _).
  set (y := after_finish write_ok u r (sched x)).
  change (idle (manager (state y)) = idle (manager (st x))) in Hidle.
  change (wait_list (manager (state y)) = delete u (wait_list (manager (st x)))) in Hwl.
  assert (Ho : forall v, owes y d v -> owes (sched x) d v).
  { intros v. unfold owes. rewrite Hwl. change (unregistered y) with (unregistered (sched x)).
    intros [[_ ?]%lookup_delete_Some|?]; [by left|by right]. }
  change (wire_ok (answers (results x ++ [(u, r)])) (<[c := Ready]> (phases x) !! d)
    (idle_at d (manager (state y))) (unread d (inbox x) ++ unread d (report_mail u r x)) (owes y d)).
  rewrite (idle_at_eq d _ _ Hidle). specialize (Hw d).
  destruct (report_mail_to u r x d) as [->|[Hd ->]].
  - destruct (decide (d = c)) as [->|Hne]; [rewrite lookup_insert_eq|rewrite lookup_insert_ne by done].
    + rewrite Hp in Hw. destruct Hw as (? & -> & H). split_and!; [done..|]. intros v ?%Ho. by apply (H v).
    + eapply wire_ok_words; [exact Hw|cbn; lia|done| |done].
      intros v r' [?|?]; [left; apply elem_of_app; by left|by right].
  - assert (Hou : owes (sched x) d u) by (by left).
    rewrite lookup_insert_ne; [|intros ->; rewrite Hp in Hw; destruct Hw as (_ & _ & H); by apply (H u)].
    destruct (phases x !! d) as [[| |v lv|v lv v0|]|]; cbn in Hw |- *; try done.
    1-3: destruct Hw as (_ & _ & H); by exfalso; apply (H u).
    destruct Hw as [? [[-> H]|[_ H]]]; [|by exfalso; apply (H u)].
    split; [done|right]. apply H in Hou as <-. split.
    + exists r. split; [done|]. left. apply elem_of_app; right. by apply list_elem_of_singleton.
    + intros v' Hv. assert (v' = u) as -> by (by apply H, Ho). unfold owes in Hv. rewrite Hwl in Hv.
      destruct Hv as [Hv|Hv]; [by rewrite lookup_delete_eq in Hv|].
      change (unregistered y) with (unregistered (sched x)) in Hv.
      rewrite (sys_disj _ Hs u) in Hv by eauto. done.
Qed.

Lemma custody_report c u li r x :
  custody_of x -> phases x !! c = Some (Busy u li) -> u <> 0%Z -> custody_of (reported c u r x).
Proof.
  intros Hc Hp Hu. unfold custody_of. rewrite reported_inbox by done.
  assert (Hse : sent (st (reported c u r x)) = sent (st x) ++ report_mail u r x)
    by (by apply finish_run).
  rewrite Hse. change (sched (reported c u r x)) with (after_finish write_ok u r (sched x)).
  rewrite finished_report. cbn.
  assert (Hnt : forall d v lv, carries (phases x) (inbox x ++ report_mail u r x) d v lv <->
    carries (phases x) (inbox x) d v lv).
  { intros d v lv. apply carries_no_task. intros d' v' lv' _.
    destruct (report_mail_to u r x d') as [->|[_ ->]]; [set_solver|]. by intros ?%list_elem_of_singleton. }
  assert (custody (carries (<[c:=Ready]> (phases x)) (inbox x ++ report_mail u r x))
    (fun d => phases x !! d = Some Gone) (started (sched x)) (finished (sched x) ++ [u])
    (sent (st x) ++ report_mail u r x)) as [H1 H2 H3].
  { eapply (custody_finish _ _ _ _ _ _ _ c u li); [exact Hc|unfold carries, carried; by rewrite Hp| |].
    - intros v lv. unfold carries, carried. rewrite Hp. by intros [-> _].
    - intros d v lv. rewrite <- Hnt. unfold carries, carried.
      destruct (decide (d = c)) as [->|Hne];
        [rewrite lookup_insert_eq|rewrite lookup_insert_ne by done]; tauto. }
  split; [exact H1|exact H2|]. intros v lv Hv.
  destruct (H3 v lv Hv) as [?|[?|(d & Hd & ?)]]; [by left|by right; left|].
  right; right. exists d. split; [|done]. rewrite lookup_insert_ne; [done|]. intros <-. by rewrite Hp in Hd.
Qed.

(** *** Steps of a worker *)

(** Worker [c] goes from [p] to [p']; on the other connections nothing happens. *)
Lemma sound_at c p p' y l l' x :
  sound x -> phases x !! c = Some p ->
  sent (state y) = sent (st x) ++ l -> started y = started (sched x) ->
  finished y = finished (sched x) ->
  (forall d, d <> c -> unread d l' = unread d (inbox x) /\
    idle_at d (manager (state y)) = idle_at d (manager (st x)) /\
    forall v, owes y d v -> owes (sched x) d v) ->
  wire_ok (answers (results x)) (Some p') (idle_at c (manager (state y))) (unread c l') (owes y c) ->
  (p = Gone -> p' = Gone) ->
  (forall u li, carried (Some p') (unread c l') u li -> carried (Some p) (unread c (inbox x)) u li) ->
  p' = Gone \/
    (forall u li, carried (Some p) (unread c (inbox x)) u li -> carried (Some p') (unread c l') u li) ->
  sound (MkCluster y l' (<[c := p']> (phases x)) (results x)).
Proof.
  intros [Hw Hc] Hp Hl Hst Hfi Hd Hwc Hg H1 H2. split.
  - intros d. cbn. destruct (decide (d = c)) as [->|Hne];
      [by rewrite lookup_insert_eq|rewrite lookup_insert_ne by done].
    destruct (Hd d Hne) as (-> & -> & Ho). rewrite <- (app_nil_r (unread d _)).
    eapply wire_ok_words; [exact (Hw d)|cbn; lia|done|done|exact Ho].
  - unfold custody_of. cbn. rewrite Hl, Hst, Hfi. eapply custody_weaken; [exact Hc|..].
    + intros d u li. unfold carries. destruct (decide (d = c)) as [->|Hne].
      * rewrite lookup_insert_eq, Hp. apply H1.
      * rewrite lookup_insert_ne by done. by rewrite (proj1 (Hd d Hne)).
    + intros d u li. unfold carries. destruct (decide (d = c)) as [->|Hne].
      * rewrite lookup_insert_eq, Hp. destruct H2 as [->|H2]; [by right|left; auto].
      * rewrite lookup_insert_ne by done. rewrite (proj1 (Hd d Hne)). by left.
    + intros d Hgd. destruct (decide (d = c)) as [->|Hne]; [|by rewrite lookup_insert_ne].
      rewrite lookup_insert_eq. rewrite Hp in Hgd. injection Hgd as ->. by rewrite Hg.
Qed.

Lemma sound_ask c ip x :
  sound x -> phases x !! c = Some Ready ->
  sound (deliver (with_state (handle_get_task ip c (st x)).2 (sched x)) (<[c := Waiting]> (phases x)) x).
Proof.
  intros Hs Hp. pose proof (proj1 Hs c) as Hw. rewrite Hp in Hw. destruct Hw as (H0 & Hb & Ho).
  set (y := with_state _ _). assert (Hl : sent (state y) = sent (st x) ++ []) by (by rewrite app_nil_r).
  assert (Hi : forall d, idle_at d (manager (state y)) =
    ((if decide (c = d) then 1 else 0) + idle_at d (manager (st x)))%nat).
  { intros d. apply idle_at_add_idle. }
  assert (Hou : forall d v, owes y d v -> owes (sched x) d v).
  { intros d v. unfold owes.
    change (wait_list (manager (state y))) with (wait_list (add_idle ip c (manager (st x)))).
    by rewrite add_idle_wait. }
  rewrite (deliver_eq _ _ _ _ Hl), app_nil_r.
  eapply sound_at; [exact Hs|exact Hp|exact Hl|done|done| | |done| |right].
  - intros d Hne. rewrite Hi, decide_False by done. split_and!; [done..|]. apply Hou.
  - rewrite Hi, decide_True, Hb, H0 by done. cbn. split_and!; [lia|done|]. intros v Hv%Hou. by apply (Ho v).
  - cbn. rewrite Hb. set_solver.
  - done.
Qed.

(** Reading a message, or dying: the scheduler notices nothing. *)
Lemma sound_read c p p' l' x :
  sound x -> phases x !! c = Some p ->
  (forall d, d <> c -> unread d l' = unread d (inbox x)) ->
  wire_ok (answers (results x)) (Some p') (idle_at c (manager (st x))) (unread c l') (owes (sched x) c) ->
  (p = Gone -> p' = Gone) ->
  (forall u li, carried (Some p') (unread c l') u li -> carried (Some p) (unread c (inbox x)) u li) ->
  p' = Gone \/
    (forall u li, carried (Some p) (unread c (inbox x)) u li -> carried (Some p') (unread c l') u li) ->
  sound (with_phases l' (<[c := p']> (phases x)) x).
Proof.
  intros Hs Hp Hd Hw Hg H1 H2. unfold with_phases.
  eapply (sound_at c p p' _ []); try done; [by rewrite app_nil_r|]. intros d Hne.
  by split_and!; [apply Hd| |].
Qed.

Lemma invoked_owes b v c li s' s y d v' :
  enqueue write_ok v c li s = (Val b, s') -> s = state y ->
  owes (invoked b v c li s' y) d v' ->
  owes y d v' \/ (d = c /\ v' = v /\ b = true /\ sched.li_sync li = true).
Proof.
  intros E ->. apply enqueue_run in E as [Em _]. unfold owes, invoked.
  destruct b; cbn; rewrite Em; [|by left].
  intros [?|Hv]; [by left; left|]. destruct (sched.li_sync li); [|by left; right].
  apply lookup_insert_Some in Hv as [[-> ->]|[_ ?]]; [by right|by left; right].
Qed.

Lemma invoked_sent b v c li s' y :
  enqueue write_ok v c li (state y) = (Val b, s') ->
  sent (state (invoked b v c li s' y)) = sent (state y) ++
    (if negb b && write_ok c then [(c, SentReturn queue_full)] else []).
Proof. intros (_ & _ & _ & E)%enqueue_run. unfold invoked. by destruct b. Qed.

Lemma invoked_same b v c li s' y :
  enqueue write_ok v c li (state y) = (Val b, s') ->
  manager (state (invoked b v c li s' y)) = manager (state y) /\
  started (invoked b v c li s' y) = started y /\ finished (invoked b v c li s' y) = finished y.
Proof. intros [E _]%enqueue_run. unfold invoked. by destruct b. Qed.

(** An invocation that leaves its caller as it is: a client's, an asynchronous one. *)
Lemma sound_invoked b v c li s' x :
  sound x -> enqueue write_ok v c li (st x) = (Val b, s') ->
  phases x !! c = None \/ b = true /\ sched.li_sync li = false ->
  sound (deliver (invoked b v c li s' (sched x)) (phases x) x).
Proof.
  intros Hs E Hc. destruct (invoked_same _ _ _ _ _ _ E) as (Hm & ? & ?).
  eapply sound_quiet; [exact Hs|by apply invoked_sent| |done|done| |].
  - destruct Hc as [Hc|[-> _]]; [by apply quiet_conn|done].
  - intros d. by rewrite Hm.
  - intros d v' [p Hp] Ho. destruct (invoked_owes _ _ _ _ _ _ _ _ _ E eq_refl Ho) as [?|(-> & _ & -> & Hy)]; [done|].
    destruct Hc as [Hc|[_ Hc]]; [by rewrite Hc in Hp|by rewrite Hc in Hy].
Qed.

Lemma sound_call b c u li v li' s' x :
  sound x -> phases x !! c = Some (Busy u li) -> enqueue write_ok v c li' (st x) = (Val b, s') ->
  sound (deliver (invoked b v c li' s' (sched x)) (<[c := Calling u li v]> (phases x)) x).
Proof.
  intros Hs Hp E. pose proof (proj1 Hs c) as Hw. rewrite Hp in Hw. destruct Hw as (H0 & Hb & Ho).
  pose proof (invoked_sent _ _ _ _ _ _ E) as Hl. destruct (invoked_same _ _ _ _ _ _ E) as (Hm & ? & ?).
  assert (Hou : forall v', owes (invoked b v c li' s' (sched x)) c v' -> v' = v /\ b = true).
  { intros v' Hv. destruct (invoked_owes _ _ _ _ _ _ _ _ _ E eq_refl Hv) as [Hv'|(_ & ? & ? & _)]; [|done].
    by apply Ho in Hv'. }
  rewrite (deliver_eq _ _ _ _ Hl).
  eapply sound_at; [exact Hs|exact Hp|exact Hl|done|done| | |done|done|by right].
  - intros d Hne. rewrite Hm, unread_app. split_and!; [|done|].
    + destruct (_ && _); [|by rewrite app_nil_r]. by rewrite unread_cons, decide_False, app_nil_r.
    + intros v' Hv. by destruct (invoked_owes _ _ _ _ _ _ _ _ _ E eq_refl Hv) as [?|(? & _)].
  - rewrite Hm, unread_app, Hb, H0. cbn [wire_ok app]. split; [done|].
    destruct b; cbn [negb andb].
    + left. split; [done|]. intros v' Hv. by apply Hou.
    + assert (forall v', ~ owes (invoked false v c li' s' (sched x)) c v') by (by intros v' [_ ?]%Hou).
      destruct (write_ok c); [right|left]; (split; [|naive_solver]); [|done].
      exists queue_full. rewrite unread_cons, decide_True by done. split; [done|by right].
Qed.

(** *** The invariant of the cluster *)

Lemma books_step y y' :
  sstep y y' -> books y ->
  (forall u, finished y' = finished y ++ [u] -> u ∈ omap task_id (started y) /\ u ∉ finished y) ->
  books y'.
Proof.
  intros Hs [H1 H2 H3 H4] Hf.
  destruct Hs as [| | | |u conn li y s' Hu0 Ho E| | | | | | |task w y s' _ Hcur E|u r y Hu0]; try by split.
  - assert (Hnew : u ∉ omap task_id (accepted y)) by (intros [c Hc]%H2; by rewrite Ho in Hc).
    split; cbn; [| |done|done].
    + rewrite omap_app. apply list.NoDup_app. split_and!; [done| |apply list.NoDup_singleton].
      by intros v Hv ->%list_elem_of_singleton.
    + intros v. rewrite omap_app. intros [Hv| ->%list_elem_of_singleton]%elem_of_app.
      * destruct (decide (v = u)) as [->|]; [done|]. rewrite lookup_insert_ne by done. by apply H2.
      * rewrite lookup_insert_eq. by eexists.
  - split; cbn; try done. intros v ?%H4. rewrite omap_app. apply elem_of_app; by left.
  - assert (E : forall s l, finished (MkSystem s (current y) (accepted y) (started y) (origin y)
      (unregistered y) (outcomes y ++ [(u, r)]) l) = finished y ++ [u])
      by (intros; unfold finished; cbn [outcomes]; by rewrite fmap_app).
    destruct (Hf u (E _ _)) as [Hst Hfi]. split; rewrite ?E; try done.
    + apply list.NoDup_app. split_and!; [done| |apply list.NoDup_singleton].
      by intros v Hv ->%list_elem_of_singleton.
    + by intros v [?%H4| ->%list_elem_of_singleton]%elem_of_app.
Qed.

Lemma invoked_step b v c li s' y :
  v <> 0%Z -> origin y !! v = None -> enqueue write_ok v c li (state y) = (Val b, s') ->
  sstep y (invoked b v c li s' y).
Proof.
  intros. destruct b; [by apply step_enqueue|by eapply step_queue_full].
Qed.

Lemma other_step_sched ps y y' : ostep ps y y' -> y' = y \/ sstep y y'.
Proof.
  destruct 1 as [| | |u conn li y s'|u conn li y s'| | |]; [right; by constructor..| | | | |].
  - right. by apply (invoked_step true u conn li).
  - right. by eapply step_queue_full.
  - right. by constructor.
  - right. by constructor.
  - by apply schedule_next_step.
Qed.

Lemma cluster_step_sched v x x' : step v x x' -> sched x' = sched x \/ sstep (sched x) (sched x').
Proof.
  destruct 1 as [y x Ho| | | | |c u li w li' b s' x ? ? ? ? E| | |c u li w li' b s' x ? ? ? ? E _| |];
    try (by left); try (right; by constructor).
  - by eapply other_step_sched.
  - right. by apply (invoked_step b w c li').
  - right. by apply (invoked_step b w c li').
Qed.

Lemma sound_broken task w s' x :
  sound x -> manager_ok (manager (st x)) ->
  attempt first_key write_ok task (st x) = (Val (Some (w, false)), s') ->
  sound (deliver (with_state s' (sched x)) (phases x) x).
Proof.
  intros [Hw Hc] Hm E. destruct (attempt_effect _ _ _ _ E Hm) as (u & li & -> & Hl & Hi).
  destruct (attempt_keeps first_key first_key_some write_ok _ _ _ _ E Hm) as (_ & Hwl & _).
  split; [|by eapply custody_same; eauto using quiet_no_task, quiet_nil].
  intros c. rewrite (deliver_eq (with_state s' (sched x)) _ x _ Hl). cbn [inbox]. rewrite app_nil_r.
  rewrite <- (app_nil_r (unread c _)).
  eapply wire_ok_words; [exact (Hw c)| |done|done|by unfold owes; cbn; rewrite Hwl].
  specialize (Hi c). cbn in Hi |- *. destruct (decide _); lia.
Qed.

Lemma sound_schedule x :
  sound x -> system_ok (sched x) -> books (sched x) ->
  sound (deliver (schedule_next first_key write_ok (sched x)) (phases x) x).
Proof.
  intros Hs Hy Hb. pose proof (sys_manager _ Hy) as Hm. unfold schedule_next.
  assert (Hsame : sound (deliver (sched x) (phases x) x)).
  { eapply sound_quiet; [exact Hs|by rewrite app_nil_r|done..]. }
  destruct (parked (st x)); [exact Hsame|].
  destruct (current (sched x)) as [task|] eqn:Ec.
  - destruct (attempt first_key write_ok task (st x)) as [[[[w []]|]| |] s'] eqn:E; try exact Hsame.
    + destruct (attempt_effect _ _ _ _ E Hm) as (u & li & -> & _). by eapply sound_dispatch.
    + by eapply sound_broken.
    + destruct (attempt_effect _ _ _ _ E Hm) as (u & li & -> & Hl & Hi).
      destruct (attempt_keeps first_key first_key_some write_ok _ _ _ _ E Hm) as (_ & Hwl & _).
      eapply sound_quiet; [exact Hs|cbn; rewrite Hl; by rewrite app_nil_r|done..|].
      intros c v _. unfold owes. cbn. by rewrite Hwl.
  - destruct (queue (st x)) as [|task q] eqn:Eq; [exact Hsame|].
    eapply sound_quiet; [exact Hs|by rewrite app_nil_r|done..].
Qed.

Lemma sound_other y x :
  sound x -> system_ok (sched x) -> books (sched x) -> ostep (phases x) (sched x) y ->
  sound (deliver y (phases x) x).
Proof.
  intros Hs Hy Hb Ho. remember (sched x) as y0 eqn:Ey. revert Ey.
  destruct Ho as [conn y Hc|ip i y|ip y|u conn li y s' Hc Hu Ho E|u conn li y s' Hc E|u conn y Hr|y|y];
    intros ->.
  - eapply (sound_quiet _ _ (if write_ok conn then _ else _)); [exact Hs| |by apply quiet_conn|..];
      try done; cbn; destruct (write_ok conn); cbn; rewrite ?app_nil_r; done.
  - destruct (update_run info_from_slice info_counts ip i (st x) (sys_manager _ Hy))
      as (s1 & -> & Hs1 & _ & Hw).
    assert (idle (manager s1) = idle (manager (st x)) /\ sent s1 = sent (st x)) as [Hi Hse].
    { destruct Hs1 as [-> | (ri & _ & ->)]; [done|]. split; [|done].
      cbn. unfold update, try_add_node. by destruct (info (manager (st x)) !! ip). }
    eapply sound_quiet; [exact Hs|by rewrite app_nil_r|done..| |].
    + intros c. by apply idle_at_eq.
    + intros c v _. unfold owes. cbn. by rewrite Hw.
  - apply sound_drop_resource; [done|by apply sys_manager].
  - apply (sound_invoked true u conn li); [done|done|by left].
  - apply (sound_invoked false u conn li); [done|done|by left].
  - eapply sound_quiet; [exact Hs|by rewrite app_nil_r|done..|].
    intros c v _. unfold owes. cbn. intros [Hv|Hv].
    + apply lookup_insert_Some in Hv as [[-> ->]|[_ ?]]; [by right|by left].
    + apply lookup_delete_Some in Hv as [_ ?]. by right.
  - eapply sound_quiet; [exact Hs|by rewrite app_nil_r|done..].
  - by apply sound_schedule.
Qed.

Lemma sound_worker x x' :
  sound x -> system_ok (sched x) -> books (sched x) -> step false x x' -> sound x'.
Proof.
  intros Hs Hy Hb Hx.
  destruct Hx as [y x Ho|c ip x Hp|c u li l x Hp Hr|c l x Hp Hr|c m l x Hp Hr Hm
    |c u li v li' b s' x Hp Hl Hv Hn E|c u li v r l x Hp Hr|c u li v r l x Hp Hr
    |c u li v li' b s' x Hp Hl Hv Hn E Hb'|c u li r x Hp Hu|c p x Hp].
  - by apply sound_other.
  - by apply sound_ask.
  - apply receive_spec in Hr as [E Hd]. pose proof (proj1 Hs c) as Hw. rewrite Hp, E in Hw.
    destruct Hw as (Hlen & _ & Ho). cbn in Hlen. assert (Hl : unread c l = []) by (apply nil_length_inv; lia).
    eapply sound_read; [exact Hs|exact Hp|intros; symmetry; by apply Hd| |done| |right].
    + rewrite Hl. split_and!; [lia|done..].
    + intros v lv [<- <-]. cbn. rewrite E. apply list_elem_of_here.
    + intros v lv. cbn. rewrite E, Hl. by intros [-> ->]%list_elem_of_singleton%process_task_inj.
  - apply receive_spec in Hr as [E Hd]. pose proof (proj1 Hs c) as Hw. rewrite Hp, E in Hw.
    destruct Hw as (Hlen & _ & Ho). cbn in Hlen.
    eapply sound_read; [exact Hs|exact Hp|intros; symmetry; by apply Hd|cbn; lia|done|done|by left].
  - apply receive_spec in Hr as [E Hd]. pose proof (proj1 Hs c) as Hw. rewrite Hp, E in Hw.
    destruct Hw as (_ & Hf & _). apply Forall_cons_iff in Hf as [Hf _]. by rewrite Hf in Hm.
  - by apply sound_call.
  - apply receive_spec in Hr as [E Hd]. pose proof (proj1 Hs c) as Hw. rewrite Hp, E in Hw.
    destruct Hw as (? & [[? _]|[(r' & Hr & _) Ho]]); [done|]. injection Hr as <- Hl.
    eapply sound_read; [exact Hs|exact Hp|intros; symmetry; by apply Hd| |done|done|by right].
    rewrite Hl. by split_and!.
  - apply receive_spec in Hr as [E Hd]. pose proof (proj1 Hs c) as Hw. rewrite Hp, E in Hw.
    by destruct Hw as (? & [[? _]|[(r' & Hr & _) Ho]]).
  - destruct b; [|by specialize (Hb' eq_refl)]. apply (sound_invoked true v c li'); [done|done|by right].
  - split; [by eapply in_step_report; [apply Hs|..]|by eapply custody_report; [apply Hs|..]].
  - eapply sound_read; [exact Hs|exact Hp|done| |done|done|by left].
    pose proof (proj1 Hs c) as Hw. rewrite Hp in Hw.
    destruct p; cbn in Hw |- *; lia.
Qed.

Record cluster_ok (x : Cluster) : Prop := {
  cl_system : system_ok (sched x);
  cl_books : books (sched x);
  cl_sound : sound x;
  cl_results : (results x).*1 = finished (sched x);
}.

Lemma finished_step v x x' :
  step v x x' ->
  finished (sched x') = finished (sched x) /\ results x' = results x \/
  exists c u li r, phases x !! c = Some (Busy u li) /\
    finished (sched x') = finished (sched x) ++ [u] /\ results x' = results x ++ [(u, r)].
Proof.
  destruct 1 as [y x Ho| | | | |c u li w li' b s' x ? ? ? ? E| | |c u li w li' b s' x ? ? ? ? E _| |];
    try by left.
  - left. split; [|done]. cbn. destruct Ho as [| | | | | | |y]; try done.
    unfold schedule_next. destruct (parked (state y)); [done|].
    destruct (current y) as [t|]; [|by destruct (queue (state y))].
    by destruct (attempt _ _ _ _) as [[[[? []]|]| |] ?].
  - left. by destruct b.
  - left. by destruct b.
  - right. eexists _, _, _, _. split; [done|]. split; [apply finished_report|done].
Qed.

Lemma cluster_ok_step x x' : cluster_ok x -> step false x x' -> cluster_ok x'.
Proof.
  intros [Hy Hb Hs Hr] Hx. split.
  - destruct (cluster_step_sched _ _ _ Hx) as [->|H]; [done|].
    by apply (system_ok_step first_key first_key_some info_from_slice info_counts write_ok _ _ Hy).
  - destruct (cluster_step_sched _ _ _ Hx) as [->|H]; [done|]. apply (books_step _ _ H Hb).
    intros u E. destruct (finished_step _ _ _ Hx) as [[E' _]|(c & w & li & r & Hp & E' & _)].
    + rewrite E' in E. apply (f_equal length) in E. rewrite length_app in E. cbn in E. lia.
    + rewrite E' in E. apply app_inv_head in E as [= ->].
      destruct (cu_started _ _ _ _ _ (proj2 Hs) c u li) as (Hst & ? & _).
      { unfold carries, carried. by rewrite Hp. }
      split; [by eapply started_number|done].
  - by eapply sound_worker.
  - destruct (finished_step _ _ _ Hx) as [[-> ->]|(c & w & li & r & _ & -> & ->)]; [done|].
    by rewrite fmap_app, Hr.
Qed.

Lemma cluster_ok_initial cap cs : cluster_ok (cluster_initial cap cs).
Proof.
  split; [|split; try done; try apply NoDup_nil_2| |done].
  - by apply (system_ok_reachable first_key first_key_some info_from_slice info_counts write_ok cap).
  - set_solver.
  - assert (Hp : forall c p, phases (cluster_initial cap cs) !! c = Some p -> p = Ready).
    { intros c p H. cbn in H. apply elem_of_list_to_map_2 in H.
      apply list_elem_of_fmap in H as (? & [= -> ->] & _). done. }
    split.
    + intros c. destruct (phases (cluster_initial cap cs) !! c) as [p|] eqn:E; [|done].
      rewrite (Hp c p E). split_and!; [done..|]. intros v. unfold owes. cbn. by intros [?|?].
    + assert (Hk : forall c u li, ~ carries (phases (cluster_initial cap cs)) [] c u li).
      { intros c u li. unfold carries, carried. destruct (phases _ !! c) as [p|] eqn:E; [|by intros []].
        rewrite (Hp c p E). by intros []. }
      split; cbn; [by intros c u li H%Hk|by intros c c' u li li' H%Hk|set_solver].
Qed.

Lemma cluster_ok_reachable cap cs x : rtc (step false) (cluster_initial cap cs) x -> cluster_ok x.
Proof.
  intros Hr. eapply (rtc_invariant (step false) cluster_ok);
    [intros ? ?; apply cluster_ok_step|exact Hr|apply cluster_ok_initial].
Qed.

(** C22: the scheduler and its workers together, as long as no asynchronous invocation meets a full
    queue.  A task is with at most one worker; a worker only has a task that was accepted and is
    not reported; a task is reported at most once; and none disappears: one that was given away is
    reported, or with a worker, or was given to a worker that is gone. *)
Theorem tasks_in_custody cap cs x :
  rtc (step false) (cluster_initial cap cs) x ->
  (forall c c' u, holds x c u -> holds x c' u -> c = c') /\
  (forall c u li, carries (phases x) (inbox x) c u li ->
     Invoke u li ∈ accepted (sched x) /\ u ∉ (results x).*1) /\
  NoDup (results x).*1 /\
  (forall u li, Invoke u li ∈ started (sched x) ->
     u ∈ (results x).*1 \/ (exists c, holds x c u) \/
     exists c, phases x !! c = Some Gone /\ (c, process_task u li) ∈ sent (st x)).
Proof.
  intros [Hy [_ _ Hn _] [_ [H1 H2 H3]] Hr]%cluster_ok_reachable. rewrite Hr. split_and!.
  - intros c c' u [li Hc] [li' Hc']. by eapply H2.
  - intros c u li (Hst & ? & _)%H1. split; [|done]. rewrite (sys_fifo _ Hy).
    apply elem_of_app; by left.
  - done.
  - intros u li [?|[[c Hc]|?]]%H3; [by left|right; left|by right; right]. exists c. by exists li.
Qed.

(** C23: the conversations stay in step, under the same condition.  What a worker reads when it
    asked for a task is a task or the order to terminate; what it reads when it waits for the
    result of an invocation is the result reported for that invocation, or the reply that the
    queue was full. *)
Theorem conversations_in_step cap cs x c m l :
  rtc (step false) (cluster_initial cap cs) x -> receive c (inbox x) = Some (m, l) ->
  match phases x !! c with
  | Some Waiting => is_work m = true
  | Some (Calling _ _ v) =>
      exists r, m = SentReturn r /\ ((v, r) ∈ results x \/ r = queue_full)
  | Some Ready | Some (Busy _ _) => False
  | Some Gone | None => True
  end.
Proof.
  intros [_ _ [Hw _] _]%cluster_ok_reachable [E _]%receive_spec. specialize (Hw c).
  rewrite E in Hw. destruct (phases x !! c) as [[| |u li|u li v|]|]; cbn in Hw; try done.
  - by destruct Hw as (_ & ? & _).
  - destruct Hw as (_ & Hf & _). by apply Forall_cons_iff in Hf as [? _].
  - by destruct Hw as (_ & ? & _).
  - destruct Hw as (_ & [[? _]|[(r & [= -> _] & ?) _]]); [done|]. by exists r.
Qed.
End cluster_theorems.
