(* ===== verification/Deployment.v ===== *)
(** * A deployment: the scheduler, its workers, and the machines they run on

    A worker is a connection of the scheduler (Cluster.v) and a thread on a machine (Machine.v).
    What it does on its machine it does for the task it has, and it turns to another task only
    when it holds no VM; that the code of [worker.rs] does so is [TaskRun.task_served]. *)

From stdpp Require Import base tactics option list gmap strings countable.
From S2P Require Import Prelude Labels Store FsTypes Syscalls Message LocalRM SchedRM.
From S2P Require Import Worker Scheduler SchedProgress Machine Cluster.

Record Deployment (C Ch : Type) : Type := MkDeployment {
  cluster : Cluster;
  machines : gmap Z (Machine C Ch);
}.
Arguments MkDeployment {C Ch} _ _.
Arguments cluster {C Ch} _.
Arguments machines {C Ch} _.

(** The task that a worker has. *)
Definition task_of (p : option Phase) : option (Uuid * LabeledInvoke) :=
  match p with
  | Some (Busy u li) | Some (Calling u li _) => Some (u, li)
  | _ => None
  end.

Section deployment.
Context `{U : UuidOps} `{L : LabelOps} {C Ch : Type} `{CN : !Conn C} `{MQ : !Message Request}.
Context (first_key : gmap Node (list SchedRM.Worker) -> option Node).
Context (info_from_slice : bytes -> option ResourceInfo).
Context (write_ok : Z -> bool) (overflow : bool).
Context (info_to_vec : ResourceInfo -> bytes) (evict_fuel : nat).
(** The machine a connection comes from, and the worker's number there. *)
Context (place : Z -> Z * Z).
Implicit Types d : Deployment C Ch.

(** The VM in the hands of the worker behind connection [c]. *)
Definition holding d (c : Z) : option Vm :=
  m ← machines d !! (place c).1; mjoin (workers m !! (place c).2).

Inductive deployment_step : relation (Deployment C Ch) :=
  (** something is said: to the scheduler, by it, or read *)
  | d_talk x d :
      cluster_step first_key info_from_slice write_ok overflow (cluster d) x ->
      (forall c, task_of (phases x !! c) = task_of (phases (cluster d) !! c) \/ holding d c = None) ->
      deployment_step d (MkDeployment x (machines d))
  (** a worker does something for the function of its task *)
  | d_work c u li f label m m' d :
      phases (cluster d) !! c = Some (Busy u li) -> sched.li_function li = Some f ->
      machines d !! (place c).1 = Some m ->
      worker_step info_to_vec evict_fuel (place c).2 (function_from_message f) label m m' ->
      deployment_step d (MkDeployment (cluster d) (<[(place c).1 := m']> (machines d)))
  (** its thread panics *)
  | d_die c p m o d :
      phases (cluster d) !! c = Some p ->
      machines d !! (place c).1 = Some m -> workers m !! (place c).2 = Some o ->
      deployment_step d
        (MkDeployment (with_phases (inbox (cluster d)) (<[c := Gone]> (phases (cluster d))) (cluster d))
           (<[(place c).1 := MkMachine (rm m) (conns m) (delete (place c).2 (workers m))]> (machines d))).

(** The scheduler with a queue of [cap], workers on the connections [cs], and the machines with
    the managers [rs]. *)
Definition deployment_initial (cap : nat) (cs : list Z) (rs : gmap Z (LocalRM.ResourceManager C)) :
    Deployment C Ch :=
  MkDeployment (cluster_initial cap cs) (new_workerpool <$> rs).

Lemma talk_steps d x :
  (forall c, holding d c = None) ->
  rtc (cluster_step first_key info_from_slice write_ok overflow) (cluster d) x ->
  rtc deployment_step d (MkDeployment x (machines d)).
Proof.
  intros Hh Hr. destruct d as [x0 ms]. cbn in Hr |- *.
  assert (Hn : forall x c, holding (MkDeployment x ms) c = None) by exact (fun _ c => Hh c).
  induction Hr as [x|x y z H1 _ IH]; [done|].
  eapply rtc_l; [by eapply (d_talk y); [exact H1|by right]|]. by apply IH.
Qed.

(** ** The invariant *)

(** A VM is in the hands of a worker with a task of the VM's function. *)
Definition vm_placed d : Prop := forall n m w v,
  machines d !! n = Some m -> workers m !! w = Some (Some v) ->
  exists c u li f, place c = (n, w) /\ task_of (phases (cluster d) !! c) = Some (u, li) /\
    sched.li_function li = Some f /\ vm_function v = function_from_message f.

(** A machine has all its memory, or a worker of it is gone. *)
Definition memory_kept (rs : gmap Z (LocalRM.ResourceManager C)) d : Prop := forall n m,
  machines d !! n = Some m -> exists r lost,
    rs !! n = Some r /\ memory_ok (total_mem r) lost m /\
    (lost = 0%Z \/ exists c, (place c).1 = n /\ phases (cluster d) !! c = Some Gone).

(** A worker that is gone stays gone. *)
Lemma gone_stays x x' c :
  cluster_step first_key info_from_slice write_ok overflow x x' ->
  phases x !! c = Some Gone -> phases x' !! c = Some Gone.
Proof.
  assert (Hne : forall e p q, phases x !! e = Some p -> (p = Gone -> q = Gone) ->
    phases x !! c = Some Gone -> <[e := q]> (phases x) !! c = Some Gone).
  { intros e p q Hp Hq Hg. destruct (decide (e = c)) as [->|].
    - rewrite lookup_insert_eq. rewrite Hq; [done|congruence].
    - by rewrite lookup_insert_ne. }
  destruct 1; cbn [deliver with_phases with_results phases] in *; try done;
    (eapply Hne; [eassumption|done]).
Qed.
End deployment.

Section deployment_theorems.
Context `{UL : UuidLaws} `{L : LabelOps} {C Ch : Type} `{CN : !Conn C} `{MQ : !Message Request}.
Context (first_key : gmap Node (list SchedRM.Worker) -> option Node).
Hypothesis first_key_some : forall m n, first_key m = Some n -> is_Some (m !! n).
Context (info_from_slice : bytes -> option ResourceInfo).
Hypothesis info_counts : forall b i, info_from_slice b = Some i ->
  map_Forall (fun _ k => 0 <= k < u64_mod)%Z (stats i).
Context (write_ok : Z -> bool).
Context (info_to_vec : ResourceInfo -> bytes) (evict_fuel : nat).
Context (place : Z -> Z * Z).
Implicit Types (d : Deployment C Ch) (rs : gmap Z (LocalRM.ResourceManager C)).

Local Abbreviation step v :=
  (deployment_step (C := C) (Ch := Ch) first_key info_from_slice write_ok v info_to_vec evict_fuel place).

(** What a worker's step leaves in its hands: nothing, what it had but for being launched, or a VM
    of the function. *)
Lemma worker_step_holds w f label mem lost (m m' : Machine C Ch) w' v :
  memory_ok mem lost m -> worker_step info_to_vec evict_fuel w f label m m' ->
  workers m' !! w' = Some (Some v) ->
  (w' = w /\ vm_function v = f) \/
  exists v0, workers m !! w' = Some (Some v0) /\ vm_function v = vm_function v0.
Proof.
  intros [_ _ _ Ha] Hs. destruct Hs as [o r' m Hw Hm E|v0 ch m Hw _|v0 ch ch' m _ _|v0 r' m _ _ _|v0 r' m _ _];
    cbn [workers]; [..|eauto| |].
  3-4: destruct (decide (w = w')) as [->|]; [by rewrite lookup_insert_eq|rewrite lookup_insert_ne by done; eauto].
  - destruct (decide (w = w')) as [->|]; [|rewrite lookup_insert_ne by done; eauto].
    rewrite lookup_insert_eq. intros [= ->]. left. split; [done|].
    by destruct (allocate_accounted _ _ _ _ _ _ _ _ Ha Hm E) as [_ (_ & _ & ?)].
  - destruct (decide (w = w')) as [->|]; [|rewrite lookup_insert_ne by done; eauto].
    rewrite lookup_insert_eq. intros [= <-]. right. by exists v0.
Qed.

Lemma placed_step v rs d d' :
  vm_placed place d -> memory_kept place rs d -> step v d d' -> vm_placed place d'.
Proof.
  intros Hp Hk Hs n m w vm Hm Hw. destruct Hs as [x d Hx Ht|c u li f label m0 m1 d Hc Hf Hm0 Hs|c p m0 o d Hc Hm0 Ho];
    cbn [cluster machines] in *.
  - destruct (Hp n m w vm Hm Hw) as (c & u & li & f & Hpl & Htask & Hf & Hv).
    exists c, u, li, f. split_and!; [done| |done|done].
    destruct (Ht c) as [->|Hno]; [done|]. exfalso. revert Hno. unfold holding.
    rewrite Hpl. cbn [fst snd]. rewrite Hm. cbn. by rewrite Hw.
  - destruct (decide ((place c).1 = n)) as [<-|Hne].
    2:{ rewrite lookup_insert_ne in Hm by done. by apply (Hp n m). }
    rewrite lookup_insert_eq in Hm. injection Hm as ->.
    destruct (Hk _ _ Hm0) as (r & lost & _ & Hok & _).
    destruct (worker_step_holds _ _ _ _ _ _ _ _ _ Hok Hs Hw) as [[-> Hv]|(v0 & Hw0 & ->)].
    + exists c, u, li, f. rewrite Hc. by destruct (place c).
    + by apply (Hp _ m0 w v0).
  - assert (Hold : exists m', machines d !! n = Some m' /\ workers m' !! w = Some (Some vm) /\ place c <> (n, w)).
    { destruct (decide ((place c).1 = n)) as [<-|Hne].
      - rewrite lookup_insert_eq in Hm. injection Hm as <-. cbn [workers] in Hw.
        apply lookup_delete_Some in Hw as [Hne Hw]. exists m0. split_and!; [done|done|].
        intros E. apply Hne. by rewrite E.
      - rewrite lookup_insert_ne in Hm by done. exists m. split_and!; [done|done|].
        intros E. apply Hne. by rewrite E. }
    destruct Hold as (m' & Hm' & Hw' & Hne).
    destruct (Hp n m' w vm Hm' Hw') as (c' & u & li & f & Hpl & Htask & Hf & Hv).
    exists c', u, li, f. split_and!; [done| |done|done].
    cbn [with_phases phases]. rewrite lookup_insert_ne; [done|]. intros ->. by rewrite Hpl in Hne.
Qed.

Lemma kept_step v rs d d' : memory_kept place rs d -> step v d d' -> memory_kept place rs d'.
Proof.
  intros Hk Hs n m Hm. destruct Hs as [x d Hx Ht|c u li f label m0 m1 d Hc Hf Hm0 Hs|c p m0 o d Hc Hm0 Ho];
    cbn [cluster machines] in *.
  - destruct (Hk n m Hm) as (r & lost & Hr & Hok & Hl). exists r, lost. split_and!; [done|done|].
    destruct Hl as [->|(c & Hn & Hg)]; [by left|right]. exists c. split; [done|]. by eapply gone_stays.
  - destruct (decide ((place c).1 = n)) as [<-|Hne].
    2:{ rewrite lookup_insert_ne in Hm by done. by apply Hk. }
    rewrite lookup_insert_eq in Hm. injection Hm as ->.
    destruct (Hk _ _ Hm0) as (r & lost & Hr & Hok & Hl). exists r, lost. split_and!; [done| |done].
    by eapply worker_step_memory.
  - cbn [with_phases phases]. destruct (decide ((place c).1 = n)) as [<-|Hne].
    + rewrite lookup_insert_eq in Hm. injection Hm as <-.
      destruct (Hk _ _ Hm0) as (r & lost & Hr & Hok & Hl). exists r. eexists. split_and!; [done| |].
      { by eapply panic_memory. }
      right. exists c. split; [done|]. apply lookup_insert_eq.
    + rewrite lookup_insert_ne in Hm by done.
      destruct (Hk _ _ Hm) as (r & lost & Hr & Hok & Hl). exists r, lost. split_and!; [done|done|].
      destruct Hl as [->|(c' & Hn & Hg)]; [by left|right]. exists c'. split; [done|].
      destruct (decide (c = c')) as [->|]; [apply lookup_insert_eq|by rewrite lookup_insert_ne].
Qed.

Lemma initial_kept cap cs rs :
  map_Forall (fun _ r => accounted r 0) rs -> memory_kept place rs (deployment_initial (Ch := Ch) cap cs rs).
Proof.
  intros Hr n m Hm. cbn in Hm. apply lookup_fmap_Some in Hm as (r & <- & Hn).
  exists r, 0%Z. split_and!; [done| |by left]. apply pool_memory_ok. by apply (Hr n).
Qed.
Lemma initial_placed cap cs rs : vm_placed place (deployment_initial (Ch := Ch) cap cs rs).
Proof.
  intros n m w v Hm Hw. cbn in Hm. apply lookup_fmap_Some in Hm as (r & <- & Hn). exfalso.
  assert (Hin : v ∈ held_vms (workers (new_workerpool (Ch := Ch) r))).
  { apply list_elem_of_omap. exists (w, Some v). split; [|done]. by apply elem_of_map_to_list. }
  rewrite new_workerpool_held in Hin. by apply not_elem_of_nil in Hin.
Qed.

(** What a deployment does its cluster does. *)
Lemma cluster_steps v d d' :
  rtc (step v) d d' -> rtc (cluster_step first_key info_from_slice write_ok v) (cluster d) (cluster d').
Proof.
  induction 1 as [|d d1 d2 H _ IH]; [done|]. destruct H; cbn [cluster] in IH; [by eapply rtc_l|done|].
  eapply rtc_l; [by eapply c_die|exact IH].
Qed.

Lemma deployment_reachable cap cs rs d v :
  map_Forall (fun _ r => accounted r 0) rs ->
  rtc (step v) (deployment_initial cap cs rs) d ->
  vm_placed place d /\ memory_kept place rs d /\
  rtc (cluster_step first_key info_from_slice write_ok v) (cluster_initial cap cs) (cluster d).
Proof.
  intros Hr Hs. split_and!; [| |exact (cluster_steps _ _ _ Hs)].
  - assert (H : vm_placed place d /\ memory_kept place rs d); [|apply H].
    eapply (rtc_invariant (step v) (fun d => vm_placed place d /\ memory_kept place rs d));
      [|exact Hs|by split; [apply initial_placed|apply initial_kept]].
    intros ? ? [? ?] ?. split; [by eapply placed_step|by eapply kept_step].
  - eapply (rtc_invariant (step v) (memory_kept place rs)); [|exact Hs|by apply initial_kept].
    intros ? ? ? ?. by eapply kept_step.
Qed.
(** A worker's task has been accepted and is not reported. *)
Lemma task_unreported cap cs x c u li :
  rtc (cluster_step first_key info_from_slice write_ok false) (cluster_initial cap cs) x ->
  task_of (phases x !! c) = Some (u, li) ->
  Invoke u li ∈ started (sched x) /\ Invoke u li ∈ accepted (sched x) /\ u ∉ (results x).*1.
Proof.
  intros [Hy _ [_ [H1 _ _]] Hr]%(cluster_ok_reachable first_key first_key_some info_from_slice info_counts) Ht.
  rewrite Hr. destruct (H1 c u li) as (Hst & Hfin & _).
  { unfold carries, carried. destruct (phases x !! c) as [[]|]; try done; by injection Ht as -> ->. }
  split_and!; [done| |done]. rewrite (sys_fifo _ Hy). apply elem_of_app; by left.
Qed.

(** C29: a VM works for one task.  In a whole deployment, however the scheduler, the workers and
    their machines interleave and whichever workers panic, as long as no asynchronous invocation
    meets a full queue: a VM that a worker holds is a VM of the function of the task that the
    worker has, and that task has been accepted and is not reported. *)
Theorem vm_serves_task cap cs rs d n m w v :
  map_Forall (fun _ r => accounted r 0) rs ->
  rtc (step false) (deployment_initial cap cs rs) d ->
  machines d !! n = Some m -> workers m !! w = Some (Some v) ->
  exists c u li f, place c = (n, w) /\ task_of (phases (cluster d) !! c) = Some (u, li) /\
    sched.li_function li = Some f /\ vm_function v = function_from_message f /\
    Invoke u li ∈ accepted (sched (cluster d)) /\ u ∉ (results (cluster d)).*1.
Proof.
  intros Hr Hs Hm Hw. destruct (deployment_reachable _ _ _ _ _ Hr Hs) as (Hp & _ & Hc).
  destruct (Hp n m w v Hm Hw) as (c & u & li & f & Hpl & Ht & Hf & Hv).
  destruct (task_unreported _ _ _ _ _ _ Hc Ht) as (_ & Ha & Hn).
  by exists c, u, li, f.
Qed.

(** C30: memory comes back.  In a deployment as above, a machine none of whose workers is gone has
    all its memory: what is free, what the cached VMs have and what the VMs at work have add up
    to what it started with.  And when every task that was given to a worker is reported, no VM
    is at work, and all of the memory is free or can be freed by eviction. *)
Theorem memory_comes_back cap cs rs d n m r :
  map_Forall (fun _ r => accounted r 0) rs ->
  rtc (step false) (deployment_initial cap cs rs) d ->
  machines d !! n = Some m -> rs !! n = Some r ->
  (forall c, (place c).1 = n -> phases (cluster d) !! c <> Some Gone) ->
  (free_mem (rm m) + cache_memory (cache (rm m)) + vms_memory (held_vms (workers m)))%Z = total_mem r /\
  ((forall u li, Invoke u li ∈ started (sched (cluster d)) -> u ∈ (results (cluster d)).*1) ->
   held_vms (workers m) = [] /\ (free_mem (rm m) + cache_memory (cache (rm m)))%Z = total_mem r).
Proof.
  intros Hr Hs Hm Hn Hg. destruct (deployment_reachable _ _ _ _ _ Hr Hs) as (Hp & Hk & Hc).
  assert (Hall : (free_mem (rm m) + cache_memory (cache (rm m)) + vms_memory (held_vms (workers m)))%Z = total_mem r).
  { destruct (Hk n m Hm) as (r' & lost & Hr' & [_ Htot _ Ha] & Hl). rewrite Hn in Hr'. injection Hr' as <-.
    destruct Hl as [->|(c & Hcn & Hcg)]; [|by destruct (Hg c Hcn)].
    destruct Ha as (_ & _ & _ & _ & Hsum). rewrite <- Htot. lia. }
  split; [exact Hall|]. intros Hrep.
  assert (Hno : held_vms (workers m) = []).
  { destruct (held_vms (workers m)) as [|v vs] eqn:E; [done|].
    assert (Hv : v ∈ held_vms (workers m)) by (rewrite E; by left).
    apply list_elem_of_omap in Hv as ([w o] & Hin & Ho). cbn in Ho. subst o.
    apply elem_of_map_to_list in Hin. destruct (Hp n m w v Hm Hin) as (c & u & li & f & _ & Ht & _).
    destruct (task_unreported _ _ _ _ _ _ Hc Ht) as (Hst & _ & Hun). by apply Hrep in Hst. }
  split; [done|]. rewrite Hno, vms_memory_nil in Hall. lia.
Qed.
End deployment_theorems.
