(* ===== verification/CommandLine.v ===== *)
(** * The command line of a VM ([snapfaas/src/cli.rs])

    [cli::VmConfig] is declared field by field; [clap] derives the parser.  What it derives is a
    parameter, [Clap], given the declarations: that it accepts the lists of arguments that the
    declarations describe and refuses a list with an option that is not declared is all that is
    assumed of it.  What the generated code makes of the matches is [vm_args_from]. *)

From Stdlib Require Import Ascii String.
From stdpp Require Import base tactics option list gmap strings pretty countable.
From S2P Require Import Prelude.

(** ** Unsigned numbers ([u32::from_str], [u64::from_str]) *)

Definition digit_of (c : ascii) : option N :=
  let n := N_of_ascii c in
  if bool_decide (48 <= n <= 57)%N then Some (n - 48)%N else None.
Fixpoint decimal_go (acc : N) (s : string) : option N :=
  match s with
  | EmptyString => Some acc
  | String c s => d ← digit_of c; decimal_go (10 * acc + d)%N s
  end.
(** [bound] is one more than the greatest value of the type; a leading plus sign is allowed. *)
Definition decimal_parse (bound : Z) (s : string) : option Z :=
  let s := match s with
           | String c t => if bool_decide (c = "+"%char) then t else s
           | EmptyString => s
           end in
  if bool_decide (s = ""%string) then None
  else n ← decimal_go 0 s; if bool_decide (Z.of_N n < bound)%Z then Some (Z.of_N n) else None.

Lemma digit_of_pretty d : (d < 10)%N -> digit_of (pretty_N_char d) = Some d.
Proof.
  intros H. assert (Hd : (d = 0 \/ d = 1 \/ d = 2 \/ d = 3 \/ d = 4 \/ d = 5 \/ d = 6 \/ d = 7 \/
    d = 8 \/ d = 9)%N) by lia.
  repeat (destruct Hd as [->|Hd]; [reflexivity|]). by subst.
Qed.

Lemma decimal_go_pretty x s : decimal_go 0 (pretty_N_go x s) = decimal_go x s.
Proof.
  revert s. induction (N.lt_wf_0 x) as [x _ IH]; intros s.
  destruct (decide (x = 0)%N) as [->|Hx]; [by rewrite pretty_N_go_0|].
  rewrite pretty_N_go_step by lia. rewrite IH by (apply N.div_lt; lia).
  cbn [decimal_go]. rewrite digit_of_pretty by (apply N.mod_lt; lia).
  cbn. f_equal. pose proof (N.div_mod x 10). lia.
Qed.

(** A printed number starts with a digit. *)
Lemma pretty_N_go_head x s :
  (0 < x)%N -> exists d t, (d < 10)%N /\ pretty_N_go x s = String (pretty_N_char d) t.
Proof.
  revert s. induction (N.lt_wf_0 x) as [x _ IH]; intros s Hx.
  rewrite pretty_N_go_step by done. destruct (decide (x `div` 10 = 0)%N) as [->|Hd].
  - rewrite pretty_N_go_0. exists (x mod 10)%N, s. split; [apply N.mod_lt; lia|done].
  - apply IH; [apply N.div_lt; lia|by apply N.neq_0_lt_0].
Qed.
Lemma pretty_pos p : pretty (Z.pos p) = pretty_N_go (N.pos p) "".
Proof. done. Qed.
Lemma pretty_Z_head (n : Z) :
  (0 <= n)%Z -> exists d t, (d < 10)%N /\ pretty n = String (pretty_N_char d) t.
Proof.
  intros Hn. destruct n as [|p|p]; [by exists 0%N, ""%string| |lia].
  rewrite pretty_pos. by apply pretty_N_go_head.
Qed.

Lemma decimal_parse_pretty bound n : (0 <= n < bound)%Z -> decimal_parse bound (pretty n) = Some n.
Proof.
  intros Hn. destruct (pretty_Z_head n) as (d & t & Hd & E); [lia|].
  assert (Hp : pretty_N_char d <> "+"%char).
  { intros Hc. pose proof (digit_of_pretty d Hd) as H. rewrite Hc in H. discriminate. }
  assert (Hgo : decimal_go 0 (pretty n) = Some (Z.to_N n)).
  { destruct n as [|p|p]; [done| |lia].
    by rewrite pretty_pos, decimal_go_pretty. }
  unfold decimal_parse. rewrite E in *. cbv zeta.
  rewrite (bool_decide_false (pretty_N_char d = _) Hp), bool_decide_false by done. rewrite Hgo. cbn. rewrite bool_decide_true by lia. f_equal. lia.
Qed.

(** ** Declarations *)

Local Abbreviation chars := list_ascii_of_string.

Inductive Arity : Set := TakesValue | IsFlag.

Record Arg : Type := MkArg {
  long : string;
  arity : Arity;
  required : bool;
  requires : option string;
}.

(** What an occurrence on the command line gives: the option and its value. *)
Abbreviation Matches := (list (string * option string)).

Definition dashed (n : string) : string := "--" +:+ n.

(** The lists of arguments that declarations describe. *)
Inductive occurrences (specs : list Arg) : list string -> Matches -> Prop :=
  | occ_nil : occurrences specs [] []
  | occ_flag a rest ms :
      a ∈ specs -> arity a = IsFlag -> occurrences specs rest ms ->
      occurrences specs (dashed (long a) :: rest) ((long a, None) :: ms)
  | occ_value a v rest ms :
      a ∈ specs -> arity a = TakesValue -> head (chars v) <> Some "-"%char ->
      occurrences specs rest ms ->
      occurrences specs (dashed (long a) :: v :: rest) ((long a, Some v) :: ms).

(** No option twice, the required ones and those that others require, and of the two groups of
    a clash at most one. *)
Definition satisfies (specs : list Arg) (clashes : list (list string * list string))
    (ms : Matches) : Prop :=
  NoDup ms.*1 /\
  Forall (fun a => required a = true -> long a ∈ ms.*1) specs /\
  Forall (fun a => long a ∈ ms.*1 -> Forall (fun r => r ∈ ms.*1) (option_list (requires a))) specs /\
  Forall (fun p => Forall (fun x => Forall (fun y => x ∈ ms.*1 -> y ∉ ms.*1) p.2) p.1) clashes.
#[global] Instance satisfies_dec specs clashes ms : Decision (satisfies specs clashes ms).
Proof. unfold satisfies. apply _. Defined.

(** [None]: the program prints a message and ends. *)
Class Clap := {
  clap_parse : list Arg -> list (list string * list string) -> list string -> option Matches;
}.
Class ClapLaws {K : Clap} : Prop := {
  clap_accepts specs clashes args ms :
    occurrences specs args ms -> satisfies specs clashes ms ->
    clap_parse specs clashes args = Some ms;
  clap_unknown specs clashes args n :
    dashed n ∈ args -> n <> ""%string -> "="%char ∉ chars n -> "--"%string ∉ args ->
    n ∉ long <$> specs -> clap_parse specs clashes args = None;
}.

(** ** [VmConfig] *)

Definition vm_config_args : list Arg := [
  MkArg "id" TakesValue false None;
  MkArg "kernel" TakesValue true None;
  MkArg "kernel-args" TakesValue false None;
  MkArg "rootfs" TakesValue true None;
  MkArg "appfs" TakesValue false None;
  MkArg "memory" TakesValue false None;
  MkArg "vcpu" TakesValue false None;
  MkArg "vsock-cid" TakesValue false None;
  MkArg "mac" TakesValue false (Some "tap");
  MkArg "tap" TakesValue false None;
  MkArg "load-dir" TakesValue false None;
  MkArg "load-ws" IsFlag false (Some "load-dir");
  MkArg "copy-base-memory" IsFlag false (Some "load-dir");
  MkArg "copy-diff-memory" IsFlag false (Some "load-dir");
  MkArg "odirect-base" IsFlag false (Some "load-dir");
  MkArg "no-odirect-diff" IsFlag false (Some "load-dir");
  MkArg "dump-dir" TakesValue false None;
  MkArg "dump-ws" IsFlag false (Some "dump-dir");
  MkArg "no-odirect-root" IsFlag false None;
  MkArg "no-odirect-app" IsFlag false None
]%string.

(** [conflicts_with = "Load"] *)
Definition dump_group : list string := ["dump-dir"; "dump-ws"]%string.
Definition load_group : list string :=
  ["load-dir"; "load-ws"; "copy-base-memory"; "copy-diff-memory"; "odirect-base";
   "no-odirect-diff"]%string.
Definition vm_config_clashes : list (list string * list string) := [(dump_group, load_group)].

Record VmArgs : Type := MkVmArgs {
  a_id : Z;
  a_kernel : string;
  a_kernel_args : option string;
  a_rootfs : string;
  a_appfs : option string;
  a_memory : Z;
  a_vcpu : Z;
  a_vsock_cid : Z;
  a_mac : option string;
  a_tap : option string;
  a_load_dir : option string;
  a_load_ws : bool;
  a_copy_base_memory : bool;
  a_copy_diff_memory : bool;
  a_odirect_base : bool;
  a_no_odirect_diff : bool;
  a_dump_dir : option string;
  a_dump_ws : bool;
  a_no_odirect_root : bool;
  a_no_odirect_app : bool;
}.

(** The value of an option, whether a flag is there, and a number with its default. *)
Fixpoint value_of (n : string) (ms : Matches) : option string :=
  match ms with
  | [] => None
  | (m, v) :: ms => if String.eqb m n then v else value_of n ms
  end.
Definition flag_of (n : string) (ms : Matches) : bool := existsb (fun p => String.eqb p.1 n) ms.
Definition number_of (n : string) (bound dflt : Z) (ms : Matches) : option Z :=
  match value_of n ms with None => Some dflt | Some s => decimal_parse bound s end.

Definition vm_args_from (ms : Matches) : option VmArgs :=
  id ← number_of "id" (2 ^ 64) 0 ms;
  kernel ← value_of "kernel" ms;
  rootfs ← value_of "rootfs" ms;
  memory ← number_of "memory" (2 ^ 32) 128 ms;
  vcpu ← number_of "vcpu" (2 ^ 32) 1 ms;
  cid ← number_of "vsock-cid" (2 ^ 32) 100 ms;
  Some (MkVmArgs id kernel (value_of "kernel-args" ms) rootfs (value_of "appfs" ms) memory vcpu cid
    (value_of "mac" ms) (value_of "tap" ms) (value_of "load-dir" ms) (flag_of "load-ws" ms)
    (flag_of "copy-base-memory" ms) (flag_of "copy-diff-memory" ms) (flag_of "odirect-base" ms)
    (flag_of "no-odirect-diff" ms) (value_of "dump-dir" ms) (flag_of "dump-ws" ms)
    (flag_of "no-odirect-root" ms) (flag_of "no-odirect-app" ms)).

(** [Cli::parse] of [firerunner], which declares nothing else. *)
Definition vm_parse `{K : Clap} (args : list string) : option VmArgs :=
  clap_parse vm_config_args vm_config_clashes args ≫= vm_args_from.

Lemma occurrences_app specs l1 l2 m1 m2 :
  occurrences specs l1 m1 -> occurrences specs l2 m2 -> occurrences specs (l1 ++ l2) (m1 ++ m2).
Proof. induction 1; cbn; [done|intros; apply occ_flag; auto|intros; apply occ_value; auto]. Qed.

(** What is satisfied depends on the names only. *)
Lemma satisfies_names specs clashes ms ms' :
  ms.*1 = ms'.*1 -> satisfies specs clashes ms -> satisfies specs clashes ms'.
Proof. unfold satisfies. by intros ->. Qed.
