(* ===== verification/Firerunner.v ===== *)
(** * [firerunner]: the process behind a VM ([snapfaas/bins/firerunner/main.rs],
      [firecracker_wrapper.rs]) and [singlevm]'s use of it

    [Vm::launch] runs [firerunner] with a command line ([Worker.launch_args]); [firerunner]
    parses it ([CommandLine]), checks that the files exist and tells the virtual machine monitor,
    a library of its own, what to do, one action after the other, waits for its thread and exits.
    The monitor, its thread's channels and the files are the class [Vmm]. *)

From Stdlib Require Import Ascii String.
From stdpp Require Import base tactics option list gmap strings pretty countable.
From S2P Require Import Prelude Labels Store FsTypes Paths CommandLine Worker.

(** ** What the monitor is told *)

Record MemoryFileOption : Type := MkMemoryFile { mf_copy : bool; mf_odirect : bool }.

Record SnapFaaSConfig (J : Type) : Type := MkSnapConfig {
  parsed_json : option J;
  sc_load_dir : list string;
  sc_dump_dir : option string;
  huge_page : bool;
  sc_base : MemoryFileOption;
  sc_diff : MemoryFileOption;
  sc_load_ws : bool;
}.
Arguments MkSnapConfig {J} _ _ _ _ _ _ _.

Record BlockDeviceConfig : Type := MkBlock {
  drive_id : string;
  path_on_host : string;
  is_root_device : bool;
  is_read_only : bool;
  odirect : bool;
}.

(** [VmmAction], without the channel of the answer; the optional fields left out are [None]. *)
Inductive VmmAction : Type :=
  | SetVmConfiguration (vcpu_count mem_size_mib : Z)
  | ConfigureBootSource (kernel_image_path : string) (boot_args : option string)
  | InsertBlockDevice (b : BlockDeviceConfig)
  | InsertNetworkDevice (iface_id host_dev_name guest_mac : string)
  | InsertVsockDevice (vsock_id : string) (guest_cid : Z) (uds_path : string)
  | StartMicroVm
  | DumpWorkingSet.

Module VmmError.
Inductive VmmError : Type := EventFd | ActionError | ActionSender | SyncChannel.
End VmmError.
Abbreviation VmmError := VmmError.VmmError.

Class Vmm (V J : Type) := {
  (** [Path::exists] *)
  file_exists : string -> bool;
  (** [serde_json::from_reader(File::open(..))]; [None]: the file is missing or is not JSON *)
  snapshot_json : string -> option J;
  (** [MacAddr::parse_str] *)
  mac_ok : string -> bool;
  (** [VmmWrapper::new]: the event descriptors and the thread *)
  vmm_start : string -> SnapFaaSConfig J -> SM V (result unit VmmError);
  (** [Sender::send], [EventFd::write], and the answer: [None] when the sender of the answer is
      gone, [Some false] when the action fails *)
  channel_send : VmmAction -> SM V bool;
  event_fd_write : SM V bool;
  await_outcome : SM V (option bool);
  (** [JoinHandle::join] of the monitor's thread; [false]: it has panicked *)
  join_monitor : SM V bool;
  (** [std::fs::remove_file] *)
  remove_file : string -> SM V bool;
  (** [UnixListener::bind(..).expect(..)] and [accept]; [UnixStream::connect(..).expect(..)] *)
  dump_requested : string -> SM V bool;
  dump_done : string -> SM V unit;
}.

(** How the process ends: [clap] refuses the command line, or [std::process::exit]. *)
Inductive Outcome : Type := Refused | Exit (code : Z).

(** [x as u8] *)
Definition wrap_u8 (n : Z) : Z := n mod 2 ^ 8.

(** [PathBuf::push] of a relative path *)
Definition path_push (dir file : string) : string :=
  match list.last (chars dir) with
  | None => file
  | Some c => if bool_decide (c = "/"%char) then dir +:+ file else dir +:+ "/" +:+ file
  end.

Section firerunner.
Context {V J : Type} `{VM : !Vmm V J} `{K : Clap}.
Local Abbreviation M := (SM V).

(** ** [VmmWrapper] *)

Definition send_vmm_action (a : VmmAction) : M (result unit VmmError) :=
  ok ← channel_send a;
  if (ok : bool) then
    w ← event_fd_write;
    mret (if (w : bool) then Ok tt else Err VmmError.EventFd)
  else mret (Err VmmError.ActionSender).
Definition recv_vmm_action_ret : M (result unit VmmError) :=
  o ← await_outcome;
  mret (match o with
        | Some true => Ok tt
        | Some false => Err VmmError.ActionError
        | None => Err VmmError.SyncChannel
        end).
Definition request_vmm_action (a : VmmAction) : M (result unit VmmError) :=
  _ ?← send_vmm_action a; recv_vmm_action_ret.

(** [VmmWrapper::join_vmm], with its [expect] *)
Definition join_vmm : M unit :=
  joined ← join_monitor;
  if (joined : bool) then mret tt else panic.

(** ** [main] *)

(** [if let Err(e) = .. { std::process::exit(1) }] *)
Definition or_exit (m : M (result unit VmmError)) : M (result unit Outcome) :=
  r ← m; mret (match r with Ok _ => Ok tt | Err _ => Err (Exit 1) end).
Definition check (b : bool) : M (result unit Outcome) :=
  mret (if b then Ok tt else Err (Exit 1)).

Definition load_dirs (a : VmArgs) : list string :=
  match a_load_dir a with
  | None => []
  | Some x => str <$> split_on ","%char (chars x)
  end.

Definition snap_config (a : VmArgs) (parsed : option J) : SnapFaaSConfig J :=
  MkSnapConfig parsed (load_dirs a) (a_dump_dir a) false
    (MkMemoryFile (a_copy_base_memory a) (a_odirect_base a))
    (MkMemoryFile (a_copy_diff_memory a) (negb (a_no_odirect_diff a))) (a_load_ws a).

(** The network device: [tap_name.unwrap()] and [MacAddr::parse_str(..).expect("MacAddr")] *)
Definition insert_network (a : VmArgs) : M (result unit Outcome) :=
  match a_mac a with
  | None => mret (Ok tt)
  | Some m =>
      t ← unwrap (a_tap a);
      if mac_ok m then or_exit (request_vmm_action (InsertNetworkDevice "eth0" t m)) else panic
  end.

Definition dump_working_set (a : VmArgs) : M (result unit Outcome) :=
  if a_dump_ws a then
    ok ← dump_requested ("dump_ws-" +:+ pretty (a_id a) +:+ ".sock");
    if (ok : bool) then
      _ ?← or_exit (request_vmm_action DumpWorkingSet);
      _ ← dump_done ("dump_ws-" +:+ pretty (a_id a) +:+ ".sock.back");
      mret (Ok tt)
    else mret (Err (Exit 1))
  else mret (Ok tt).

(** [format!("worker-{}.sock", cid)] *)
Definition vsock_path (a : VmArgs) : string := "worker-" +:+ pretty (a_vsock_cid a) +:+ ".sock".

Definition configure (a : VmArgs) : M (result unit Outcome) :=
  _ ?← or_exit (request_vmm_action (SetVmConfiguration (wrap_u8 (a_vcpu a)) (a_memory a)));
  _ ?← (match load_dirs a with
        | [] => or_exit (request_vmm_action (ConfigureBootSource (a_kernel a) (a_kernel_args a)))
        | _ => mret (Ok tt)
        end : M (result unit Outcome));
  _ ?← or_exit (request_vmm_action
         (InsertBlockDevice (MkBlock "rootfs" (a_rootfs a) true true (negb (a_no_odirect_root a)))));
  _ ?← (match a_appfs a with
        | Some f => or_exit (request_vmm_action
            (InsertBlockDevice (MkBlock "appfs" f false true (negb (a_no_odirect_app a)))))
        | None => mret (Ok tt)
        end : M (result unit Outcome));
  _ ?← insert_network a;
  _ ← remove_file (vsock_path a);
  or_exit (request_vmm_action (InsertVsockDevice "vsock0" (a_vsock_cid a) (vsock_path a))).

Definition files_exist (a : VmArgs) : bool :=
  file_exists (a_kernel a) && file_exists (a_rootfs a) &&
  match a_appfs a with Some f => file_exists f | None => true end &&
  match a_dump_dir a with Some d => file_exists d | None => true end &&
  forallb file_exists (load_dirs a).

(** [json_dir.map(..)]: [expect]s both the file and its contents. *)
Definition read_snapshot (a : VmArgs) : M (option J) :=
  match list.last (load_dirs a) with
  | None => mret None
  | Some d => j ← unwrap (snapshot_json (path_push d "snapshot.json")); mret (Some j)
  end.

Definition run_vm (a : VmArgs) : M (result unit Outcome) :=
  _ ?← check (files_exist a);
  parsed ← read_snapshot a;
  _ ?← or_exit (vmm_start (pretty (a_id a)) (snap_config a parsed));
  _ ?← configure a;
  _ ?← or_exit (request_vmm_action StartMicroVm);
  dump_working_set a.

(** The whole of [main] *)
Definition firerunner (args : list string) : M Outcome :=
  match vm_parse args with
  | None => mret Refused
  | Some a =>
      r ← run_vm a;
      match r with
      | Ok _ => _ ← join_vmm; mret (Exit 0)
      | Err o => mret o
      end
  end.
End firerunner.

(** ** [singlevm]: the configuration of a VM from the command line *)

Definition config_of (a : VmArgs) : FunctionConfig :=
  MkConfig (a_mac a) (a_tap a) (a_rootfs a) (a_appfs a) (a_vcpu a) (a_memory a) 1 (a_load_dir a)
    (a_copy_base_memory a) (a_copy_diff_memory a) (a_kernel a) (a_kernel_args a) (a_dump_dir a)
    (a_dump_ws a) (a_load_ws a).
Definition odirect_of (a : VmArgs) : OdirectOption :=
  MkOdirect (a_odirect_base a) (negb (a_no_odirect_diff a)) (negb (a_no_odirect_root a))
    (negb (a_no_odirect_app a)).

(** ** What [firerunner] understands of the command line [Vm::launch] gives it *)

Definition is_some {A} (o : option A) : bool := match o with Some _ => true | None => false end.

(** A value that [clap] does not take for an option. *)
Definition plain (v : string) : Prop := head (chars v) <> Some "-"%char.

(** The numbers are in the range of their options, the values are plain, a network has both its
    addresses, and the two options about snapshots come with a snapshot. *)
Record fits (id cid : Z) (c : FunctionConfig) (o : option OdirectOption) : Prop := {
  fit_id : (0 <= id < 2 ^ 64)%Z;
  fit_cid : (0 <= cid < 2 ^ 32)%Z;
  fit_memory : (0 <= cfg_memory c < 2 ^ 32)%Z;
  fit_vcpus : (0 <= vcpus c < 2 ^ 32)%Z;
  fit_plain : plain (cfg_kernel c) /\ plain (runtimefs c) /\
    Forall plain (option_list (appfs c) ++ option_list (load_dir c) ++ option_list (dump_dir c) ++
      option_list (cmdline c) ++ option_list (mac c) ++ option_list (tap c));
  fit_network : is_Some (mac c) -> is_Some (tap c);
  fit_odirect : forall od, o = Some od -> load_dir c = None -> base od = false /\ diff od = true;
}.

Definition understood (c : FunctionConfig) : bool :=
  negb (is_some (mac c)) && negb (is_some (dump_dir c)) &&
  (negb (is_some (load_dir c)) || negb (copy_base c) && negb (copy_diff c)).

Definition args_of (id cid : Z) (c : FunctionConfig) (o : option OdirectOption) : VmArgs :=
  let od := default (MkOdirect false true true true) o in
  MkVmArgs id (cfg_kernel c) (Some (default "console=ttyS0" (cmdline c))) (runtimefs c) (appfs c)
    (cfg_memory c) (vcpus c) cid None None (load_dir c) (is_some (load_dir c) && load_ws c)
    false false (base od) (negb (diff od)) None false (negb (rootfs od)) (negb (od_appfs od)).

Ltac declared := apply list_elem_of_In; cbn; repeat first [left; reflexivity | right].

Lemma plain_pretty n : (0 <= n)%Z -> plain (pretty n).
Proof.
  intros Hn. destruct (pretty_Z_head n Hn) as (d & t & Hd & E). unfold plain. rewrite E. cbn.
  intros [= Hc]. pose proof (digit_of_pretty d Hd) as H. rewrite Hc in H. discriminate.
Qed.

Lemma occ_option a v : a ∈ vm_config_args -> arity a = TakesValue -> plain v ->
  occurrences vm_config_args [dashed (long a); v] [(long a, Some v)].
Proof. intros. apply occ_value; [done..|constructor]. Qed.
Lemma occ_if b a : a ∈ vm_config_args -> arity a = IsFlag ->
  occurrences vm_config_args (flag b (dashed (long a))) (if b then [(long a, None)] else []).
Proof. intros. destruct b; [apply occ_flag; [done..|constructor]|constructor]. Qed.

(** The parts of the command line. *)
Definition fixed_matches (id cid : Z) (c : FunctionConfig) : Matches :=
  [("id", Some (pretty id)); ("kernel", Some (cfg_kernel c)); ("memory", Some (pretty (cfg_memory c)));
   ("vcpu", Some (pretty (vcpus c))); ("rootfs", Some (runtimefs c));
   ("vsock-cid", Some (pretty cid))]%string.
Definition load_matches (c : FunctionConfig) : Matches :=
  match load_dir c with
  | Some d => ("load-dir"%string, Some d) :: if load_ws c then [("load-ws"%string, None)] else []
  | None => []
  end.
Definition odirect_matches (o : option OdirectOption) : Matches :=
  match o with
  | Some o => (if base o then [("odirect-base"%string, None)] else []) ++
              (if negb (diff o) then [("no-odirect-diff"%string, None)] else []) ++
              (if negb (rootfs o) then [("no-odirect-root"%string, None)] else []) ++
              (if negb (od_appfs o) then [("no-odirect-app"%string, None)] else [])
  | None => []
  end.
Definition launch_matches (id cid : Z) (c : FunctionConfig) (o : option OdirectOption) : Matches :=
  fixed_matches id cid c ++
  match appfs c with Some f => [("appfs"%string, Some f)] | None => [] end ++
  load_matches c ++ [("kernel-args"%string, Some (default "console=ttyS0"%string (cmdline c)))] ++
  odirect_matches o.

Lemma odirect_occurrences o :
  occurrences vm_config_args
    (match o with
     | Some o => flag (base o) "--odirect-base" ++ flag (negb (diff o)) "--no-odirect-diff" ++
                 flag (negb (rootfs o)) "--no-odirect-root" ++
                 flag (negb (od_appfs o)) "--no-odirect-app"
     | None => []
     end) (odirect_matches o).
Proof.
  destruct o as [o|]; [|constructor]. unfold odirect_matches.
  apply occurrences_app;
    [apply (occ_if _ (MkArg "odirect-base" IsFlag false (Some "load-dir"%string))); [declared|done]|].
  apply occurrences_app;
    [apply (occ_if _ (MkArg "no-odirect-diff" IsFlag false (Some "load-dir"%string))); [declared|done]|].
  apply occurrences_app; [apply (occ_if _ (MkArg "no-odirect-root" IsFlag false None)); [declared|done]|].
  apply (occ_if _ (MkArg "no-odirect-app" IsFlag false None)); [declared|done].
Qed.

Lemma load_occurrences c :
  (forall d, load_dir c = Some d -> plain d) ->
  occurrences vm_config_args
    (match load_dir c with
     | Some d => ["--load-dir"; d] ++ flag false "--copy-base" ++ flag false "--copy-diff" ++
                 flag (load_ws c) "--load-ws"
     | None => []
     end) (load_matches c).
Proof.
  intros Hd. unfold load_matches. destruct (load_dir c) as [d|]; [|constructor]. cbn [flag app].
  apply (occ_value _ (MkArg "load-dir" TakesValue false None)); [declared|done|by apply Hd|].
  apply (occ_if _ (MkArg "load-ws" IsFlag false (Some "load-dir"%string))); [declared|done].
Qed.

(** Every combination of options that is left satisfies the declarations. *)
Lemma launch_satisfies id cid c o :
  (forall od, o = Some od -> load_dir c = None -> base od = false /\ diff od = true) ->
  satisfies vm_config_args vm_config_clashes (launch_matches id cid c o).
Proof.
  intros Ho. apply (satisfies_names _ _ (launch_matches 0 0 (MkConfig None None ""
    ((fun _ => ""%string) <$> appfs c) 0 0 0 ((fun _ => ""%string) <$> load_dir c) false false ""
    None None false (load_ws c)) o)).
  { unfold launch_matches, load_matches, fixed_matches. cbn.
    destruct (appfs c), (load_dir c); cbn; by destruct (load_ws c). }
  destruct o as [[b d r a]|].
  - specialize (Ho _ eq_refl). cbn in Ho. destruct (load_dir c).
    + destruct b, d, r, a, (appfs c), (load_ws c); apply (bool_decide_unpack _); vm_compute; exact I.
    + destruct Ho as [-> ->]; [done|].
      destruct r, a, (appfs c), (load_ws c); apply (bool_decide_unpack _); vm_compute; exact I.
  - destruct (appfs c), (load_dir c), (load_ws c); apply (bool_decide_unpack _); vm_compute; exact I.
Qed.

Lemma launch_parsed id cid c o :
  (0 <= id < 2 ^ 64)%Z -> (0 <= cid < 2 ^ 32)%Z -> (0 <= cfg_memory c < 2 ^ 32)%Z ->
  (0 <= vcpus c < 2 ^ 32)%Z ->
  vm_args_from (launch_matches id cid c o) = Some (args_of id cid c o).
Proof.
  intros H1 H2 H3 H4. unfold vm_args_from, launch_matches, fixed_matches, load_matches, number_of.
  cbn -[decimal_parse Z.pow]. rewrite !decimal_parse_pretty by done. cbn -[decimal_parse Z.pow].
  unfold args_of. destruct (appfs c), (load_dir c), o as [[[] [] [] []]|]; cbn; try done;
    by destruct (load_ws c).
Qed.

(** The command line as a list. *)
Definition network_args (c : FunctionConfig) : list string :=
  match mac c with
  | Some m => ["--tap-name"; default "" (tap c); "--mac"; m]
  | None => []
  end%string.
Definition launch_list (id cid : Z) (c : FunctionConfig) (o : option OdirectOption) : list string :=
  (["--id"; pretty id; "--kernel"; cfg_kernel c; "--memory"; pretty (cfg_memory c);
     "--vcpu"; pretty (vcpus c); "--rootfs"; runtimefs c; "--vsock-cid"; pretty cid] ++
  match appfs c with Some f => ["--appfs"; f] | None => [] end ++
  match load_dir c with
  | Some d => ["--load-dir"; d] ++ flag (copy_base c) "--copy-base" ++
              flag (copy_diff c) "--copy-diff" ++ flag (load_ws c) "--load-ws"
  | None => []
  end ++
  match dump_dir c with
  | Some d => ["--dump-to"; d] ++ flag (dump_ws c) "--dump-ws"
  | None => []
  end ++
  ["--kernel-args"; default "console=ttyS0" (cmdline c)] ++
  network_args c ++
  match o with
  | Some o => flag (base o) "--odirect-base" ++ flag (negb (diff o)) "--no-odirect-diff" ++
              flag (negb (rootfs o)) "--no-odirect-root" ++
              flag (negb (od_appfs o)) "--no-odirect-app"
  | None => []
  end).

Lemma launch_list_run {S} id cid c o (s : S) :
  (is_Some (mac c) -> is_Some (tap c)) ->
  launch_args id cid c o s = (Val (launch_list id cid c o), s).
Proof.
  intros Hn. unfold launch_args, launch_list, network_args.
  destruct (mac c) as [m|]; [|done]. by destruct Hn as [t ->].
Qed.

Lemma launch_occurrences id cid c o :
  fits id cid c o -> understood c = true ->
  occurrences vm_config_args (launch_list id cid c o) (launch_matches id cid c o).
Proof.
  intros [H1 H2 H3 H4 (Hk & Hr & Hp) _ _] Hu. unfold understood in Hu.
  apply andb_true_iff in Hu as [Hu Hc]. apply andb_true_iff in Hu as [Hm Hd].
  unfold launch_list, launch_matches, fixed_matches, network_args.
  destruct (mac c); [done|]. destruct (dump_dir c); [done|]. rewrite !Forall_app in Hp.
  destruct Hp as (Ha & Hl & _ & Hcmd & _). cbn [app].
  apply (occ_value _ (MkArg "id" TakesValue false None)); [declared|done|apply plain_pretty; lia|].
  apply (occ_value _ (MkArg "kernel" TakesValue true None)); [declared|done..|].
  apply (occ_value _ (MkArg "memory" TakesValue false None)); [declared|done|apply plain_pretty; lia|].
  apply (occ_value _ (MkArg "vcpu" TakesValue false None)); [declared|done|apply plain_pretty; lia|].
  apply (occ_value _ (MkArg "rootfs" TakesValue true None)); [declared|done..|].
  apply (occ_value _ (MkArg "vsock-cid" TakesValue false None)); [declared|done|apply plain_pretty; lia|].
  apply occurrences_app.
  { destruct (appfs c) as [f|]; [|constructor]. apply Forall_cons_iff in Ha as [Ha _].
    apply (occ_option (MkArg "appfs" TakesValue false None)); [declared|done..]. }
  apply occurrences_app.
  { assert (Hload : forall d, load_dir c = Some d -> plain d).
    { intros d E. rewrite E in Hl. by apply Forall_cons_iff in Hl as [Hl _]. }
    pose proof (load_occurrences c Hload) as Hocc. destruct (load_dir c) as [d|]; [|exact Hocc].
    cbn in Hc. destruct (copy_base c), (copy_diff c); try discriminate Hc. exact Hocc. }
  apply (occ_value _ (MkArg "kernel-args" TakesValue false None)); [declared|done| |].
  { destruct (cmdline c); [by apply Forall_cons_iff in Hcmd as [Hcmd _]|done]. }
  apply odirect_occurrences.
Qed.

(** The argument that ends the options is not among them. *)
Lemma flag_clean b x : x <> "--"%string -> Forall (fun a => a <> "--"%string) (flag b x).
Proof. intros. destruct b; by repeat constructor. Qed.
Lemma plain_clean v : plain v -> v <> "--"%string.
Proof. intros H ->. by apply H. Qed.
Lemma launch_clean id cid c o : fits id cid c o -> "--"%string ∉ launch_list id cid c o.
Proof.
  intros [H1 H2 H3 H4 (Hk & Hr & Hp) Hn _].
  assert (H : Forall (fun a => a <> "--"%string) (launch_list id cid c o)).
  { pose proof (fun n Hn => plain_clean _ (plain_pretty n Hn)) as Hpp.
    apply plain_clean in Hk, Hr. rewrite !Forall_app in Hp.
    destruct Hp as (Ha & Hl & Hd & Hcmd & Hm & Ht). unfold launch_list, network_args.
    repeat (apply Forall_app; split).
    - repeat constructor; try done; apply Hpp; lia.
    - destruct (appfs c); [|constructor]. apply Forall_cons_iff in Ha as [Ha%plain_clean _]. by repeat constructor.
    - destruct (load_dir c); [|constructor]. apply Forall_cons_iff in Hl as [Hl%plain_clean _].
      repeat (apply Forall_app; split); try (by apply flag_clean). by repeat constructor.
    - destruct (dump_dir c); [|constructor]. apply Forall_cons_iff in Hd as [Hd%plain_clean _].
      apply Forall_app; split; [by repeat constructor|by apply flag_clean].
    - destruct (cmdline c); [apply Forall_cons_iff in Hcmd as [Hcmd%plain_clean _]|]; by repeat constructor.
    - destruct (mac c) as [m|]; [|constructor]. destruct Hn as [t Et]; [done|]. rewrite Et in *.
      apply Forall_cons_iff in Hm as [Hm%plain_clean _]. apply Forall_cons_iff in Ht as [Ht%plain_clean _].
      by repeat constructor.
    - destruct o; [|constructor]. repeat (apply Forall_app; split); by apply flag_clean. }
  intros Hin. by apply (list.Forall_forall (fun a => a <> "--"%string)) with (x := "--"%string) in H.
Qed.

(** The option that is not declared, when there is one. *)
Lemma launch_undeclared id cid c o :
  understood c = false -> exists n, n ∈ ["tap-name"; "dump-to"; "copy-base"; "copy-diff"]%string /\
    dashed n ∈ launch_list id cid c o.
Proof.
  unfold understood, launch_list, network_args. intros Hu.
  destruct (mac c).
  { exists "tap-name"%string. split; [by left|]. rewrite !elem_of_app. do 5 right. left. by left. }
  destruct (dump_dir c).
  { exists "dump-to"%string. split; [by right; left|]. rewrite !elem_of_app. do 3 right. do 2 left. by left. }
  destruct (load_dir c); [|done]. cbn in Hu. destruct (copy_base c) eqn:Eb.
  { exists "copy-base"%string. split; [by right; right; left|].
    rewrite !elem_of_app. do 2 right. left. right. left. by left. }
  destruct (copy_diff c); [|done].
  exists "copy-diff"%string. split; [by do 3 right; left|].
  rewrite !elem_of_app. do 2 right. left. do 2 right. left. by left.
Qed.

Section understood.
Context `{KL : ClapLaws}.

(** C35: what comes through the command line.  [Vm::launch] builds its command line without
    failing, and [firerunner] gets from it exactly the configuration that was meant, or refuses
    to start: it refuses every VM with a network device, every VM that is to be dumped to a
    snapshot, and every restore of a snapshot by copying, because the options [--tap-name],
    [--dump-to], [--copy-base] and [--copy-diff] are declared under other names in [cli.rs]. *)
Theorem launch_understood {S} id cid c o (s : S) :
  fits id cid c o ->
  exists args, launch_args id cid c o s = (Val args, s) /\
    vm_parse args = if understood c then Some (args_of id cid c o) else None.
Proof.
  intros Hfit. exists (launch_list id cid c o). split; [apply launch_list_run, Hfit|].
  unfold vm_parse. destruct (understood c) eqn:Hu.
  - rewrite (clap_accepts _ _ _ _ (launch_occurrences _ _ _ _ Hfit Hu)) by apply launch_satisfies, Hfit.
    cbn [mbind option_bind]. by apply launch_parsed; apply Hfit.
  - destruct (launch_undeclared id cid c o Hu) as (n & Hn & Hin).
    rewrite (clap_unknown _ _ _ n); [done|exact Hin| | |by apply launch_clean|].
    all: clear Hin; revert n Hn; apply list.Forall_forall; apply (bool_decide_unpack _); vm_compute; exact I.
Qed.
End understood.

(** ** What [firerunner] does with it *)

Section boots.
Context {V J : Type} `{VM : !Vmm V J} `{KL : ClapLaws}.
Local Abbreviation M := (SM V).

(** What [main] does to the monitor and the files, and what it is for that to have succeeded:
    an action is sent, signalled, and its success is waited for. *)
Inductive BootStep : Type := RequestAction (act : VmmAction) | RemoveFile (path : string).

Definition step_done (b : BootStep) (v v' : V) : Prop :=
  match b with
  | RequestAction act => exists v1 v2, channel_send act v = (Val true, v1) /\
      event_fd_write v1 = (Val true, v2) /\ await_outcome v2 = (Val (Some true), v')
  | RemoveFile path => exists removed, remove_file path v = (Val removed, v')
  end.
Fixpoint all_done (l : list BootStep) (v v' : V) : Prop :=
  match l with
  | [] => v' = v
  | b :: l => exists v1, step_done b v v1 /\ all_done l v1 v'
  end.

(** The steps, each taken when the one before has succeeded. *)
Definition take (b : BootStep) : M (result unit Outcome) :=
  match b with
  | RequestAction act => or_exit (request_vmm_action act)
  | RemoveFile path => _ ← remove_file path; mret (Ok tt)
  end.
Fixpoint take_all (l : list BootStep) : M (result unit Outcome) :=
  match l with
  | [] => mret (Ok tt)
  | b :: l => _ ?← take b; take_all l
  end.

Lemma try_assoc {S A B X E : Type} (m : SM S (result A E)) (f : A -> SM S (result B E))
    (g : B -> SM S (result X E)) s :
  (try_bind (try_bind m f) g) s = (try_bind m (fun a => try_bind (f a) g)) s.
Proof. unfold try_bind, mbind, SM_bind. by destruct (m s) as [[[a|e]| |] s']. Qed.
Lemma try_ext {S A B E : Type} (m : SM S (result A E)) (f g : A -> SM S (result B E)) s :
  (forall a s', f a s' = g a s') -> (try_bind m f) s = (try_bind m g) s.
Proof. intros H. unfold try_bind. apply bind_ext. intros [a|e] s'; [apply H|done]. Qed.
Lemma try_ok_l {S A B E : Type} (a : A) (f : A -> SM S (result B E)) s :
  (try_bind (mret (Ok a)) f) s = f a s.
Proof. done. Qed.

Definition boot_steps (a : VmArgs) : list BootStep :=
  [RequestAction (SetVmConfiguration (wrap_u8 (a_vcpu a)) (a_memory a))] ++
  (if is_some (a_load_dir a) then []
   else [RequestAction (ConfigureBootSource (a_kernel a) (a_kernel_args a))]) ++
  [RequestAction (InsertBlockDevice (MkBlock "rootfs" (a_rootfs a) true true (negb (a_no_odirect_root a))))] ++
  match a_appfs a with
  | Some f => [RequestAction (InsertBlockDevice (MkBlock "appfs" f false true (negb (a_no_odirect_app a))))]
  | None => []
  end ++
  [RemoveFile (vsock_path a);
   RequestAction (InsertVsockDevice "vsock0" (a_vsock_cid a) (vsock_path a));
   RequestAction StartMicroVm].

Lemma load_dirs_nil a : load_dirs a = [] <-> a_load_dir a = None.
Proof.
  unfold load_dirs. destruct (a_load_dir a) as [x|]; [|done]. split; [|done].
  destruct (split_on_cons ","%char (chars x)) as (? & ? & E). by rewrite E.
Qed.

Lemma take_single b s : take b s = take_all [b] s.
Proof.
  cbn [take_all]. unfold try_bind, mbind, SM_bind. by destruct (take b s) as [[[[]|e]| |] s'].
Qed.
Lemma take_app l l' s : take_all (l ++ l') s = (_ ?← take_all l; take_all l') s.
Proof.
  revert s. induction l as [|b l IH]; intros s; [done|]. cbn [app take_all].
  rewrite try_assoc. apply try_ext. intros [] s'. apply IH.
Qed.

Lemma try_cong {S A B E : Type} (m m' : SM S (result A E)) (f g : A -> SM S (result B E)) s :
  (forall s, m s = m' s) -> (forall a s, f a s = g a s) -> (try_bind m f) s = (try_bind m' g) s.
Proof.
  intros Hm Hf. unfold try_bind, mbind, SM_bind. rewrite Hm. by destruct (m' s) as [[[a|e]| |] s'].
Qed.
Lemma take_then b l (k : unit -> M (result unit Outcome)) s :
  (forall u s, k u s = take_all l s) -> (try_bind (take b) k) s = take_all (b :: l) s.
Proof. intros Hk. cbn [take_all]. apply try_ext. intros [] s'. apply Hk. Qed.
Lemma take_remove path (m : M (result unit Outcome)) s :
  (_ ← remove_file path; m) s = (_ ?← take (RemoveFile path); m) s.
Proof. cbn [take]. unfold try_bind, mbind, SM_bind, mret, SM_ret. by destruct (remove_file path s) as [[]]. Qed.

(** Without a network device the configuration and the start are one sequence of steps. *)
Lemma configure_steps a s :
  a_mac a = None ->
  (_ ?← configure a; or_exit (request_vmm_action StartMicroVm)) s = take_all (boot_steps a) s.
Proof.
  intros Hm. unfold boot_steps, configure, insert_network. rewrite Hm, try_assoc.
  cbn [app]. apply (take_then (RequestAction _)). intros _ s1. rewrite try_assoc, take_app.
  apply try_cong.
  { intros s'. destruct (a_load_dir a) as [x|] eqn:E; cbn [is_some].
    - destruct (load_dirs a) eqn:El; [|done]. apply load_dirs_nil in El. congruence.
    - apply load_dirs_nil in E. rewrite E. apply (take_single (RequestAction _)). }
  intros _ s2. rewrite try_assoc. apply (take_then (RequestAction _)). intros _ s3.
  rewrite try_assoc, take_app. apply try_cong.
  { intros s'. destruct (a_appfs a); [apply (take_single (RequestAction _))|done]. }
  intros _ s4. rewrite try_assoc, try_ok_l. erewrite try_cong; [|intros s'; apply take_remove|done].
  rewrite try_assoc. apply take_then. intros _ s5. apply (take_then (RequestAction _)). intros _ s6.
  apply (take_single (RequestAction StartMicroVm)).
Qed.

(** A step succeeds, or ends the process with 1. *)
Lemma take_outcome b s r s' :
  take b s = (Val r, s') -> r = Ok tt /\ step_done b s s' \/ r = Err (Exit 1) /\ ~ step_done b s s'.
Proof.
  destruct b as [act|path]; cbn [take step_done].
  - unfold or_exit, request_vmm_action, send_vmm_action, recv_vmm_action_ret, try_bind, mbind,
      SM_bind, mret, SM_ret.
    destruct (channel_send act s) as [[[]| |] v1] eqn:E1; try done;
      [destruct (event_fd_write v1) as [[[]| |] v2] eqn:E2; try done;
        [destruct (await_outcome v2) as [[[[]|]| |] v3] eqn:E3; try done|]|];
      intros [= <- <-]; [left; split; [done|]; by exists v1, v2|right; split; [done|]..];
      intros (x & y & ? & ? & ?); congruence.
  - intros (o & s1 & E & H)%bind_val. injection H as <- <-. left. split; [done|]. by exists o.
Qed.
Lemma take_done b s s' : step_done b s s' -> take b s = (Val (Ok tt), s').
Proof.
  destruct b as [act|path]; cbn [take step_done].
  - intros (v1 & v2 & E1 & E2 & E3).
    unfold or_exit, request_vmm_action, send_vmm_action, recv_vmm_action_ret, try_bind, mbind,
      SM_bind, mret, SM_ret. by rewrite E1, E2, E3.
  - intros [o E]. by rewrite (bind_step _ _ _ _ _ E).
Qed.
Lemma take_all_outcome l s r s' : take_all l s = (Val r, s') -> r = Ok tt \/ r = Err (Exit 1).
Proof.
  revert s. induction l as [|b l IH]; intros s; cbn [take_all].
  - intros [= <- _]. by left.
  - unfold try_bind. intros (o & s1 & [[-> _]|[-> _]]%take_outcome & H)%bind_val; [by eapply IH|].
    injection H as <- _. by right.
Qed.
Lemma take_all_done l s s' : take_all l s = (Val (Ok tt), s') <-> all_done l s s'.
Proof.
  revert s. induction l as [|b l IH]; intros s; cbn [take_all all_done].
  - split; [by intros [= ->]|by intros ->].
  - unfold try_bind. split.
    + intros (o & s1 & [[-> Hd]|[-> _]]%take_outcome & H)%bind_val; [|done].
      exists s1. split; [done|]. by apply IH.
    + intros (s1 & Hd & H). rewrite (bind_step _ _ _ _ _ (take_done _ _ _ Hd)). by apply IH.
Qed.

(** From the start of the monitor to the end of the process. *)
Definition started (a : VmArgs) (parsed : option J) : M Outcome :=
  r ← (_ ?← or_exit (vmm_start (pretty (a_id a)) (snap_config a parsed));
       take_all (boot_steps a));
  match r with Ok _ => _ ← join_vmm; mret (Exit 0) | Err o => mret o end.

Lemma started_outcome a parsed s out s' :
  started a parsed s = (Val out, s') -> out = Exit 0 \/ out = Exit 1.
Proof.
  intros (r & s1 & E & H)%bind_val. assert (Hr : r = Ok tt \/ r = Err (Exit 1)).
  { unfold try_bind in E. apply bind_val in E as (o & s2 & E & Hk). unfold or_exit in E.
    apply bind_val in E as (o' & s3 & _ & E). destruct o' as [[]|e]; injection E as <- <-.
    - by eapply take_all_outcome.
    - injection Hk as <- _. by right. }
  destruct Hr as [-> | ->]; [|injection H as <- _; by right].
  apply bind_val in H as (u & s2 & _ & H). injection H as <- _. by left.
Qed.

(** The process ends with 0 exactly when everything has succeeded. *)
Lemma started_done a parsed s s' :
  started a parsed s = (Val (Exit 0), s') <->
  exists v1 v2, vmm_start (pretty (a_id a)) (snap_config a parsed) s = (Val (Ok tt), v1) /\
    all_done (boot_steps a) v1 v2 /\ join_monitor v2 = (Val true, s').
Proof.
  unfold started, or_exit, join_vmm. split.
  - intros (r & v2 & E & H)%bind_val. unfold try_bind in E. apply bind_val in E as (o & v1 & E & Hk).
    apply bind_val in E as (o' & v0 & Ev & E). destruct o' as [[]|e]; injection E as <- <-.
    2: { injection Hk as <- <-. discriminate H. }
    destruct (take_all_outcome _ _ _ _ Hk) as [-> | ->]; [|discriminate H].
    apply bind_val in H as (u & v3 & Hj & H). injection H as <-.
    apply bind_val in Hj as ([] & v4 & Hj & H); [|done]. injection H as _ <-.
    exists v0, v2. split; [done|]. split; [by apply take_all_done|done].
  - intros (v1 & v2 & Ev & Hd%take_all_done & Hj). unfold try_bind, mbind, SM_bind, mret, SM_ret.
    rewrite Ev, Hd. cbn. by rewrite Hj.
Qed.

Lemma run_vm_boots a s :
  a_mac a = None -> a_dump_ws a = false -> files_exist a = true -> a_load_dir a = None ->
  run_vm a s = (_ ?← or_exit (vmm_start (pretty (a_id a)) (snap_config a None));
                take_all (boot_steps a)) s.
Proof.
  intros Hm Hd Hf Hl. unfold run_vm, check, read_snapshot. rewrite Hf, try_ok_l.
  rewrite (proj2 (load_dirs_nil a) Hl). cbn [list.last].
  rewrite (bind_step (mret None) _ s None s) by done. apply try_ext. intros [] s1.
  rewrite <- configure_steps by done. apply try_ext. intros [] s2.
  unfold dump_working_set. rewrite Hd. unfold try_bind, mbind, SM_bind.
  by destruct (or_exit _ s2) as [[[[]|e]| |] s3].
Qed.

(** C36: from the worker to the monitor.  A VM without network and snapshots, which is what the
    worker launches, gets as far as its files exist exactly this: the monitor is started under
    the VM's number, told the memory and the number of processors, the kernel with its
    arguments, the root file system, the application's file system and the socket of the VM,
    whose leftover file is removed first, and to start, in this order.  The process ends with 0
    exactly when each of these actions was sent, signalled and answered with success before the
    next, and the monitor's thread has ended well; it ends with 1 at the first that fails. *)
Theorem launch_boots {S} id cid c o (s : S) v :
  fits id cid c o -> understood c = true -> load_dir c = None ->
  files_exist (args_of id cid c o) = true ->
  exists args, launch_args id cid c o s = (Val args, s) /\
    firerunner args v = started (args_of id cid c o) None v /\
    (forall out v', firerunner args v = (Val out, v') -> out = Exit 0 \/ out = Exit 1) /\
    (forall v', firerunner args v = (Val (Exit 0), v') <->
       exists v1 v2, vmm_start (pretty id) (snap_config (args_of id cid c o) None) v = (Val (Ok tt), v1) /\
         all_done (boot_steps (args_of id cid c o)) v1 v2 /\ join_monitor v2 = (Val true, v')) /\
    boot_steps (args_of id cid c o) =
      [RequestAction (SetVmConfiguration (wrap_u8 (vcpus c)) (cfg_memory c));
       RequestAction (ConfigureBootSource (cfg_kernel c) (Some (default "console=ttyS0" (cmdline c))));
       RequestAction (InsertBlockDevice (MkBlock "rootfs" (runtimefs c) true true
         (from_option rootfs true o)))] ++
      match appfs c with
      | Some f => [RequestAction (InsertBlockDevice (MkBlock "appfs" f false true
          (from_option od_appfs true o)))]
      | None => []
      end ++
      [RemoveFile ("worker-" +:+ pretty cid +:+ ".sock");
       RequestAction (InsertVsockDevice "vsock0" cid ("worker-" +:+ pretty cid +:+ ".sock"));
       RequestAction StartMicroVm].
Proof.
  intros Hfit Hu Hl Hf. exists (launch_list id cid c o).
  split; [apply launch_list_run, Hfit|].
  assert (Hrun : firerunner (launch_list id cid c o) v = started (args_of id cid c o) None v).
  { unfold firerunner, vm_parse.
    rewrite (clap_accepts _ _ _ _ (launch_occurrences _ _ _ _ Hfit Hu)) by apply launch_satisfies, Hfit.
    cbn [mbind option_bind]. rewrite launch_parsed by apply Hfit. unfold started.
    unfold mbind, SM_bind. by rewrite run_vm_boots. }
  split; [exact Hrun|]. rewrite Hrun. split_and!.
  - intros out v'. apply started_outcome.
  - intros v'. apply started_done.
  - unfold boot_steps, vsock_path, args_of. cbn. rewrite Hl. cbn.
    destruct o as [[]|]; cbn; by rewrite ?negb_involutive.
Qed.
End boots.

(** [singlevm] passes its own options on: what [firerunner] gets is what [singlevm] was given,
    but for the default of the kernel's arguments and a [--tap] without a [--mac]. *)
Theorem singlevm_roundtrip a :
  understood (config_of a) = true -> (a_load_ws a = true -> is_Some (a_load_dir a)) ->
  (a_copy_base_memory a || a_copy_diff_memory a = true -> is_Some (a_load_dir a)) ->
  (a_dump_ws a = true -> is_Some (a_dump_dir a)) ->
  args_of (a_id a) (a_vsock_cid a) (config_of a) (Some (odirect_of a)) =
    MkVmArgs (a_id a) (a_kernel a) (Some (default "console=ttyS0" (a_kernel_args a))) (a_rootfs a)
      (a_appfs a) (a_memory a) (a_vcpu a) (a_vsock_cid a) (a_mac a) None (a_load_dir a)
      (a_load_ws a) (a_copy_base_memory a) (a_copy_diff_memory a) (a_odirect_base a)
      (a_no_odirect_diff a) (a_dump_dir a) (a_dump_ws a) (a_no_odirect_root a)
      (a_no_odirect_app a).
Proof.
  destruct a as [id k ka r ap me vc ci ma ta ld lw cb cd ob od dd dw nr na].
  unfold understood, args_of, config_of, odirect_of. cbn. intros Hu Hlw Hc Hdw.
  destruct ma, dd; try discriminate Hu.
  assert (dw = false) as -> by (destruct dw; [by destruct Hdw|done]).
  destruct ld as [d|]; cbn in *.
  - destruct cb, cd; try discriminate Hu. by rewrite !negb_involutive.
  - assert (lw = false) as -> by (destruct lw; [by destruct Hlw|done]).
    assert (cb = false /\ cd = false) as [-> ->].
    { destruct cb, cd; try done; by destruct Hc. }
    by rewrite !negb_involutive.
Qed.
