(* ===== verification/Singlevm.v ===== *)
(** * The single VM tool ([snapfaas/bins/singlevm/main.rs])

    It launches one VM from its command line, with no scheduler, and sends it the lines of its
    standard input as requests, one after the other.  The state is a worker's, whose resource
    manager and connection to the scheduler are not used.  What is printed is the result. *)

From Stdlib Require Import Ascii String.
From stdpp Require Import base tactics option list gmap strings countable.
From S2P Require Import Prelude Labels Store FsTypes Objects Fs FsGuarantee FsMediation Syscalls.
From S2P Require Import Blobstore Message SysServer SysGuarantee SysSafety LocalRM Worker.
From S2P Require Import CommandLine Firerunner.
Local Open Scope string_scope.
Local Open Scope list_scope.

Record Cli : Type := MkCli {
  vmconfig : VmArgs; force_exit : bool; login : option string; start_label : option string
}.

(** [From<FunctionConfig>] *)
Definition function_from_config (c : FunctionConfig) : Function :=
  MkFunction (cfg_memory c) (default "" (appfs c)) (runtimefs c) (cfg_kernel c).

(** The status code and the body of a response; [None] for a request that failed. *)
Abbreviation Printed := (option (Z * bytes)).

Section singlevm.
Context {St C N Ch Os : Type} `{BS : !BackingStore St} `{L : !LabelOps} `{SD : !SerdeOps}.
Context `{DG : DigestOps} `{HX : !HexOps} `{CN : !Conn C} `{HC : !HttpClient N}.
Context `{SC : !SyscallChannel Ch} `{MR : !Message pb.Reply}.
Context `{MQ : !Message Request} `{MT : !Message TaskReturn}.
Context `{LA : !Launcher Os Ch}.
(** The exchange over the sockets by which the monitor dumps the working set. *)
Context (dump_socket : SM Os (result unit string)).
Context (run_fuel gate_fuel : nat).

Local Abbreviation S := (Worker St C N Ch Os).
Local Abbreviation M := (SM S).

Definition my_privilege (cli : Cli) : M Component :=
  match login cli with
  | None => mret dc_true
  | Some p => b ← unwrap (buckle_parse ("T," +:+ p)); mret (integrity b)
  end.
Definition starting_label (cli : Cli) : M Buckle :=
  match start_label cli with
  | None => mret public
  | Some l => unwrap (buckle_parse l)
  end.

(** A new processor for each request; a VM without a handle panics when it is sent anything. *)
Definition run_request (label : Buckle) (privilege : Component) (payload : bytes) (vm : Vm) :
    M (result TaskReturn SyscallProcessorError) := fun s =>
  match handles s !! vm_id vm with
  | None => (Panic, s)
  | Some ch =>
      let p := new (env_fs s) (env_blobstore s) (env_conn s) (http s) ch label privilege in
      let '(r, p) := SysServer.run run_fuel gate_fuel payload [] ∅ privilege p in
      (r, MkWorker (localrm s) (SysServer.fs p) (blobstore p) (sched_conn p) (http_client p)
            (<[vm_id vm := channel p]> (handles s)) (os s))
  end.

Definition response_printed (r : result TaskReturn SyscallProcessorError) : M Printed :=
  match r with
  | Ok rsp =>
      payload ← unwrap (sched.return_payload rsp);
      mret (Some (pb.status_code payload, default [] (pb.body payload)))
  | Err _ => mret None
  end.

(** The [for] loop over the requests, which ends early when the working set is dumped. *)
Fixpoint serve_requests (label : Buckle) (privilege : Component) (dump_working_set : bool)
    (requests : list bytes) (vm : Vm) : M (list Printed) :=
  match requests with
  | [] => mret []
  | req :: requests =>
      r ← run_request label privilege req vm;
      o ← response_printed r;
      if dump_working_set then
        d ← on_os dump_socket;
        match d with Ok _ => mret [o] | Err _ => panic end
      else
        os ← serve_requests label privilege dump_working_set requests vm;
        mret (o :: os)
  end.

(** [main]: a launch that fails is only logged. *)
Definition singlevm (cli : Cli) (requests : list bytes) : M (list Printed) :=
  let config := config_of (vmconfig cli) in
  let vm := Vm_new (a_id (vmconfig cli)) (function_from_config config) in
  l ← launch (a_vsock_cid (vmconfig cli)) (force_exit cli) config (Some (odirect_of (vmconfig cli))) vm;
  let vm := match l with Ok vm => vm | Err _ => vm end in
  privilege ← my_privilege cli;
  label ← starting_label cli;
  serve_requests label privilege (a_dump_ws (vmconfig cli)) requests vm.
End singlevm.

(** ** A session *)

Section session.
Context {St C N Ch Os : Type} `{BW : BackingStoreLaws St} `{LW : LabelLaws} `{SW : SerdeLaws}.
Context `{DG : DigestOps} `{HX : !HexOps} `{CN : !Conn C} `{HC : !HttpClient N}.
Context `{SC : !SyscallChannel Ch} `{MR : !Message pb.Reply}.
Context `{MQ : !Message Request} `{MT : !Message TaskReturn}.
Context `{LA : !Launcher Os Ch}.
Context (dump_socket : SM Os (result unit string)) (run_fuel gate_fuel : nat).
Implicit Types s : Worker St C N Ch Os.

(** What may have happened to the file system under the privilege [p]. *)
Definition session p : relation (Worker St C N Ch Os) := fun s s' =>
  quiet (env_fs s) ->
  quiet (env_fs s') /\
  (forall k v, view (env_fs s) !! k = Some v -> exists v', view (env_fs s') !! k = Some v' /\ kept v v') /\
  (forall k v', view (env_fs s') !! k = Some v' ->
     view (env_fs s) !! k = Some v' \/ granted p v').
#[local] Instance session_preorder p : PreOrder (session p).
Proof.
  split.
  - intros s Hq. split_and!; [done| |by left]. intros k v Hv. exists v. split; [done|by left].
  - intros s1 s2 s3 H12 H23 Hq. destruct (H12 Hq) as (Hq2 & K12 & G12).
    destruct (H23 Hq2) as (Hq3 & K23 & G23). split_and!; [done| |].
    + intros k v Hv. destruct (K12 k v Hv) as (v2 & Hv2 & Hk2). destruct (K23 k v2 Hv2) as (v3 & Hv3 & Hk3).
      exists v3. split; [done|]. by eapply kept_trans.
    + intros k v Hv. destruct (G23 k v Hv) as [Hv2|]; [|by right]. by apply G12.
Qed.

(** Steps that leave the file system alone. *)
Lemma session_same p s s' : env_fs s' = env_fs s -> session p s s'.
Proof. intros E Hq. rewrite E. by apply (reflexivity (R := session p)). Qed.
Lemma on_os_session p {A} (m : SM Os A) : Guar (session p) (on_os (St := St) (C := C) (N := N) (Ch := Ch) m).
Proof. intros s. apply session_same. unfold on_os, zoom. by destruct (m (os s)). Qed.
Lemma modify_session p f :
  (forall s, env_fs (f s) = env_fs s) -> Guar (session p) (modify f).
Proof. intros Hf s. by apply session_same, Hf. Qed.
#[local] Hint Resolve on_os_session modify_session : guar.

Lemma launch_session p cid force config odirect vm :
  Guar (session p) (launch cid force config odirect vm).
Proof. unfold launch, launch_args, exit. solve_guar; apply modify_session; by intros. Qed.

Lemma run_request_session p label payload vm :
  Guar (session p) (run_request run_fuel gate_fuel label p payload vm).
Proof.
  intros s. unfold run_request. destruct (handles s !! vm_id vm) as [ch|]; [|done].
  set (x := new (env_fs s) (env_blobstore s) (env_conn s) (http s) ch label p).
  pose proof (run_on_fs run_fuel gate_fuel payload [] ∅ p x) as H. unfold session.
  destruct (SysServer.run run_fuel gate_fuel payload [] ∅ p x) as [r x']. cbn in *. intros Hq.
  destruct (H Hq) as (Hq' & _ & Hk & Hg). by split_and!.
Qed.

Lemma serve_requests_session p label dump reqs vm :
  Guar (session p) (serve_requests dump_socket run_fuel gate_fuel label p dump reqs vm).
Proof.
  induction reqs as [|req reqs IH]; cbn [serve_requests]; [solve_guar|].
  apply guar_bind; [apply run_request_session|]. intros r. unfold response_printed. solve_guar.
Qed.

Definition cli_privilege cli : option Component :=
  match login cli with
  | None => Some dc_true
  | Some p => integrity <$> buckle_parse ("T," +:+ p)
  end.
Lemma my_privilege_run cli s :
  my_privilege cli s = (match cli_privilege cli with Some p => Val p | None => Panic end, s).
Proof.
  unfold my_privilege, cli_privilege, unwrap, mbind, SM_bind. destruct (login cli) as [l|]; [|done].
  by destruct (buckle_parse _).
Qed.

(** A session of [singlevm] stays within the privilege it logged in with, whatever the requests
    and the launch's outcome: every object keeps its label and stays, and no gate or service is
    left behind whose privilege goes beyond it. *)
Theorem singlevm_confined cli reqs s :
  session (default dc_true (cli_privilege cli)) s
    (singlevm dump_socket run_fuel gate_fuel cli reqs s).2.
Proof.
  set (p := default _ _). unfold singlevm.
  set (l := launch _ _ _ _ _). assert (Hl : Guar (session p) l) by apply launch_session.
  specialize (Hl s). unfold mbind at 1, SM_bind at 1. destruct (l s) as [[r| |] s1]; [|exact Hl..].
  cbn in Hl. etrans; [exact Hl|]. set (vm := match r with Ok v => v | Err _ => _ end).
  unfold mbind at 1, SM_bind at 1. rewrite my_privilege_run.
  destruct (cli_privilege cli) as [q|]; [|done]. cbn in p. subst p.
  assert (H : Guar (session q) (label ← starting_label cli;
    serve_requests dump_socket run_fuel gate_fuel label q (a_dump_ws (vmconfig cli)) reqs vm)).
  { apply guar_bind; [unfold starting_label; solve_guar|]. intros x. apply serve_requests_session. }
  apply H.
Qed.

(** When the VM cannot be started the error is logged, and the first request panics. *)
Theorem singlevm_unlaunched cli req reqs s :
  (forall args o, exists e o', spawn args o = (Val (Err e), o')) ->
  a_mac (vmconfig cli) = None -> handles s !! a_id (vmconfig cli) = None ->
  (singlevm dump_socket run_fuel gate_fuel cli (req :: reqs) s).1 = Panic.
Proof.
  intros Hs Hm Hh. unfold singlevm, launch. set (c := config_of _). cbn [launched Vm_new].
  destruct (launch_args_total (vm_id (Vm_new (a_id (vmconfig cli)) (function_from_config c)))
    (a_vsock_cid (vmconfig cli)) c (Some (odirect_of (vmconfig cli))) s Hm) as (args & Ea).
  destruct (Hs args (os s)) as (e & o & Es).
  assert (El : (on_os (St := St) (C := C) (N := N) (Ch := Ch) (spawn args)) s = (Val (Err e), set_os o s))
    by (unfold on_os, zoom; by rewrite Es).
  unfold try_bind. unfold mbind at 1, SM_bind at 1. rewrite (bind_step _ _ _ _ _ Ea), (bind_step _ _ _ _ _ El).
  cbn. unfold mbind at 1, SM_bind at 1. rewrite my_privilege_run. destruct (cli_privilege cli) as [p|]; [|done].
  unfold starting_label, unwrap. unfold mbind at 1, SM_bind at 1.
  destruct (start_label cli) as [l|]; [destruct (buckle_parse l); [|done]|]; cbn;
    unfold mbind, SM_bind, run_request; cbn; by rewrite Hh.
Qed.
End session.
