(* ===== verification/Startup.v ===== *)
(** * How the processes start

    [get_machine_memory] of [snapfaas/src/lib.rs], [ResourceManager::new] of
    [resource_manager.rs], [Worker::new] of [worker.rs] and [main] of
    [snapfaas/bins/multivm/main.rs]: what a machine's manager and workers start from.  What comes
    from outside is given: the lines of [/proc/meminfo], and how each attempt to connect to the
    scheduler ends, which is repeated until one succeeds. *)

From Stdlib Require Import Ascii String.
From stdpp Require Import base tactics option list gmap strings pretty countable.
From S2P Require Import Prelude Labels Store FsTypes Objects Fs Syscalls.
From S2P Require Import Paths Blobstore Message SysServer LocalRM Worker Machine CommandLine.
Local Open Scope list_scope.

(** ** [str::trim] *)

(** The encodings of the characters with the property [White_Space]. *)
Definition whitespace : list (list ascii) :=
  map (map ascii_of_nat)
    (map (fun k : nat => [k]) [9; 10; 11; 12; 13; 32] ++
     [[194; 133]; [194; 160]; [225; 154; 128]] ++
     map (fun k : nat => [226; 128; k]) (seq 128 11) ++
     [[226; 128; 168]; [226; 128; 169]; [226; 128; 175]; [226; 129; 159]; [227; 128; 128]]).

Fixpoint strip_prefix (p l : list ascii) : option (list ascii) :=
  match p, l with
  | [], _ => Some l
  | a :: p, b :: l => if decide (a = b) then strip_prefix p l else None
  | _ :: _, [] => None
  end.
Fixpoint strip_any (ps : list (list ascii)) (l : list ascii) : option (list ascii) :=
  match ps with
  | [] => None
  | p :: ps => match strip_prefix p l with Some l' => Some l' | None => strip_any ps l end
  end.
Fixpoint strip_all (fuel : nat) (ps : list (list ascii)) (l : list ascii) : list ascii :=
  match fuel with
  | O => l
  | S fuel => match strip_any ps l with Some l' => strip_all fuel ps l' | None => l end
  end.
(** Each character takes at least one byte, so that the length is enough fuel. *)
Definition trim (l : list ascii) : list ascii :=
  let l := strip_all (length l) whitespace l in
  rev (strip_all (length l) (map (@rev ascii) whitespace) (rev l)).

(** ** [get_machine_memory] *)

(** In megabytes; [lines] are what reading [/proc/meminfo] gives. *)
Fixpoint get_machine_memory (lines : list (result string unit)) : outcome Z :=
  match lines with
  | [] | Err _ :: _ => Panic
  | Ok c :: lines =>
      match trim <$> split_on colon (chars c) with
      | [] => Panic
      | key :: rest =>
          if decide (key = chars "MemTotal") then
            match rest with
            | [] => Panic
            | v :: _ =>
                match split_on " " v with
                | [] => Panic
                | n :: _ =>
                    match decimal_parse (2 ^ 64) (str n) with
                    | Some mem => Val (mem / 1024)%Z
                    | None => Panic
                    end
                end
            end
          else get_machine_memory lines
      end
  end.

(** ** Connecting *)

(** [loop { if let Ok(conn) = TcpStream::connect(..) { break conn; } sleep }] *)
Fixpoint connect_loop {C} (attempts : list (option C)) : outcome C :=
  match attempts with
  | [] => NoFuel
  | Some c :: _ => Val c
  | None :: attempts => connect_loop attempts
  end.

(** [ResourceManager::new] of the machine. *)
Definition ResourceManager_new {C} (meminfo : list (result string unit))
    (attempts : list (option C)) : outcome (LocalRM.ResourceManager C) :=
  match get_machine_memory meminfo with
  | Val mem =>
      match connect_loop attempts with
      | Val conn => Val (rm_new mem conn)
      | Panic => Panic
      | NoFuel => NoFuel
      end
  | Panic => Panic
  | NoFuel => NoFuel
  end.

(** [main] of [multivm], up to the pool; [memory] is what [--memory] says. *)
Definition multivm {C Ch} (memory : Z) (meminfo : list (result string unit))
    (attempts : list (option C)) : outcome (Machine C Ch) :=
  match ResourceManager_new meminfo attempts with
  | Val manager => Val (new_workerpool (set_total_mem memory manager))
  | Panic => Panic
  | NoFuel => NoFuel
  end.

(** ** [unlink_unix_sockets] *)

(** Files by name: [glob::glob], [None] for a pattern it refuses, with an [Err] for each entry it
    cannot read; [std::fs::remove_file]; and whether a name is text. *)
Class Files (Os : Type) := {
  glob : string -> Os -> option (list (result string unit));
  unlink : string -> Os -> bool * Os;
  is_text : string -> bool;
}.

(** The message about a file that cannot be removed unwraps its name. *)
Fixpoint unlink_all {Os} `{!Files Os} (paths : list (result string unit)) : SM Os unit :=
  match paths with
  | [] => mret tt
  | Err _ :: paths => unlink_all paths
  | Ok path :: paths =>
      ok ← (fun o => let '(b, o') := unlink path o in (Val b, o'));
      if (ok : bool) || is_text path then unlink_all paths else panic
  end.
Definition unlink_matching {Os} `{!Files Os} (pattern : string) : SM Os unit :=
  paths ← gets (glob pattern);
  match paths with Some paths => unlink_all paths | None => mret tt end.
Definition unlink_unix_sockets {Os} `{!Files Os} : SM Os unit :=
  _ ← unlink_matching "worker-*sock*"; unlink_matching "dump_ws-*sock*".

(** ** [Worker::new] *)

(** The sockets in the file system. *)
Class Sockets (Os : Type) := {
  (** [std::fs::remove_file], its result dropped *)
  remove_file : string -> Os -> Os;
  (** [UnixListener::bind] *)
  bind : string -> Os -> option Os;
}.

Definition vm_listener_path (cid : Z) : string := "worker-" +:+ pretty cid +:+ ".sock_1234".

Definition Worker_new {St C N Ch Os} `{!Sockets Os} (cid : Z) (attempts : list (option C))
    (localrm : LocalRM.ResourceManager C) (fs : World St) (blobstore : Blobstore) (http : N)
    (os : Os) : outcome (Worker St C N Ch Os) :=
  match connect_loop attempts with
  | Val conn =>
      match bind (vm_listener_path cid) (remove_file (vm_listener_path cid) os) with
      | Some os => Val (MkWorker localrm fs blobstore (Some conn) http ∅ os)
      | None => Panic
      end
  | Panic => Panic
  | NoFuel => NoFuel
  end.

(** ** Theorems *)

Lemma strip_all_stop fuel ps l : strip_any ps l = None -> strip_all fuel ps l = l.
Proof. intros H. destruct fuel as [|fuel]; [done|]. cbn. by rewrite H. Qed.

Lemma strip_all_spaces fuel l k :
  (k <= fuel)%nat -> strip_any whitespace l = None ->
  strip_all fuel whitespace (replicate k " "%char ++ l) = l.
Proof.
  revert fuel. induction k as [|k IH]; intros fuel Hk Hl; [by apply strip_all_stop|].
  destruct fuel as [|fuel]; [lia|]. cbn [replicate app strip_all].
  change (strip_any whitespace (" "%char :: (replicate k " "%char ++ l)))
    with (Some (replicate k " "%char ++ l)). apply IH; [lia|done].
Qed.

(** A digit in front, and a letter at the end, are not trimmed. *)
Lemma strip_digit d l : (d < 10)%N -> strip_any whitespace (pretty_N_char d :: l) = None.
Proof.
  intros H. assert (Hd : (d = 0 \/ d = 1 \/ d = 2 \/ d = 3 \/ d = 4 \/ d = 5 \/ d = 6 \/ d = 7 \/
    d = 8 \/ d = 9)%N) by lia.
  repeat (destruct Hd as [->|Hd]; [reflexivity|]). by subst.
Qed.
Lemma strip_B l : strip_any (map (@rev ascii) whitespace) ("B"%char :: l) = None.
Proof. reflexivity. Qed.

Lemma chars_app s t : chars (s +:+ t) = chars s ++ chars t.
Proof. induction s as [|a s IH]; [done|].
  change (a :: chars (s +:+ t) = a :: chars s ++ chars t). by rewrite IH.
Qed.

(** A printed number has no colon and no space. *)
Lemma pretty_N_go_plain c x s :
  c ∉ (pretty_N_char <$> [0; 1; 2; 3; 4; 5; 6; 7; 8; 9]%N) -> c ∉ chars s -> c ∉ chars (pretty_N_go x s).
Proof.
  intros Hc. revert s. induction (N.lt_wf_0 x) as [x _ IH]; intros s Hs.
  destruct (decide (x = 0)%N) as [->|Hx]; [by rewrite pretty_N_go_0|].
  rewrite pretty_N_go_step by lia. apply IH; [apply N.div_lt; lia|].
  cbn. apply not_elem_of_cons. split; [|done]. intros ->. apply Hc.
  assert (Hd : (x mod 10 < 10)%N) by (apply N.mod_lt; lia).
  revert Hd. generalize (x mod 10)%N. intros d Hd. apply list_elem_of_fmap. exists d. split; [done|].
  apply list_elem_of_In. cbn. lia.
Qed.
Lemma pretty_plain c n :
  (0 <= n)%Z -> c ∉ (pretty_N_char <$> [0; 1; 2; 3; 4; 5; 6; 7; 8; 9]%N) -> c ∉ chars (pretty n).
Proof.
  intros Hn Hc. destruct n as [|p|p]; [|rewrite pretty_pos; apply pretty_N_go_plain; [done|]|lia].
  - cbn. intros H. apply Hc. set_solver.
  - set_solver.
Qed.

Lemma split_on_nonempty c l : split_on c l <> [].
Proof.
  destruct l as [|a l]; [done|]. cbn. destruct (decide (a = c)); [done|].
  by destruct (split_on c l).
Qed.

Definition spaces (k : nat) : string := str (replicate k " "%char).
(** A line of [/proc/meminfo] with another key. *)
Definition other_line (c : string) : Prop :=
  head (trim <$> split_on colon (chars c)) <> Some (chars "MemTotal").

Lemma trim_value k n :
  (0 <= n)%Z -> trim (chars (spaces k +:+ pretty n +:+ " kB")) = chars (pretty n +:+ " kB").
Proof.
  intros Hn. unfold trim, spaces.
  rewrite !chars_app, list_ascii_of_string_of_list_ascii.
  destruct (pretty_Z_head n Hn) as (d & t & Hd & E). rewrite E. cbn [list_ascii_of_string app].
  rewrite strip_all_spaces; [|rewrite length_app, length_replicate; lia|by apply strip_digit].
  rewrite strip_all_stop; [apply rev_involutive|].
  rewrite app_comm_cons, rev_app_distr. apply strip_B.
Qed.

(** The memory of the machine is read off the first line whose key is [MemTotal], whatever the
    lines before and after it and however many spaces precede the number: the number of
    kilobytes, in megabytes. *)
Theorem machine_memory_read pre k n post :
  Forall other_line pre -> (0 <= n < 2 ^ 64)%Z ->
  get_machine_memory
    ((Ok <$> pre) ++ Ok ("MemTotal:" +:+ spaces k +:+ pretty n +:+ " kB") :: post) =
  Val (n / 1024)%Z.
Proof.
  intros Hpre Hn. induction Hpre as [|c pre Hc _ IH]; cbn [fmap list_fmap app get_machine_memory].
  - assert (Hs : colon ∉ chars (spaces k +:+ pretty n +:+ " kB")).
    { rewrite !chars_app, !not_elem_of_app. split_and!.
      - unfold spaces. rewrite list_ascii_of_string_of_list_ascii.
        by intros [? _]%elem_of_replicate.
      - apply pretty_plain; [lia|]. vm_compute. set_solver.
      - vm_compute. set_solver. }
    assert (Hl : chars ("MemTotal:" +:+ spaces k +:+ pretty n +:+ " kB") =
      chars "MemTotal" ++ colon :: chars (spaces k +:+ pretty n +:+ " kB")).
    { by rewrite chars_app. }
    rewrite Hl, split_on_app, split_on_none by first [done | vm_compute; set_solver].
    cbn [fmap list_fmap]. rewrite trim_value by lia.
    rewrite decide_True by reflexivity.
    rewrite chars_app. change (chars " kB") with (" "%char :: chars "kB").
    rewrite split_on_app by (apply pretty_plain; [lia|vm_compute; set_solver]).
    by rewrite string_of_list_ascii_of_string, decimal_parse_pretty.
  - revert Hc. unfold other_line.
    destruct (trim <$> split_on colon (chars c)) as [|key rest] eqn:E.
    + apply fmap_nil_inv in E. by apply split_on_nonempty in E.
    + intros Hk. rewrite decide_False; [exact IH|]. intros ->. by apply Hk.
Qed.

(** The loop ends with the first attempt that succeeds, and only then. *)
Lemma connect_loop_spec {C} (attempts : list (option C)) c :
  connect_loop attempts = Val c <-> exists n rest, attempts = replicate n None ++ Some c :: rest.
Proof.
  split.
  - induction attempts as [|[d|] attempts IH]; cbn; [done|..].
    + intros [= ->]. by exists O, attempts.
    + intros (n & rest & ->)%IH. by exists (S n), rest.
  - intros (n & rest & ->). by induction n.
Qed.

(** What [multivm] starts with.  The manager gets the memory asked for, or what the machine has
    when that is less; it is connected to the scheduler; and there is one worker for every 128 MB
    of it, numbered from 100, none of which holds a VM, so that a VM of 128 MB for each fits. *)
Theorem pool_started {C Ch} memory meminfo (attempts : list (option C)) total c :
  get_machine_memory meminfo = Val total -> connect_loop attempts = Val c -> (128 <= memory)%Z ->
  (0 <= total)%Z ->
  exists m : Machine C Ch, multivm memory meminfo attempts = Val m /\
    total_mem (rm m) = Z.min memory total /\ free_mem (rm m) = total_mem (rm m) /\
    rm_conn (rm m) = c /\
    (forall w o, workers m !! w = Some o <->
       o = None /\ (100 <= w < 100 + Z.min memory total / 128)%Z) /\
    (128 * Z.of_nat (size (workers m)) <= total_mem (rm m))%Z.
Proof.
  intros Hm Hc Hmem Ht. unfold multivm, ResourceManager_new. rewrite Hm, Hc.
  eexists. split; [done|]. unfold set_total_mem. cbn [total_mem rm_new].
  assert (Hw : forall k (r : LocalRM.ResourceManager C), total_mem r = k -> (0 <= k)%Z ->
    (forall w o, workers (new_workerpool (Ch := Ch) r) !! w = Some o <->
       o = None /\ (100 <= w < 100 + k / 128)%Z) /\
    (128 * Z.of_nat (size (workers (new_workerpool (Ch := Ch) r))) <= k)%Z).
  { intros k r Hr Hk. unfold new_workerpool. cbn [workers]. rewrite Hr.
    set (l := (fun i : Z => ((i + 100)%Z, None : option Vm)) <$> seqZ 0 (k / 128)).
    assert (Hl : l.*1 = seqZ 100 (k / 128)).
    { unfold l. rewrite <- list_fmap_compose.
      rewrite (list_fmap_ext _ (Z.add 100)) by (intros; cbn; lia). by rewrite fmap_add_seqZ. }
    assert (Hn : NoDup l.*1) by (rewrite Hl; apply NoDup_seqZ).
    split.
    - intros w o. rewrite <- elem_of_list_to_map by done. unfold l. rewrite list_elem_of_fmap. split.
      + intros (i & [= -> ->] & Hi%elem_of_seqZ). split; [done|lia].
      + intros [-> Hw]. exists (w - 100)%Z. split; [f_equal; lia|]. apply elem_of_seqZ. lia.
    - rewrite map_size_list_to_map by done. unfold l. rewrite length_fmap, length_seqZ.
      pose proof (Z.mul_div_le k 128). pose proof (Z.div_pos k 128). lia. }
  destruct (Z.lt_ge_cases total memory) as [Hlt|Hge].
  - rewrite bool_decide_true by done. rewrite Z.min_r by lia.
    destruct (Hw total (rm_new total c) eq_refl Ht) as [H1 H2]. by split_and!.
  - rewrite bool_decide_false by lia. rewrite bool_decide_false by lia. rewrite Z.min_l by lia.
    match goal with |- context [new_workerpool ?r] => destruct (Hw memory r eq_refl) as [H1 H2]; [lia|] end.
    by split_and!.
Qed.

(** Unless a name is not text the clean-up ends, whatever cannot be removed. *)
Lemma unlink_all_ends {Os} `{!Files Os} paths (o : Os) :
  Forall (fun r => forall p, r = Ok p -> is_text p = true) paths ->
  exists o', unlink_all paths o = (Val tt, o').
Proof.
  intros Hp. revert o. induction Hp as [|[p|e] paths Hx _ IH]; intros o; cbn [unlink_all];
    [by eexists| |apply IH].
  destruct (unlink p o) as [b o1] eqn:E.
  rewrite (bind_step (fun o => let '(b, o') := unlink p o in (Val b, o')) _ o b o1) by by rewrite E.
  rewrite (Hx p eq_refl), orb_true_r. apply IH.
Qed.

(** The listeners of different workers are different files, and each is where the monitor of the
    worker's VMs connects for port 1234: the path of the VM's socket with the port appended. *)
Lemma vm_listener_path_inj a b : vm_listener_path a = vm_listener_path b -> a = b.
Proof.
  intros H. apply (inj pretty).
  apply (f_equal chars) in H. unfold vm_listener_path in H.
  rewrite !chars_app in H. apply app_inv_head, app_inv_tail in H.
  apply (f_equal str) in H. by rewrite !string_of_list_ascii_of_string in H.
Qed.
