(* ===== verification/Metrics.v ===== *)
(** * The workers' timestamps ([snapfaas/src/metrics.rs])

    The module is not compiled into the library at present; its state is a list behind a lock,
    which a thread of its own writes to a log file at intervals.  Whoever holds the lock acts
    alone, so that a run is a sequence of [metrics_step]s. *)

From stdpp Require Import base tactics list relations.
From S2P Require Import Prelude.

Record RequestTimestamps : Type := MkTimestamps {
  at_gateway : Z; at_vmm : Z; arrived : Z; allocated : Z; launched_at : Z; completed : Z
}.

(** [lines]: how writing each further line to the log will end. *)
Record WorkerMetrics : Type := MkMetrics {
  log_file : list RequestTimestamps;
  request_timestamps : list RequestTimestamps;
  lines : list bool;
}.

Definition metrics_new (lines : list bool) : WorkerMetrics := MkMetrics [] [] lines.

Definition push (t : RequestTimestamps) (m : WorkerMetrics) : WorkerMetrics :=
  MkMetrics (log_file m) (request_timestamps m ++ [t]) (lines m).

(** The loop over the timestamps; a line that cannot be written is reported and left out. *)
Fixpoint write_lines (ts : list RequestTimestamps) (log : list RequestTimestamps)
    (lines : list bool) : list RequestTimestamps * list bool :=
  match ts with
  | [] => (log, lines)
  | t :: ts =>
      match lines with
      | [] => write_lines ts (log ++ [t]) []
      | true :: lines => write_lines ts (log ++ [t]) lines
      | false :: lines => write_lines ts log lines
      end
  end.

(** [flush], which keeps the timestamps, and a round of [start_timed_flush], which drops them. *)
Definition flush (m : WorkerMetrics) : WorkerMetrics :=
  let '(log, lines) := write_lines (request_timestamps m) (log_file m) (lines m) in
  MkMetrics log (request_timestamps m) lines.
Definition timed_flush (m : WorkerMetrics) : WorkerMetrics :=
  let m := flush m in MkMetrics (log_file m) [] (lines m).
Definition metrics_len (m : WorkerMetrics) : nat := length (request_timestamps m).

(** A run, with everything that was pushed. *)
Inductive metrics_step : relation (WorkerMetrics * list RequestTimestamps) :=
  | m_push t m ts : metrics_step (m, ts) (push t m, ts ++ [t])
  | m_timed m ts : metrics_step (m, ts) (timed_flush m, ts).

Lemma write_lines_all ts log : write_lines ts log [] = (log ++ ts, []).
Proof.
  revert log. induction ts as [|t ts IH]; intros log; cbn; [by rewrite app_nil_r|].
  by rewrite IH, <- app_assoc.
Qed.
Lemma write_lines_sub ts log lines : exists l, (write_lines ts log lines).1 = log ++ l /\ sublist l ts.
Proof.
  revert log lines. induction ts as [|t ts IH]; intros log ls; cbn.
  { exists []. by rewrite app_nil_r. }
  destruct ls as [|[] ls].
  - destruct (IH (log ++ [t]) []) as (l & -> & Hl). exists (t :: l). rewrite <- app_assoc.
    split; [done|]. by apply sublist_skip.
  - destruct (IH (log ++ [t]) ls) as (l & -> & Hl). exists (t :: l). rewrite <- app_assoc.
    split; [done|]. by apply sublist_skip.
  - destruct (IH log ls) as (l & -> & Hl). exists l. split; [done|]. by apply sublist_cons.
Qed.

(** With the timed flush alone, the log never holds a timestamp twice or out of order: it and
    what is still to be written make up, in order, a part of what was pushed; and when every
    line can be written, all of it. *)
Theorem timed_flush_logs ls m ts :
  rtc metrics_step (metrics_new ls, []) (m, ts) ->
  sublist (log_file m ++ request_timestamps m) ts /\
  (ls = [] -> log_file m ++ request_timestamps m = ts).
Proof.
  intros Hr.
  set (P := fun p : WorkerMetrics * list RequestTimestamps =>
    sublist (log_file p.1 ++ request_timestamps p.1) p.2 /\
    (ls = [] -> lines p.1 = [] /\ log_file p.1 ++ request_timestamps p.1 = p.2)).
  assert (HP : P (m, ts)).
  { apply (rtc_invariant metrics_step P (metrics_new ls, [])); [|exact Hr|by split].
    intros x y [H1 H2] Hs. destruct Hs as [t m0 ts0|m0 ts0]; unfold P; cbn in *.
    - rewrite app_assoc. split; [by apply sublist_app|]. intros Hl. destruct (H2 Hl) as [? <-]. done.
    - unfold timed_flush, flush.
      destruct (write_lines_sub (request_timestamps m0) (log_file m0) (lines m0)) as (l & El & Hl).
      destruct (write_lines _ _ _) as [log lines'] eqn:Ew. cbn in El |- *. subst log.
      rewrite app_nil_r. split.
      + etrans; [|exact H1]. by apply sublist_app.
      + intros Hls. destruct (H2 Hls) as [E <-]. rewrite E, write_lines_all in Ew.
        by injection Ew as -> <-. }
  destruct HP as [H1 H2]. split; [exact H1|]. intros Hl. by apply H2.
Qed.

(** A flush by hand keeps the timestamps, and the next round of the timed flush writes them
    again. *)
Lemma flush_repeats t : log_file (timed_flush (flush (push t (metrics_new [])))) = [t; t].
Proof. done. Qed.
