(* ===== verification/Bootstrap.v ===== *)
(** * The bootstrapper ([snapfaas/src/fs/bootstrap.rs])

    Installs kernels and runtime images under [home:<T,faasten>], the gate of the file system
    tool [fsutil] next to them, and a gate of that kind in the home of each user.  The local
    file system and the configuration file are the parameters [local_file] and [read_config]:
    [None] is a file that cannot be opened, read or deserialized. *)

From Stdlib Require Import Ascii String.
From stdpp Require Import base tactics option list gmap strings countable.
From S2P Require Import Prelude Labels Store FsTypes Objects Fs FsGuarantee.
From S2P Require Import FsMediation FsReads Paths Blobstore.
Local Open Scope string_scope.
Local Open Scope list_scope.

Record Config : Type := MkConfig {
  cfg_kernel_path : string;
  cfg_python : string;
  cfg_fsutil : string;
  other_runtimes : list string;
}.

Definition FSUTIL_MEMSIZE : Z := 128.
Definition FAASTEN_PRIV : Component := DCFormula {[ {[ ["faasten"] ]} ]}.

(** [std::path::Path::file_name]: the last component, unless it is [..]; empty components and
    the [.] components do not count. *)
Definition slash : ascii := "/"%char.
Definition file_name (p : string) : option string :=
  let cs := list_filter (fun c => c <> "" /\ c <> ".") _ (str <$> split_on slash (chars p)) in
  match rev cs with
  | c :: _ => if decide (c = "..") then None else Some c
  | [] => None
  end.

(** The state of a bootstrapping thread. *)
Record Boot (St : Type) : Type := MkBoot { boot_fs : World St; boot_blobs : Blobstore }.
Arguments MkBoot {St} _ _.
Arguments boot_fs {St} _.
Arguments boot_blobs {St} _.

Section bootstrap.
Context {St : Type} `{BS : !BackingStore St} `{L : !LabelOps} `{SD : !SerdeOps}.
Context `{DG : DigestOps} `{HX : !HexOps}.
Context (local_file : string -> option bytes) (read_config : string -> option Config).

Local Abbreviation M := (SM (World St)).
Local Abbreviation MB := (SM (Boot St)).

Definition in_fs {A} (m : M A) : MB A := zoom boot_fs (fun w s => MkBoot w (boot_blobs s)) m.
Definition in_blobs {A} (m : SM Blobstore A) : MB A :=
  zoom boot_blobs (fun b s => MkBoot (boot_fs s) b) m.
Definition expect {S A E} (r : result A E) : SM S A :=
  match r with Ok a => mret a | Err _ => panic end.

(** The path and the label are parsed once, on first use. *)
Definition FSTN_IMAGE_BASE : M Path := r ← Path_parse "home:<T,faasten>"; expect r.
Definition FSUTIL_POLICY : M Buckle := unwrap (buckle_parse "T,faasten").

Definition localfile2blob (local_path : string) : MB string :=
  buf ← unwrap (local_file local_path);
  b ← in_blobs create;
  b ← expect b;
  fuel ← gets (fun s => S (length (io (boot_blobs s))));
  b ← in_blobs (write_all fuel b buf);
  b ← expect b;
  b ← in_blobs (save b);
  b ← expect b;
  mret (name b).

(** One image: its blob, linked or updated under [name] in the image directory. *)
Definition install (name : string) (label : Buckle) (local_path : string) :
    MB (result string FsError) :=
  blobname ← localfile2blob local_path;
  base ← in_fs FSTN_IMAGE_BASE;
  _ ?← in_fs (create_or_update_blob base name label blobname);
  mret (Ok blobname).

Definition fsutil_gate (f : Function) : DirectGate := MkDirectGate dc_true dc_true dc_true f.

(** [create_direct_gate(..).expect(..)] and [dir.link(..)?] *)
Definition link_fsutil (dir : ObjectRef TDirectory) (f : Function) : M (result unit FsError) :=
  policy ← FSUTIL_POLICY;
  gate ← create_direct_gate policy (fsutil_gate f);
  gate ← expect gate;
  k ← dir_link dir "fsutil" gate;
  _ ?← mret (map_err LabelError_into k);
  mret (Ok tt).

Definition install_fsutil (f : Function) : M (result unit FsError) :=
  base ← FSTN_IMAGE_BASE;
  e ?← read_path base;
  match e with
  | DirEntry.Directory dir =>
      es ← dir_list dir;
      match es !! "fsutil" with
      | Some (DirEntry.Gate gate) => gate_replace gate (Gate.Direct (fsutil_gate f))
      | Some _ =>
          u ← dir_unlink dir "fsutil";
          _ ?← mret (map_err LabelError_into u);
          link_fsutil dir f
      | None => link_fsutil dir f
      end
  | _ => mret (Err FsError.BadPath)
  end.

(** The [for] loop over the other runtimes. *)
Fixpoint install_runtimes (label : Buckle) (rts : list string) : MB unit :=
  match rts with
  | [] => mret tt
  | rt :: rts =>
      blobname ← localfile2blob rt;
      name ← unwrap (file_name rt);
      base ← in_fs FSTN_IMAGE_BASE;
      r ← in_fs (create_or_update_blob base name label blobname);
      _ ← expect r;
      install_runtimes label rts
  end.

(** What is done with every privilege.  The outcomes of [initialize] and [create_faceted] are
    only logged. *)
Definition make_home : M unit :=
  _ ← fs_initialize;
  _ ← set_my_privilge dc_false;
  _ ← create_faceted Path_root "home";
  mret tt.

(** What is done as [faasten]. *)
Definition install_all (label : Buckle) (config : Config) : MB (result unit FsError) :=
  kernel_blob ?← install "kernel" label (cfg_kernel_path config);
  python_blob ?← install "python" label (cfg_python config);
  fsutil_blob ?← install "fsutil_image" label (cfg_fsutil config);
  _ ?← in_fs (install_fsutil (MkFunction FSUTIL_MEMSIZE fsutil_blob python_blob kernel_blob));
  _ ← install_runtimes label (other_runtimes config);
  mret (Ok tt).

Definition prepare_fs (config_path : string) : MB (result unit FsError) :=
  config ← unwrap (read_config config_path);
  label ← unwrap (buckle_parse "T,faasten");
  _ ← in_fs make_home;
  _ ← in_fs (set_my_privilge FAASTEN_PRIV);
  _ ?← install_all label config;
  _ ← in_fs (set_my_privilge dc_true);
  mret (Ok tt).

Definition dup_fsutil (privilege invoker_integrity_clearance : Component) :
    M (result unit FsError) :=
  p ← Path_parse "home:<T,faasten>:fsutil";
  faasten_fsutil ← expect p;
  p ← Path_parse "~";
  base_dir ← expect p;
  e ?← read_path faasten_fsutil;
  match e with
  | DirEntry.Gate gate =>
      new_gate ?← create_redirect_gate public
                    (MkRedirectGate privilege invoker_integrity_clearance privilege gate);
      link base_dir "fsutil" new_gate
  | _ => mret (Err FsError.NotAGate)
  end.

(** A failure is only logged. *)
Definition register_user_fsutil (user clearance : Component) : M unit :=
  _ ← set_my_privilge user;
  _ ← dup_fsutil user clearance;
  set_my_privilge dc_true.

Definition get_runtime_blob (runtime : string) : M FsTypes.Blob :=
  base ← FSTN_IMAGE_BASE;
  r ← open_blob (push_dscrp base runtime);
  expect r.

Definition get_kernel_blob : M FsTypes.Blob :=
  base ← FSTN_IMAGE_BASE;
  r ← open_blob (push_dscrp base "kernel");
  expect r.

(** [update_fsutil] does nothing yet but act as [faasten] for a moment. *)
Definition update_fsutil : M unit :=
  _ ← set_my_privilge FAASTEN_PRIV;
  set_my_privilge dc_true.

Definition update_python (local_path : string) : MB unit :=
  _ ← in_fs (set_my_privilge FAASTEN_PRIV);
  blobname ← localfile2blob local_path;
  base ← in_fs FSTN_IMAGE_BASE;
  r ← in_fs (replace_blob (push_dscrp base "python") blobname);
  _ ← expect r;
  in_fs (set_my_privilge dc_true).
End bootstrap.

(** ** What registering a user does *)

Section guarantees.
Context {St : Type} `{BS : !BackingStore St} `{L : !LabelOps} `{SD : !SerdeOps}.
Context (R : relation (World St)) `{!FsPrimitives R}.

Lemma g_parse_component c : Guar R (parse_component c).
Proof. unfold parse_component, get_current_label. solve_guar. Qed.
#[local] Hint Resolve g_parse_component : guar.
Lemma g_parse_components cs : Guar R (parse_components cs).
Proof. induction cs as [|c cs IH]; cbn [parse_components]; solve_guar. Qed.
#[local] Hint Resolve g_parse_components : guar.
Lemma g_Path_parse s : Guar R (Path_parse s).
Proof. unfold Path_parse, get_ufacet. solve_guar. Qed.
Lemma g_expect_fs {A E} (r : result A E) : Guar R (expect r).
Proof. unfold expect. solve_guar. Qed.
#[local] Hint Resolve g_Path_parse g_expect_fs g_read_path g_link : guar.
Lemma g_dup_fsutil p iic : Guar R (dup_fsutil p iic).
Proof. unfold dup_fsutil. solve_guar. Qed.
End guarantees.

(** The same for the steps of [prepare_fs] that act as [faasten]. *)
Section boot_guarantees.
Context {St : Type} `{BS : !BackingStore St} `{L : !LabelOps} `{SD : !SerdeOps}.
Context `{DG : DigestOps} `{HX : !HexOps} (local_file : string -> option bytes).
Context (R : relation (World St)) `{HR : !FsPrimitives R}.

Definition boot_rel : relation (Boot St) := fun s s' => R (boot_fs s) (boot_fs s').
#[local] Instance boot_preorder : PreOrder boot_rel.
Proof.
  split; [intros s; unfold boot_rel; reflexivity|].
  intros s1 s2 s3 H1 H2. unfold boot_rel in *. by etrans.
Qed.

Lemma g_in_fs {A} (m : SM (World St) A) : Guar R m -> Guar boot_rel (in_fs m).
Proof.
  intros Hm s. unfold in_fs, zoom, boot_rel. specialize (Hm (boot_fs s)).
  by destruct (m (boot_fs s)).
Qed.
Lemma g_in_blobs {A} (m : SM Blobstore A) : Guar boot_rel (in_blobs (St := St) m).
Proof.
  intros s. unfold in_blobs, zoom, boot_rel. destruct (m (boot_blobs s)). cbn. reflexivity.
Qed.
Lemma g_expect_boot {A E} (r : result A E) : Guar boot_rel (expect r).
Proof. unfold expect. solve_guar. Qed.
#[local] Hint Resolve g_in_blobs g_expect_boot : guar.
#[local] Hint Extern 1 (Guar boot_rel (in_fs _)) => apply g_in_fs; solve [auto with guar nocore] : guar.

Lemma g_localfile2blob p : Guar boot_rel (localfile2blob local_file p).
Proof. unfold localfile2blob. solve_guar. Qed.
Lemma g_image_base : Guar R FSTN_IMAGE_BASE.
Proof. unfold FSTN_IMAGE_BASE. apply guar_bind; [by apply g_Path_parse|]. intros r. by apply g_expect_fs. Qed.
Lemma g_update_blob b n l x : Guar R (create_or_update_blob b n l x).
Proof.
  assert (g_read := g_read_path R). assert (g_link := g_link_blob R).
  unfold create_or_update_blob. solve_guar.
Qed.
#[local] Hint Resolve g_localfile2blob g_image_base g_update_blob : guar.
Lemma g_create_faceted b n : Guar R (create_faceted b n).
Proof.
  assert (g_list := g_list_dir R). assert (g_lk := g_link R). unfold create_faceted. solve_guar.
Qed.
Lemma g_install n l p : Guar boot_rel (install local_file n l p).
Proof. unfold install. solve_guar. Qed.
Lemma g_link_fsutil d f : Guar R (link_fsutil d f).
Proof. assert (ge := @g_expect_fs _ _ _ _ R _). unfold link_fsutil, FSUTIL_POLICY. solve_guar. Qed.
#[local] Hint Resolve g_link_fsutil : guar.
Lemma g_install_fsutil f : Guar R (install_fsutil f).
Proof. assert (g_read := g_read_path R). unfold install_fsutil. solve_guar. Qed.
Lemma g_install_runtimes l rts : Guar boot_rel (install_runtimes local_file l rts).
Proof. induction rts as [|rt rts IH]; cbn [install_runtimes]; solve_guar. Qed.
Lemma g_install_all l config : Guar boot_rel (install_all local_file l config).
Proof.
  assert (gi := g_install). assert (gf := g_install_fsutil). assert (gr := g_install_runtimes).
  unfold install_all. solve_guar.
Qed.
End boot_guarantees.

Section bootstrap_theorems.
Context {St : Type} `{BW : BackingStoreLaws St} `{LW : LabelLaws} `{SW : SerdeLaws}.
Context `{DG : DigestOps} `{HX : !HexOps}.

Lemma register_run (user clearance : Component) (w : World St) :
  quiet w ->
  let w' := (register_user_fsutil user clearance w).2 in
  quiet w' /\ Flows (current_label w) (current_label w') /\
  store_ok (current_label w) user (view w) (view w') /\
  ((register_user_fsutil user clearance w).1 = Val tt -> thread_privilege w' = dc_true).
Proof.
  intros Hq. unfold register_user_fsutil.
  rewrite (bind_step (set_my_privilge user) _ w tt (set_privilege user w)) by done.
  pose proof (g_dup_fsutil Mediated user clearance (set_privilege user w) Hq) as Hm.
  destruct (dup_fsutil user clearance (set_privilege user w)) as [r w1] eqn:E.
  destruct Hm as (Hq1 & [Hl _] & Hs). unfold mbind, SM_bind. rewrite E.
  by destruct r.
Qed.

(** Whatever the state of the file system, giving a user their [fsutil] gate uses no more than
    the user's own privilege: nothing is overwritten that the user could not write, and no gate
    appears that holds more than the user.  It never reports a failure and leaves the thread
    without privilege. *)
Theorem user_fsutil_confined (user clearance : Component) (w : World St) :
  quiet w ->
  let w' := (register_user_fsutil user clearance w).2 in
  quiet w' /\ Flows (current_label w) (current_label w') /\
  store_ok (current_label w) user (view w) (view w') /\
  ((register_user_fsutil user clearance w).1 = Val tt -> thread_privilege w' = dc_true).
Proof. exact (register_run user clearance w). Qed.

(** The path of the [fsutil] of [faasten]. *)
Definition fsutil_path (policy : Buckle) : Path :=
  [PathComponent.Dscrp "home"; PathComponent.Facet policy; PathComponent.Dscrp "fsutil"].

Lemma fsutil_path_parse policy (w : World St) :
  buckle_parse "T,faasten" = Some policy ->
  Path_parse "home:<T,faasten>:fsutil" w = (Val (Ok (fsutil_path policy)), w).
Proof.
  intros Hp.
  transitivity (parse_components (chars <$> ["home"; "<T,faasten>"; "fsutil"]) w); [reflexivity|].
  cbn [fmap list_fmap parse_components]. unfold try_bind.
  rewrite (bind_step (parse_component _) _ w (Ok (PathComponent.Dscrp "home")) w) by reflexivity.
  assert (Hc : parse_component (chars "<T,faasten>") w = (Val (Ok (PathComponent.Facet policy)), w)).
  { transitivity (Val (match buckle_parse "T,faasten" with
                       | Some f => Ok (PathComponent.Facet f) | None => Err PathError.InvalidFacet
                       end), w); [reflexivity|]. by rewrite Hp. }
  unfold mbind, SM_bind. by rewrite Hc.
Qed.

(** A thread whose label has risen too far for a public object cannot register a user: no gate
    is made and nothing is reported.  The frontend registers users without clearing the label
    that an earlier request has left on its thread. *)
Theorem stale_label_blocks_fsutil user clearance policy ls (gate : ObjectRef TGate) (w : World St) :
  quiet w -> buckle_parse "T,faasten" = Some policy ->
  lookup_path (view w) (fsutil_path policy) = Some (ls, Ok (DirEntry.Gate gate)) ->
  ~ FlowsP user (taints ls (current_label w)) public ->
  exists w', register_user_fsutil user clearance w = (Val tt, w') /\ view w' = view w.
Proof.
  intros Hq Hp Hl Hf. unfold register_user_fsutil.
  rewrite (bind_step (set_my_privilge user) _ w tt (set_privilege user w)) by done.
  set (w1 := set_privilege user w).
  assert (Hd : dup_fsutil user clearance w1 =
    (Val (Err (FsError.LabelError LabelError.CannotWrite)), set_label (taints ls (current_label w)) w1)).
  { unfold dup_fsutil. rewrite (bind_step _ _ _ _ _ (fsutil_path_parse policy w1 Hp)).
    rewrite (bind_step (expect _) _ w1 (fsutil_path policy) w1) by done.
    rewrite (bind_step (Path_parse "~") _ w1
      (Ok [PathComponent.Dscrp "home"; PathComponent.Facet (MkBuckle user user)]) w1) by done.
    rewrite (bind_step (expect _) _ w1
      [PathComponent.Dscrp "home"; PathComponent.Facet (MkBuckle user user)] w1) by done.
    unfold try_bind.
    rewrite (bind_step _ _ _ _ _ (read_path_lookup _ w1 _ _ Hq Hl)).
    unfold create_redirect_gate, try_bind. set (w2 := set_label _ w1).
    pose proof (check_create_run public [user; user] w2) as Hc.
    unfold may_write in Hc. change (current_label w2) with (taints ls (current_label w)) in Hc.
    change (thread_privilege w2) with user in Hc.
    unfold FlowsP in Hf. apply not_true_is_false in Hf. rewrite Hf in Hc. cbn in Hc.
    unfold mbind, SM_bind. cbn. by rewrite Hc. }
  rewrite (bind_step _ _ _ _ _ Hd). by eexists.
Qed.

Lemma make_home_quiet (w : World St) : quiet w -> quiet (make_home w).2.
Proof.
  assert (PreOrder (fun w w' : World St => quiet w -> quiet w'))
    by (split; [intros v H; exact H | intros a b c H1 H2 H; auto]).
  assert (Hm : forall A (m : SM (World St) A), Guar Mediated m ->
    Guar (fun w w' => quiet w -> quiet w') m) by (intros A m Hm v Hv; by destruct (Hm v Hv)).
  revert w. change (Guar (fun w w' : World St => quiet w -> quiet w') make_home).
  apply guar_bind; [apply Hm, mediated_initialize|]. intros _.
  apply guar_bind; [intros v; exact (fun H => H)|]. intros _.
  apply guar_bind; [apply Hm, g_create_faceted, _|]. intros _. apply guar_ret.
Qed.

Context (local_file : string -> option bytes) (read_config : string -> option Config).

(** Once the home directory is there, installing the images is confined to the privilege of
    [faasten], whatever the state of the file system and whichever step fails.  The thread
    gives that privilege up only if everything succeeds: an error leaves it in place. *)
Theorem prepare_fs_confined path (s : Boot St) r s' :
  quiet (boot_fs s) -> prepare_fs local_file read_config path s = (r, s') ->
  let w1 := (make_home (boot_fs s)).2 in
  quiet w1 /\
  (boot_fs s' = boot_fs s \/
   store_ok (current_label w1) FAASTEN_PRIV (view w1) (view (boot_fs s'))) /\
  (r = Val (Ok tt) -> thread_privilege (boot_fs s') = dc_true) /\
  (forall e, r = Val (Err e) -> thread_privilege (boot_fs s') = FAASTEN_PRIV).
Proof.
  intros Hq E w1. unfold prepare_fs in E. pose proof (make_home_quiet _ Hq) as Hq1.
  fold w1 in Hq1. split; [exact Hq1|]. revert E.
  destruct (read_config path) as [config|]; [|intros [= <- <-]; split_and!; [by left|done..]].
  rewrite (bind_step (unwrap (Some config)) _ s config s) by done.
  destruct (buckle_parse "T,faasten") as [label|]; [|intros [= <- <-]; split_and!; [by left|done..]].
  rewrite (bind_step (unwrap (Some label)) _ s label s) by done.
  unfold mbind at 1, SM_bind at 1, in_fs at 1, zoom at 1.
  destruct (make_home (boot_fs s)) as [h w1'] eqn:Eh. cbn in w1. subst w1.
  destruct h as [[]| |]; try (intros [= <- <-]; split_and!; [right; apply store_ok_refl|done..]).
  set (s1 := MkBoot (set_privilege FAASTEN_PRIV w1') (boot_blobs s)).
  rewrite (bind_step _ _ _ tt s1) by done.
  pose proof (g_install_all local_file Mediated label config s1 Hq1) as (Hq2 & [_ Hp] & Hs).
  unfold try_bind, mbind, SM_bind.
  destruct (install_all local_file label config s1) as [[[[]|e]| |] s2];
    intros [= <- <-]; split_and!; try done; by right.
Qed.
End bootstrap_theorems.
