(* ===== verification/Webfront.v ===== *)
(** * The web frontend ([frontends/webfront/src/app.rs], [init.rs])

    Users reach Faasten over HTTP.  A bearer token (a signed [Claims]) names the component a
    request acts for; [delegate] issues tokens for weaker components, and [faasten_invoke]
    resolves a gate path on behalf of the request, submits the invocation and releases the
    response if its label may flow to the request's.

    HTTP, MIME, JSON, percent encoding and signatures are libraries: a [Request] is what
    [rouille] makes of one, and what the others compute are members of [WebLib].  The identity
    providers are the class [Providers]. *)

From Stdlib Require Import Ascii String.
From stdpp Require Import base tactics option list gmap strings pretty countable.
From S2P Require Import Prelude Labels Store FsTypes Objects Fs FsGuarantee.
From S2P Require Import FsMediation FsReads Syscalls Blobstore Message Paths Bootstrap.
Local Open Scope string_scope.
Local Open Scope list_scope.

(** ** Requests and responses *)

Record BufferedFile : Type := MkFile { filename : option string; file_data : bytes }.

Record Request : Type := MkRequest {
  method : string;
  (** the path of the URL, split at the slashes *)
  segments : list string;
  (** [request.header(name)] *)
  header : string -> option string;
  req_headers : list (string * string);
  get_param : string -> option string;
  (** [data()] and what reading it to a string gives; [None]: it has been taken already *)
  req_data : option (result string string);
  (** [post_input!] for [blob], [payload] and [label] *)
  post_form : result (list BufferedFile * string * option string) string;
  (** [post_input!] for [github_token] *)
  post_token : result string string;
}.

(** The JSON objects that the frontend makes: [Error] with a text ([None]: the text of a parse
    error of the label crate), [FsFailure] with the debug text of the error, [Unauthorized]
    with those of two labels and a privilege. *)
Inductive Body : Type :=
  | Empty
  | Error (msg : option string)
  | FsFailure (e : FsError)
  | Unauthorized (label current_label : Buckle) (privilege : Component)
  | Login (c : Component)
  | GithubLogin (name : string)
  | Text (s : string)
  | CasPage (token : string)
  | GithubPage (token base_url : string)
  | Reply (c : HttpBody).

Record Response : Type := MkResponse {
  status_code : Z;
  resp_body : Body;
  resp_headers : list (string * string);
}.

Definition response (code : Z) (b : Body) : Response := MkResponse code b [].
Definition empty (code : Z) : Response := response code Empty.
Definition error_json (code : Z) (msg : string) : Response := response code (Error (Some msg)).
Definition redirect_302 (url : string) : Response :=
  MkResponse 302 Empty [("Location", url)].
Definition with_header (n v : string) (r : Response) : Response :=
  MkResponse (status_code r) (resp_body r) (resp_headers r ++ [(n, v)]).
Definition from_reply (r : HttpReply) : Response := response (status r) (Reply (content r)).
(** [Response::is_success] *)
Definition is_success (r : Response) : bool := bool_decide (200 <= status_code r < 400)%Z.

Record Claims : Type := MkClaims { alg : string; iat : Z; exp : Z; sub : Component }.
Record Delegate : Type := MkDelegate {
  component : string; bootstrap : bool; clearance : option string
}.

(** ** Libraries *)

Class WebLib := {
  (** [verify_with_key] with the frontend's public key, and [sign_with_key] with its private
      key *)
  verify_with_key : string -> option Claims;
  sign_with_key : Claims -> option string;
  (** the type and subtype of a MIME type, and its debug text; [None]: it does not parse *)
  mime_parse : string -> option (string * string);
  (** [serde_json::from_str] and [Value::to_string] *)
  json_normalize : string -> result string string;
  (** [serde_json::from_reader] of the request's data *)
  delegate_from_reader : result string string -> result Delegate string;
  percent_decode : string -> string;
}.

(** A token that the frontend signed is one it accepts, with the same claims. *)
Class WebLaws {W : WebLib} : Prop := {
  verify_sign c t : sign_with_key c = Some t -> verify_with_key t = Some c;
}.

Class Providers (N : Type) := {
  (** The text of CAS's [validate]: [None] when it cannot be read. *)
  cas_validate : string -> string -> SM N (option string);
  (** GitHub's [access_token] for a code: [None] when it does not deserialize. *)
  github_access_token : string -> string -> string -> SM N (option string);
  (** The login of the user of a token. *)
  github_login : string -> SM N string;
}.

(** ** Text *)

Definition to_lower (a : ascii) : ascii :=
  let n := nat_of_ascii a in if decide (65 <= n <= 90) then ascii_of_nat (n + 32) else a.
Definition to_upper (a : ascii) : ascii :=
  let n := nat_of_ascii a in if decide (97 <= n <= 122) then ascii_of_nat (n - 32) else a.
Definition to_ascii_lowercase (s : string) : string := str (to_lower <$> chars s).
(** A method is an ASCII token. *)
Definition to_uppercase (s : string) : string := str (to_upper <$> chars s).

(** [str::lines]: split at line feeds, without a last empty line, and without the carriage
    return before a line feed. *)
Definition carriage_return : ascii := "013"%char.
Definition strip_cr (l : list ascii) : list ascii :=
  match rev l with a :: r => if decide (a = carriage_return) then rev r else l | [] => l end.
Definition lines (s : string) : list string :=
  let ls := split_on newline (chars s) in
  match rev ls with
  | [] :: init => str <$> (strip_cr <$> rev init)
  | final :: init => str <$> ((strip_cr <$> rev init) ++ [final])
  | [] => []
  end.

(** ** State *)

(** [App]: [conn] is what the pool of scheduler connections gives ([None]: no connection can be
    had), [clock] the time. *)
Record App (St C N : Type) : Type := MkApp {
  fs : World St;
  blobstore : Blobstore;
  conn : option C;
  providers : N;
  clock : Z;
}.
Arguments MkApp {St C N} _ _ _ _ _.
Arguments fs {St C N} _.
Arguments blobstore {St C N} _.
Arguments conn {St C N} _.
Arguments providers {St C N} _.
Arguments clock {St C N} _.

Section webfront.
Context {St C N : Type} `{BS : !BackingStore St} `{L : !LabelOps} `{SD : !SerdeOps}.
Context `{DG : DigestOps} `{HX : !HexOps} `{CN : !Conn C} `{W : !WebLib} `{PV : !Providers N}.
Context `{MQ : !Message Message.Request} `{MS : !Message Message.Response}.
Context `{MT : !Message TaskReturn}.
(** [App]'s constants, and the bound on the redirects of a gate. *)
Context (base_url client_id client_secret : string) (gate_fuel : nat).

Local Abbreviation S := (App St C N).
Local Abbreviation M := (SM S).

Definition set_app_fs (w : World St) (s : S) : S :=
  MkApp w (blobstore s) (conn s) (providers s) (clock s).
Definition set_app_blobs (b : Blobstore) (s : S) : S :=
  MkApp (fs s) b (conn s) (providers s) (clock s).
Definition set_app_conn (c : option C) (s : S) : S :=
  MkApp (fs s) (blobstore s) c (providers s) (clock s).
Definition set_providers (p : N) (s : S) : S :=
  MkApp (fs s) (blobstore s) (conn s) p (clock s).

Definition on_fs {A} (m : SM (World St) A) : M A := zoom fs set_app_fs m.
Definition on_blobs {A} (m : SM Blobstore A) : M A := zoom blobstore set_app_blobs m.
Definition on_providers {A} (m : SM N A) : M A := zoom providers set_providers m.
(** With the connection that [self.conn.get()] gave. *)
Definition with_conn {A} (m : SM C (result A Response)) : M (result A Response) := fun s =>
  match conn s with
  | None => (Val (Err (error_json 500 "failed to get scheduler connection")), s)
  | Some c => let '(a, c') := m c in (a, set_app_conn (Some c') s)
  end.

(** ** Tokens *)

(** The last piece of [Authorization]; the expiry is compared, and ignored ([&& false]). *)
Definition verify_jwt (now : Z) (request : Request) : result Component Response :=
  match header request "Authorization" with
  | None => Err (empty 400)
  | Some h =>
      match verify_with_key (default "" (list.last (str <$> split_on " "%char (chars h)))) with
      | None => Err (empty 400)
      | Some claims =>
          if bool_decide (exp claims < now)%Z && false
          then Err (error_json 403 "Authentication token expired")
          else Ok (sub claims)
      end
  end.

Definition jwt (request : Request) : M (result Component Response) :=
  gets (fun s => verify_jwt (clock s) request).

(** A token for ten minutes. *)
Definition issue (subject : Component) : M string :=
  now ← gets clock;
  unwrap (sign_with_key (MkClaims "ES256" now (wrap_u64 (now + 600)) subject)).

(** [Buckle::parse("{c},T").secrecy] *)
Definition parse_authority (c : string) : result Component Response :=
  match buckle_parse (c +:+ ",T") with
  | Some b => Ok (secrecy b)
  | None => Err (response 400 (Error None))
  end.

Definition delegate (request : Request) : M (result Response Response) :=
  login ?← jwt request;
  match req_data request with
  | None => mret (Err (empty 400))
  | Some body =>
      d ?← mret (map_err (error_json 400) (delegate_from_reader body));
      new_principal ?← mret (parse_authority (component d));
      if implies login new_principal then
        _ ?← (if bootstrap d then
                clearance ?← mret (match clearance d with
                                   | Some c => parse_authority c
                                   | None => Ok new_principal
                                   end);
                _ ← on_fs (set_my_privilge new_principal);
                _ ← on_fs (register_user_fsutil new_principal clearance);
                _ ← on_fs (set_my_privilge dc_true);
                mret (Ok tt)
              else mret (Ok tt));
        token ← issue new_principal;
        mret (Ok (response 200 (Text token)))
      else mret (Err (empty 406))
  end.

Definition whoami (request : Request) : M (result Response Response) :=
  login ?← jwt request;
  mret (Ok (response 200 (Login login))).

(** ** Identity providers *)

(** The user that CAS names: a line [yes] and a line with the name, and nothing else. *)
Definition cas_subject (text : option string) : result Component Response :=
  match lines <$> text with
  | Some [answer; user] =>
      if decide (answer = "yes") then Ok (DCFormula {[ {[ ["princeton.edu"; user] ]} ]})
      else Err (empty 400)
  | _ => Err (empty 400)
  end.

Definition authenticate_cas (request : Request) : M (result Response Response) :=
  match get_param request "ticket" with
  | None => mret (Err (empty 404))
  | Some ticket =>
      text ← on_providers (cas_validate ticket (base_url +:+ "/authenticate/cas"));
      subject ?← mret (cas_subject text);
      token ← issue subject;
      _ ← on_fs (register_user_fsutil subject subject);
      mret (Ok (response 200 (CasPage token)))
  end.

Definition auth_github (request : Request) : M (result Response Response) :=
  match get_param request "code" with
  | None => mret (Err (empty 404))
  | Some code =>
      t ← on_providers (github_access_token client_id client_secret code);
      match t with
      | Some t => mret (Ok (response 200 (GithubPage t base_url)))
      | None => mret (Err (empty 400))
      end
  end.

Definition pair_github_to_user (request : Request) : M (result Response Response) :=
  match post_token request with
  | Err _ => mret (Err (empty 400))
  | Ok token =>
      l ← on_providers (github_login token);
      mret (Ok (response 200 (GithubLogin l)))
  end.

(** ** Invocations ([init.rs]) *)

(** The headers a function gets: all but [Authorization], the last one of a name. *)
Definition pass_headers (hs : list (string * string)) : gmap string string :=
  foldl (fun m h => if decide (to_ascii_lowercase h.1 = "authorization") then m
                    else <[to_ascii_lowercase h.1 := h.2]> m) ∅ hs.

(** The files, the payload and the label of a request. *)
Definition parse_input (request : Request) :
    M (result (list BufferedFile * string * option Buckle) Response) :=
  match header request "content-type" with
  | None => mret (Err (error_json 400 "Missing header content-type"))
  | Some ct =>
      match mime_parse ct with
      | None => mret (Err (error_json 415 "Unknown MIME"))
      | Some (essence, debug) =>
          if decide (essence = "multipart/form-data") then
            '(files, payload, label) ?← mret (map_err (error_json 400) (post_form request));
            label ?← mret (match label with
                           | Some l => match buckle_parse l with
                                       | Some l => Ok (Some l)
                                       | None => Err (response 400 (Error None))
                                       end
                           | None => Ok None
                           end);
            mret (Ok (files, payload, label))
          else if decide (essence = "application/json") then
            let label := header request "x-faasten-label" ≫= buckle_parse in
            data ← unwrap (req_data request);
            payload ?← mret (map_err (error_json 400) data);
            mret (Ok ([], payload, label))
          else mret (Err (error_json 415 ("Unsupported content-type: " +:+ debug)))
      end
  end.

(** The uploaded files become blobs, named by the file or by their position. *)
Fixpoint save_files (i : nat) (files : list BufferedFile) (acc : gmap string Blobstore.Blob) :
    M (result (gmap string Blobstore.Blob) Response) :=
  match files with
  | [] => mret (Ok acc)
  | f :: files =>
      nb ← on_blobs create;
      nb ?← mret (map_err (error_json 500) nb);
      fuel ← gets (fun s => Datatypes.S (length (io (blobstore s))));
      nb ← on_blobs (write_all fuel nb (file_data f));
      nb ?← mret (map_err (error_json 500) nb);
      b ← on_blobs (save nb);
      b ?← mret (map_err (error_json 500) b);
      save_files (Datatypes.S i) files
        (<[default ("blob" +:+ pretty i) (filename f) := b]> acc)
  end.

Definition prepare_payload (request : Request) :
    M (result (bytes * gmap string Blobstore.Blob * option Buckle * gmap string string) Response) :=
  '(files, payload, label) ?← parse_input request;
  payload ?← mret (map_err (error_json 400) (json_normalize payload));
  blobs ?← save_files 0 files ∅;
  mret (Ok (String.list_byte_of_string payload, blobs, label, pass_headers (req_headers request))).

Definition prepare_labeled_invoke (gate_path : string) (blobs : gmap string Blobstore.Blob)
    (payload : bytes) (hs : gmap string string) : M (result LabeledInvoke Response) :=
  path ← on_fs (Path_parse gate_path);
  path ?← mret (map_err (fun _ => error_json 400 "Invalid path.") path);
  g ← on_fs (resolve_gate_with_clearance_check gate_fuel path);
  '(f, gate_privilege) ?← mret (map_err (fun e => response 400 (FsFailure e)) g);
  label ← on_fs get_current_label;
  p ← on_fs get_privilege;
  mret (Ok (sched.MkLabeledInvoke (Some (function_into_message f)) (Some (buckle_from label))
              (Some (component_from gate_privilege)) payload (name <$> blobs) hs true
              (Some (component_from p)))).

(** The invocation is submitted and the answer of the scheduler read. *)
Definition submit (invoke : LabeledInvoke) : SM C (result bytes Response) :=
  r ← labeled_invoke invoke;
  _ ?← mret (map_err (fun _ => error_json 500 "failed to submit invocation to the scheduler") r);
  bs ← read_u8;
  mret (map_err (fun _ => error_json 500 "failed to read the task return") bs).

(** The check on what comes back. *)
Definition release_response (tr : TaskReturn) : M (result Response Response) :=
  l ← unwrap (sched.return_label tr);
  l ← buckle_into l;
  cur ← on_fs get_current_label;
  p ← on_fs get_privilege;
  if negb (can_flow_to_with_privilege l cur p)
  then mret (Err (response 401 (Unauthorized l cur p)))
  else
    r ← task_return_into_response tr;
    let resp := from_reply r in
    mret (if is_success resp then Ok resp else Err resp).

Definition wait_for_completion (invoke : LabeledInvoke) : M (result Response Response) :=
  bs ?← with_conn (submit invoke);
  match decode bs with
  | Some tr => release_response tr
  | None => mret (Err (error_json 500 "failed to decode return from Faasten core"))
  end.

(** The label the caller gave for the input. *)
Definition taint_input (label : option Buckle) : M unit :=
  match label with
  | Some label => _ ← on_fs (taint_with_label label); mret tt
  | None => mret tt
  end.

Definition init (login : option Component) (gate_path : string) (request : Request) :
    M (result Response Response) :=
  '(payload, blobs, label, hs) ?← prepare_payload request;
  _ ← on_fs clear_label;
  _ ← on_fs (set_my_privilge (default dc_true login));
  _ ← taint_input label;
  req ?← prepare_labeled_invoke gate_path blobs payload hs;
  wait_for_completion req.

(** A token that does not verify makes the request a public one. *)
Definition faasten_invoke (gate_path : string) (request : Request) :
    M (result Response Response) :=
  login ← jwt request;
  have ← gets conn;
  match have with
  | None => mret (Err (error_json 500 "failed to get scheduler connection"))
  | Some _ =>
      init (match login with Ok c => Some c | Err _ => None end) (percent_decode gate_path) request
  end.

Definition faasten_ping_scheduler : M (result Response Response) :=
  with_conn (r ← ping;
             mret (match r with
                   | Ok _ => Ok (empty 204)
                   | Err _ => Err (error_json 500 "failed to ping faasten scheduler")
                   end)).

(** ** Routing *)

(** The arms of [router!], tried in order. *)
Definition route (request : Request) : M (result Response Response) :=
  let goes m path := bool_decide (method request = m /\ segments request = path) in
  if goes "GET" ["login"; "cas"] then
    mret (Ok (redirect_302 ("https://fed.princeton.edu/cas/login?service=" +:+ base_url +:+
                             "/authenticate/cas")))
  else if goes "GET" ["authenticate"; "cas"] then authenticate_cas request
  else if goes "GET" ["login"; "github"] then
    mret (Ok (redirect_302 ("https://github.com/login/oauth/authorize?client_id=" +:+
                             client_id +:+ "&scope=repo:invites")))
  else if goes "GET" ["authenticate"; "github"] then auth_github request
  else if goes "POST" ["pair_github"] then pair_github_to_user request
  else if goes "GET" ["me"] then whoami request
  else if goes "GET" ["faasten"; "ping"] then mret (Ok (response 200 (Text "Pong.")))
  else if goes "GET" ["faasten"; "ping"; "scheduler"] then faasten_ping_scheduler
  else
    let gate_path := default "" (segments request !! 2) in
    if goes "POST" ["faasten"; "invoke"; gate_path] then faasten_invoke gate_path request
    else if goes "POST" ["faasten"; "delegate"] then delegate request
    else mret (Ok (empty 404)).

Definition handle (request : Request) : M Response :=
  if decide (to_uppercase (method request) = "OPTIONS") then
    mret (with_header "Access-Control-Allow-Methods" "*"
           (with_header "Access-Control-Allow-Headers" "Authorization, Content-type,X-Faasten-Label"
             (with_header "Access-Control-Allow-Origin" "*" (empty 204))))
  else
    r ← route request;
    mret (with_header "Access-Control-Allow-Origin" "*"
            (match r with Ok r => r | Err r => r end)).
End webfront.
