(* ===== verification/WebTheorems.v ===== *)
(** * The theorems of the web frontend

    What a request may change, what the frontend answers with, and what delegation may yield. *)

From Stdlib Require Import Ascii String.
From stdpp Require Import base tactics option list gmap strings pretty countable.
From S2P Require Import Prelude Labels Store FsTypes Objects Fs FsGuarantee.
From S2P Require Import FsMediation FsReads Syscalls Blobstore Message Paths Bootstrap.
From S2P Require Import Webfront.
Local Open Scope string_scope.
Local Open Scope list_scope.

(** ** What a request may do *)

Section app_guarantees.
Context {St C N : Type} `{BS : !BackingStore St} `{L : !LabelOps} `{SD : !SerdeOps}.
Context `{DG : DigestOps} `{HX : !HexOps} `{CN : !Conn C} `{W : !WebLib} `{PV : !Providers N}.
Context `{MQ : !Message Message.Request} `{MS : !Message Message.Response}.
Context `{MT : !Message TaskReturn} (gate_fuel : nat).
Context (R : relation (World St)) `{HR : !PreOrder R}.

Definition app_rel : relation (App St C N) := fun s s' => R (fs s) (fs s').
#[export] Instance app_preorder : PreOrder app_rel.
Proof.
  split; [intros s; unfold app_rel; reflexivity|].
  intros s1 s2 s3 H1 H2. unfold app_rel in *. by etrans.
Qed.

Lemma g_on_fs {A} (m : SM (World St) A) : Guar R m -> Guar app_rel (on_fs m).
Proof.
  intros Hm s. unfold on_fs, zoom, app_rel. specialize (Hm (fs s)). by destruct (m (fs s)).
Qed.
Lemma g_on_blobs {A} (m : SM Blobstore A) : Guar app_rel (on_blobs m).
Proof. intros s. unfold on_blobs, zoom, app_rel. destruct (m _). cbn. reflexivity. Qed.
Lemma g_on_providers {A} (m : SM N A) : Guar app_rel (on_providers m).
Proof. intros s. unfold on_providers, zoom, app_rel. destruct (m _). cbn. reflexivity. Qed.
Lemma g_with_conn {A} (m : SM C (result A Response)) : Guar app_rel (with_conn m).
Proof.
  intros s. unfold with_conn, app_rel. destruct (conn s) as [c|]; [|reflexivity].
  destruct (m c). cbn. reflexivity.
Qed.
#[local] Hint Resolve g_on_blobs g_on_providers g_with_conn : guar.
#[local] Hint Extern 1 (Guar app_rel (on_fs _)) => apply g_on_fs; solve [auto with guar nocore] : guar.

Lemma g_issue subject : Guar app_rel (issue subject).
Proof. unfold issue. solve_guar. Qed.
Lemma g_parse_input request : Guar app_rel (parse_input request).
Proof.
  unfold parse_input. destruct (header request "content-type") as [ct|]; [|apply guar_ret].
  destruct (mime_parse ct) as [[e db]|]; [|apply guar_ret]. solve_guar.
Qed.
Lemma g_save_files i files acc : Guar app_rel (save_files i files acc).
Proof. revert i acc; induction files as [|f files IH]; intros i acc; cbn [save_files]; solve_guar. Qed.
#[local] Hint Resolve g_parse_input g_save_files : guar.
Lemma g_prepare_payload request : Guar app_rel (prepare_payload request).
Proof. unfold prepare_payload. solve_guar. Qed.
Lemma g_release_response tr : Guar app_rel (release_response tr).
Proof.
  unfold release_response, get_current_label, get_privilege, task_return_into_response. solve_guar.
Qed.
#[local] Hint Resolve g_release_response : guar.
Lemma g_wait invoke : Guar app_rel (wait_for_completion invoke).
Proof. unfold wait_for_completion. solve_guar. Qed.
End app_guarantees.

Lemma g_prepare_labeled_invoke {St C N : Type} `{BS : !BackingStore St} `{L : !LabelOps}
    `{SD : !SerdeOps} `{DG : DigestOps} (R : relation (World St)) `{HR : !FsPrimitives R}
    fuel gate_path blobs payload hs :
  Guar (app_rel (C:=C) (N:=N) R) (prepare_labeled_invoke fuel gate_path blobs payload hs).
Proof.
  assert (gp := g_Path_parse R). assert (gf := g_resolve_check R).
  unfold prepare_labeled_invoke, get_current_label, get_privilege.
  repeat (guar_step || (apply g_on_fs; solve [auto with guar])).
Qed.

Lemma g_taint_input {St C N : Type} `{BS : !BackingStore St} `{L : !LabelOps}
    `{SD : !SerdeOps} (R : relation (World St)) `{HR : !FsPrimitives R} label :
  Guar (app_rel (C:=C) (N:=N) R) (taint_input label).
Proof.
  destruct label as [l|]; [|apply guar_ret].
  apply guar_bind; [|intros _; apply guar_ret]. apply g_on_fs. unfold taint_with_label. solve_guar.
Qed.

Section confinement.
Context {St C N : Type} `{BW : BackingStoreLaws St} `{LW : LabelLaws} `{SW : SerdeLaws}.
Context `{DG : DigestOps} `{HX : !HexOps} `{CN : !Conn C} `{W : !WebLib} `{PV : !Providers N}.
Context `{MQ : !Message Message.Request} `{MS : !Message Message.Response}.
Context `{MT : !Message TaskReturn}.
Context (base_url client_id client_secret : string) (gate_fuel : nat).
Implicit Types s : App St C N.

(** The component a request's token names, or no authority. *)
Definition subject (request : Request) : Component :=
  match verify_jwt 0 request with Ok c => c | Err _ => dc_true end.

(** The clock does not matter to a token: the comparison with the expiry is conjoined with
    [false]. *)
Lemma verify_jwt_clock now request : verify_jwt now request = verify_jwt 0 request.
Proof.
  unfold verify_jwt. destruct (header request _); [|done]. destruct (verify_with_key _); [|done].
  by rewrite !andb_false_r.
Qed.

(** The user that CAS confirms for the request's ticket. *)
Definition cas_user s (request : Request) (p : Component) : Prop :=
  exists ticket text user,
    get_param request "ticket" = Some ticket /\
    (cas_validate ticket (base_url +:+ "/authenticate/cas") (providers s)).1 = Val (Some text) /\
    lines text = ["yes"; user] /\ p = DCFormula {[ {[ ["princeton.edu"; user] ]} ]}.

(** The labels a request may work at: none, or the one that an earlier request left on the
    thread. *)
Definition clear_or_left (w : World St) (l : Buckle) : Prop := l = public \/ l = current_label w.

(** [confined p s s']: from a quiet state, the store changed as privilege [p] may, at one of
    these labels. *)
Definition confined (p : Component) s s' : Prop :=
  quiet (fs s) -> quiet (fs s') /\
    exists l, clear_or_left (fs s) l /\ store_ok l p (view (fs s)) (view (fs s')).

(** Operations that clear the thread's label or set its privilege, and those outside the file
    system. *)
Definition same_store (w w' : World St) : Prop :=
  backing w' = backing w /\ interference w' = interference w /\
  clear_or_left w (current_label w').
#[local] Instance same_store_preorder : PreOrder same_store.
Proof.
  split; [by intros w; split_and!; [..|right]|].
  unfold same_store, clear_or_left. intros w1 w2 w3 (-> & -> & H1) (-> & -> & [-> | ->]).
  - split_and!; [..|left]; done.
  - by split_and!.
Qed.
Lemma same_store_set (f : World St -> World St) :
  (forall w, same_store w (f w)) -> Guar same_store (modify f).
Proof. intros H w. apply H. Qed.

Lemma confined_same p s s' : same_store (fs s) (fs s') -> confined p s s'.
Proof.
  intros (Hb & Hi & _) [Hq1 Hq2]. unfold quiet, view. rewrite Hb, Hi. split; [done|].
  exists public. split; [by left | apply store_ok_refl].
Qed.
Lemma confined_before p s s1 s2 :
  same_store (fs s) (fs s1) -> confined p s1 s2 -> confined p s s2.
Proof.
  intros (Hb & Hi & Hl) H. unfold confined, quiet, view in *. rewrite <- Hb, <- Hi. intros Hq.
  destruct (H Hq) as (Hq' & l & Hcl & Hs). split; [done|]. exists l. split; [|done].
  destruct Hcl as [->| ->]; [by left | done].
Qed.
Lemma confined_after p s s1 s2 :
  confined p s s1 -> same_store (fs s1) (fs s2) -> confined p s s2.
Proof. intros H (Hb & Hi & _). unfold confined, quiet, view in *. by rewrite Hb, Hi. Qed.
Lemma confined_weaken p q s s' : Implies q p -> confined p s s' -> confined q s s'.
Proof.
  intros Hq Hc H. destruct (Hc H) as (Hq' & l & Hl & Hs). split; [done|]. exists l.
  split; [done|]. by eapply store_ok_stronger.
Qed.

(** A step that leaves the store alone, then the rest. *)
Lemma confined_then {A X} p (m : SM (App St C N) A) (f : A -> SM (App St C N) X) s :
  Guar (app_rel same_store) m -> (forall a, confined p (m s).2 (f a (m s).2).2) ->
  confined p s ((m ≫= f) s).2.
Proof.
  intros Hm Hf. specialize (Hm s). unfold mbind, SM_bind. destruct (m s) as [[a| |] s'].
  - eapply confined_before; [exact Hm | exact (Hf a)].
  - by apply confined_same.
  - by apply confined_same.
Qed.
(** The last step that touches the store, then the rest. *)
Lemma confined_last {A X} p (m : SM (App St C N) A) (f : A -> SM (App St C N) X) s :
  confined p s (m s).2 -> (forall a, Guar (app_rel same_store) (f a)) ->
  confined p s ((m ≫= f) s).2.
Proof.
  intros Hm Hf. unfold mbind, SM_bind. destruct (m s) as [[a| |] s']; [|done..].
  eapply confined_after; [exact Hm | exact (Hf a s')].
Qed.
Lemma confined_pure {A} p (m : SM (App St C N) A) s :
  Guar (app_rel same_store) m -> confined p s (m s).2.
Proof. intros Hm. apply confined_same. exact (Hm s). Qed.

Lemma register_confined user clearance s :
  confined user s (on_fs (register_user_fsutil user clearance) s).2.
Proof.
  intros Hq. destruct (register_run user clearance (fs s) Hq) as (Hq' & _ & Hs & _).
  unfold on_fs, zoom. destruct (register_user_fsutil user clearance (fs s)). cbn in *.
  split; [done|]. exists (current_label (fs s)). split; [by right | done].
Qed.

Lemma set_privilege_same p : Guar (app_rel same_store) (on_fs (C:=C) (N:=N) (set_my_privilge p)).
Proof. apply g_on_fs, same_store_set. intros w. split_and!; [..|right]; done. Qed.
#[local] Hint Resolve set_privilege_same g_on_providers g_on_blobs g_with_conn g_issue : guar.

(** ** Each handler *)

Lemma jwt_run request s : jwt request s = (Val (verify_jwt (clock s) request), s).
Proof. done. Qed.

Lemma delegate_confined request s : confined (subject request) s (delegate request s).2.
Proof.
  unfold delegate, try_bind. rewrite (bind_step _ _ _ _ _ (jwt_run request s)).
  rewrite verify_jwt_clock. unfold subject.
  destruct (verify_jwt 0 request) as [login|]; [|by apply confined_same].
  destruct (req_data request) as [body|]; [|by apply confined_same].
  apply confined_then; [apply guar_ret|]. intros [d|e]; [|by apply confined_same].
  apply confined_then; [apply guar_ret|]. intros [new_principal|e]; [|by apply confined_same].
  destruct (implies login new_principal) eqn:Hi; [|by apply confined_same].
  apply confined_last; [|intros [[]|e]; solve_guar].
  destruct (bootstrap d); [|by apply confined_same].
  apply confined_then; [apply guar_ret|]. intros [clearance|e]; [|by apply confined_same].
  apply confined_then; [apply set_privilege_same|]. intros [].
  apply confined_last; [|intros []; solve_guar].
  apply (confined_weaken new_principal); [exact Hi | apply register_confined].
Qed.

(** The authority a request acts with. *)
Definition acts_for s (request : Request) (p : Component) : Prop :=
  p = subject request \/ cas_user s request p.

Lemma pure_acts {A} (m : SM (App St C N) A) s request :
  Guar (app_rel same_store) m -> exists p, acts_for s request p /\ confined p s (m s).2.
Proof. intros Hm. exists (subject request). split; [by left | by apply confined_pure]. Qed.

Lemma cas_subject_ok text p :
  cas_subject text = Ok p ->
  exists t user, text = Some t /\ lines t = ["yes"; user] /\
    p = DCFormula {[ {[ ["princeton.edu"; user] ]} ]}.
Proof.
  unfold cas_subject. destruct text as [t|]; [|done]. cbn.
  destruct (lines t) as [|answer [|user []]] eqn:E; try done.
  case_decide as Ha; [|done]. intros [= <-]. exists t, user. by subst.
Qed.

Lemma authenticate_cas_confined request s :
  exists p, acts_for s request p /\ confined p s (authenticate_cas base_url request s).2.
Proof.
  unfold authenticate_cas. destruct (get_param request "ticket") as [ticket|] eqn:Et;
    [|by apply (pure_acts (mret _)), guar_ret].
  destruct (cas_validate ticket (base_url +:+ "/authenticate/cas") (providers s)) as [r p1] eqn:Ec.
  set (s1 := set_providers p1 s).
  assert (E : on_providers (cas_validate ticket (base_url +:+ "/authenticate/cas")) s = (r, s1))
    by (unfold on_providers, zoom; by rewrite Ec).
  unfold mbind at 1, SM_bind at 1. rewrite E.
  destruct (match r with Val text => cas_subject text | _ => Err (empty 400) end) as [p|e] eqn:Es.
  - destruct r as [text| |]; try done. exists p. split.
    + right. destruct (cas_subject_ok _ _ Es) as (t & user & -> & Hl & ->).
      exists ticket, t, user. by rewrite Ec.
    + apply (confined_before _ _ s1); [done|]. unfold try_bind. rewrite Es.
      rewrite (bind_step (mret (Ok p)) _ s1 (Ok p) s1) by done.
      apply confined_then; [by apply g_issue, _|]. intros token.
      apply confined_last; [apply register_confined | intros []; apply guar_ret].
  - exists (subject request). split; [by left|]. apply (confined_before _ _ s1); [done|].
    destruct r as [text| |]; try by apply confined_same. unfold try_bind. rewrite Es.
    by apply confined_same.
Qed.

(** ** Invocations *)

Lemma init_confined login gate_path request s :
  confined (default dc_true login) s (init gate_fuel login gate_path request s).2.
Proof.
  unfold init, try_bind. apply confined_then; [by apply g_prepare_payload; apply _|].
  intros [[[[payload blobs] label] hs]|e]; [|by apply confined_same].
  set (s1 := (prepare_payload request s).2).
  rewrite (bind_step (on_fs clear_label) _ s1 tt (set_app_fs (set_label public (fs s1)) s1)) by done.
  set (s2 := set_app_fs _ s1).
  rewrite (bind_step (on_fs (set_my_privilge _)) _ s2 tt
    (set_app_fs (set_privilege (default dc_true login) (fs s2)) s2)) by done.
  set (s3 := set_app_fs _ s2).
  match goal with |- confined _ _ (?m s3).2 => assert (Hm : Guar (app_rel Mediated) m) end.
  { apply guar_bind.
    - apply g_taint_input, _.
    - intros _. apply guar_bind; [apply g_prepare_labeled_invoke, _|].
      intros [req|e]; [apply g_wait, _ | apply guar_ret]. }
  apply (confined_before _ s1 s3); [by split_and!; [..|left]|]. intros Hq.
  destruct (Hm s3 Hq) as (Hq' & _ & Hs). split; [exact Hq'|]. exists public.
  split; [by left | exact Hs].
Qed.

Lemma faasten_invoke_confined gate_path request s :
  confined (subject request) s (faasten_invoke gate_fuel gate_path request s).2.
Proof.
  unfold faasten_invoke. rewrite (bind_step _ _ _ _ _ (jwt_run request s)), verify_jwt_clock.
  rewrite (bind_step (gets conn) _ s (conn s) s) by done. unfold subject.
  destruct (conn s); [|by apply confined_same]. destruct (verify_jwt 0 request) as [login|]; apply init_confined.
Qed.

(** C16: No request makes the frontend change the file system beyond the authority it comes with: the
    component of its token, the user that CAS confirms, or none.  Whatever the request, its
    effect on the store is one that a thread with that privilege may have, without a label or
    with the one that an earlier request left on the thread, and no gate appears that holds
    more. *)
Theorem handle_confined request s :
  quiet (fs s) ->
  exists p l, acts_for s request p /\ clear_or_left (fs s) l /\
    let s' := (handle base_url client_id client_secret gate_fuel request s).2 in
    quiet (fs s') /\ store_ok l p (view (fs s)) (view (fs s')).
Proof.
  intros Hq.
  assert (Hr : exists p, acts_for s request p /\
    confined p s (route base_url client_id client_secret gate_fuel request s).2).
  { assert (Hsub : forall (m : SM (App St C N) (result Response Response)),
      confined (subject request) s (m s).2 -> exists p, acts_for s request p /\ confined p s (m s).2)
      by (intros m Hm; exists (subject request); split; [by left | done]).
    unfold route. cbv zeta.
    repeat match goal with |- context [if bool_decide ?P then _ else _] => destruct (bool_decide P) end;
      try (apply authenticate_cas_confined); try (apply Hsub, delegate_confined);
      try (apply Hsub, faasten_invoke_confined); apply pure_acts.
    all: unfold auth_github, pair_github_to_user, whoami, faasten_ping_scheduler, jwt; solve_guar. }
  destruct Hr as (p & Hp & Hc). exists p. unfold handle.
  destruct (decide _); [exists public; split_and!; [done|by left|done|apply store_ok_refl]|].
  assert (Hc' : confined p s ((route base_url client_id client_secret gate_fuel request ≫= fun r =>
    mret (with_header "Access-Control-Allow-Origin" "*" (match r with Ok r => r | Err r => r end))) s).2)
    by (apply confined_last; [exact Hc | intros r; apply guar_ret]).
  destruct (Hc' Hq) as (Hq' & l & Hl & Hs). by exists l.
Qed.
End confinement.

(** ** What leaves the file system and the connection alone *)

Section aside.
Context {St C N : Type} `{BS : !BackingStore St} `{L : !LabelOps}.
Context `{DG : DigestOps} `{HX : !HexOps} `{CN : !Conn C} `{W : !WebLib} `{PV : !Providers N}.
Context `{MT : !Message TaskReturn}.
Local Abbreviation S := (App St C N).

Definition aside (s s' : S) : Prop := fs s' = fs s /\ conn s' = conn s.
#[export] Instance aside_preorder : PreOrder aside.
Proof. split; [done|]. intros s1 s2 s3 [? ?] [? ?]. split; congruence. Qed.
Lemma aside_blobs {A} (m : SM Blobstore A) : Guar aside (on_blobs m : SM S A).
Proof. intros s. unfold on_blobs, zoom. by destruct (m _). Qed.
Lemma aside_providers {A} (m : SM N A) : Guar aside (on_providers m : SM S A).
Proof. intros s. unfold on_providers, zoom. by destruct (m _). Qed.
#[local] Hint Resolve aside_blobs aside_providers : guar.

Lemma aside_issue c : Guar aside (issue c : SM S _).
Proof. unfold issue. solve_guar. Qed.
Lemma aside_parse_input request : Guar aside (parse_input request : SM S _).
Proof.
  unfold parse_input. destruct (header request "content-type") as [ct|]; [|apply guar_ret].
  destruct (mime_parse ct) as [[e db]|]; [|apply guar_ret]. solve_guar.
Qed.
Lemma aside_save_files i files acc : Guar aside (save_files i files acc : SM S _).
Proof. revert i acc; induction files as [|f files IH]; intros i acc; cbn [save_files]; solve_guar. Qed.
#[local] Hint Resolve aside_parse_input aside_save_files : guar.
Lemma aside_prepare_payload request : Guar aside (prepare_payload request : SM S _).
Proof. unfold prepare_payload. solve_guar. Qed.

(** The check of an answer changes nothing at all. *)
Lemma eq_read {A} (f : World St -> A) : Guar eq (on_fs (gets f) : SM S A).
Proof. intros s. by destruct s. Qed.
Lemma eq_release_response tr : Guar eq (release_response tr : SM S _).
Proof.
  pose proof (@eq_read). pose proof (@guar_buckle_into).
  unfold release_response, task_return_into_response, get_current_label, get_privilege. solve_guar.
Qed.
Lemma aside_release_response tr : Guar aside (release_response tr : SM S _).
Proof. intros s. by rewrite <- (eq_release_response tr s). Qed.

(** The work on the file system leaves the connection alone. *)
Definition unheard (s s' : S) : Prop := conn s' = conn s.
#[export] Instance unheard_preorder : PreOrder unheard.
Proof. unfold unheard. split; [done|]. intros s1 s2 s3 ? ?. congruence. Qed.
Lemma unheard_fs {A} (m : SM (World St) A) : Guar unheard (on_fs m : SM S A).
Proof. intros s. unfold on_fs, zoom. by destruct (m _). Qed.
Lemma unheard_prepare_labeled_invoke `{SD : !SerdeOps} fuel gate_path blobs payload hs :
  Guar unheard (prepare_labeled_invoke fuel gate_path blobs payload hs : SM S _).
Proof. pose proof @unheard_fs. unfold prepare_labeled_invoke. solve_guar. Qed.
End aside.
#[export] Hint Resolve aside_issue aside_blobs aside_providers aside_prepare_payload
  aside_release_response : guar.

(** ** What leaves the frontend *)

Section release.
Context {St C N : Type} `{BS : !BackingStore St} `{LW : LabelLaws} `{SD : !SerdeOps}.
Context `{DG : DigestOps} `{HX : !HexOps} `{CN : !Conn C} `{W : !WebLib} `{PV : !Providers N}.
Context `{MQ : !Message Message.Request} `{MS : !Message Message.Response}.
Context `{MT : !Message TaskReturn} (gate_fuel : nat).
Implicit Types s : App St C N.

(** An answer that the function gave, and an outcome that has nothing of the function. *)
Definition answer (r : result Response Response) : Response := match r with Ok r | Err r => r end.
Definition from_function (r : Response) : Prop := exists b, resp_body r = Reply b.
Definition own (o : outcome (result Response Response)) : Prop :=
  forall r, o = Val r -> ~ from_function (answer r).
Definition own_error {A} (r : result A Response) : Prop := forall e, r = Err e -> ~ from_function e.

Lemma own_error_ok {A} (a : A) : own_error (Ok a).
Proof. done. Qed.
Lemma own_error_body {A} r : ~ from_function r -> own_error (Err r : result A Response).
Proof. by intros H e [= <-]. Qed.
Lemma own_try {S' A B} (m : SM S' (result A Response)) (f : A -> SM S' (result B Response)) :
  Returns own_error m -> (forall a, Returns own_error (f a)) -> Returns own_error (try_bind m f).
Proof.
  intros Hm Hf. eapply returns_bind; [exact Hm|]. intros [a|e] H; [apply Hf|].
  apply returns_ret. intros e' [= <-]. by apply H.
Qed.
Lemma own_map_err {A E} (f : E -> Response) (r : result A E) :
  (forall e, ~ from_function (f e)) -> own_error (map_err f r).
Proof. intros Hf. destruct r as [a|e]; [done|]. by intros e' [= <-]. Qed.

(** What comes of the first of two computations that can fail. *)
Lemma try_own {S' A} (m : SM S' (result A Response)) f (s : S') out (s' : S') :
  Returns own_error m -> try_bind m f s = (out, s') ->
  (own out /\ s' = (m s).2) \/ exists a (s1 : S'), m s = (Val (Ok a), s1) /\ f a s1 = (out, s').
Proof.
  intros Hm. unfold try_bind, mbind, SM_bind. destruct (m s) as [[[a|e]| |] s1] eqn:E.
  - intros H. right. by exists a, s1.
  - intros [= <- <-]. left. split; [|done]. intros r [= <-]. by apply (Hm _ _ _ E).
  - intros [= <- <-]. by left.
  - intros [= <- <-]. by left.
Qed.

Ltac own_step :=
  match goal with
  | |- Returns own_error (match ?x with _ => _ end) => destruct x
  | |- Returns own_error (mret (match ?x with _ => _ end)) => destruct x
  | |- Returns own_error panic => apply returns_panic
  | |- Returns own_error (mret (Ok _)) => apply returns_ret, own_error_ok
  | |- Returns own_error (mret (Err _)) => apply returns_ret, own_error_body; by intros [? [=]]
  | |- Returns own_error (mret (map_err _ _)) => apply returns_ret, own_map_err; intros; by intros [? [=]]
  | |- Returns own_error (try_bind _ _) => apply own_try; [|intros]
  | |- Returns own_error (_ ≫= _) => apply returns_then; intros
  end.

Lemma own_parse_input request : Returns own_error (parse_input request : SM (App St C N) _).
Proof. unfold parse_input. repeat own_step. Qed.
Lemma own_save_files i files acc : Returns own_error (save_files i files acc : SM (App St C N) _).
Proof. revert i acc; induction files as [|f files IH]; intros i acc; cbn [save_files]; repeat own_step. apply IH. Qed.
Lemma own_prepare_payload request : Returns own_error (prepare_payload request : SM (App St C N) _).
Proof.
  unfold prepare_payload. apply own_try; [apply own_parse_input|]. intros [[files payload] label].
  apply own_try; [repeat own_step|]. intros p. apply own_try; [apply own_save_files|]. intros bs.
  repeat own_step.
Qed.
Lemma own_prepare_labeled_invoke gate_path blobs payload hs :
  Returns own_error (prepare_labeled_invoke gate_fuel gate_path blobs payload hs : SM (App St C N) _).
Proof. unfold prepare_labeled_invoke. repeat own_step. Qed.

(** The thread when the path of the gate is resolved. *)
Definition at_entry (p : Component) (label : option Buckle) (w : World St) : World St :=
  set_label (match label with Some l => lub public l | None => public end) (set_privilege p w).
Lemma enter_run {A} login label (k : SM (App St C N) A) s :
  (_ ← on_fs clear_label; _ ← on_fs (set_my_privilge (default dc_true login));
   _ ← taint_input label; k) s = k (set_app_fs (at_entry (default dc_true login) label (fs s)) s).
Proof. by destruct label. Qed.

(** The invocation that is made of a request. *)
Definition invocation_of (f : Function) (cur : Buckle) (gp p : Component) (payload : bytes)
    (blobs : gmap string Blobstore.Blob) (hs : gmap string string) : LabeledInvoke :=
  sched.MkLabeledInvoke (Some (function_into_message f)) (Some (buckle_from cur))
    (Some (component_from gp)) payload (name <$> blobs) hs true (Some (component_from p)).

Lemma prepare_run gate_path blobs payload hs s li s' :
  prepare_labeled_invoke gate_fuel gate_path blobs payload hs s = (Val (Ok li), s') ->
  exists path f gp, Path_parse gate_path (fs s) = (Val (Ok path), fs s) /\
    resolve_gate_with_clearance_check gate_fuel path (fs s) = (Val (Ok (f, gp)), fs s') /\
    li = invocation_of f (current_label (fs s')) gp (thread_privilege (fs s')) payload blobs hs /\
    conn s' = conn s.
Proof.
  unfold prepare_labeled_invoke. intros (rp & s1 & E1 & H)%bind_val.
  destruct (parse_pieces (fs s) gate_path) as (rp' & Ep & _). unfold on_fs, zoom in E1.
  rewrite Ep in E1. injection E1 as -> <-.
  apply try_ok in H as (path & s2 & E2 & H). destruct rp as [path'|]; [|done]. injection E2 as -> <-.
  apply bind_val in H as (g & s3 & E3 & H). unfold on_fs, zoom in E3. cbn [fs set_app_fs] in E3.
  destruct (resolve_gate_with_clearance_check gate_fuel path (fs s)) as [o w] eqn:Er.
  injection E3 as -> <-. apply try_ok in H as ([f gp] & s4 & E4 & H).
  destruct g as [[f' gp']|]; [|done]. injection E4 as -> -> <-.
  apply bind_val in H as (l & s5 & El & H). apply bind_val in H as (q & s6 & Eq & H).
  injection El as <- <-. injection Eq as <- <-. injection H as <- <-.
  by exists path, f, gp.
Qed.

(** A token is worth what its signature says, for ever: the request acts for the component of
    its claims exactly when they verify, whatever their expiry. *)
Theorem verify_jwt_spec now request c :
  verify_jwt now request = Ok c <->
  exists h claims, header request "Authorization" = Some h /\
    verify_with_key (default "" (list.last (str <$> split_on " "%char (chars h)))) = Some claims /\
    sub claims = c.
Proof.
  rewrite verify_jwt_clock. unfold verify_jwt. split.
  - destruct (header request "Authorization") as [h|]; [|done].
    destruct (verify_with_key _) as [claims|] eqn:E; [|done]. rewrite andb_false_r.
    intros [= <-]. by exists h, claims.
  - intros (h & claims & -> & -> & <-). by rewrite andb_false_r.
Qed.

(** An answer of the function is released only if its label may flow to the thread's. *)
Lemma release_run tr s r s' :
  release_response tr s = (Val r, s') -> from_function (answer r) ->
  exists lb l rep, sched.return_label tr = Some lb /\ buckle_into lb s = (Val l, s) /\
    FlowsP (thread_privilege (fs s)) l (current_label (fs s)) /\
    task_return_into_response tr s = (Val rep, s) /\
    r = if is_success (from_reply rep) then Ok (from_reply rep) else Err (from_reply rep).
Proof.
  unfold release_response. destruct (sched.return_label tr) as [lb|]; [|done].
  rewrite (bind_step (unwrap (Some lb)) _ s lb s) by done.
  intros (l & s1 & El & H)%bind_val Hfun.
  pose proof (guar_buckle_into (R:=eq) lb s) as K. rewrite El in K. cbn in K. subst s1.
  rewrite (bind_step (on_fs get_current_label) _ s (current_label (fs s)) s) in H by by destruct s.
  rewrite (bind_step (on_fs get_privilege) _ s (thread_privilege (fs s)) s) in H by by destruct s.
  destruct (can_flow_to_with_privilege _ _ _) eqn:Hf; cbn [negb] in H.
  2: { injection H as <- <-. by destruct Hfun. }
  apply bind_val in H as (rep & s1 & Er & H). assert (s = s1) as <-.
  { assert (Hg : Guar eq (task_return_into_response (S := App St C N) tr))
      by (unfold task_return_into_response; solve_guar).
    specialize (Hg s). by rewrite Er in Hg. }
  injection H as <- _. by exists lb, l, rep.
Qed.

Lemma submit_fs invoke s r s' : with_conn (submit invoke) s = (r, s') -> fs s' = fs s.
Proof. intros E. pose proof (g_with_conn eq (submit invoke) s) as K. by rewrite E in K. Qed.

(** What comes of a submitted invocation: the connection has carried the invocation and, when it
    could be written, one answer; and what the function gave is in that answer, and readable. *)
Lemma wait_run li s c out s' :
  conn s = Some c -> wait_for_completion li s = (out, s') ->
  fs s' = fs s /\
  match labeled_invoke li c with
  | (Val (Ok _), c1) =>
      conn s' = Some (read_u8 c1).2 /\
      forall r, out = Val r -> from_function (answer r) ->
        exists bs tr lb l rep, (read_u8 c1).1 = Val (Ok bs) /\ Message.decode bs = Some tr /\
          sched.return_label tr = Some lb /\ buckle_into lb s' = (Val l, s') /\
          FlowsP (thread_privilege (fs s')) l (current_label (fs s')) /\
          task_return_into_response tr s' = (Val rep, s') /\
          r = if is_success (from_reply rep) then Ok (from_reply rep) else Err (from_reply rep)
  | (_, c1) => conn s' = Some c1 /\ own out
  end.
Proof.
  intros Hc. unfold wait_for_completion, with_conn, submit, try_bind, mbind, SM_bind, mret, SM_ret.
  rewrite Hc. destruct (labeled_invoke li c) as [[[[]|e]| |] c1]; cbn [map_err].
  2-4: intros [= <- <-]; (split; [done|]); (split; [done|]); try done; intros r [= <-]; by intros [? [=]].
  destruct (read_u8 c1) as [[[bs|e]| |] c2]; cbn [map_err fst snd].
  2-4: intros [= <- <-]; (split; [done|]); (split; [done|]); try done; intros r [= <-]; by intros [? [=]].
  destruct (Message.decode bs) as [tr|] eqn:Ed.
  2: { intros [= <- <-]. split; [done|]. split; [done|]. intros r [= <-]. by intros [? [=]]. }
  set (s1 := set_app_conn (Some c2) s). intros E.
  pose proof (eq_release_response tr s1) as K. rewrite E in K. cbn in K. subst s'.
  split; [done|]. split; [done|]. intros r -> Hf.
  destruct (release_run _ _ _ _ E Hf) as (lb & l & rep & ? & ? & ? & ? & ?).
  by exists bs, tr, lb, l, rep.
Qed.

(** C18: what the frontend answers to the caller of a gate, whether with success or not, and what
    it does to the connection to the scheduler.  Either it writes and reads nothing there and
    answers nothing that a function gave.  Or the path of the request has been resolved to a gate,
    with the privilege of the caller's token and the label of the request, and exactly one
    invocation is submitted: of the gate's function, with the gate's privilege, synchronous, on
    behalf of that token's component, with the label that the thread has after resolving the
    path, and the request's payload, files and headers.  If that fails nothing of a function is
    answered; otherwise exactly one message is read, and what is answered of a function, a
    success or an error, is what that message says, whose label may flow to the thread's with
    the caller's privilege. *)
Theorem released_response login gate_path request s c out s' :
  conn s = Some c -> init gate_fuel login gate_path request s = (out, s') ->
  let p := default dc_true login in
  let cur := current_label (fs s') in
  conn s' = Some c /\ own out \/
  exists payload blobs label hs s1 path f gp,
    prepare_payload request s = (Val (Ok (payload, blobs, label, hs)), s1) /\
    Path_parse gate_path (at_entry p label (fs s)) = (Val (Ok path), at_entry p label (fs s)) /\
    resolve_gate_with_clearance_check gate_fuel path (at_entry p label (fs s)) =
      (Val (Ok (f, gp)), fs s') /\
    match labeled_invoke (invocation_of f cur gp p payload blobs hs) c with
    | (Val (Ok _), c1) =>
        conn s' = Some (read_u8 c1).2 /\
        forall r, out = Val r -> from_function (answer r) ->
          exists bs tr lb l rep, (read_u8 c1).1 = Val (Ok bs) /\ Message.decode bs = Some tr /\
            sched.return_label tr = Some lb /\ buckle_into lb s' = (Val l, s') /\ FlowsP p l cur /\
            task_return_into_response tr s' = (Val rep, s') /\
            r = if is_success (from_reply rep) then Ok (from_reply rep) else Err (from_reply rep)
    | (_, c1) => conn s' = Some c1 /\ own out
    end.
Proof.
  intros Hc E. cbv zeta. set (p := default dc_true login). unfold init in E.
  pose proof (aside_prepare_payload (C:=C) (N:=N) request s) as Ha.
  apply try_own in E as [[Ho ->]|([[[payload blobs] label] hs] & s1 & E1 & E)];
    [|rewrite E1 in Ha; destruct Ha as [Hfs1 Hc1]; cbn [snd] in *|apply own_prepare_payload].
  { left. split; [|done]. by rewrite (proj2 Ha). }
  rewrite enter_run, Hfs1 in E. fold p in E. set (w := at_entry p label (fs s)) in E.
  pose proof (unheard_prepare_labeled_invoke gate_fuel gate_path blobs payload hs (set_app_fs w s1)) as Hc2.
  apply try_own in E as [[Ho ->]|(li & s2 & E2 & E)]; [| |apply own_prepare_labeled_invoke].
  { left. split; [|done]. rewrite Hc2. cbn. by rewrite Hc1. }
  right. exists payload, blobs, label, hs, s1.
  pose proof (g_prepare_labeled_invoke (C:=C) (N:=N) Raised gate_fuel gate_path blobs payload hs
    (set_app_fs w s1)) as Hr. rewrite E2 in Hr. destruct Hr as [_ Hp]. cbn in Hp.
  destruct (prepare_run _ _ _ _ _ _ _ E2) as (path & f & gp & H1 & H2 & -> & H4). cbn in H1, H2, H4.
  destruct (wait_run _ _ c _ _ (eq_trans H4 (eq_trans Hc1 Hc)) E) as [Hfs Hw].
  exists path, f, gp. rewrite Hfs. rewrite Hfs, Hp in Hw. by split_and!.
Qed.

(** Two answers that bear the same label, which the caller may not read, are indistinguishable
    to the caller: whatever their payloads and return codes, the response is the same, a refusal
    that names only labels. *)
Theorem unreadable_hidden invoke s1 s2 bs1 bs2 tr1 tr2 lb l :
  fs s1 = fs s2 ->
  (with_conn (submit invoke) s1).1 = Val (Ok bs1) -> Message.decode bs1 = Some tr1 ->
  (with_conn (submit invoke) s2).1 = Val (Ok bs2) -> Message.decode bs2 = Some tr2 ->
  sched.return_label tr1 = Some lb -> sched.return_label tr2 = Some lb ->
  (forall s, buckle_into lb s = (Val l, s)) ->
  ~ FlowsP (thread_privilege (fs s1)) l (current_label (fs s1)) ->
  (wait_for_completion invoke s1).1 = (wait_for_completion invoke s2).1 /\
  (wait_for_completion invoke s1).1 =
    Val (Err (response 401 (Unauthorized l (current_label (fs s1)) (thread_privilege (fs s1))))).
Proof.
  intros Hfs E1 D1 E2 D2 L1 L2 Hl Hf. unfold FlowsP in Hf. apply not_true_is_false in Hf.
  assert (Hw : forall s bs tr, fs s1 = fs s -> (with_conn (submit invoke) s).1 = Val (Ok bs) ->
    Message.decode bs = Some tr -> sched.return_label tr = Some lb ->
    (wait_for_completion invoke s).1 =
      Val (Err (response 401 (Unauthorized l (current_label (fs s1)) (thread_privilege (fs s1)))))).
  { intros s bs tr Es E D Hlb. unfold wait_for_completion, try_bind.
    destruct (with_conn (submit invoke) s) as [r s'] eqn:Ew. cbn in E. subst r.
    rewrite (bind_step _ _ _ _ _ Ew), D. pose proof (submit_fs _ _ _ _ Ew) as Hs.
    unfold release_response. rewrite Hlb. rewrite (bind_step (unwrap (Some lb)) _ s' lb s') by done.
    rewrite (bind_step _ _ _ _ _ (Hl s')).
    rewrite (bind_step (on_fs get_current_label) _ s' (current_label (fs s')) s') by by destruct s'.
    rewrite (bind_step (on_fs get_privilege) _ s' (thread_privilege (fs s')) s') by by destruct s'.
    by rewrite Hs, <- Es, Hf. }
  split; [|by eapply Hw]. rewrite (Hw s1 bs1 tr1), (Hw s2 bs2 tr2); done.
Qed.
End release.

(** ** The label of a request *)

Section choice.
Context {St C N : Type} `{BW : BackingStoreLaws St} `{LW : LabelLaws} `{SD : !SerdeOps}.
Context `{DG : DigestOps} `{HX : !HexOps} `{CN : !Conn C} `{W : !WebLib} `{PV : !Providers N}.
Context `{MQ : !Message Message.Request} `{MS : !Message Message.Response}.
Context `{MT : !Message TaskReturn}.
Context (gate_fuel : nat).
Implicit Types s : App St C N.

(** The state in which the path of the gate is resolved, for a request with a label. *)
Definition entered (login : option Component) (b : Buckle) (s : App St C N) : App St C N :=
  set_app_fs (set_label (lub public b) (set_privilege (default dc_true login) (fs s))) s.

(** C19: the caller chooses what it may read.  The label that comes with a request, in a header
    that anyone may set, raises the label of the thread before the function runs, and the label
    of the answer is compared with that raised label.  So an answer whose label may flow to the
    label that the caller wrote is never refused, whoever the caller is: it is returned as the
    function gave it. *)
Theorem chosen_label_released login gate_path request s payload blobs b hs s1 li s2 bs s3 tr lb l :
  prepare_payload request s = (Val (Ok (payload, blobs, Some b, hs)), s1) ->
  prepare_labeled_invoke gate_fuel gate_path blobs payload hs (entered login b s1) = (Val (Ok li), s2) ->
  with_conn (submit li) s2 = (Val (Ok bs), s3) -> Message.decode bs = Some tr ->
  sched.return_label tr = Some lb -> buckle_into lb s3 = (Val l, s3) -> Flows l b ->
  init gate_fuel login gate_path request s =
    (r ← task_return_into_response tr;
     mret (if is_success (from_reply r) then Ok (from_reply r) else Err (from_reply r))) s3.
Proof.
  intros Ep El Ew Hd Hlb Hl Hf. unfold init, try_bind. rewrite (bind_step _ _ _ _ _ Ep).
  rewrite (bind_step (on_fs clear_label) _ s1 tt (set_app_fs (set_label public (fs s1)) s1)) by done.
  set (s1' := set_app_fs _ s1).
  rewrite (bind_step (on_fs (set_my_privilge _)) _ s1' tt
    (set_app_fs (set_privilege (default dc_true login) (fs s1')) s1')) by done.
  rewrite (bind_step (taint_input (Some b)) _ _ tt (entered login b s1)) by done.
  rewrite (bind_step _ _ _ _ _ El). unfold wait_for_completion, try_bind.
  rewrite (bind_step _ _ _ _ _ Ew), Hd. unfold release_response. rewrite Hlb.
  rewrite (bind_step (unwrap (Some lb)) _ s3 lb s3) by done. rewrite (bind_step _ _ _ _ _ Hl).
  rewrite (bind_step (on_fs get_current_label) _ s3 (current_label (fs s3)) s3) by by destruct s3.
  rewrite (bind_step (on_fs get_privilege) _ s3 (thread_privilege (fs s3)) s3) by by destruct s3.
  assert (Hc : FlowsP (thread_privilege (fs s3)) l (current_label (fs s3))).
  { apply Flows_FlowsP. etrans; [exact Hf|]. pose proof (submit_fs _ _ _ _ Ew) as Hs. rewrite Hs.
    pose proof (g_prepare_labeled_invoke (C:=C) (N:=N) Raised gate_fuel gate_path blobs payload hs
      (entered login b s1)) as [Hr _].
    rewrite El in Hr. etrans; [|exact Hr]. apply Flows_lub_r. }
  unfold FlowsP in Hc. by rewrite Hc.
Qed.
End choice.

(** ** Delegation *)

Section delegation.
Context {St C N : Type} `{BS : !BackingStore St} `{LW : LabelLaws} `{SD : !SerdeOps}.
Context `{DG : DigestOps} `{WL : WebLaws}.
Implicit Types s : App St C N.

(** With a token for [c], a request to [delegate] was answered with a token that verifies as one
    for [c']. *)
Definition delegates (c c' : Component) : Prop :=
  exists (request : Request) s s' t claims,
    verify_jwt (clock s) request = Ok c /\
    delegate request s = (Val (Ok (response 200 (Text t))), s') /\
    verify_with_key t = Some claims /\ sub claims = c'.

Lemma issue_sub subject s t s' claims :
  issue subject s = (Val t, s') -> verify_with_key t = Some claims -> sub claims = subject.
Proof.
  unfold issue. intros (now & s1 & _ & H)%bind_val.
  destruct (sign_with_key _) as [t'|] eqn:Es; [|done]. injection H as <- _.
  rewrite (verify_sign _ _ Es). by intros [= <-].
Qed.

Lemma delegate_step c c' : delegates c c' -> Implies c c'.
Proof.
  intros (request & s & s' & t & claims & Hv & H & Ht & <-). unfold delegate in H.
  unfold try_bind at 1 in H. rewrite (bind_step _ _ s (Ok c) s) in H by (rewrite <- Hv; done).
  destruct (req_data request) as [body|]; [|done].
  apply try_ok in H as (d & s1 & _ & H). apply try_ok in H as (p & s2 & _ & H).
  destruct (implies c p) eqn:Hi; [|done].
  apply try_ok in H as ([] & s3 & _ & H). apply bind_val in H as (t' & s4 & Ei & H).
  injection H as -> _. by rewrite (issue_sub _ _ _ _ _ Ei Ht).
Qed.

(** Delegation only weakens.  However many times tokens are exchanged for others, the component
    of the last one is implied by that of the first. *)
Theorem delegation_attenuates c c' : rtc delegates c c' -> Implies c c'.
Proof.
  induction 1 as [c|c c1 c2 H _ IH]; [reflexivity|]. etrans; [by apply delegate_step | exact IH].
Qed.
End delegation.

(** A label in the header of a JSON request that does not parse is dropped: the input counts as
    public, where a multipart request is refused. *)
Theorem json_label_dropped {St C N : Type} `{L : !LabelOps} `{W : !WebLib} (request : Request) ct debug
    text label body (s : App St C N) :
  header request "content-type" = Some ct -> header request "x-faasten-label" = Some label ->
  buckle_parse label = None -> req_data request = Some (Ok body) ->
  (mime_parse ct = Some ("application/json", debug) ->
   parse_input request s = (Val (Ok ([], body, None)), s)) /\
  (mime_parse ct = Some ("multipart/form-data", debug) ->
   post_form request = Ok ([], text, Some label) ->
   parse_input request s = (Val (Err (response 400 (Error None))), s)).
Proof.
  intros Hct Hl Hp Hd. unfold parse_input. rewrite Hct.
  split.
  - intros ->. rewrite decide_False, decide_True by done. rewrite Hl, Hd.
    change (Some label ≫= buckle_parse) with (buckle_parse label). by rewrite Hp.
  - intros -> ->. rewrite decide_True by done. unfold try_bind, mbind, SM_bind. cbn. by rewrite Hp.
Qed.
