(* ===== verification/AuthorityWeb.v ===== *)
(** * Requests of the web frontend within an authority

    A request acts for the component of its token, for the user that CAS confirms, or for
    nobody.  Where these are of [a], what the frontend does for it stays within [a]: on the
    store, and in the invocation that it submits to the scheduler. *)

From Stdlib Require Import Ascii String.
From stdpp Require Import base tactics option list gmap strings pretty countable.
From S2P Require Import Prelude Labels Store FsTypes Objects Fs FsGuarantee.
From S2P Require Import FsMediation FsReads FsGates Syscalls Blobstore Message Paths.
From S2P Require Import Authority AuthoritySys Bootstrap Webfront WebTheorems.

Section web.
Context {St C N : Type} `{BW : BackingStoreLaws St} `{LW : LabelLaws} `{SW : SerdeLaws}.
Context `{DG : DigestOps} `{HX : !HexOps} `{CN : !Conn C} `{W : !WebLib} `{PV : !Providers N}.
Context `{MQ : !Message Message.Request} `{MS : !Message Message.Response}.
Context `{MT : !Message TaskReturn} `{HD : !Heard C}.
Context (base_url client_id client_secret : string) (gate_fuel : nat).
Context (a : Component).

Local Abbreviation S := (App St C N).
Implicit Types s : S.

(** What a thread of the frontend does for [a].  It starts with whatever privilege the last
    request left, so that only its label matters. *)
Definition HeldWeb s s' : Prop :=
  quiet (fs s) -> modest a (fs s) -> closed a (view (fs s)) ->
  quiet (fs s') /\ modest a (fs s') /\ within a (view (fs s)) (view (fs s')) /\
  told a (conn s) (conn s').

#[global] Instance HeldWeb_preorder : PreOrder HeldWeb.
Proof.
  split.
  - intros s Hq Hh _. split_and!; try done; reflexivity.
  - intros s1 s2 s3 H12 H23 Hq Hh Hc. destruct (H12 Hq Hh Hc) as (Hq2 & Hh2 & Hw2 & Ht2).
    destruct (H23 Hq2 Hh2) as (Hq3 & Hh3 & Hw3 & Ht3); [by eapply within_closed|].
    split; [done|]. split; [done|]. by split; etrans.
Qed.

Lemma held_web_from s s' :
  (quiet (fs s) -> modest a (fs s) -> closed a (view (fs s)) -> HeldWeb s s') -> HeldWeb s s'.
Proof. intros H Hq Hh Hc. by apply H. Qed.

(** Such steps are outside its concerns. *)
Lemma aside_held {A} (m : SM S A) : Guar aside m -> Guar HeldWeb m.
Proof.
  intros Hm s. destruct (Hm s) as [E1 E2]. intros Hq Hh Hc. rewrite E1, E2.
  split_and!; try done; reflexivity.
Qed.
(** ** Operations on the file system *)

Lemma held_web_fs {A} (m : SM (World St) A) s :
  (quiet (fs s) -> modest a (fs s) -> closed a (view (fs s)) ->
   quiet (m (fs s)).2 /\ modest a (m (fs s)).2 /\ within a (view (fs s)) (view (m (fs s)).2)) ->
  HeldWeb s (on_fs m s).2.
Proof.
  intros Hm Hq Hh Hc. specialize (Hm Hq Hh Hc). unfold on_fs, zoom.
  destruct (m (fs s)) as [o w']. cbn in *. by destruct Hm as (? & ? & ?).
Qed.

Lemma held_register user clearance s :
  Implies a user -> HeldWeb s (on_fs (register_user_fsutil user clearance) s).2.
Proof.
  intros Hu. apply held_web_fs. intros Hq Hm Hc.
  destruct (register_run user clearance (fs s) Hq) as (Hq' & Hl & Hs & _).
  split; [exact Hq'|]. split; [by eapply modest_raised|].
  exact (store_ok_within a _ _ _ _ Hu Hm Hs).
Qed.
Lemma held_set_privilege p s : HeldWeb s (on_fs (set_my_privilge p) s).2.
Proof. apply held_web_fs. intros Hq Hm Hc. split; [exact Hq|]. by split. Qed.
Lemma held_clear_label s : HeldWeb s (on_fs clear_label s).2.
Proof. apply held_web_fs. intros Hq Hm Hc. split; [exact Hq|]. split; [by apply modest_public | reflexivity]. Qed.

(** The part of an invocation that runs with the caller's privilege. *)
Definition HeldFor s s' : Prop := Held a (fs s) (fs s') /\ conn s' = conn s.
#[local] Instance HeldFor_preorder : PreOrder HeldFor.
Proof.
  split; [split; [reflexivity|done]|]. intros s1 s2 s3 [? ?] [? ?]. split; [by etrans|congruence].
Qed.
Lemma held_for_fs {A} (m : SM (World St) A) : Guar (Held a) m -> Guar HeldFor (on_fs m : SM S A).
Proof.
  intros Hm s. specialize (Hm (fs s)). unfold on_fs, zoom. by destruct (m (fs s)) as [o w'].
Qed.

Lemma resolve_check_within fuel path w f p w' :
  quiet w -> humble a w -> closed a (view w) ->
  resolve_gate_with_clearance_check fuel path w = (Val (Ok (f, p)), w') -> Implies a p.
Proof.
  intros Hq Hh Hc. unfold resolve_gate_with_clearance_check. intros (e & w1 & E1 & H)%try_ok.
  pose proof (g_read_path (Held a) path w) as Hr. rewrite E1 in Hr.
  destruct (Hr Hq Hh Hc) as (Hq1 & Hh1 & Hw1).
  assert (Hc1 : closed a (view w1)) by by eapply within_closed.
  destruct e as [| | |gate| |]; try done. apply bind_val in H as (d & w2 & E2 & H).
  pose proof (g_gate_to_invokable (Held a) fuel gate w1) as Hg. rewrite E2 in Hg.
  destruct (Hg Hq1 Hh1 Hc1) as (_ & [_ Hp2] & _).
  rewrite (bind_step (gets thread_privilege) _ w2 (thread_privilege w2) w2) in H by done.
  destruct (implies (thread_privilege w2) _) eqn:Hi; [|done]. injection H as <- <- _.
  eapply invokable_within; [exact Hq1|exact Hc1|exact E2|]. cbn in Hp2. etrans; [exact Hp2 | exact Hi].
Qed.

Lemma prepare_held fuel gate_path blobs payload hs s :
  HeldFor s (prepare_labeled_invoke fuel gate_path blobs payload hs s).2.
Proof.
  revert s. match goal with |- forall s, HeldFor s (?m s).2 => change (Guar HeldFor m) end.
  pose proof (g_Path_parse (Held a)). pose proof (g_resolve_check (Held a)).
  unfold prepare_labeled_invoke, get_current_label, get_privilege.
  repeat (guar_step || (apply held_for_fs; solve [auto with guar])).
Qed.

Lemma prepare_within fuel gate_path blobs payload hs s li s' :
  quiet (fs s) -> humble a (fs s) -> closed a (view (fs s)) ->
  prepare_labeled_invoke fuel gate_path blobs payload hs s = (Val (Ok li), s') ->
  authorized_invoke a li.
Proof.
  intros Hq Hh Hc. unfold prepare_labeled_invoke. intros (p & s1 & E1 & H)%bind_val.
  assert (Hp : HeldFor s s1).
  { pose proof (held_for_fs _ (g_Path_parse (Held a) gate_path) s) as Hg. by rewrite E1 in Hg. }
  destruct Hp as [Hp _]. destruct (Hp Hq Hh Hc) as (Hq1 & Hh1 & Hw1).
  apply try_ok in H as (path & s2 & E2 & H). injection E2 as _ <-.
  apply bind_val in H as (g & s3 & E3 & H). apply try_ok in H as ([f gp] & s4 & E4 & H).
  injection E4 as E4 <-. destruct g as [[f' gp']|e]; [|done]. injection E4 as -> ->.
  apply bind_val in H as (l & s5 & El & H). apply bind_val in H as (q & s6 & Eq & H).
  injection H as <- _. eapply invoke_authorized; [done|].
  unfold on_fs, zoom in E3.
  destruct (resolve_gate_with_clearance_check fuel path (fs s1)) as [o w3] eqn:Er.
  injection E3 as -> _. eapply resolve_check_within; [| | |exact Er]; try done.
  by eapply within_closed.
Qed.

(** ** The conversation with the scheduler *)

Lemma held_with_conn {A} (m : SM C (result A Response)) s :
  (forall c, told a (Some c) (Some (m c).2)) -> HeldWeb s (with_conn m s).2.
Proof.
  intros Hm Hq Hh Hc. unfold with_conn. destruct (conn s) as [c|] eqn:Ec.
  - specialize (Hm c). destruct (m c) as [o c'].
    split; [exact Hq|]. split; [exact Hh|]. split; [reflexivity | exact Hm].
  - split; [exact Hq|]. split; [exact Hh|]. cbn [snd]. rewrite Ec. by split.
Qed.

Definition Tells (c c' : C) : Prop := told a (Some c) (Some c').
#[local] Instance Tells_preorder : PreOrder Tells.
Proof. split; unfold Tells; [intros c; reflexivity | intros c1 c2 c3 ? ?; by etrans]. Qed.

Lemma submit_tells li : authorized_invoke a li -> Guar Tells (submit li).
Proof.
  intros Hli. assert (H1 : Guar Tells (labeled_invoke (C := C) li)) by (intros c; by apply told_invoke).
  assert (H2 : Guar Tells (read_u8 (C := C))) by (intros c; apply listens_told, listens_frame).
  unfold submit. solve_guar.
Qed.
Lemma ping_tells : Guar Tells (ping (C := C)).
Proof.
  assert (H1 : Guar Tells (message_write (C := C) (Message.MkRequest (Some Ping)))).
  { intros c. apply told_write. by intros li. }
  assert (H2 : Guar Tells (read_response (C := C))) by (intros c; apply listens_told, listens_message).
  unfold ping. solve_guar.
Qed.

Lemma wait_held li : authorized_invoke a li -> Guar HeldWeb (wait_for_completion li : SM S _).
Proof.
  intros Hli.
  assert (Hs : Guar HeldWeb (with_conn (submit li) : SM S _)).
  { intros s. apply held_with_conn. by apply submit_tells. }
  pose proof (fun tr => aside_held _ (aside_release_response tr)).
  unfold wait_for_completion. solve_guar.
Qed.

(** ** Handlers *)

Lemma taint_input_for label : Guar HeldFor (taint_input label : SM S _).
Proof.
  destruct label as [l|]; [|apply guar_ret].
  apply guar_bind; [|intros _; apply guar_ret]. apply held_for_fs, prim_taint'.
Qed.

(** What runs with the caller's privilege, then what talks to the scheduler. *)
Lemma invoke_held gate_path blobs payload hs s :
  Implies a (thread_privilege (fs s)) ->
  HeldWeb s ((req ?← prepare_labeled_invoke gate_fuel gate_path blobs payload hs;
              wait_for_completion req) s).2.
Proof.
  intros Hp. apply held_web_from. intros Hq Hm Hc.
  destruct (prepare_held gate_fuel gate_path blobs payload hs s) as [Hf Ef].
  destruct (Hf Hq ltac:(by split) Hc) as (Hq' & [Hm' _] & Hw).
  assert (H0 : HeldWeb s (prepare_labeled_invoke gate_fuel gate_path blobs payload hs s).2).
  { intros _ _ _. split; [exact Hq'|]. split; [exact Hm'|]. split; [exact Hw|]. by rewrite Ef. }
  unfold try_bind, mbind, SM_bind.
  destruct (prepare_labeled_invoke gate_fuel gate_path blobs payload hs s) as [[[li|e]| |] s1] eqn:E;
    try exact H0.
  etrans; [exact H0|]. apply wait_held.
  eapply prepare_within; [exact Hq|by split|exact Hc|exact E].
Qed.

Lemma init_rest label login gate_path payload blobs hs :
  Implies a (default dc_true login) ->
  Guar HeldWeb (_ ← on_fs clear_label;
                _ ← on_fs (set_my_privilge (default dc_true login));
                _ ← taint_input label;
                req ?← prepare_labeled_invoke gate_fuel gate_path blobs payload hs;
                wait_for_completion req : SM S _).
Proof.
  intros Hp s. set (q := default dc_true login) in *.
  etrans; [exact (held_clear_label s)|].
  set (s1 := set_app_fs (set_label public (fs s)) s).
  rewrite (bind_step (on_fs clear_label) _ s tt s1) by done.
  etrans; [exact (held_set_privilege q s1)|].
  set (s2 := set_app_fs (set_privilege q (fs s1)) s1).
  rewrite (bind_step (on_fs (set_my_privilge q)) _ s1 tt s2) by done.
  destruct label as [l|]; cbn [taint_input].
  - set (s3 := set_app_fs (set_label (lub (current_label (fs s2)) l) (fs s2)) s2).
    rewrite (bind_step _ _ s2 tt s3) by done.
    etrans; [|by apply invoke_held].
    intros Hq Hm Hc. split; [exact Hq|]. split; [|by split].
    by eapply (modest_raised a (fs s2)), Hm; apply Flows_lub_l.
  - rewrite (bind_step (mret tt) _ s2 tt s2) by done. by apply invoke_held.
Qed.

Lemma init_held login gate_path request s :
  Implies a (default dc_true login) -> HeldWeb s (init gate_fuel login gate_path request s).2.
Proof.
  intros Hp. unfold init, try_bind. apply at_then; [apply aside_held, aside_prepare_payload|].
  intros [[[[payload blobs] label] hs]|e]; [by apply init_rest | apply guar_ret].
Qed.

Lemma delegate_held request s :
  Implies a (subject request) -> HeldWeb s (delegate request s).2.
Proof.
  intros Hp. unfold delegate, try_bind. rewrite (bind_step _ _ _ _ _ (jwt_run request s)).
  rewrite verify_jwt_clock. unfold subject in Hp.
  destruct (verify_jwt 0 request) as [login|]; [|reflexivity].
  destruct (req_data request) as [body|]; [|reflexivity].
  apply at_then; [apply guar_ret|]. intros [d|e]; [|apply guar_ret].
  apply guar_bind; [apply guar_ret|]. intros [new_principal|e]; [|apply guar_ret].
  destruct (implies login new_principal) eqn:Hi; [|apply guar_ret].
  assert (Hn : Implies a new_principal) by (etrans; [exact Hp | exact Hi]).
  apply guar_bind; [|intros [[]|e]; [|apply guar_ret]].
  - destruct (bootstrap d); [|apply guar_ret].
    apply guar_bind; [apply guar_ret|]. intros [clearance|e]; [|apply guar_ret].
    apply guar_bind; [intros s1; apply held_set_privilege|]. intros _.
    apply guar_bind; [intros s1; by apply held_register|]. intros _.
    apply guar_bind; [intros s1; apply held_set_privilege|]. intros _. apply guar_ret.
  - apply guar_bind; [apply aside_held, aside_issue|]. intros t. apply guar_ret.
Qed.

Lemma authenticate_cas_held request s :
  (forall p, cas_user base_url s request p -> Implies a p) ->
  HeldWeb s (authenticate_cas base_url request s).2.
Proof.
  intros Hp. unfold authenticate_cas.
  destruct (get_param request "ticket") as [ticket|] eqn:Et; [|reflexivity].
  destruct (cas_validate ticket (base_url +:+ "/authenticate/cas") (providers s)) as [r p1] eqn:Ec.
  set (s1 := set_providers p1 s).
  assert (E : on_providers (cas_validate ticket (base_url +:+ "/authenticate/cas")) s = (r, s1))
    by (unfold on_providers, zoom; by rewrite Ec).
  unfold mbind at 1, SM_bind at 1. rewrite E.
  assert (H0 : HeldWeb s s1) by (intros Hq Hm Hc; split_and!; try done; reflexivity).
  destruct r as [text| |]; try exact H0. etrans; [exact H0|]. unfold try_bind.
  rewrite (bind_step (mret (cas_subject text)) _ s1 (cas_subject text) s1) by done.
  destruct (cas_subject text) as [p|e] eqn:Es; [|reflexivity].
  assert (Hu : Implies a p).
  { apply Hp. destruct (cas_subject_ok _ _ Es) as (t & user & -> & Hl & ->).
    exists ticket, t, user. by rewrite Ec. }
  apply at_then; [apply aside_held, aside_issue|]. intros token.
  apply guar_bind; [intros s2; by apply held_register|]. intros _. apply guar_ret.
Qed.

Lemma faasten_invoke_held gate_path request s :
  Implies a (subject request) -> HeldWeb s (faasten_invoke gate_fuel gate_path request s).2.
Proof.
  intros Hp. unfold faasten_invoke. rewrite (bind_step _ _ _ _ _ (jwt_run request s)), verify_jwt_clock.
  rewrite (bind_step (gets conn) _ s (conn s) s) by done. unfold subject in Hp.
  destruct (conn s); [|reflexivity].
  destruct (verify_jwt 0 request) as [login|]; by apply init_held.
Qed.

Lemma ping_held : Guar HeldWeb (faasten_ping_scheduler : SM S _).
Proof.
  intros s. apply held_with_conn. intros c.
  match goal with |- told a _ (Some (?m c).2) => assert (Ht : Guar Tells m); [|exact (Ht c)] end.
  pose proof ping_tells. solve_guar.
Qed.

(** A request of [a]: every authority that it may act with is one of [a]. *)
Definition request_of_authority s request : Prop :=
  forall p, acts_for base_url s request p -> Implies a p.

Lemma route_held request s :
  request_of_authority s request ->
  HeldWeb s (route base_url client_id client_secret gate_fuel request s).2.
Proof.
  intros Hp. assert (Hs : Implies a (subject request)) by (apply Hp; by left).
  unfold route. cbv zeta.
  repeat match goal with |- context [if bool_decide ?P then _ else _] => destruct (bool_decide P) end;
    try (by apply delegate_held); try (apply ping_held); try (by apply faasten_invoke_held);
    try (apply authenticate_cas_held; intros p Hc; apply Hp; by right);
    try apply guar_ret.
  all: match goal with |- HeldWeb ?s (?m ?s).2 => assert (Ha : Guar aside m);
    [|by apply aside_held] end.
  all: unfold auth_github, pair_github_to_user, whoami, jwt; solve_guar.
Qed.

(** Where everything that a request may act for is of [a], handling it changes no guarded object,
    leaves no privilege behind that [a] does not imply, and asks the scheduler only for
    invocations whose privilege [a] implies: the gates that the caller may invoke give nothing
    more, if the store is [closed]. *)
Lemma handle_within request s :
  quiet (fs s) -> modest a (fs s) -> closed a (view (fs s)) -> request_of_authority s request ->
  let s' := (handle base_url client_id client_secret gate_fuel request s).2 in
  quiet (fs s') /\ modest a (fs s') /\ within a (view (fs s)) (view (fs s')) /\
  told a (conn s) (conn s').
Proof.
  intros Hq Hm Hc Hp. pose proof (route_held request s Hp) as Hr. unfold handle. cbv zeta.
  destruct (decide _); [split_and!; try done; reflexivity|].
  apply (at_then _ _ s Hr); [|done..]. intros r. apply guar_ret.
Qed.
End web.
