(* ===== verification/WebServer.v ===== *)
(** * The process of the web frontend ([frontends/webfront/src/main.rs])

    What [main] starts from, and how requests are served: each on some thread of the server,
    with the store, the blobs and the connections that all threads share, and with the label
    and the privilege that the last request left on that thread. *)

From Stdlib Require Import Ascii String.
From stdpp Require Import base tactics option list gmap strings pretty countable.
From S2P Require Import Prelude Labels Store FsTypes Objects Fs FsGuarantee.
From S2P Require Import FsMediation FsReads FsGates Syscalls Blobstore Message Paths.
From S2P Require Import Authority AuthoritySys Bootstrap Webfront WebTheorems AuthorityWeb.
Local Open Scope string_scope.
Local Open Scope list_scope.

(** ** [main] *)

Module WebCli.
Record Cli : Type := MkCli {
  tikv : option (list string);
  lmdb : option string;
  blobs : string;
  tmp : string;
  listen : string;
  secret_key : string;
  public_key : string;
  base_url : string;
  faasten_scheduler : string;
}.
End WebCli.
Abbreviation WebCli := WebCli.Cli.

Inductive StoreChoice : Type := TikvStore (pds : list string) | LmdbStore (path : string).

(** What the process serves with. *)
Record Started : Type := MkStarted {
  st_store : StoreChoice;
  st_blobs : string * string;
  st_listen : string;
  st_base_url : string;
  st_github : string * string;
  st_scheduler : string;
}.

Section main.
(** The environment, local files, the formats of keys, and whether the store can be opened and
    connections to the scheduler can be had. *)
Context (env_var : string -> option string) (local_file : string -> option bytes).
Context (private_key_ok public_key_ok : bytes -> bool).
Context (open_store : StoreChoice -> bool) (pool_builds : string -> bool).

(** [expect] and [unwrap] panic; [?] returns an error of the operating system. *)
Definition webfront_main (cli : WebCli) : outcome (result Started unit) :=
  match env_var "GITHUB_CLIENT_ID", env_var "GITHUB_CLIENT_SECRET" with
  | Some github_client_id, Some github_client_secret =>
      match local_file (WebCli.public_key cli) with
      | None => Val (Err tt)
      | Some public_key_bytes =>
          match local_file (WebCli.secret_key cli) with
          | None => Val (Err tt)
          | Some private_key_bytes =>
              let choice := match WebCli.tikv cli with
                            | Some tikv_pds => Some (TikvStore tikv_pds)
                            | None => LmdbStore <$> WebCli.lmdb cli
                            end in
              match choice with
              | None => Panic
              | Some choice =>
                  if open_store choice && private_key_ok private_key_bytes &&
                     public_key_ok public_key_bytes && pool_builds (WebCli.faasten_scheduler cli)
                  then Val (Ok (MkStarted choice (WebCli.blobs cli, WebCli.tmp cli)
                                  (WebCli.listen cli) (WebCli.base_url cli)
                                  (github_client_id, github_client_secret)
                                  (WebCli.faasten_scheduler cli)))
                  else Panic
              end
          end
      end
  | _, _ => Panic
  end.

(** The process serves exactly when everything it needs is there, with the store that the
    command line names, TiKV first. *)
Theorem webfront_main_spec cli st :
  webfront_main cli = Val (Ok st) <->
  exists id secret pub priv,
    env_var "GITHUB_CLIENT_ID" = Some id /\ env_var "GITHUB_CLIENT_SECRET" = Some secret /\
    local_file (WebCli.public_key cli) = Some pub /\ public_key_ok pub = true /\
    local_file (WebCli.secret_key cli) = Some priv /\ private_key_ok priv = true /\
    match WebCli.tikv cli with
    | Some pds => st_store st = TikvStore pds
    | None => exists path, WebCli.lmdb cli = Some path /\ st_store st = LmdbStore path
    end /\
    open_store (st_store st) = true /\ pool_builds (WebCli.faasten_scheduler cli) = true /\
    st_blobs st = (WebCli.blobs cli, WebCli.tmp cli) /\ st_listen st = WebCli.listen cli /\
    st_base_url st = WebCli.base_url cli /\ st_github st = (id, secret) /\
    st_scheduler st = WebCli.faasten_scheduler cli.
Proof.
  unfold webfront_main. split.
  - destruct (env_var _) as [id|]; [|done]. destruct (env_var _) as [secret|]; [|done].
    destruct (local_file _) as [pub|]; [|done]. destruct (local_file _) as [priv|]; [|done].
    destruct (WebCli.tikv cli) as [pds|]; [|destruct (WebCli.lmdb cli) as [path|]; [|done]];
      cbn; (destruct (_ && _) eqn:E; [|done]); intros [= <-];
      apply andb_true_iff in E as [[[E1 E2]%andb_true_iff E3]%andb_true_iff E4];
      exists id, secret, pub, priv; split_and!; try done. by exists path.
  - destruct st as [choice bl li bu gh sc].
    intros (id & secret & pub & priv & -> & -> & -> & Hpub & -> & Hpriv & Hc & Ho & Hp & E).
    cbn in E, Ho, Hc. destruct E as (-> & -> & -> & -> & ->).
    destruct (WebCli.tikv cli) as [pds|].
    + subst choice. by rewrite Ho, Hpub, Hpriv, Hp.
    + destruct Hc as (path & -> & ->). cbn. by rewrite Ho, Hpub, Hpriv, Hp.
Qed.
End main.

(** ** Serving *)

Section serving.
Context {St C N : Type} `{BS : !BackingStore St} `{L : !LabelOps} `{SD : !SerdeOps}.
Context `{DG : DigestOps} `{HX : !HexOps} `{CN : !Conn C} `{W : !WebLib} `{PV : !Providers N}.
Context `{MQ : !Message Message.Request} `{MS : !Message Message.Response}.
Context `{MT : !Message TaskReturn}.
Context (base_url client_id client_secret : string) (gate_fuel : nat).

(** What the clones of the application share, and the thread-local variables of each thread:
    its label and its privilege. *)
Record Server : Type := MkServer {
  shared : App St C N;
  locals : gmap nat (Buckle * Component);
}.

(** [thread_local!]: the values a thread starts with. *)
Definition fresh_locals : Buckle * Component := (public, dc_true).

Definition thread_app (t : nat) (s : Server) : App St C N :=
  let '(l, p) := default fresh_locals (locals s !! t) in
  set_app_fs (set_privilege p (set_label l (fs (shared s)))) (shared s).

(** A handler that panics is logged, and the server answers in its place. *)
Context (internal_error : Response).

(** [start_server]'s closure, for a request that arrives on the thread [t]. *)
Definition serve_request (t : nat) (request : Request) (s : Server) : Response * Server :=
  let '(o, app) := handle base_url client_id client_secret gate_fuel request (thread_app t s) in
  (match o with Val r => r | _ => internal_error end,
   MkServer app (<[t := (current_label (fs app), thread_privilege (fs app))]> (locals s))).

Fixpoint serve_requests (rs : list (nat * Request)) (s : Server) : list Response * Server :=
  match rs with
  | [] => ([], s)
  | (t, request) :: rs =>
      let '(r, s1) := serve_request t request s in
      let '(l, s2) := serve_requests rs s1 in (r :: l, s2)
  end.
End serving.

(** ** Sessions within an authority *)

Section sessions.
Context {St C N : Type} `{BW : BackingStoreLaws St} `{LW : LabelLaws} `{SW : SerdeLaws}.
Context `{DG : DigestOps} `{HX : !HexOps} `{CN : !Conn C} `{W : !WebLib} `{PV : !Providers N}.
Context `{MQ : !Message Message.Request} `{MS : !Message Message.Response}.
Context `{MT : !Message TaskReturn} `{HD : !Heard C}.
Context (base_url client_id client_secret : string) (gate_fuel : nat).
Context (internal_error : Response) (a : Component).

Local Abbreviation serve := (serve_request (St := St) (C := C) (N := N)
  base_url client_id client_secret gate_fuel internal_error).
Implicit Types s : Server (St := St) (C := C) (N := N).

Definition threads_modest s : Prop :=
  map_Forall (fun _ lp => Implies a (integrity (lp : Buckle * Component).1)) (locals s).

Definition HeldServer s s' : Prop :=
  quiet (fs (shared s)) -> closed a (view (fs (shared s))) -> threads_modest s ->
  quiet (fs (shared s')) /\ threads_modest s' /\
  within a (view (fs (shared s))) (view (fs (shared s'))) /\
  told a (conn (shared s)) (conn (shared s')).

#[local] Instance HeldServer_preorder : PreOrder HeldServer.
Proof.
  split.
  - intros s Hq Hc Ht. split_and!; try done; reflexivity.
  - intros s1 s2 s3 H12 H23 Hq Hc Ht. destruct (H12 Hq Hc Ht) as (Hq2 & Ht2 & Hw2 & To2).
    destruct (H23 Hq2) as (Hq3 & Ht3 & Hw3 & To3); [by eapply within_closed|done|].
    split; [done|]. split; [done|]. by split; etrans.
Qed.

Lemma thread_app_modest t s : threads_modest s -> modest a (fs (thread_app t s)).
Proof.
  intros Ht. unfold thread_app. destruct (locals s !! t) as [[l p]|] eqn:E; cbn.
  - by apply (Ht t (l, p)).
  - by apply modest_public.
Qed.

Lemma serve_request_held t request s :
  request_of_authority base_url a (thread_app t s) request -> HeldServer s (serve t request s).2.
Proof.
  intros Hr Hq Hc Ht. unfold serve_request.
  assert (E : view (fs (thread_app t s)) = view (fs (shared s)) /\
              quiet (fs (thread_app t s)) /\ conn (thread_app t s) = conn (shared s)).
  { unfold thread_app. by destruct (default _ _). }
  destruct E as (Ev & Eq & Ec).
  pose proof (handle_within base_url client_id client_secret gate_fuel a request (thread_app t s)
    Eq (thread_app_modest t s Ht)) as Hh.
  rewrite Ev, Ec in Hh. specialize (Hh Hc Hr).
  destruct (handle _ _ _ _ request _) as [o app]. cbn in *. destruct Hh as (Hq' & Hm & Hw & To).
  split_and!; try done. by apply map_Forall_insert_2.
Qed.

(** Every request acts for [a] when its turn comes. *)
Fixpoint requests_of_authority (rs : list (nat * Request)) s : Prop :=
  match rs with
  | [] => True
  | (t, request) :: rs =>
      request_of_authority base_url a (thread_app t s) request /\
      requests_of_authority rs (serve t request s).2
  end.

(** C17: sessions with the frontend stay within their authority.  Any sequence of requests for which
    everything that they may act for is of [a], on whatever threads, with whatever labels and
    privileges earlier requests left there, and even if handlers panic, changes no object whose
    integrity [a] does not imply, leaves no gate or service with a privilege that [a] does not
    imply, and asks the scheduler only for invocations whose privilege [a] implies. *)
Theorem frontend_sessions_within rs (s : Server) :
  quiet (fs (shared s)) -> closed a (view (fs (shared s))) -> threads_modest s ->
  requests_of_authority rs s ->
  let s' := (serve_requests base_url client_id client_secret gate_fuel internal_error rs s).2 in
  quiet (fs (shared s')) /\ within a (view (fs (shared s))) (view (fs (shared s'))) /\
  told a (conn (shared s)) (conn (shared s')).
Proof.
  intros Hq Hc Ht Hr.
  assert (H : HeldServer s (serve_requests base_url client_id client_secret gate_fuel internal_error rs s).2).
  { clear Hq Hc Ht. revert s Hr. induction rs as [|[t request] rs IH]; intros s Hr; [reflexivity|].
    destruct Hr as [H1 H2]. pose proof (serve_request_held t request s H1) as Hs.
    cbn [serve_requests]. destruct (serve t request s) as [r s1]. specialize (IH s1 H2).
    destruct (serve_requests _ _ _ _ _ rs s1) as [l s2]. by etrans. }
  destruct (H Hq Hc Ht) as (Hq' & _ & Hw & To). done.
Qed.
End sessions.
