(* ===== verification/Integrity.v ===== *)
(** * Integrity, end to end

    The parts of the system that act for callers, put together: the frontend that takes their
    requests, the invocations that the scheduler has accepted, the functions that workers start
    for these, and the system calls of the functions, all on one store.  An authority [a] that
    controls callers and functions cannot change what is guarded by the integrity of others,
    however its requests, invocations and system calls are interleaved with each other and with
    what the rest of the world does.  A system call and a request are steps that access the
    store alone; between them anything may happen. *)

From stdpp Require Import base tactics option list gmap strings countable.
From S2P Require Import Prelude Labels Store FsTypes Objects Fs FsGuarantee.
From S2P Require Import FsMediation FsReads FsGates Syscalls Blobstore Message.
From S2P Require Import SysServer SysGuarantee SysTheorems SysSafety Worker.
From S2P Require Import Authority AuthoritySys AuthorityTask Webfront WebTheorems AuthorityWeb.

Section system.
Context {St C N Ch P : Type} `{BW : BackingStoreLaws St} `{LW : LabelLaws} `{SW : SerdeLaws}.
Context `{DG : DigestOps} `{HX : !HexOps} `{CN : !Conn C} `{HC : !HttpClient N}.
Context `{SC : !SyscallChannel Ch} `{MR : !Message pb.Reply} `{W : !WebLib} `{PV : !Providers P}.
Context `{MQ : !Message Message.Request} `{MS : !Message Message.Response}.
Context `{MT : !Message TaskReturn} `{HD : !Heard C}.
Context (base_url client_id client_secret : string) (gate_fuel : nat).
Context (a : Component).

Local Abbreviation Fn := (SysState St C N Ch).
Local Abbreviation Front := (App St C P).

(** The store, the invocations that have reached the scheduler, the functions that run and the
    threads of the frontend. *)
Record System : Type := MkSystem {
  store : St;
  accepted : list LabeledInvoke;
  functions : list Fn;
  fronts : list Front;
}.

(** A thread that goes on with the store as it is now. *)
Definition at_store (m : St) (w : World St) : World St :=
  MkWorld m [] (entropy w) (current_label w) (thread_privilege w).
Definition resume (m : St) (s : Fn) : Fn := set_fs (at_store m (SysServer.fs s)) s.
Definition resume_front (m : St) (s : Front) : Front := set_app_fs (at_store m (fs s)) s.

(** The invocations among the requests written between two states of a connection. *)
Definition invoke_in (q : Message.Request) : option LabeledInvoke :=
  match request_of q with Some (LabeledInvokeReq li) => Some li | _ => None end.
Definition submitted (o o' : option C) : list LabeledInvoke :=
  match o, o' with
  | Some c, Some c' => omap invoke_in (skipn (length (heard c)) (heard c'))
  | _, _ => []
  end.

Definition ready (o : option C) : Prop := match o with Some c => settled c | None => True end.

(** The function goes on if its call was answered, and is gone if it has responded or its
    processor panicked or failed. *)
Definition goes_on (i : nat) (s' : Fn)
    (o : outcome (result (option TaskReturn) SyscallProcessorError)) (l : list Fn) : list Fn :=
  match o with Val (Ok None) => <[i := s']> l | _ => delete i l end.

(** What happens outside the file system to a function: its channel, the network, the blobs and
    what the scheduler sends. *)
Definition outside (s s' : Fn) : Prop :=
  SysServer.fs s' = SysServer.fs s /\ dents s' = dents s /\ max_dent_id s' = max_dent_id s /\
  blobs s' = blobs s /\ create_blobs s' = create_blobs s /\ max_blob_id s' = max_blob_id s /\
  ready (sched_conn s').
Definition outside_front (s s' : Front) : Prop := fs s' = fs s /\ ready (conn s').

(** The steps of [a]. *)
Inductive own (y : System) : System -> Prop :=
  (** a worker starts the function of an accepted invocation *)
  | own_start li label privilege w bs c http ch :
      li ∈ accepted y -> starts li label privilege -> ready c ->
      own y (MkSystem (store y) (accepted y)
               (functions y ++ [new (at_store (store y) w) bs c http ch label privilege]) (fronts y))
  (** a function makes a system call *)
  | own_call i s sc f o s' :
      functions y !! i = Some s -> do_syscall f sc (resume (store y) s) = (o, s') ->
      own y (MkSystem (backing (SysServer.fs s'))
               (accepted y ++ submitted (sched_conn s) (sched_conn s'))
               (goes_on i s' o (functions y)) (fronts y))
  (** the frontend handles a request of [a] *)
  | own_request i s request s' :
      fronts y !! i = Some s -> request_of_authority base_url a s request ->
      (handle base_url client_id client_secret gate_fuel request (resume_front (store y) s)).2 = s' ->
      own y (MkSystem (backing (fs s')) (accepted y ++ submitted (conn s) (conn s'))
               (functions y) (<[i := s']> (fronts y)))
  | own_outside i s s' :
      functions y !! i = Some s -> outside s s' ->
      own y (MkSystem (store y) (accepted y) (<[i := s']> (functions y)) (fronts y))
  | own_outside_front i s s' :
      fronts y !! i = Some s -> outside_front s s' ->
      own y (MkSystem (store y) (accepted y) (functions y) (<[i := s']> (fronts y))).

(** Whatever the others do: any change of the store that does not open a way out of [a], and
    invocations of what [a] may do. *)
Inductive others (y : System) : System -> Prop :=
  | others_step m lis :
      bs_ok m -> closed a (bs_view m) -> Forall (authorized_invoke a) lis ->
      others y (MkSystem m (accepted y ++ lis) (functions y) (fronts y)).

(** ** The invariant *)

Record sound (y : System) : Prop := {
  sound_store : bs_ok (store y);
  sound_closed : closed a (bs_view (store y));
  sound_accepted : Forall (authorized_invoke a) (accepted y);
  sound_functions :
    Forall (fun s : Fn => humble a (SysServer.fs s) /\ ready (sched_conn s)) (functions y);
  sound_fronts : Forall (fun s : Front => modest a (fs s) /\ ready (conn s)) (fronts y);
}.

Lemma told_ready o o' : ready o -> told a o o' -> ready o'.
Proof. destruct o, o'; cbn; try done. intros H1 H2. by apply H2. Qed.

Lemma told_submitted o o' :
  ready o -> told a o o' -> Forall (authorized_invoke a) (submitted o o').
Proof.
  destruct o as [c|], o' as [c'|]; cbn; try done. intros Hs Ht.
  destruct (Ht Hs) as (_ & qs & -> & Hqs). rewrite drop_app_length.
  induction Hqs as [|q qs Hq Hqs IH]; cbn; [constructor|].
  destruct (invoke_in q) as [li|] eqn:E; [|done]. constructor; [|done].
  unfold invoke_in in E. destruct (request_of q) as [[]|] eqn:Eq; try done. injection E as ->.
  by apply Hq.
Qed.

Lemma resume_quiet m (w : World St) : bs_ok m -> quiet (at_store m w).
Proof. done. Qed.

(** One system call of a function of [a]. *)
Lemma call_sound y i s sc f o s' :
  sound y -> functions y !! i = Some s -> do_syscall f sc (resume (store y) s) = (o, s') ->
  bs_ok (backing (SysServer.fs s')) /\
  within a (bs_view (store y)) (bs_view (backing (SysServer.fs s'))) /\
  humble a (SysServer.fs s') /\ ready (sched_conn s') /\
  Forall (authorized_invoke a) (submitted (sched_conn s) (sched_conn s')).
Proof.
  intros [Hb Hc _ Hf _] Hi E.
  destruct (proj1 (Forall_lookup _ _) Hf i s Hi) as [[Hm Hp] Hr].
  destruct (do_syscall_held a f sc (resume (store y) s)) as (Hq' & Hh' & Hw & Ht); [done..|].
  rewrite E in *. cbn in Hq', Hh', Hw, Ht. split_and!; try done.
  - apply Hq'.
  - by eapply told_ready.
  - by apply told_submitted.
Qed.

(** One request of [a]. *)
Lemma request_sound y i s request s' :
  sound y -> fronts y !! i = Some s -> request_of_authority base_url a s request ->
  (handle base_url client_id client_secret gate_fuel request (resume_front (store y) s)).2 = s' ->
  bs_ok (backing (fs s')) /\ within a (bs_view (store y)) (bs_view (backing (fs s'))) /\
  modest a (fs s') /\ ready (conn s') /\
  Forall (authorized_invoke a) (submitted (conn s) (conn s')).
Proof.
  intros [Hb Hc _ _ Hf] Hi Hp <-.
  destruct (proj1 (Forall_lookup _ _) Hf i s Hi) as [Hm Hr].
  destruct (handle_within base_url client_id client_secret gate_fuel a request
    (resume_front (store y) s)) as (Hq' & Hm' & Hw & Ht); [done..|].
  split_and!; try done.
  - apply Hq'.
  - by eapply told_ready.
  - by apply (told_submitted (conn (resume_front (store y) s))).
Qed.

Lemma Forall_goes_on (Q : Fn -> Prop) i s' o l : Forall Q l -> Q s' -> Forall Q (goes_on i s' o l).
Proof.
  intros Hl Hs. unfold goes_on. destruct o as [[[tr|]|e]| |];
    solve [by apply Forall_insert | by apply Forall_delete].
Qed.

Lemma own_within y y' : sound y -> own y y' -> within a (bs_view (store y)) (bs_view (store y')).
Proof.
  intros Hy H. destruct H as [li label privilege w bs c http ch|i s sc f o s' Hi E|i s request s' Hi Hp E|
    i s s' Hi Ho|i s s' Hi Ho]; cbn [store]; try reflexivity.
  - by eapply (call_sound y i s sc f o s').
  - by eapply (request_sound y i s request s').
Qed.

Lemma own_sound y y' : sound y -> own y y' -> sound y'.
Proof.
  intros Hy H. pose proof (own_within y y' Hy H) as Hw. pose proof Hy as [Hb Hc Ha Hf Hr].
  destruct H as [li label privilege w bs c http ch Hin Hs Hrc|i s sc f o s' Hi E|i s request s' Hi Hp E|
    i s s' Hi (E1 & _ & _ & _ & _ & _ & E2)|i s s' Hi [E1 E2]]; cbn [store] in Hw.
  - split; try done. apply Forall_app. split; [done|]. constructor; [|done]. split; [|done].
    apply new_humble. eapply authorized_starts; [|exact Hs].
    apply list_elem_of_lookup in Hin as [j Hj]. by apply (proj1 (Forall_lookup _ _) Ha j).
  - destruct (call_sound y i s sc f o s' Hy Hi E) as (Hb' & _ & Hh & Hrd & Hsub).
    split; try done.
    + by eapply within_closed.
    + by apply Forall_app.
    + by apply Forall_goes_on.
  - destruct (request_sound y i s request s' Hy Hi Hp E) as (Hb' & _ & Hm & Hrd & Hsub).
    split; try done.
    + by eapply within_closed.
    + by apply Forall_app.
    + by apply Forall_insert.
  - split; try done. apply Forall_insert; [done|]. rewrite E1. split; [|done].
    by destruct (proj1 (Forall_lookup _ _) Hf i s Hi).
  - split; try done. apply Forall_insert; [done|]. rewrite E1. split; [|done].
    by destruct (proj1 (Forall_lookup _ _) Hr i s Hi).
Qed.

Lemma others_sound y y' : sound y -> others y y' -> sound y'.
Proof.
  intros [Hb Hc Ha Hf Hr] [m lis Hb' Hc' Hl]. split; try done. by apply Forall_app.
Qed.

(** Anyone's step; the others leave the object under [k] alone. *)
Definition step_sparing (k : bytes) (y y' : System) : Prop :=
  own y y' \/ (others y y' /\ bs_view (store y') !! k = bs_view (store y) !! k).

(** C1: integrity of the whole system.  Whatever requests, invocations and system calls an
    authority [a] makes, in any order and interleaved with anything that the rest of the world
    does, an object whose integrity [a] does not imply stays what it is until someone else
    changes it; and every invocation that [a] brings about carries a privilege that [a]
    implies, so that the functions it starts are no more than [a].  This holds for as long as
    the others open no gate or service that gives those of [a] more than they have ([closed]). *)
Theorem integrity_end_to_end y y' k v :
  sound y -> rtc (step_sparing k) y y' -> bs_view (store y) !! k = Some v -> guarded a v ->
  bs_view (store y') !! k = Some v /\ sound y'.
Proof.
  intros Hy Hr Hk Hg. induction Hr as [y|y y1 y' [Ho|[Ho Hs]] _ IH]; [done| |]; apply IH.
  - by eapply own_sound.
  - by eapply within_guarded, Hg; [apply own_within|].
  - by eapply others_sound.
  - by rewrite Hs.
Qed.
End system.
