(* ===== verification/AdminTools.v ===== *)
(** * The administrator's tool ([snapfaas/bins/admin_fstools/main.rs])

    One subcommand per run, with the authority of [faasten]: bootstrapping, updating images,
    looking at the file system and changing it, and issuing keys and tokens.  The local file
    system, the generation of keys, the signature with a private key and the time are
    parameters.  What is printed is the result, [Output]; [Err] is an error that [main]
    returns. *)

From Stdlib Require Import Ascii String.
From stdpp Require Import base tactics option list gmap strings countable.
From S2P Require Import Prelude Labels Store FsTypes Objects Fs FsGuarantee.
From S2P Require Import FsMediation FsReads Paths Blobstore Bootstrap Webfront.
Local Open Scope string_scope.
Local Open Scope list_scope.

Module Action.
Inductive Action : Type :=
  | Bootstrap (yaml : string)
  | UpdateFsutil (path : string)
  | UpdatePython (path : string)
  | List (path : string)
  | FacetedList (path : string)
  | Read (path : string)
  | Delete (path : string)
  | CreateBlob (src dest label : string)
  | Mkdir (path label : string)
  | Jwt (component secret_key : string)
  | GenKeypair (private_key public_key : string).
End Action.
Abbreviation Action := Action.Action.

Inductive Output : Type :=
  | Nothing
  | Entries (es : gmap string DirEntry)
  | Facets (ls : list Buckle)
  | Data (d : bytes)
  | Failed (e : FsError)
  | Printed (ok : bool)
  | PrintedTwo (private_ok public_ok : bool)
  | Token (t : string).

Section admin.
Context {St : Type} `{BS : !BackingStore St} `{L : !LabelOps} `{SD : !SerdeOps}.
Context `{DG : DigestOps} `{HX : !HexOps}.
Context (local_file : string -> option bytes) (read_config : string -> option Config).
(** The size of the buffer of [std::io::copy]. *)
Context (copy_buffer : nat).
(** [Buckle::top()] *)
Context (buckle_top : Buckle).
(** The private and the public key of a new pair, in PEM. *)
Context (generate_ec_keys : option (bytes * bytes)).
(** The private key in a PEM text, and its signature of claims. *)
Context (private_key_from_pem : bytes -> option (Claims -> option string)).
Context (now : Z).

Local Abbreviation M := (SM (World St)).
Local Abbreviation MB := (SM (Boot St)).

Definition is_ok {A E} (r : result A E) : bool := match r with Ok _ => true | Err _ => false end.
(** [Option::unwrap] of a parsed label, and [Path::parse(..).unwrap()] *)
Definition parse_label (s : string) : M Buckle := unwrap (buckle_parse s).
Definition parse_path (s : string) : M Path := r ← Path_parse s; expect r.

Definition list_action (path : string) : M Output :=
  _ ← set_my_privilge FAASTEN_PRIV;
  path ← parse_path path;
  r ← list_dir path;
  mret (match r with Ok entries => Entries entries | Err e => Failed e end).

Definition faceted_list_action (path : string) : M Output :=
  _ ← set_my_privilge FAASTEN_PRIV;
  path ← parse_path path;
  r ← list_faceted path buckle_top;
  mret (match r with Ok entries => Facets (buckle_iter (dom entries)) | Err e => Failed e end).

Definition read_action (path : string) : M Output :=
  _ ← set_my_privilge FAASTEN_PRIV;
  path ← parse_path path;
  r ← read_file path;
  mret (match r with Ok data => Data data | Err e => Failed e end).

Definition delete_action (path : string) : M Output :=
  _ ← set_my_privilge FAASTEN_PRIV;
  path ← parse_path path;
  dir ← unwrap (Path_parent path);
  name ← unwrap (Path_file_name path);
  r ← rm dir name;
  mret (Printed (is_ok r)).

Definition mkdir_action (path label : string) : M Output :=
  _ ← set_my_privilge FAASTEN_PRIV;
  dest ← parse_path path;
  label ← parse_label label;
  new_dir ← create_directory label;
  dir ← unwrap (Path_parent dest);
  name ← unwrap (Path_file_name dest);
  r ← link dir name new_dir;
  mret (Printed (is_ok r)).

(** [std::io::copy] into a new blob: buffer after buffer, each written whole, until a write
    fails.  The blob is what has been written by then; the error is discarded. *)
Fixpoint write_buffer (fuel : nat) (b : NewBlob) (data : bytes) : SM Blobstore (bool * NewBlob) :=
  match data with
  | [] => mret (true, b)
  | _ =>
      match fuel with
      | O => nofuel
      | S fuel =>
          r ← write b data;
          match r with
          | Ok (n, b') => if decide (n = O) then mret (false, b') else write_buffer fuel b' (skipn n data)
          | Err _ => mret (false, b)
          end
      end
  end.
Fixpoint io_copy (fuel : nat) (b : NewBlob) (data : bytes) : SM Blobstore NewBlob :=
  match data with
  | [] => mret b
  | _ =>
      match fuel with
      | O => nofuel
      | S fuel =>
          '(ok, b') ← write_buffer (S (length data)) b (take copy_buffer data);
          if (ok : bool) then io_copy fuel b' (skipn copy_buffer data) else mret b'
      end
  end.

Definition create_blob_action (src dest label : string) : MB (result Output unit) :=
  _ ← in_fs (set_my_privilge FAASTEN_PRIV);
  match local_file src with
  | None => mret (Err tt)
  | Some data =>
      dest ← in_fs (parse_path dest);
      label ← in_fs (parse_label label);
      b ← in_blobs create;
      blob ← Bootstrap.expect b;
      blob ← in_blobs (io_copy (S (length data)) blob data);
      b ← in_blobs (save blob);
      blob ← Bootstrap.expect b;
      dir ← unwrap (Path_parent dest);
      file_name ← unwrap (Path_file_name dest);
      r ← in_fs (create_or_update_blob dir file_name label (name blob));
      mret (Ok (Printed (is_ok r)))
  end.

(** One of the two files of a key pair. *)
Definition store_key (path : Path) (label : Buckle) (pem : bytes) : M bool :=
  dir ← unwrap (Path_parent path);
  file_name ← unwrap (Path_file_name path);
  r ← create_or_update_file dir file_name label pem;
  mret (is_ok r).

Definition gen_keypair_action (private_key public_key : string) : M (result Output unit) :=
  match generate_ec_keys with
  | None => mret (Err tt)
  | Some (private_key_pem, public_key_pem) =>
      _ ← set_my_privilge FAASTEN_PRIV;
      private_dest ← parse_path private_key;
      private_label ← parse_label "faasten,faasten";
      r1 ← store_key private_dest private_label private_key_pem;
      public_dest ← parse_path public_key;
      public_label ← parse_label "T,faasten";
      r2 ← store_key public_dest public_label public_key_pem;
      mret (Ok (PrintedTwo r1 r2))
  end.

Definition jwt_action (component secret_key : string) : M (result Output unit) :=
  match local_file secret_key ≫= private_key_from_pem with
  | None => mret (Err tt)
  | Some sign =>
      l ← parse_label (component +:+ ",T");
      t ← unwrap (sign (MkClaims "ES256" now (wrap_u64 (now + 600)) (secrecy l)));
      mret (Ok (Token t))
  end.

(** The [match] of [main]. *)
Definition run_action (a : Action) : MB (result Output unit) :=
  match a with
  | Action.Bootstrap yaml =>
      r ← prepare_fs local_file read_config yaml; _ ← Bootstrap.expect r; mret (Ok Nothing)
  | Action.UpdatePython path => _ ← update_python local_file path; mret (Ok Nothing)
  | Action.UpdateFsutil path => _ ← in_fs update_fsutil; mret (Ok Nothing)
  | Action.List path => o ← in_fs (list_action path); mret (Ok o)
  | Action.FacetedList path => o ← in_fs (faceted_list_action path); mret (Ok o)
  | Action.Read path => o ← in_fs (read_action path); mret (Ok o)
  | Action.Delete path => o ← in_fs (delete_action path); mret (Ok o)
  | Action.Mkdir path label => o ← in_fs (mkdir_action path label); mret (Ok o)
  | Action.CreateBlob src dest label => create_blob_action src dest label
  | Action.GenKeypair private_key public_key => in_fs (gen_keypair_action private_key public_key)
  | Action.Jwt component secret_key => in_fs (jwt_action component secret_key)
  end.
End admin.

(** ** What the administrator's authority can do *)

Section confined.
Context {St : Type} `{BW : BackingStoreLaws St} `{LW : LabelLaws} `{SW : SerdeLaws}.
Context `{DG : DigestOps} `{HX : !HexOps}.
Context (local_file : string -> option bytes) (read_config : string -> option Config).
Context (copy_buffer : nat) (buckle_top : Buckle) (generate_ec_keys : option (bytes * bytes)).
Context (private_key_from_pem : bytes -> option (Claims -> option string)) (now : Z).

Local Abbreviation run := (run_action local_file read_config copy_buffer buckle_top
  generate_ec_keys private_key_from_pem now).
Local Abbreviation G := (Guar (boot_rel (St := St) Mediated)).

#[local] Existing Instance boot_preorder.

(** What happened between two states is within the authority of [faasten]. *)
Definition within (s s' : Boot St) : Prop :=
  quiet (boot_fs s') /\
  store_ok (current_label (boot_fs s)) FAASTEN_PRIV (view (boot_fs s)) (view (boot_fs s')).

Lemma within_refl s : quiet (boot_fs s) -> within s s.
Proof. intros Hq. split; [done|apply store_ok_refl]. Qed.

(** Logging in as [faasten] and then staying so. *)
Lemma login_within {A : Type} (k : SM (Boot St) A) s :
  quiet (boot_fs s) -> G k -> within s ((_ ← in_fs (set_my_privilge FAASTEN_PRIV); k) s).2.
Proof.
  intros Hq Hk. set (s1 := MkBoot (set_privilege FAASTEN_PRIV (boot_fs s)) (boot_blobs s)).
  rewrite (bind_step (in_fs (set_my_privilge FAASTEN_PRIV)) _ s tt s1) by done.
  destruct (Hk s1 Hq) as (Hq' & _ & Hs). by split.
Qed.
Lemma login_fs {A : Type} (k : SM (World St) A) s :
  quiet (boot_fs s) -> Guar Mediated k ->
  within s (in_fs (_ ← set_my_privilge FAASTEN_PRIV; k) s).2.
Proof.
  intros Hq Hk. unfold in_fs, zoom.
  rewrite (bind_step (set_my_privilge FAASTEN_PRIV) _ (boot_fs s) tt (set_privilege FAASTEN_PRIV (boot_fs s)))
    by done.
  destruct (Hk (set_privilege FAASTEN_PRIV (boot_fs s)) Hq) as (Hq' & _ & Hs).
  by destruct (k _).
Qed.
(** Step by step, up to what comes after the last step as [faasten]. *)
Lemma login_step {A X : Type} (m : SM (Boot St) A) (f : A -> SM (Boot St) X) s s2 :
  let s1 := MkBoot (set_privilege FAASTEN_PRIV (boot_fs s)) (boot_blobs s) in
  quiet (boot_fs s) -> boot_rel Mediated s1 s2 -> G m ->
  (forall a s3, boot_rel Mediated s1 s3 -> within s (f a s3).2) ->
  within s ((m ≫= f) s2).2.
Proof.
  intros s1 Hq H12 Hm Hf. specialize (Hm s2). unfold mbind, SM_bind.
  assert (H13 : boot_rel Mediated s1 (m s2).2) by (unfold boot_rel in *; by etrans).
  destruct (m s2) as [[a| |] s3]; cbn [snd] in *; [by apply Hf|..];
    destruct (H13 Hq) as (Hq' & _ & Hs); by split.
Qed.

Lemma within_then {A X : Type} (m : SM (Boot St) A) (f : A -> X) s :
  within s (m s).2 -> within s ((o ← m; mret (f o)) s).2.
Proof. unfold mbind, SM_bind. by destruct (m s) as [[?| |] ?]. Qed.

Lemma g_parse_path s : Guar (S := World St) Mediated (parse_path s).
Proof.
  unfold parse_path. apply guar_bind; [by apply (g_Path_parse Mediated)|]. intros r.
  by apply (g_expect_fs Mediated).
Qed.
Lemma g_parse_label s : Guar (S := World St) Mediated (parse_label s).
Proof. apply guar_unwrap. Qed.
#[local] Hint Extern 1 (FsPrimitives _) => apply _ : guar.
#[local] Hint Resolve g_parse_path g_parse_label g_read_path g_list_dir g_link g_link_file : guar.
#[local] Hint Extern 1 (Guar (boot_rel Mediated) _) =>
  first [ apply (g_in_blobs Mediated) | apply (g_expect_boot Mediated) | apply (g_localfile2blob local_file Mediated) ] : guar.
#[local] Hint Extern 1 (Guar Mediated _) =>
  first [ apply (g_expect_fs Mediated) | apply (g_image_base Mediated) | apply (g_update_blob Mediated) ]
  : guar.
#[local] Hint Extern 1 (Guar _ (in_fs _)) => apply g_in_fs; solve_guar : guar.

Lemma g_rm dir n : Guar (S := World St) Mediated (rm dir n).
Proof. unfold rm. solve_guar. Qed.
Lemma g_list_faceted p c : Guar (S := World St) Mediated (list_faceted p c).
Proof. unfold list_faceted. solve_guar. Qed.
Lemma g_read_file p : Guar (S := World St) Mediated (read_file p).
Proof. unfold read_file. solve_guar. Qed.
Lemma g_replace_blob p b : Guar (S := World St) Mediated (replace_blob p b).
Proof. unfold replace_blob. solve_guar. Qed.
Lemma g_update_file p n l d : Guar (S := World St) Mediated (create_or_update_file p n l d).
Proof. unfold create_or_update_file. solve_guar. Qed.
#[local] Hint Resolve g_rm g_list_faceted g_read_file g_replace_blob g_update_file : guar.
Lemma g_store_key p l d : Guar (S := World St) Mediated (store_key p l d).
Proof. unfold store_key. solve_guar. Qed.
#[local] Hint Resolve g_store_key : guar.

(** C20: confinement.  Apart from bootstrapping no run of the tool, whatever its arguments, the
    state of the file system and its outcome, changes, relabels or deletes what [faasten] may
    not write, or makes a gate or a service with a privilege that [faasten] does not have. *)
Theorem admin_confined a s :
  quiet (boot_fs s) -> (forall yaml, a <> Action.Bootstrap yaml) -> within s (run a s).2.
Proof.
  intros Hq Ha. destruct a; cbn [run_action].
  - by destruct (Ha yaml).
  - split; [exact Hq|apply store_ok_refl].
  - apply within_then. unfold update_python.
    rewrite (bind_step (in_fs (set_my_privilge FAASTEN_PRIV)) _ s tt
      (MkBoot (set_privilege FAASTEN_PRIV (boot_fs s)) (boot_blobs s))) by done.
    assert (H0 : boot_rel Mediated (MkBoot (set_privilege FAASTEN_PRIV (boot_fs s)) (boot_blobs s))
      (MkBoot (set_privilege FAASTEN_PRIV (boot_fs s)) (boot_blobs s))) by (unfold boot_rel; reflexivity).
    apply login_step; [done|exact H0|solve_guar|]. intros b s1 H1.
    apply login_step; [done|exact H1|solve_guar|]. intros base s2 H2.
    apply login_step; [done|exact H2|solve_guar|]. intros r s3 H3.
    apply login_step; [done|exact H3|solve_guar|]. intros u s4 H4.
    destruct (H4 Hq) as (Hq' & _ & Hs). by split.
  - apply within_then, login_fs; [done|]. solve_guar.
  - apply within_then, login_fs; [done|]. solve_guar.
  - apply within_then, login_fs; [done|]. solve_guar.
  - apply within_then, login_fs; [done|]. solve_guar.
  - apply login_within; [done|]. solve_guar.
  - apply within_then, login_fs; [done|]. solve_guar.
  - unfold jwt_action. destruct (local_file _ ≫= _) as [sign|]; [|by (split; [exact Hq|apply store_ok_refl])].
    unfold parse_label. destruct (buckle_parse _); [|by (split; [exact Hq|apply store_ok_refl])].
    unfold unwrap, in_fs, zoom. cbn. unfold mbind, SM_bind. cbn.
    destruct (sign {| alg := _ |}); (split; [exact Hq|apply store_ok_refl]).
  - unfold gen_keypair_action. destruct generate_ec_keys as [[k1 k2]|]; [|by (split; [exact Hq|apply store_ok_refl])].
    apply login_fs; [done|]. solve_guar.
Qed.
End confined.

(** ** Uploads and tokens *)

Section uploads.
Context `{DL : DigestLaws} `{HL : HexLaws}.

(** The new blob [b'] holds [b] and the first [k] bytes of [data]. *)
Definition holds_prefix (b b' : NewBlob) (data : bytes) (k : nat) : Prop :=
  consistent b' /\ file b' = file b ++ take k data.

Lemma holds_prefix_step b b1 b' data n k :
  file b1 = file b ++ take n data -> holds_prefix b1 b' (skipn n data) k ->
  holds_prefix b b' data (n + k).
Proof.
  intros Hf [Hc Hk]. split; [done|]. by rewrite Hk, Hf, <- app_assoc, take_take_drop.
Qed.

(** One write: a failure, or a prefix. *)
Lemma write_cases b data s :
  consistent b -> exists r s', write b data s = (Val r, s') /\ disk s' = disk s /\
    (forall n b', r = Ok (n, b') -> consistent b' /\ file b' = file b ++ take n data /\ n <= length data) /\
    (io s = [] -> io s' = [] /\ exists b', r = Ok (length data, b')).
Proof.
  intros Hc. destruct (write b data s) as [o s'] eqn:E. pose proof E as E0.
  unfold write in E. destruct (next_io_run s) as (e & s1 & E1 & Hd).
  rewrite (bind_step _ _ _ _ _ E1) in E. injection E as <- <-.
  eexists _, s1. split; [done|]. split; [done|]. split.
  - intros n b' Hr. rewrite Hr in E0. destruct (consistent_write _ _ _ _ _ _ Hc E0) as (? & ? & ? & _).
    done.
  - intros Hio. unfold next_io in E1. rewrite Hio in E1. injection E1 as <- <-. split; [done|].
    cbn. eauto.
Qed.

Lemma write_buffer_prefix fuel b data s :
  consistent b -> length data < fuel ->
  exists ok b' s' k, write_buffer fuel b data s = (Val (ok, b'), s') /\ disk s' = disk s /\
    holds_prefix b b' data k /\ (ok = true -> k = length data) /\
    (io s = [] -> io s' = [] /\ ok = true).
Proof.
  revert b data s; induction fuel as [|fuel IH]; intros b data s Hc Hl; [lia|].
  destruct data as [|x data].
  { exists true, b, s, 0. split_and!; try done. split; [done|]. by rewrite app_nil_r. }
  cbn [write_buffer].
  destruct (write_cases b (x :: data) s Hc) as (r & s1 & E & Hd & Hok & Hq).
  rewrite (bind_step _ _ _ _ _ E). destruct r as [[n b1]|m].
  - destruct (Hok n b1 eq_refl) as (Hc1 & Hf1 & Hn). destruct (decide (n = 0)) as [->|Hn0].
    + exists false, b1, s1, 0. split_and!; [done..|by split|done|].
      intros Hio. destruct (Hq Hio) as (_ & b' & [=]).
    + destruct (IH b1 (skipn n (x :: data)) s1 Hc1) as (ok & b' & s' & k & E' & Hd' & Hp & Ho & Hq').
      { rewrite length_skipn. cbn in *. lia. }
      exists ok, b', s', (n + k). split_and!; [done|congruence|by eapply holds_prefix_step| |].
      * intros Hk. rewrite (Ho Hk), length_skipn. lia.
      * intros Hio. by apply Hq', Hq.
  - exists false, b, s1, 0. split_and!; try done.
    + split; [done|]. by rewrite app_nil_r.
    + intros Hio. destruct (Hq Hio) as (_ & b' & [=]).
Qed.

(** [std::io::copy] ends, and leaves a prefix of the file: all of it when no write fails. *)
Lemma io_copy_prefix buffer fuel b data s :
  0 < buffer -> consistent b -> length data < fuel ->
  exists b' s' k, io_copy buffer fuel b data s = (Val b', s') /\ disk s' = disk s /\
    holds_prefix b b' data k /\ (io s = [] -> io s' = [] /\ take k data = data).
Proof.
  intros Hb. revert b data s; induction fuel as [|fuel IH]; intros b data s Hc Hl; [lia|].
  destruct data as [|x data].
  { exists b, s, 0. split_and!; try done. split; [done|]. by rewrite app_nil_r. }
  cbn [io_copy].
  destruct (write_buffer_prefix (S (length (x :: data))) b (take buffer (x :: data)) s Hc)
    as (ok & b1 & s1 & k1 & E1 & Hd1 & [Hc1 Hf1] & Ho1 & Hq1).
  { rewrite length_take. lia. }
  rewrite (bind_step _ _ _ _ _ E1). destruct ok.
  - destruct (IH b1 (skipn buffer (x :: data)) s1 Hc1) as (b' & s' & k & E & Hd & Hp & Hq).
    { rewrite length_skipn. cbn in *. lia. }
    rewrite (Ho1 eq_refl), firstn_all in Hf1.
    exists b', s', (buffer + k). split_and!; [done|congruence|by eapply holds_prefix_step|].
    intros Hio. destruct (Hq1 Hio) as [Hio1 _]. destruct (Hq Hio1) as [? Hk]. split; [done|].
    by rewrite <- take_take_drop, Hk, take_drop.
  - exists b1, s1, (Nat.min k1 buffer). split_and!; [done|done|split; [done|]|].
    + by rewrite Hf1, take_take.
    + intros Hio. by destruct (Hq1 Hio).
Qed.

Lemma create_run s :
  exists r s', create s = (Val r, s') /\ disk s' = disk s /\
    (forall b, r = Ok b -> b = MkNewBlob d_new 0 []) /\
    (io s = [] -> io s' = [] /\ r = Ok (MkNewBlob d_new 0 [])).
Proof.
  unfold create, try_bind. destruct (os_call_run s) as (r & s1 & E & Hd).
  rewrite (bind_step _ _ _ _ _ E). destruct r as [[]|m]; eexists _, s1; (split; [done|]);
    (split; [done|]); (split; [by intros ? [= <-]|]); intros Hio;
    rewrite (os_call_quiet s Hio) in E; by simplify_eq.
Qed.

Lemma save_quiet b s : consistent b -> io s = [] -> exists blob s', save b s = (Val (Ok blob), s').
Proof.
  intros [Hd _] Hio. unfold save. rewrite Hd.
  change (hex_encode (d_finalize (d_update d_new (file b)))) with (blob_name (file b)).
  destruct (split_at_2_name (file b) s) as [p E]. rewrite (bind_step _ _ _ _ _ E). unfold try_bind.
  rewrite (bind_step _ _ _ _ _ (os_call_quiet s Hio)).
  rewrite (bind_step (modify _) _ s tt _ eq_refl).
  set (s2 := MkBlobstore _ _). assert (Hio2 : io s2 = []) by done.
  do 2 rewrite (bind_step _ _ _ _ _ (os_call_quiet s2 Hio2)). by eexists _, _.
Qed.

Context {St : Type} `{BS : !BackingStore St} `{L : !LabelOps} `{SD : !SerdeOps}.
Context (local_file : string -> option bytes) (copy_buffer : nat).

Lemma in_blobs_run {A} (m : SM Blobstore A) (s : Boot St) a b' :
  m (boot_blobs s) = (Val a, b') -> in_blobs m s = (Val a, MkBoot (boot_fs s) b').
Proof. unfold in_blobs, zoom. by intros ->. Qed.

(** Uploads.  A blob made from a local file holds a prefix of the file: all of it if no file
    operation fails, but a failed write only shortens it.  That prefix is what the blob store
    keeps under its digest and what [dest] then names; the tool panics instead only when the
    blob could not be made or saved. *)
Theorem create_blob_installs src dest label data path dir n l (s : Boot St) :
  let w := set_privilege FAASTEN_PRIV (boot_fs s) in
  let run := create_blob_action local_file copy_buffer src dest label s in
  (0 < copy_buffer)%nat -> local_file src = Some data ->
  Path_parse dest w = (Val (Ok path), w) -> Path_parent path = Some dir ->
  Path_file_name path = Some n -> buckle_parse label = Some l ->
  exists k bs, (io (boot_blobs s) = [] -> take k data = data) /\
    ((io (boot_blobs s) <> [] /\ run = (Panic, MkBoot w bs)) \/
     exists p, split_at_2 (blob_name (take k data)) bs = (Val p, bs) /\
       disk bs = <[p := take k data]> (disk (boot_blobs s)) /\
       run = (r ← in_fs (create_or_update_blob dir n l (blob_name (take k data)));
              mret (Ok (Printed (is_ok r)))) (MkBoot w bs)).
Proof.
  intros w run Hbuf Hsrc Hpath Hdir Hn Hl. unfold run, create_blob_action.
  rewrite (bind_step (in_fs (set_my_privilge FAASTEN_PRIV)) _ s tt (MkBoot w (boot_blobs s))) by done.
  rewrite Hsrc.
  rewrite (bind_step (in_fs (parse_path dest)) _ _ path (MkBoot w (boot_blobs s))).
  2:{ unfold in_fs, zoom, parse_path. cbn [boot_fs]. by rewrite (bind_step _ _ _ _ _ Hpath). }
  rewrite (bind_step (in_fs (parse_label label)) _ _ l (MkBoot w (boot_blobs s))).
  2:{ unfold in_fs, zoom, parse_label. by rewrite Hl. }
  destruct (create_run (boot_blobs s)) as (r0 & b0 & E0 & Hd0 & Hr0 & Hq0).
  rewrite (bind_step _ _ _ _ _ (in_blobs_run _ (MkBoot w (boot_blobs s)) _ _ E0)).
  destruct r0 as [nb|m]; cycle 1.
  { exists (length data), b0. rewrite firstn_all. split; [done|]. left. split; [|done].
    intros Hio. by destruct (Hq0 Hio). }
  rewrite (Hr0 nb eq_refl) in *. cbn [boot_fs boot_blobs].
  assert (Hc0 : consistent (MkNewBlob d_new 0 [])) by (split; cbn; [by rewrite d_update_nil|done]).
  rewrite (bind_step (Bootstrap.expect (Ok _)) _ (MkBoot w b0) _ (MkBoot w b0) eq_refl).
  destruct (io_copy_prefix copy_buffer (S (length data)) _ data b0 Hbuf Hc0 ltac:(lia))
    as (nb1 & b1 & k & E1 & Hd1 & [Hc1 Hf1] & Hq1).
  rewrite (bind_step _ _ _ _ _ (in_blobs_run _ (MkBoot w b0) _ _ E1)). cbn [boot_fs boot_blobs].
  destruct (save_run nb1 b1 Hc1) as (r2 & b2 & E2 & Hr2 & p & Hp & Hd2).
  rewrite (bind_step _ _ _ _ _ (in_blobs_run _ (MkBoot w b1) _ _ E2)). cbn [boot_fs boot_blobs].
  cbn in Hf1. rewrite Hf1 in *. exists k, b2. split; [intros Hio; by apply Hq1, Hq0|].
  destruct r2 as [blob|m]; cycle 1.
  { left. split; [|done]. intros Hio.
    destruct (save_quiet nb1 b1 Hc1) as (? & ? & E'); [by apply Hq1, Hq0|]. congruence. }
  right. exists p. rewrite (Hr2 blob eq_refl) in *. split; [by eapply split_at_2_state|].
  split; [destruct Hd2 as [[_ [? [=]]]|Hd2]; by rewrite Hd2, Hd1, Hd0|].
  rewrite (bind_step (Bootstrap.expect (Ok _)) _ (MkBoot w b2) _ (MkBoot w b2) eq_refl). rewrite Hdir, Hn. done.
Qed.
End uploads.

Section tokens.
Context {St : Type} `{BS : !BackingStore St} `{L : !LabelOps} `{SD : !SerdeOps} `{WL : WebLaws}.
Context (local_file : string -> option bytes).
Context (private_key_from_pem : bytes -> option (Claims -> option string)) (now : Z).

(** The last piece of [Bearer t]. *)
Lemma bearer_token t :
  " "%char ∉ chars t ->
  default "" (list.last (str <$> split_on " "%char (chars ("Bearer " +:+ t)))) = t.
Proof.
  intros Ht. assert (E : chars ("Bearer " +:+ t) = chars "Bearer" ++ " "%char :: chars t) by done.
  rewrite E, split_on_app by (apply (bool_decide_unpack _); vm_compute; exact I).
  rewrite split_on_none by done. apply string_of_list_ascii_of_string.
Qed.

(** Delegation from the command line.  A token made with the private key of a frontend is
    one that the frontend accepts, at any time, for the component that was asked for. *)
Theorem admin_token_accepted component secret_key pem (s s' : World St) o :
  local_file secret_key = Some pem -> private_key_from_pem pem = Some sign_with_key ->
  jwt_action local_file private_key_from_pem now component secret_key s = (Val (Ok o), s') ->
  exists t l, o = Token t /\ s' = s /\ buckle_parse (component +:+ ",T") = Some l /\
    forall request later, " "%char ∉ chars t ->
      header request "Authorization" = Some ("Bearer " +:+ t) ->
      verify_jwt later request = Ok (secrecy l).
Proof.
  intros Hpem Hkey. unfold jwt_action. rewrite Hpem. cbn [mbind option_bind]. rewrite Hkey.
  intros (l & s1 & Hl & H)%bind_val. apply bind_val in H as (t & s2 & Ht & H).
  unfold parse_label, unwrap in Hl. destruct (buckle_parse _) as [l0|] eqn:El; [|done].
  unfold unwrap in Ht. destruct (sign_with_key _) as [t0|] eqn:Et; [|done].
  injection Hl as -> <-. injection Ht as -> <-. injection H as <- <-.
  exists t, l. split_and!; [done..|]. intros request later Hsp Hh.
  unfold verify_jwt. rewrite Hh, bearer_token by done.
  rewrite (verify_sign _ _ Et). by rewrite andb_false_r.
Qed.
End tokens.
