(* ===== verification/HttpServer.v ===== *)
(** * The HTTP server of the webhook ([frontends/httpserver/src/lib.rs])

    Requests of one connection are read, handled and answered in turn.  The connection is the
    standard library's [TcpStream]: the pieces in which its bytes arrive are in the state.  The
    grammar of a request head ([httparse]) and the types of the [http] crate are parameters. *)

From Stdlib Require Import Ascii String.
From stdpp Require Import base tactics option list strings pretty.
From S2P Require Import Prelude Message CommandLine.
Local Open Scope list_scope.

(** ** [String::from_utf8_lossy] *)

Definition replacement : bytes := byte_of_Z <$> [239; 191; 189]%Z.

(** What may follow the first byte of a sequence: the bounds of the second byte, and how many
    bytes are to come. *)
Definition utf8_lead (b : Z) : option (Z * Z * nat) :=
  if decide (194 <= b <= 223)%Z then Some (128, 191, 1%nat)%Z
  else if decide (b = 224%Z) then Some (160, 191, 2%nat)%Z
  else if decide (b = 237%Z) then Some (128, 159, 2%nat)%Z
  else if decide (225 <= b <= 239)%Z then Some (128, 191, 2%nat)%Z
  else if decide (b = 240%Z) then Some (144, 191, 3%nat)%Z
  else if decide (241 <= b <= 243)%Z then Some (128, 191, 3%nat)%Z
  else if decide (b = 244%Z) then Some (128, 143, 3%nat)%Z
  else None.

(** Every longest prefix of a sequence that goes no further is one replacement character;
    [acc] is the prefix read so far. *)
Fixpoint lossy (pending : option (Z * Z * nat)) (acc l : bytes) : bytes :=
  match l with
  | [] => match pending with Some _ => replacement | None => [] end
  | b :: l' =>
      let start :=
        if decide (Z_of_byte b < 128)%Z then b :: lossy None [] l'
        else match utf8_lead (Z_of_byte b) with
             | Some p => lossy (Some p) [b] l'
             | None => replacement ++ lossy None [] l'
             end in
      match pending with
      | None => start
      | Some (lo, hi, n) =>
          if decide (lo <= Z_of_byte b <= hi)%Z then
            match n with
            | 1%nat => acc ++ b :: lossy None [] l'
            | _ => lossy (Some (128, 191, Nat.pred n)%Z) (acc ++ [b]) l'
            end
          else replacement ++ start
      end
  end.
Definition from_utf8_lossy (l : bytes) : bytes := lossy None [] l.

Definition is_ascii (b : byte) : Prop := (Z_of_byte b < 128)%Z.

Lemma lossy_ascii l : Forall is_ascii l -> from_utf8_lossy l = l.
Proof.
  unfold from_utf8_lossy. induction 1 as [|b l Hb _ IH]; [done|]. cbn [lossy].
  rewrite decide_True by done. by rewrite IH.
Qed.

(** ** [TcpStream] *)

Inductive ErrorKind : Set := UnexpectedEof | OtherKind.

Record Tcp : Type := MkTcp {
  (** the pieces to arrive, none of them empty; after them the peer has closed *)
  incoming : list (result bytes ErrorKind);
  (** how much more the peer takes: [None] for everything *)
  room : option nat;
  written : bytes;
}.

Definition set_incoming (i : list (result bytes ErrorKind)) (s : Tcp) : Tcp :=
  MkTcp i (room s) (written s).

Definition tcp_read (n : nat) : SM Tcp (result bytes ErrorKind) := fun s =>
  match incoming s with
  | [] => (Val (Ok []), s)
  | Err e :: r => (Val (Err e), set_incoming r s)
  | Ok c :: r =>
      (Val (Ok (take n c)),
       set_incoming (if decide (length c <= n) then r else Ok (skipn n c) :: r) s)
  end.

Fixpoint read_from (n : nat) (i : list (result bytes ErrorKind)) :
    result bytes ErrorKind * list (result bytes ErrorKind) :=
  if decide (n = O) then (Ok [], i)
  else match i with
       | [] => (Err UnexpectedEof, [])
       | Err e :: r => (Err e, r)
       | Ok c :: r =>
           if decide (n < length c) then (Ok (take n c), Ok (skipn n c) :: r)
           else let '(x, r) := read_from (n - length c) r in
                (match x with Ok y => Ok (c ++ y) | Err e => Err e end, r)
       end.
Definition tcp_read_exact (n : nat) : SM Tcp (result bytes ErrorKind) := fun s =>
  let '(x, i) := read_from n (incoming s) in (Val x, set_incoming i s).

Definition tcp_write_all (b : bytes) : SM Tcp (result unit ErrorKind) := fun s =>
  match room s with
  | None => (Val (Ok tt), MkTcp (incoming s) None (written s ++ b))
  | Some n =>
      if decide (length b <= n)
      then (Val (Ok tt), MkTcp (incoming s) (Some (n - length b)) (written s ++ b))
      else (Val (Err OtherKind), MkTcp (incoming s) (Some O) (written s ++ take n b))
  end.

(** ** Requests and responses ([http]) *)

Record Head : Type := MkHead {
  method : option string; path : option string; raw_headers : list (string * bytes)
}.
(** [request::Builder]: the names of headers are in lower case. *)
Record Parts : Type := MkParts {
  part_method : string; uri : string; headers : list (string * bytes)
}.
Record HttpRequest : Type := MkHttpRequest { parts : Parts; req_body : bytes }.
Record HttpResponse : Type := MkHttpResponse {
  resp_status : Z; resp_headers : list (string * bytes); resp_body : bytes
}.

Class HttpLib := {
  (** [httparse::Request::parse] with room for a hundred headers: [None] for a head that is not
      complete, the length of the head and its contents otherwise *)
  httparse : bytes -> result (option (nat * Head)) string;
  (** the conversions of a head to the types of [http]; [None]: one of them is unwrapped *)
  head_parts : Head -> option Parts;
  canonical_reason : Z -> option string;
}.

(** [headers.get(name)]: the first of that name. *)
Definition get_header (name : string) (p : Parts) : option bytes :=
  match list_find (fun h : string * bytes => h.1 = name) (headers p) with
  | Some (_, h) => Some h.2
  | None => None
  end.

Definition text (b : bytes) : string := string_of_list_byte b.
Definition raw (s : string) : bytes := list_byte_of_string s.

Definition content_length (p : Parts) : option Z :=
  cl ← get_header "content-length" p; decimal_parse (2 ^ 64) (text (from_utf8_lossy cl)).

(** ** [Client] *)

Section client.
Context `{HL : !HttpLib}.

Local Abbreviation M := (SM Tcp).

Definition READ_SIZE : nat := 2048.

(** The loop reads until the head is complete; what was read past the head is left over. *)
Fixpoint read_request (fuel : nat) (buf : bytes) : M (result (Parts * bytes) ErrorKind) :=
  match fuel with
  | O => nofuel
  | S fuel =>
      lowbuf ?← tcp_read READ_SIZE;
      if decide (lowbuf = []) then mret (Err UnexpectedEof)
      else
        let buf := buf ++ lowbuf in
        match httparse buf with
        | Err _ => panic
        | Ok None => read_request fuel buf
        | Ok (Some (len, head)) =>
            parts ← unwrap (head_parts head);
            mret (Ok (parts, skipn len buf))
        end
  end.

(** [length - buf.len()] panics or wraps around, and an allocation of that size panics. *)
Definition read (fuel : nat) : M (result HttpRequest ErrorKind) :=
  '(request, buf) ?← read_request fuel [];
  match content_length request with
  | Some length_ =>
      let missing := wrap_u64 (length_ - Z.of_nat (length buf)) in
      _ ← alloc missing;
      remaining ?← tcp_read_exact (Z.to_nat missing);
      mret (Ok (MkHttpRequest request (buf ++ remaining)))
  | None => mret (Ok (MkHttpRequest request buf))
  end.

Definition crlf : bytes := byte_of_Z <$> [13; 10]%Z.

Fixpoint write_headers (hs : list (string * bytes)) : M (result unit ErrorKind) :=
  match hs with
  | [] => mret (Ok tt)
  | (name, value) :: hs =>
      _ ?← tcp_write_all (raw name ++ raw ": ");
      _ ?← tcp_write_all value;
      _ ?← tcp_write_all crlf;
      write_headers hs
  end.

Definition status_line (code : Z) : bytes :=
  raw "HTTP/1.1 " ++ raw (pretty code) ++ raw " " ++
  raw (default "Err" (canonical_reason code)) ++ crlf.
Definition length_line (body : bytes) : bytes :=
  raw "Content-Length: " ++ raw (pretty (Z.of_nat (length body))) ++ crlf.

Definition write_response (r : HttpResponse) : M (result unit ErrorKind) :=
  _ ?← tcp_write_all (status_line (resp_status r));
  _ ?← write_headers (resp_headers r);
  _ ?← tcp_write_all (length_line (resp_body r));
  _ ?← tcp_write_all crlf;
  tcp_write_all (resp_body r).

(** ** [Server] *)

(** The state of one connection's thread: the stream and the handler. *)
Context {H : Type} (handle_request : HttpRequest -> SM H HttpResponse).

Definition on_tcp {A} (m : M A) : SM (Tcp * H) A := zoom fst (fun t s => (t, s.2)) m.
Definition on_handler {A} (m : SM H A) : SM (Tcp * H) A := zoom snd (fun h s => (s.1, h)) m.

Definition request_helper (fuel : nat) : SM (Tcp * H) (result unit ErrorKind) :=
  request ?← on_tcp (read fuel);
  response ← on_handler (handle_request request);
  on_tcp (write_response response).

(** The thread of a connection, until an error. *)
Fixpoint serve_connection (turns fuel : nat) : SM (Tcp * H) unit :=
  match turns with
  | O => nofuel
  | S turns =>
      r ← request_helper fuel;
      match r with
      | Ok _ => serve_connection turns fuel
      | Err _ => mret tt
      end
  end.
End client.

(** ** Reading a request *)

Section reading.
Context `{HL : !HttpLib}.
Implicit Types (chunks : list bytes) (s : Tcp).

(** The bytes [head] are a complete head, and no shorter text is. *)
Definition is_head (head : bytes) (p : Parts) : Prop :=
  exists h, head_parts h = Some p /\
    (forall rest, httparse (head ++ rest) = Ok (Some (length head, h))) /\
    (forall a b, head = a ++ b -> b <> [] -> httparse a = Ok None).

Definition arriving chunks s : Tcp := set_incoming (Ok <$> chunks) s.
Definition pieces chunks : Prop := Forall (fun c => c <> []) chunks.

Lemma arriving_arriving c1 c2 s : arriving c1 (arriving c2 s) = arriving c1 s.
Proof. done. Qed.

(** What is read is cut off the first piece. *)
Lemma read_arriving c chunks s :
  exists chunks', tcp_read READ_SIZE (arriving (c :: chunks) s) =
    (Val (Ok (take READ_SIZE c)), arriving chunks' s) /\
    concat (c :: chunks) = take READ_SIZE c ++ concat chunks' /\
    (pieces (c :: chunks) -> pieces chunks') /\
    (forall a b, c :: chunks = a ++ b -> a <> [] ->
      exists a', chunks' = a' ++ b /\ concat a = take READ_SIZE c ++ concat a').
Proof.
  unfold arriving, tcp_read. cbn [fmap list_fmap incoming set_incoming].
  destruct (decide (length c <= READ_SIZE)) as [Hc|Hc].
  - exists chunks. rewrite (take_ge c) by done. split_and!; [done|done| |].
    + by intros [_ ?]%Forall_cons_iff.
    + intros [|c' a] b E Ha; [done|]. injection E as <- ->. by exists a.
  - exists (skipn READ_SIZE c :: chunks). split_and!; [done| | |].
    + cbn. by rewrite app_assoc, take_drop.
    + intros [_ ?]%Forall_cons_iff. constructor; [|done]. intros E.
      apply (f_equal length) in E. rewrite length_skipn in E. cbn in E. lia.
    + intros [|c' a] b E Ha; [done|]. injection E as <- ->. exists (skipn READ_SIZE c :: a). split; [done|].
      cbn. by rewrite app_assoc, take_drop.
Qed.

Lemma split_longer {A} (a x b y : list A) :
  a ++ x = b ++ y -> length a <= length b -> b = a ++ skipn (length a) b.
Proof.
  intros E Hl. apply (f_equal (take (length a))) in E.
  rewrite take_app_length, take_app_le in E by lia. rewrite E at 1. by rewrite take_drop.
Qed.

(** The head is read as soon as it is complete: what was read with it, [pre], is less than one
    read, and nothing is taken from a piece that was not needed. *)
Lemma read_request_spec fuel head p buf chunks rest s :
  is_head head p -> pieces chunks -> buf ++ concat chunks = head ++ rest ->
  length buf < length head -> length (concat chunks) < fuel ->
  exists chunks' pre,
    read_request fuel buf (arriving chunks s) = (Val (Ok (p, pre)), arriving chunks' s) /\
    pre ++ concat chunks' = rest /\ pieces chunks' /\ length pre < READ_SIZE /\
    (forall a b, chunks = a ++ b -> length head <= length buf + length (concat a) ->
      exists a', chunks' = a' ++ b /\ buf ++ concat a = head ++ pre ++ concat a').
Proof.
  intros (h & Hparts & Hdone & Hmore). revert buf chunks s. induction fuel as [|fuel IH]; intros buf chunks s Hp He Hb Hf; [lia|].
  destruct chunks as [|c chunks].
  { apply (f_equal length) in He. rewrite !length_app in He. cbn in He. lia. }
  destruct (read_arriving c chunks s) as (chunks1 & E1 & Hc1 & Hp1 & Hs1).
  cbn [read_request]. unfold try_bind. rewrite (bind_step _ _ _ _ _ E1).
  pose proof Hp as [Hne _]%Forall_cons_iff.
  assert (Ht : 0 < length (take READ_SIZE c) <= READ_SIZE).
  { rewrite length_take. destruct c; [done|]. unfold READ_SIZE. cbn [length]. lia. }
  rewrite decide_False by (intros E; rewrite E in Ht; cbn in Ht; lia).
  set (buf1 := buf ++ take READ_SIZE c).
  assert (He1 : buf1 ++ concat chunks1 = head ++ rest)
    by (unfold buf1; by rewrite <- app_assoc, <- Hc1).
  assert (Hl1 : length buf1 = length buf + length (take READ_SIZE c)) by (unfold buf1; by rewrite length_app).
  destruct (decide (length buf1 < length head)) as [Hlt|Hge].
  - (* not yet *)
    pose proof (split_longer _ _ _ _ He1 ltac:(lia)) as Hhead.
    rewrite (Hmore buf1 (skipn (length buf1) head) Hhead).
    2:{ intros E. apply (f_equal length) in E. rewrite length_skipn in E. cbn in E. lia. }
    destruct (IH buf1 chunks1 s) as (chunks' & pre & E & Hr & Hp' & Hl & Hs).
    { by apply Hp1. } { done. } { done. }
    { rewrite Hc1, length_app in Hf. lia. }
    exists chunks', pre. split_and!; [exact E|done..|].
    intros a b Ha Hla. destruct (Hs1 a b Ha) as (a1 & Ha1 & Hca).
    { intros ->. cbn in Hla. lia. }
    destruct (Hs a1 b Ha1) as (a' & Ha' & Hc').
    { rewrite Hca, length_app in Hla. lia. }
    exists a'. split; [done|]. rewrite Hca, app_assoc. exact Hc'.
  - (* complete *)
    pose proof (split_longer _ _ _ _ (eq_sym He1) ltac:(lia)) as Hbuf.
    rewrite Hbuf, Hdone. rewrite (bind_step (unwrap (head_parts h)) _ _ p (arriving chunks1 s))
      by (by rewrite Hparts).
    rewrite <- Hbuf. set (pre := skipn (length head) buf1) in *.
    exists chunks1, pre. split; [done|]. split.
    { rewrite Hbuf, <- app_assoc in He1. by apply app_inv_head in He1. }
    split; [by apply Hp1|]. split; [unfold pre; rewrite length_skipn; lia|].
    intros a b Ha Hla. destruct (Hs1 a b Ha) as (a1 & Ha1 & Hca).
    { intros ->. cbn in Hla. lia. }
    exists a1. split; [done|]. rewrite Hca, app_assoc. fold buf1. by rewrite Hbuf, <- app_assoc at 1.
Qed.

Lemma read_from_spec n chunks :
  n <= length (concat chunks) -> pieces chunks ->
  exists chunks', read_from n (Ok <$> chunks) = (Ok (take n (concat chunks)), Ok <$> chunks') /\
    concat chunks' = skipn n (concat chunks) /\ pieces chunks' /\
    (forall a b, chunks = a ++ b -> n <= length (concat a) ->
      exists a', chunks' = a' ++ b /\ concat a' = skipn n (concat a)).
Proof.
  revert n. induction chunks as [|c chunks IH]; intros n Hn Hp.
  { exists []. cbn in *. replace n with 0 by lia. split_and!; [done..|].
    intros a b E _. symmetry in E. apply app_eq_nil in E as [-> ->]. by exists []. }
  cbn [read_from fmap list_fmap]. destruct (decide (n = 0)) as [->|Hn0].
  { exists (c :: chunks). split_and!; [done..|]. intros a b -> _. by exists a. }
  apply Forall_cons_iff in Hp as [Hc Hp]. destruct (decide (n < length c)) as [Hlt|Hge].
  - exists (skipn n c :: chunks). cbn [concat]. split_and!.
    + by rewrite take_app_le by lia.
    + by rewrite drop_app_le by lia.
    + constructor; [|done]. intros E. apply (f_equal length) in E.
      rewrite length_skipn in E. cbn in E. lia.
    + intros [|c' a] b E Ha; [cbn in Ha; lia|]. injection E as <- ->.
      exists (skipn n c :: a). cbn [concat]. split; [done|]. by rewrite drop_app_le by lia.
  - cbn [concat] in *. rewrite length_app in Hn.
    destruct (IH (n - length c)) as (chunks' & E & Hc' & Hp' & Hs); [lia|done|].
    rewrite E. exists chunks'. split_and!.
    + by rewrite take_app_ge by lia.
    + by rewrite drop_app_ge by lia.
    + done.
    + intros [|c' a] b Eab Ha; [cbn in Ha; lia|]. injection Eab as <- ->.
      cbn [concat] in Ha. rewrite length_app in Ha.
      destruct (Hs a b eq_refl) as (a' & -> & Ha'); [lia|]. exists a'. split; [done|].
      rewrite Ha'. cbn [concat]. by rewrite drop_app_ge by lia.
Qed.

Lemma pieces_nil chunks : pieces chunks -> concat chunks = [] -> chunks = [].
Proof.
  destruct chunks as [|c chunks]; [done|]. intros [Hc _]%Forall_cons_iff. cbn.
  by intros [-> _]%app_eq_nil.
Qed.

Lemma rest_of_body {A} (pre rest body tail : list A) :
  pre ++ rest = body ++ tail -> length pre <= length body ->
  pre ++ take (length body - length pre) rest = body /\ skipn (length body - length pre) rest = tail.
Proof.
  intros E Hl. rewrite <- (take_app_ge pre rest), <- (drop_app_ge pre rest), E by done.
  split; [apply take_app_length|apply drop_app_length].
Qed.

(** The rest of the body: with [k] bytes missing. *)
Lemma read_missing k chunks s :
  k <= length (concat chunks) -> (Z.of_nat k < 2 ^ 63)%Z -> pieces chunks ->
  exists chunks',
    (_ ← alloc (Z.of_nat k); tcp_read_exact (Z.to_nat (Z.of_nat k))) (arriving chunks s) =
      (Val (Ok (take k (concat chunks))), arriving chunks' s) /\
    concat chunks' = skipn k (concat chunks) /\ pieces chunks' /\
    (forall a b, chunks = a ++ b -> concat a = take k (concat chunks) -> chunks' = b).
Proof.
  intros Hk Hmax Hp. rewrite (bind_step (alloc _) _ (arriving chunks s) tt (arriving chunks s))
    by (unfold alloc; by rewrite bool_decide_false by lia).
  rewrite Nat2Z.id. destruct (read_from_spec k chunks Hk Hp) as (chunks' & E & Hc & Hp' & Hs).
  exists chunks'. split_and!; [|done|done|].
  - unfold tcp_read_exact. cbn [arriving incoming set_incoming]. by rewrite E.
  - intros a b Ha Hca. assert (Hla : length (concat a) = k) by (rewrite Hca, length_take; lia).
    destruct (Hs a b Ha) as (a' & -> & Ha'); [lia|].
    rewrite drop_ge in Ha' by lia. apply Forall_app in Hp' as [Hp' _].
    by rewrite (pieces_nil a' Hp' Ha').
Qed.
(** C39: lengths.  A request of a stated length is read exactly, its body being the stated number of
    bytes after the head, provided that what was read with the head, [pre], does not go past
    it; if it does, the server panics.  [pre] is less than one read, and no piece that starts
    after the head is touched, so a peer that waits for each answer is always served. *)
Theorem read_body fuel head p n body tail chunks s :
  is_head head p -> head <> [] -> content_length p = Some n ->
  n = Z.of_nat (length body) -> (n < 2 ^ 63)%Z -> pieces chunks ->
  concat chunks = head ++ body ++ tail -> length (concat chunks) < fuel ->
  exists pre, length pre < READ_SIZE /\
    (exists post, pre ++ post = body ++ tail) /\
    (forall a b, chunks = a ++ b -> length head <= length (concat a) ->
       length (head ++ pre) <= length (concat a)) /\
    (length pre <= length body ->
       exists chunks', read fuel (arriving chunks s) =
           (Val (Ok (MkHttpRequest p body)), arriving chunks' s) /\
         concat chunks' = tail /\ pieces chunks' /\
         (forall a b, chunks = a ++ b -> concat a = head ++ body -> chunks' = b)) /\
    (length body < length pre -> (read fuel (arriving chunks s)).1 = Panic).
Proof.
  intros Hh Hne Hcl Hn Hmax Hp He Hf.
  destruct (read_request_spec fuel head p [] chunks (body ++ tail) s Hh Hp He)
    as (chunks1 & pre & E & Hrest & Hp1 & Hl & Hs); [destruct head; [done|cbn; lia]|done|].
  exists pre. split; [done|]. split; [by eexists|]. split.
  { intros a b Ha Hla. destruct (Hs a b Ha Hla) as (a' & _ & Hc). cbn in Hc. rewrite Hc, !length_app. lia. }
  unfold read, try_bind. rewrite (bind_step _ _ _ _ _ E), Hcl. cbv beta zeta iota.
  unfold wrap_u64. split.
  - intros Hle. destruct (rest_of_body _ _ _ _ Hrest Hle) as [Hbody Htail].
    assert (Hlen : length body + length tail = length pre + length (concat chunks1))
      by (rewrite <- !length_app; by rewrite Hrest).
    rewrite Z.mod_small by (unfold u64_mod; lia).
    replace (n - Z.of_nat (length pre))%Z with (Z.of_nat (length body - length pre)) by lia.
    destruct (read_missing (length body - length pre) chunks1 s) as (chunks' & Er & Hc' & Hp' & Hs');
      [lia|lia|done|].
    exists chunks'. split; [|split_and!; [congruence|done|]].
    + apply bind_val in Er as ([] & s1 & Ea & Er).
      rewrite (bind_step _ _ _ _ _ Ea), (bind_step _ _ _ _ _ Er). by rewrite Hbody.
    + intros a b Ha Hca. destruct (Hs a b Ha) as (a1 & Ha1 & Hc1); [rewrite Hca, !length_app; cbn; lia|].
      apply (Hs' a1 b Ha1). cbn in Hc1. rewrite Hca in Hc1. apply app_inv_head in Hc1.
      apply (app_inv_head pre). congruence.
  - intros Hlt. rewrite Zmod_eq_full by done. unfold alloc.
    assert ((n - Z.of_nat (length pre)) `div` u64_mod = -1)%Z as ->.
    { symmetry. apply (Z.div_unique_pos _ _ (-1) (n - Z.of_nat (length pre) + u64_mod))%Z;
        unfold u64_mod, READ_SIZE in *; lia. }
    rewrite bool_decide_true by (unfold u64_mod, READ_SIZE in *; lia). done.
Qed.
End reading.

(** ** A connection *)

Section serving.
Context `{HL : !HttpLib} {H : Type} (handle_request : HttpRequest -> SM H HttpResponse).
Implicit Types (s : Tcp) (h : H).

Definition render_header (x : string * bytes) : bytes := (raw x.1 ++ raw ": ") ++ x.2 ++ crlf.
(** The text of a response. *)
Definition render (r : HttpResponse) : bytes :=
  status_line (resp_status r) ++ concat (render_header <$> resp_headers r) ++
  length_line (resp_body r) ++ crlf ++ resp_body r.

Definition wrote (b : bytes) s : Tcp := MkTcp (incoming s) None (written s ++ b).

Lemma wrote_wrote a b s : wrote b (wrote a s) = wrote (a ++ b) s.
Proof. unfold wrote. cbn. by rewrite <- app_assoc. Qed.
Lemma write_all_run b s : room s = None -> tcp_write_all b s = (Val (Ok tt), wrote b s).
Proof. unfold tcp_write_all. by intros ->. Qed.

Lemma write_headers_run hs s :
  room s = None -> hs <> [] ->
  write_headers hs s = (Val (Ok tt), wrote (concat (render_header <$> hs)) s).
Proof.
  revert s. induction hs as [|[n v] hs IH]; intros s Hs Hne; [done|].
  cbn [write_headers]. unfold try_bind.
  rewrite (bind_step _ _ _ _ _ (write_all_run _ s Hs)).
  rewrite (bind_step _ _ _ _ _ (write_all_run _ (wrote _ s) eq_refl)).
  rewrite (bind_step _ _ _ _ _ (write_all_run _ (wrote _ (wrote _ s)) eq_refl)).
  rewrite !wrote_wrote. destruct (decide (hs = [])) as [->|Hhs].
  - unfold render_header. cbn [fmap list_fmap concat fst snd mret]. by rewrite app_nil_r, <- !app_assoc.
  - rewrite IH by done. rewrite wrote_wrote. cbn [fmap list_fmap concat].
    unfold render_header at 2. cbn [fst snd]. by rewrite <- !app_assoc.
Qed.

(** A response is its text, whole, when the peer takes everything. *)
Lemma write_response_run r s :
  room s = None -> write_response r s = (Val (Ok tt), wrote (render r) s).
Proof.
  intros Hs. unfold write_response, try_bind.
  rewrite (bind_step _ _ _ _ _ (write_all_run _ s Hs)).
  assert (Hh : write_headers (resp_headers r) (wrote (status_line (resp_status r)) s) =
    (Val (Ok tt), wrote (concat (render_header <$> resp_headers r)) (wrote (status_line (resp_status r)) s))).
  { destruct (decide (resp_headers r = [])) as [->|Hne]; [|by apply write_headers_run].
    unfold wrote. cbn. by rewrite app_nil_r. }
  rewrite (bind_step _ _ _ _ _ Hh).
  rewrite (bind_step _ _ _ _ _ (write_all_run _ (wrote _ (wrote _ s)) eq_refl)).
  rewrite (bind_step _ _ _ _ _ (write_all_run _ (wrote _ (wrote _ (wrote _ s))) eq_refl)).
  rewrite write_all_run by done. rewrite !wrote_wrote. unfold render. by rewrite <- ?app_assoc.
Qed.

(** A request as it is sent: its pieces are its own. *)
Record Sent : Type := MkSent {
  sent_head : bytes; sent_parts : Parts; sent_body : bytes; sent_pieces : list bytes
}.
Definition well_sent (x : Sent) : Prop :=
  is_head (sent_head x) (sent_parts x) /\ sent_head x <> [] /\
  content_length (sent_parts x) = Some (Z.of_nat (length (sent_body x))) /\
  (Z.of_nat (length (sent_body x)) < 2 ^ 63)%Z /\ pieces (sent_pieces x) /\
  concat (sent_pieces x) = sent_head x ++ sent_body x.

(** What the handler makes of requests, one after the other: its last state and the text of its
    answers. *)
Inductive answered : H -> list Sent -> H -> bytes -> Prop :=
  | answered_nil h : answered h [] h []
  | answered_cons h x r h1 xs h2 out :
      handle_request (MkHttpRequest (sent_parts x) (sent_body x)) h = (Val r, h1) ->
      answered h1 xs h2 out -> answered h (x :: xs) h2 (render r ++ out).

Lemma read_sent fuel x chunks s :
  well_sent x -> pieces chunks -> length (concat (sent_pieces x ++ chunks)) < fuel ->
  read fuel (arriving (sent_pieces x ++ chunks) s) =
    (Val (Ok (MkHttpRequest (sent_parts x) (sent_body x))), arriving chunks s).
Proof.
  intros (Hh & Hne & Hcl & Hmax & Hp & Hc) Hchunks Hf.
  destruct (read_body fuel (sent_head x) (sent_parts x) _ (sent_body x) (concat chunks)
    (sent_pieces x ++ chunks) s Hh Hne Hcl eq_refl Hmax) as (pre & _ & _ & Hpre & Hok & _).
  - by apply Forall_app.
  - by rewrite concat_app, Hc, <- app_assoc.
  - done.
  - specialize (Hpre _ _ eq_refl). rewrite Hc, !length_app in Hpre.
    destruct Hok as (chunks' & -> & _ & _ & Hs); [lia|]. by rewrite (Hs _ _ eq_refl Hc).
Qed.

(** Ordering.  A peer that sends requests, each of them in pieces of its own, and then
    closes is answered in that order, each answer once and whole, each request handled once. *)
Theorem serve_in_order fuel h xs h' out s :
  Forall well_sent xs -> answered h xs h' out -> room s = None ->
  length (concat (concat (sent_pieces <$> xs))) < fuel ->
  serve_connection handle_request (S (length xs)) fuel
      (arriving (concat (sent_pieces <$> xs)) s, h) =
    (Val tt, (wrote out (arriving [] s), h')).
Proof.
  intros Hx Ha Hs. revert s Hs Hx. induction Ha as [h|h x r h1 xs h2 out Hr _ IH]; intros s Hs Hx Hf.
  - destruct fuel as [|fuel]; [cbn in Hf; lia|]. unfold wrote, arriving. cbn. rewrite app_nil_r.
    destruct s as [i rm w]. cbn in *. by subst rm.
  - apply Forall_cons_iff in Hx as [Hx Hxs]. cbn [fmap list_fmap concat length] in *.
    assert (Hp : pieces (concat (sent_pieces <$> xs))).
    { apply Forall_concat. apply Forall_fmap. eapply list.Forall_impl; [exact Hxs|]. intros y Hy. apply Hy. }
    set (rest := concat (sent_pieces <$> xs)) in *.
    pose proof (read_sent fuel x rest s Hx Hp Hf) as E.
    set (turns := S (length xs)) in *. cbn [serve_connection].
    rewrite (bind_step (request_helper handle_request fuel) _ _ (Ok tt) (arriving rest (wrote (render r) s), h1)).
    + cbv beta iota. rewrite IH; [|done|done|].
      * unfold wrote, arriving. cbn. by rewrite <- app_assoc.
      * rewrite concat_app, length_app in Hf. lia.
    + unfold request_helper, try_bind.
      rewrite (bind_step (on_tcp (read fuel)) _ _ _ (arriving rest s, h))
        by (unfold on_tcp, zoom; cbn [fst snd]; by rewrite E).
      cbv beta iota.
      rewrite (bind_step (on_handler (handle_request _)) _ (arriving rest s, h) r (arriving rest s, h1))
        by (unfold on_handler, zoom; cbn [fst snd]; by rewrite Hr).
      unfold on_tcp, zoom. cbn [fst snd].
      by rewrite write_response_run.
Qed.
End serving.
