(* ===== verification/Tools.v ===== *)
(** * Two tools of the command line ([snapfaas/bins/sfdb/main.rs], [snapfaas/bins/sfblob/main.rs])

    [sfdb] reads and writes single entries of an LMDB database and lists those whose keys have
    a prefix; [sfblob] stores what it reads in the blob store and writes blobs out.  What they
    print is a list of lines and of raw bytes. *)

From Stdlib Require Import Ascii String Sorted.
From stdpp Require Import base tactics option list gmap strings pretty countable.
From S2P Require Import Prelude Store Blobstore CommandLine HttpServer.
Local Open Scope list_scope.

Inductive Out : Type := Line (s : string) | Bytes (b : bytes).

(** ** The order of keys *)

Fixpoint bytes_le (a b : bytes) : bool :=
  match a, b with
  | [], _ => true
  | _ :: _, [] => false
  | x :: a, y :: b =>
      if decide (Z_of_byte x < Z_of_byte y)%Z then true
      else if decide (Z_of_byte x = Z_of_byte y) then bytes_le a b else false
  end.
Definition key_lt (p q : bytes * bytes) : Prop := bytes_le q.1 p.1 = false.

Lemma prefix_le k b : k `prefix_of` b -> bytes_le k b = true.
Proof.
  intros [l ->]. induction k as [|x k IH]; [done|]. cbn.
  rewrite decide_False by lia. by rewrite decide_True.
Qed.

(** The keys with a prefix are next to each other. *)
Lemma prefix_between k a b :
  bytes_le k a = true -> bytes_le a b = true -> k `prefix_of` b -> k `prefix_of` a.
Proof.
  intros Hka Hab [l ->]. revert a Hka Hab. induction k as [|x k IH]; intros a Hka Hab.
  { by exists a. }
  destruct a as [|y a]; [done|]. cbn in Hka, Hab.
  destruct (decide (Z_of_byte y < Z_of_byte x)%Z) as [Hlt|Hge].
  { rewrite decide_False in Hka by lia. by rewrite decide_False in Hka by lia. }
  destruct (decide (Z_of_byte y = Z_of_byte x)) as [He|]; [|done].
  rewrite decide_False in Hka by lia. rewrite decide_True in Hka by done.
  apply (f_equal byte_of_Z) in He. rewrite !byte_of_Z_of_byte in He. subst y.
  by apply prefix_cons, IH.
Qed.

Lemma key_lt_le p q : key_lt p q -> bytes_le p.1 q.1 = true.
Proof.
  unfold key_lt. generalize (p.1) (q.1). intros a. induction a as [|x a IH]; intros b H; [done|].
  destruct b as [|y b]; [done|]. cbn in *.
  destruct (decide (Z_of_byte y < Z_of_byte x)%Z); [done|].
  destruct (decide (Z_of_byte y = Z_of_byte x)).
  - rewrite decide_False by lia. rewrite decide_True by done. by apply IH.
  - by rewrite decide_True by lia.
Qed.

Fixpoint take_while {A} (f : A -> bool) (l : list A) : list A :=
  match l with
  | [] => []
  | x :: l => if f x then x :: take_while f l else []
  end.
Definition has_prefix (k : bytes) (p : bytes * bytes) : bool := bool_decide (k `prefix_of` p.1).

Lemma filter_none {A} (f : A -> bool) l : Forall (fun x => f x = false) l -> List.filter f l = [].
Proof. induction 1 as [|x l Hx _ IH]; [done|]. cbn. by rewrite Hx. Qed.

Lemma elem_of_filtered {A} (f : A -> bool) l x : x ∈ List.filter f l <-> x ∈ l /\ f x = true.
Proof. by rewrite !list_elem_of_In, filter_In. Qed.

(** Up to the first key without the prefix is as far as all of those that have it. *)
Lemma take_while_prefix k l :
  StronglySorted key_lt l -> Forall (fun p => bytes_le k p.1 = true) l ->
  take_while (has_prefix k) l = List.filter (has_prefix k) l.
Proof.
  induction 1 as [|p l Hl IH Hp]; [done|]. intros [Hk Hall]%Forall_cons_iff. cbn.
  destruct (has_prefix k p) eqn:Ep; [by rewrite IH|].
  symmetry. apply filter_none. eapply list.Forall_impl; [exact Hp|]. intros q Hq.
  unfold has_prefix in *. rewrite bool_decide_eq_false in Ep |- *. intros Hpre. apply Ep.
  by apply (prefix_between k p.1 q.1 Hk (key_lt_le _ _ Hq)).
Qed.

(** ** [sfdb] *)

(** What else the tool calls of [lmdb-rkv]: [create_db], for the database that the other calls
    are about; opening a cursor; [iter_from], whose items may be errors. *)
Class LmdbCursor (Env : Type) := {
  create_db : option string -> Env -> bool;
  open_ro_cursor : Env -> bool;
  iter_from : Env -> bytes -> list (result (bytes * bytes) unit);
}.

(** Documented behaviour on a usable environment: the database is opened, or made; keys have from
    1 to 511 bytes; a cursor goes through the entries in the order of their keys, from the first
    that is not below the one it is given. *)
Class LmdbCursorLaws (Env : Type) `{LL : LmdbLaws Env} {LC : LmdbCursor Env} := {
  create_db_ok name e : env_ok e -> create_db name e = true;
  put_entry e k v : env_ok e -> (1 <= length k <= 511)%nat ->
    exists e', txn_put e k v false = (true, e') /\ env_ok e' /\ env_map e' = <[k:=v]> (env_map e);
  cursor_ok e : env_ok e -> open_ro_cursor e = true;
  iter_from_spec e k : env_ok e -> exists l, iter_from e k = Ok <$> l /\ StronglySorted key_lt l /\
    forall k' v, (k', v) ∈ l <-> env_map e !! k' = Some v /\ bytes_le k k' = true;
}.

Record Args : Type := MkArgs {
  a_database : option string;
  a_int : bool;
  a_scan : bool;
  a_binary : bool;
  a_key : string;
  a_value : option string;
}.

(** [Result::ok] *)
Definition ok_of {A E} (r : result A E) : option A :=
  match r with Ok a => Some a | Err _ => None end.
Definition bool_line (b : bool) : Out := Line (if b then "true" else "false").
Definition entry_line (p : bytes * bytes) : Out :=
  Line (text (from_utf8_lossy p.1) +:+ ": " +:+ pretty (Z.of_nat (length p.2))).

Section sfdb.
Context {Env : Type} `{!LmdbLib Env} `{!LmdbCursor Env}.

(** What is done with the entry in a read-write transaction; [None]: the value given with [-i] is
    not a number of 32 bits, which panics.  [stdin] is what could be read of the input. *)
Definition sfdb_write (a : Args) (stdin : bytes) (value : string) (e : Env) : option (bool * Env) :=
  let key := raw (a_key a) in
  if decide (value = ""%string) then Some (txn_del e key)
  else if decide (value = "-"%string) then Some (txn_put e key stdin false)
  else if a_int a then
    match decimal_parse (2 ^ 32) value with
    | Some n => Some (txn_put e key (to_be 4 n) false)
    | None => None
    end
  else Some (txn_put e key (raw value) false).

(** [iter_from(..).filter_map(Result::ok)] up to the [break]. *)
Definition sfdb_scan (key : bytes) (e : Env) : list Out :=
  entry_line <$> take_while (has_prefix key) (omap ok_of (iter_from e key)).

Definition sfdb_read (a : Args) (e : Env) : outcome (list Out) :=
  let key := raw (a_key a) in
  if a_scan a then
    if open_ro_cursor e then Val (sfdb_scan key e) else Panic
  else
    match txn_get e key with
    | None => Val [Line "NOT FOUND"]
    | Some value =>
        if a_int a then
          if decide (length value < 4)%nat then Panic
          else Val [Line (pretty (of_be (take 4 value)))]
        else if a_binary a then Val [Bytes value]
        else Val [Line (text (from_utf8_lossy value))]
    end.

(** [main], once the environment is open.  A commit that fails is not noticed. *)
Definition sfdb (a : Args) (stdin : bytes) : SM Env (list Out) := fun e =>
  if create_db (a_database a) e then
    match a_value a with
    | Some value =>
        if begin_rw_txn e then
          match sfdb_write a stdin value e with
          | None => (Panic, e)
          | Some (ok, e') => (Val [bool_line ok], if commit e' then e' else e)
          end
        else (Panic, e)
    | None => if begin_ro_txn e then (sfdb_read a e, e) else (Panic, e)
    end
  else (Panic, e).
End sfdb.

Section sfdb_theorems.
Context {Env : Type} `{LmdbCursorLaws Env}.

Lemma omap_ok {A E} (l : list A) : omap ok_of (Ok (E := E) <$> l) = l.
Proof. induction l as [|x l IH]; [done|]. cbn. by rewrite IH. Qed.

(** [sfdb -a] lists exactly the entries whose keys have the prefix, each once, in the order of
    their keys, although it stops at the first key that does not have it. *)
Theorem scan_lists_prefix a stdin e :
  env_ok e -> a_value a = None -> a_scan a = true ->
  exists ps, sfdb a stdin e = (Val (entry_line <$> ps), e) /\ StronglySorted key_lt ps /\
    forall k v, (k, v) ∈ ps <-> env_map e !! k = Some v /\ raw (a_key a) `prefix_of` k.
Proof.
  intros He Hv Hs. destruct (iter_from_spec e (raw (a_key a)) He) as (l & El & Hl & Hin).
  exists (List.filter (has_prefix (raw (a_key a))) l). split_and!.
  - unfold sfdb, sfdb_read, sfdb_scan.
    rewrite create_db_ok, Hv, (ro_ok e He), Hs, (cursor_ok e He), El, omap_ok by done.
    rewrite take_while_prefix; [done|done|]. apply list.Forall_forall. intros [k v] Hp.
    by apply Hin in Hp as [_ ?].
  - clear -Hl. induction Hl as [|p l Hl IH Hp]; [constructor|]. cbn.
    destruct (has_prefix _ p); [|done]. constructor; [done|].
    rewrite list.Forall_forall in Hp |- *. intros q [Hq _]%elem_of_filtered. by apply Hp.
  - intros k v. rewrite elem_of_filtered, Hin. unfold has_prefix.
    rewrite bool_decide_eq_true. cbn. split; [tauto|]. intros [? Hp].
    split_and!; [done|by apply prefix_le|done].
Qed.

Lemma pretty_number n : (0 <= n)%Z -> pretty n <> ""%string /\ pretty n <> "-"%string.
Proof.
  intros Hn. destruct (pretty_Z_head n Hn) as (d & t & Hd & ->). split; [done|].
  intros [= Hc _]. pose proof (digit_of_pretty d Hd) as Hp. rewrite Hc in Hp. discriminate.
Qed.

(** A number stored with [-i] is printed back by [-i]. *)
Theorem int_roundtrip db s b key n stdin stdin' e :
  env_ok e -> (1 <= length (raw key) <= 511)%nat -> (0 <= n < 2 ^ 32)%Z ->
  exists e', sfdb (MkArgs db true s b key (Some (pretty n))) stdin e = (Val [Line "true"], e') /\
    env_ok e' /\
    sfdb (MkArgs db true false b key None) stdin' e' = (Val [Line (pretty n)], e').
Proof.
  intros He Hk Hn. destruct (put_entry e (raw key) (to_be 4 n) He Hk) as (e' & Ep & He' & Hm).
  destruct (pretty_number n) as [Hn1 Hn2]; [lia|].
  exists e'. split_and!; [|done|].
  - unfold sfdb, sfdb_write. cbn [a_database a_value a_key a_int].
    rewrite create_db_ok, (rw_ok e He) by done.
    rewrite decide_False, decide_False, decimal_parse_pretty, Ep, (commit_ok e' He') by done. done.
  - unfold sfdb, sfdb_read. cbn [a_database a_value a_key a_int a_scan].
    rewrite create_db_ok, (ro_ok e' He'), (txn_get_spec e' _ He'), Hm, lookup_insert_eq by done.
    rewrite decide_False by (rewrite length_to_be; lia).
    rewrite take_ge by (by rewrite length_to_be). by rewrite of_be_to_be, Z.mod_small by lia.
Qed.
End sfdb_theorems.

(** ** [sfblob] *)

Section sfblob.
Context `{DG : DigestOps} `{HX : HexOps}.
(** The size of the buffer of [std::io::copy]. *)
Context (buffer : nat).

Local Abbreviation M := (SM Blobstore).

(** [Read::read] for an open blob whose file is at [pos]: some bytes, until there are none. *)
Definition some_moved (e : Io) (n : nat) : result nat string :=
  match e with
  | Done => Ok n
  | Short k => Ok (Nat.min n (Nat.max 1 k))
  | Fail m => Err m
  end.
Definition blob_read (b : Blob) (pos n : nat) : M (result bytes string) :=
  e ← next_io;
  let rest := skipn pos (contents b) in
  mret (match some_moved e (Nat.min n (length rest)) with
        | Ok k => Ok (take k rest)
        | Err m => Err m
        end).

(** [copy(&mut blob, &mut stdout())]: what has been written, and the error that ended it. *)
Fixpoint copy_out (fuel : nat) (b : Blob) (pos : nat) : M (bytes * result unit string) :=
  match fuel with
  | O => nofuel
  | S fuel =>
      r ← blob_read b pos buffer;
      match r with
      | Err m => mret ([], Err m)
      | Ok [] => mret ([], Ok tt)
      | Ok c => '(rest, r) ← copy_out fuel b (pos + length c); mret (c ++ rest, r)
      end
  end.

(** [-r]: the blobs whose names are read, one after the other. *)
Fixpoint print_blobs (lines : list (result string string)) : M (list Out * result unit string) :=
  match lines with
  | [] => mret ([], Ok tt)
  | Err m :: _ => mret ([], Err m)
  | Ok line :: lines =>
      r ← open line;
      match r with
      | Err m => mret ([], Err m)
      | Ok blob =>
          '(out, r) ← copy_out (S (length (contents blob))) blob 0;
          match r with
          | Err m => mret ([Bytes out], Err m)
          | Ok _ => '(outs, r) ← print_blobs lines; mret (Bytes out :: outs, r)
          end
      end
  end.

(** [copy(&mut stdin, &mut newblob)]: [pieces] are the reads. *)
Fixpoint copy_in (pieces : list (result bytes string)) (b : NewBlob) : M (result NewBlob string) :=
  match pieces with
  | [] => mret (Ok b)
  | Err m :: _ => mret (Err m)
  | Ok c :: pieces => b ?← write_all (S (length c)) b c; copy_in pieces b
  end.
Definition store_blob (pieces : list (result bytes string)) : M (result Out string) :=
  newblob ?← create;
  newblob ?← copy_in pieces newblob;
  blob ?← save newblob;
  mret (Ok (Line (name blob))).

Definition sfblob (read : bool) (lines : list (result string string))
    (pieces : list (result bytes string)) : M (list Out * result unit string) :=
  if read then print_blobs lines
  else
    r ← store_blob pieces;
    mret (match r with Ok o => ([o], Ok tt) | Err m => ([], Err m) end).
End sfblob.

Section sfblob_theorems.
Context `{DL : DigestLaws} `{HL : HexLaws}.
Context (buffer : nat).
Hypothesis buffer_pos : (0 < buffer)%nat.

Lemma blob_read_run b pos s :
  exists r s', blob_read b pos buffer s = (Val r, s') /\ disk s' = disk s /\
    forall c, r = Ok c -> c = take (length c) (skipn pos (contents b)) /\
      (c = [] -> (length (contents b) <= pos)%nat).
Proof.
  destruct (next_io_run s) as (e & s' & E & Hd). unfold blob_read.
  rewrite (bind_step _ _ _ _ _ E). eexists _, _. split; [done|]. split; [done|].
  set (rest := skipn pos (contents b)). intros c.
  destruct (some_moved e (Nat.min buffer (length rest))) as [k|m] eqn:Ek; [|done]. intros [= <-].
  assert (Hk : (k <= length rest)%nat /\ (k = O -> rest = [])).
  { destruct e; cbn in Ek; try done; injection Ek as <-; (split; [lia|]); intros Hz;
      apply nil_length_inv; lia. }
  split; [by rewrite length_take, Nat.min_l by lia|]. intros Hc. apply (f_equal length) in Hc.
  rewrite length_take in Hc. cbn in Hc. destruct Hk as [? Hk]. assert (rest = []) as Hr by (apply Hk; lia).
  apply (f_equal length) in Hr. unfold rest in Hr. rewrite length_skipn in Hr. cbn in Hr. lia.
Qed.

(** The copy ends; it writes a prefix of what is left of the blob, all of it unless a read fails. *)
Lemma copy_out_run fuel b pos s :
  (length (contents b) - pos < fuel)%nat ->
  exists out r s', copy_out buffer fuel b pos s = (Val (out, r), s') /\ disk s' = disk s /\
    out `prefix_of` skipn pos (contents b) /\ (r = Ok tt -> out = skipn pos (contents b)).
Proof.
  revert pos s. induction fuel as [|fuel IH]; intros pos s Hf; cbn [copy_out].
  { lia. }
  destruct (blob_read_run b pos s) as (r & s1 & E & Hd & Hr). rewrite (bind_step _ _ _ _ _ E).
  destruct r as [c|m]; [|by exists [], (Err m), s1; split_and!; [..|apply prefix_nil|]].
  destruct (Hr c eq_refl) as [Hc Hend]. destruct c as [|x c].
  - exists [], (Ok tt), s1. split_and!; [done|done|apply prefix_nil|]. intros _.
    by rewrite drop_ge by (apply Hend; done).
  - assert (Hle : (length (x :: c) <= length (contents b) - pos)%nat).
    { pose proof (f_equal length Hc) as Hl. rewrite length_take, length_skipn in Hl. lia. }
    destruct (IH (pos + length (x :: c))%nat s1) as (out & r & s' & E' & Hd' & Hp & Ho);
      [cbn in *; lia|].
    rewrite (bind_step _ _ _ _ _ E'). eexists _, r, s'. split; [done|]. split; [congruence|].
    assert (Hs : skipn pos (contents b) = (x :: c) ++ skipn (pos + length (x :: c)) (contents b)).
    { rewrite <- drop_drop. rewrite Hc at 1. by rewrite take_drop. }
    split; [|by intros Hok; rewrite Hs, (Ho Hok)]. rewrite Hs. by apply prefix_app.
Qed.

Lemma copy_in_run pieces b s b' s' :
  consistent b -> copy_in pieces b s = (Val (Ok b'), s') ->
  exists data, pieces = Ok <$> data /\ consistent b' /\ file b' = file b ++ concat data /\
    disk s' = disk s.
Proof.
  revert b s. induction pieces as [|[c|m] pieces IH]; intros b s Hc; cbn [copy_in]; [|..|done].
  - intros [= <- <-]. exists []. by rewrite app_nil_r.
  - intros (r & s1 & E & Hr)%bind_val. destruct r as [b1|m]; [|done].
    apply consistent_write_all in E as (Hc1 & Hf1 & Hd1); [|done].
    apply IH in Hr as (data & -> & Hc' & Hf & Hd); [|done].
    exists (c :: data). split_and!; [done|done| |congruence]. cbn. by rewrite Hf, Hf1, <- app_assoc.
Qed.

Lemma open_run a p c s :
  split_at_2 a s = (Val p, s) -> disk s !! p = Some c ->
  exists r s', open a s = (Val r, s') /\ forall b, r = Ok b -> b = MkBlob a c.
Proof.
  intros Hp Hc. unfold open. rewrite (bind_step _ _ _ _ _ Hp).
  destruct (os_call_run s) as (r & s1 & E & Hd). unfold try_bind. rewrite (bind_step _ _ _ _ _ E).
  destruct r as [[]|m]; [|by eexists _, _]. rewrite (bind_step (gets _) _ s1 _ s1 eq_refl), Hd, Hc.
  eexists _, _. split; [done|]. by intros b [= <-].
Qed.

Lemma store_blob_run pieces s o s1 :
  store_blob pieces s = (Val (Ok o), s1) ->
  exists data p, pieces = Ok <$> data /\ o = Line (blob_name (concat data)) /\
    split_at_2 (blob_name (concat data)) s1 = (Val p, s1) /\ disk s1 !! p = Some (concat data).
Proof.
  unfold store_blob. intros (r & s2 & E1 & E)%bind_val. destruct r as [b0|m]; [|done].
  assert (H0 : consistent b0 /\ file b0 = []).
  { unfold create, try_bind in E1. apply bind_val in E1 as ([[]|m] & ? & _ & [=]).
    subst. split; [|done]. split; [by rewrite d_update_nil|done]. }
  destruct H0 as [Hc0 Hf0]. apply bind_val in E as (r & s3 & E2 & E). destruct r as [b|m]; [|done].
  apply copy_in_run in E2 as (data & -> & Hc & Hf & _); [|done]. rewrite Hf0 in Hf. cbn in Hf.
  apply bind_val in E as (r & s4 & E3 & E). destruct r as [blob|m]; [|done].
  destruct (save_run b s3 Hc) as (r & s5 & Es & Hok & p & Hp & Hd). rewrite E3 in Es.
  injection Es as <- <-. rewrite (Hok _ eq_refl), Hf in E. injection E as <- <-.
  destruct Hd as [[_ [m Hm]]|Hd]; [done|]. rewrite Hf in Hp, Hd.
  exists data, p. split_and!; [done|done|by eapply split_at_2_state|].
  by rewrite Hd, lookup_insert_eq.
Qed.

Definition printed (o : list Out) : bytes :=
  concat ((fun x => match x with Bytes b => b | Line l => raw l end) <$> o).

(** What [sfblob] stores it writes out again.  Storing succeeds only when all of the input
    could be read, and then the name it prints is the digest of the input; [sfblob -r] with that
    name ends and writes a prefix of the input, the whole input unless it reports an error. *)
Theorem sfblob_roundtrip pieces s n s1 :
  sfblob buffer false [] pieces s = (Val ([Line n], Ok tt), s1) ->
  exists data, pieces = Ok <$> data /\ n = blob_name (concat data) /\
    exists out r s2, sfblob buffer true [Ok n] [] s1 = (Val (out, r), s2) /\
      printed out `prefix_of` concat data /\ (r = Ok tt -> printed out = concat data).
Proof.
  unfold sfblob. intros (r & s' & E & K)%bind_val.
  destruct r as [o|m]; [|done]. injection K as -> ->.
  apply store_blob_run in E as (data & p & -> & [= ->] & Hp & Hc).
  exists data. split_and!; [done|done|]. cbn [print_blobs].
  destruct (open_run _ _ _ _ Hp Hc) as (r & s2 & Eo & Hb). rewrite (bind_step _ _ _ _ _ Eo).
  destruct r as [b|m]; [|eexists _, _, _; split; [done|]; split; [apply prefix_nil|done]].
  rewrite (Hb b eq_refl). cbn [contents].
  destruct (copy_out_run (S (length (concat data))) (MkBlob (blob_name (concat data)) (concat data)) 0 s2)
    as (out & r & s3 & Ec & _ & Hpre & Hall); [cbn; lia|].
  rewrite (bind_step _ _ _ _ _ Ec). cbn [contents] in Hpre, Hall. rewrite drop_0 in Hpre, Hall.
  destruct r as [[]|m].
  - rewrite (bind_step (mret _) _ s3 ([], Ok tt) s3) by done.
    eexists _, _, _. split; [done|]. unfold printed. cbn. rewrite app_nil_r. by split.
  - eexists _, _, _. split; [done|]. unfold printed. cbn. by rewrite app_nil_r.
Qed.
End sfblob_theorems.
