(* ===== verification/Clap2.v ===== *)
(** * Command lines declared with the builder of [clap] 2

    The tools that are out of the build ([bins/sfclient], [bins/sffs], [frontends/webhook])
    declare their arguments with the older builder.  A declaration is a [Spec], built as the
    source builds it, less the texts for the user; the parser is a parameter, [Clap2], of which only what its matches
    contain is assumed. *)

From Stdlib Require Import Ascii String.
From stdpp Require Import base tactics option list gmap strings.
From S2P Require Import Prelude.

Record Spec : Type := MkSpec {
  spec_name : string;
  spec_long : option string;
  spec_short : option ascii;
  spec_index : option nat;
  spec_takes_value : bool;
  spec_required : bool;
  spec_multiple : bool;
  spec_delimiter : option ascii;
  spec_require_delimiter : bool;
  spec_possible : list string;
  spec_required_ifs : list (string * string);
}.

(** [Arg::with_name(n)] and the methods that refine it. *)
Definition with_name (n : string) : Spec :=
  MkSpec n None None None false false false None false [] [].
Definition long (l : string) (a : Spec) : Spec :=
  MkSpec (spec_name a) (Some l) (spec_short a) (spec_index a) (spec_takes_value a) (spec_required a)
    (spec_multiple a) (spec_delimiter a) (spec_require_delimiter a)
    (spec_possible a) (spec_required_ifs a).
Definition short (c : ascii) (a : Spec) : Spec :=
  MkSpec (spec_name a) (spec_long a) (Some c) (spec_index a) (spec_takes_value a) (spec_required a)
    (spec_multiple a) (spec_delimiter a) (spec_require_delimiter a)
    (spec_possible a) (spec_required_ifs a).
Definition index (i : nat) (a : Spec) : Spec :=
  MkSpec (spec_name a) (spec_long a) (spec_short a) (Some i) (spec_takes_value a) (spec_required a)
    (spec_multiple a) (spec_delimiter a) (spec_require_delimiter a)
    (spec_possible a) (spec_required_ifs a).
Definition takes_value (a : Spec) : Spec :=
  MkSpec (spec_name a) (spec_long a) (spec_short a) (spec_index a) true (spec_required a)
    (spec_multiple a) (spec_delimiter a) (spec_require_delimiter a)
    (spec_possible a) (spec_required_ifs a).
Definition required (b : bool) (a : Spec) : Spec :=
  MkSpec (spec_name a) (spec_long a) (spec_short a) (spec_index a) (spec_takes_value a) b
    (spec_multiple a) (spec_delimiter a) (spec_require_delimiter a)
    (spec_possible a) (spec_required_ifs a).
Definition multiple (a : Spec) : Spec :=
  MkSpec (spec_name a) (spec_long a) (spec_short a) (spec_index a) (spec_takes_value a)
    (spec_required a) true (spec_delimiter a) (spec_require_delimiter a)
    (spec_possible a) (spec_required_ifs a).
Definition value_delimiter (c : ascii) (a : Spec) : Spec :=
  MkSpec (spec_name a) (spec_long a) (spec_short a) (spec_index a) (spec_takes_value a)
    (spec_required a) (spec_multiple a) (Some c) (spec_require_delimiter a)
    (spec_possible a) (spec_required_ifs a).
Definition require_delimiter (b : bool) (a : Spec) : Spec :=
  MkSpec (spec_name a) (spec_long a) (spec_short a) (spec_index a) (spec_takes_value a)
    (spec_required a) (spec_multiple a) (spec_delimiter a) b (spec_possible a) (spec_required_ifs a).
Definition possible_values (vs : list string) (a : Spec) : Spec :=
  MkSpec (spec_name a) (spec_long a) (spec_short a) (spec_index a) (spec_takes_value a)
    (spec_required a) (spec_multiple a) (spec_delimiter a) (spec_require_delimiter a) vs (spec_required_ifs a).
Definition required_ifs (cs : list (string * string)) (a : Spec) : Spec :=
  MkSpec (spec_name a) (spec_long a) (spec_short a) (spec_index a) (spec_takes_value a)
    (spec_required a) (spec_multiple a) (spec_delimiter a) (spec_require_delimiter a)
    (spec_possible a) cs.

(** A program: its own arguments and its subcommands. *)
Record AppSpec : Type := MkAppSpec {
  app_args : list Spec;
  app_subcommands : list (string * list Spec);
}.

(** [ArgMatches]: the values of each argument that is there, and the subcommand. *)
Abbreviation Values := (gmap string (list string)).
Record ArgMatches : Type := MkArgMatches {
  top : Values;
  subcommand : option (string * Values);
}.
Definition values_of (n : string) (m : Values) : option (list string) := m !! n.
Definition value_of (n : string) (m : Values) : option string := values_of n m ≫= head.

(** What the matches of some declarations contain. *)
Definition declared (specs : list Spec) (m : Values) : Prop :=
  Forall (fun a =>
    (spec_required a = true -> is_Some (values_of (spec_name a) m)) /\
    (forall vs, values_of (spec_name a) m = Some vs ->
       vs <> [] /\ (spec_possible a <> [] -> Forall (fun v => v ∈ spec_possible a) vs)) /\
    Forall (fun c => value_of c.1 m = Some c.2 -> is_Some (values_of (spec_name a) m))
      (spec_required_ifs a)) specs.

(** [get_matches]; [None]: a message is printed and the process ends. *)
Class Clap2 := {
  get_matches : AppSpec -> list string -> option ArgMatches;
}.
Class Clap2Laws {K : Clap2} : Prop := {
  matches_top app args m : get_matches app args = Some m -> declared (app_args app) (top m);
  matches_subcommand app args m n vs :
    get_matches app args = Some m -> subcommand m = Some (n, vs) ->
    exists specs, (n, specs) ∈ app_subcommands app /\ declared specs vs;
}.

(** A required argument has a first value. *)
Lemma declared_values specs m a :
  declared specs m -> a ∈ specs -> spec_required a = true ->
  exists v vs, values_of (spec_name a) m = Some (v :: vs).
Proof.
  intros Hd (i & Hi)%list_elem_of_lookup Hr.
  destruct (proj1 (Forall_lookup _ _) Hd i a Hi) as (H1 & H2 & _).
  destruct (H1 Hr) as [vs Hvs]. destruct (H2 vs Hvs) as [Hne _].
  destruct vs as [|v vs]; [done|]. by exists v, vs.
Qed.
Lemma declared_value specs m a :
  declared specs m -> a ∈ specs -> spec_required a = true -> exists v, value_of (spec_name a) m = Some v.
Proof.
  intros Hd Ha Hr. destruct (declared_values _ _ _ Hd Ha Hr) as (v & vs & E).
  exists v. unfold value_of. by rewrite E.
Qed.
