(* ===== verification/Sfclient.v ===== *)
(** * The client ([snapfaas/bins/sfclient/main.rs])

    It acts as one principal on the file system, or sends invocations to the scheduler.  The
    program is out of the build: the functions of [fs::utils] that it calls have other names and
    types in this version, or are gone, and so is its format of invocations.  They are the
    parameter [OldUtils]; what the program does with them, with labels and with its arguments
    is modelled.  What is printed is recorded in order, [output]. *)

From Stdlib Require Import Ascii String.
From stdpp Require Import base tactics option list gmap strings.
From S2P Require Import Prelude Labels Store FsTypes Objects Fs Syscalls Message Paths Clap2.
Local Open Scope string_scope.
Local Open Scope list_scope.

(** ** What the program calls *)

(** [syscalls::PathComponent] *)
Inductive PbPathComponent : Type :=
  | PbFacet (l : pb.Buckle)
  | PbDscrp (s : string).
Abbreviation PbPath := (list PbPathComponent).

(** [fs::ServiceInfo] *)
Record ServiceInfo : Type := MkServiceInfo {
  si_url : string;
  si_verb : HttpVerb;
  si_headers : gmap string bytes;
  si_label : Buckle;
}.

(** The operations on the file system end; each takes the thread's state and gives it back. *)
Class OldUtils (St : Type) := {
  Error : Type;
  Metrics : Type;
  metrics_default : Metrics;
  get_stat : World St -> Metrics;
  (** [vm::buckle_to_pblabel] and [vm::component_to_pbcomponent] *)
  buckle_to_pblabel : Buckle -> pb.Buckle;
  component_to_pbcomponent : Component -> pb.Component;
  utils_read_path : PbPath -> World St -> result DirEntry Error * World St;
  fs_invoke_gate : ObjectRef TGate -> World St -> result unit Error * World St;
  utils_create_gate : PbPath -> string -> Buckle -> string -> World St -> result unit Error * World St;
  utils_read : PbPath -> World St -> result bytes Error * World St;
  utils_write : PbPath -> bytes -> World St -> result unit Error * World St;
  (** the names, in the order of the map *)
  utils_list : PbPath -> World St -> result (list string) Error * World St;
  utils_faceted_list : PbPath -> World St ->
    result (list (string * list string)) Error * World St;
  utils_delete : PbPath -> string -> World St -> result unit Error * World St;
  utils_create_directory : PbPath -> string -> Buckle -> World St -> result unit Error * World St;
  utils_create_faceted : PbPath -> string -> World St -> result unit Error * World St;
  utils_create_file : PbPath -> string -> Buckle -> World St -> result unit Error * World St;
  utils_create_service : PbPath -> string -> Buckle -> ServiceInfo -> World St -> result unit Error * World St;
  (** the encoded [LabeledInvoke] of a gate's path, a payload, a label and a privilege *)
  invoke_to_vec : PbPath -> string -> pb.Buckle -> pb.Component -> bytes;
}.

(** [reqwest::Url::parse(..).is_ok()], [reqwest::Method::from_bytes], [HeaderName::from_bytes]
    as text, [HeaderValue::from_str] as bytes and [String::from_utf8]. *)
Class ClientLib := {
  header_name : string -> option string;
  header_value : string -> option bytes;
  url_ok : string -> bool;
  method_from_bytes : string -> option Method.Method;
  from_utf8 : bytes -> option string;
}.

(** [TcpStream::connect] *)
Class Dial (O C : Type) := {
  dial : string -> SM O (option C);
}.

Inductive Out {E M : Type} : Type :=
  | Written (data : bytes)
  | Entry (name : string)
  | FacetEntry (facet : string) (names : list string)
  | ResponseLine (r : string)
  | Complaint (msg : string)
  | Tainted (msg : string) (l : Buckle)
  | Failed (msg : string) (e : E)
  | Usage
  | StatFile (file : string) (elapsed : Z) (stat : M).
Arguments Out : clear implicits.

(** ** Arguments *)

Definition colon_path (n : string) : Spec :=
  required true (takes_value (value_delimiter ":" (long n (with_name n)))).
Definition path_argument : Spec := required true (value_delimiter ":" (index 1 (with_name "path"))).
Definition valued (n : string) : Spec := required true (takes_value (long n (with_name n))).

Definition principal_args : list Spec :=
  [valued "principal"; required false (takes_value (long "stat" (with_name "stat")))].
Definition invoke_args : list Spec :=
  [required true (takes_value (short "s" (long "server" (with_name "server address"))));
   value_delimiter ":" (required true (takes_value (long "gate" (with_name "path"))))].
Definition newgate_args : list Spec :=
  [colon_path "base-dir"; valued "gate-name"; valued "policy"; valued "function"].
Definition del_args : list Spec := [colon_path "base-dir"; valued "name"].
Definition create_args : list Spec :=
  [required true (possible_values ["dir"; "file"; "faceted"] (index 1 (with_name "type")));
   colon_path "base-dir"; valued "name";
   required_ifs [("type", "dir"); ("type", "file")] (takes_value (long "label" (with_name "label")))].
Definition newservice_args : list Spec :=
  [colon_path "base-dir"; valued "service-name";
   required_ifs [("type", "dir"); ("type", "file")] (valued "label");
   valued "url"; valued "verb"; valued "policy"].
Definition sfclient_app : AppSpec :=
  MkAppSpec principal_args
    [("invoke", invoke_args); ("newgate", newgate_args); ("ls", [path_argument]);
     ("facetedls", [path_argument]); ("write", [path_argument]); ("read", [path_argument]);
     ("del", del_args); ("create", create_args); ("newservice", newservice_args)].

Definition DEFAULT_HEADERS : list (string * string) :=
  [("ACCEPT", "*/*"); ("USER_AGENT", "faasten")].

(** [s.split(',')] *)
Definition split (sep : ascii) (s : string) : list string :=
  string_of_list_ascii <$> split_on sep (list_ascii_of_string s).

Section sfclient.
Context {St O C : Type} `{BS : !BackingStore St} `{L : !LabelOps} `{SD : !SerdeOps}.
Context `{OU : !OldUtils St} `{CL : !ClientLib} `{CN : !Conn C} `{DL : !Dial O C} `{K : !Clap2}.
(** Standard input, by lines and whole; the time since the clock was looked at; whether a file
    can be created. *)
Context (stdin_lines : list (option string)) (stdin_all : option bytes).
Context (elapsed_since : World St -> Z) (can_create : string -> bool).

Record Client : Type := MkClient {
  world : World St;
  net : O;
  output : list (Out Error Metrics);
}.

Local Abbreviation M := (SM Client).

Definition set_world (w : World St) (s : Client) : Client := MkClient w (net s) (output s).
Definition set_net (n : O) (s : Client) : Client := MkClient (world s) n (output s).
Definition print (o : Out Error Metrics) : M unit :=
  modify (fun s => MkClient (world s) (net s) (output s ++ [o])).
Definition on_world {A} (m : SM (World St) A) : M A := zoom world set_world m.
Definition on_net {A} (m : SM O A) : M A := zoom net set_net m.
Definition old {A} (f : World St -> A * World St) : M A :=
  on_world (fun w => let '(a, w') := f w in (Val a, w')).

(** [path[0]] panics on an empty vector. *)
Definition parse_path_vec (path : list string) : M PbPath :=
  path ← match path with
         | [] => panic
         | p :: rest => mret (if decide (p = "") then rest else p :: rest)
         end;
  mret ((fun s => match buckle_parse s with
                  | Some l => PbFacet (buckle_to_pblabel l)
                  | None => PbDscrp s
                  end) <$> path).

(** The path of an argument. *)
Definition path_of (n : string) (m : Values) : M PbPath :=
  vs ← unwrap (values_of n m); parse_path_vec vs.

(** ** The subcommands

    Each gives what the statistics are made of, or [None] where [main] returns. *)

Definition Timed : Type := Z * Metrics.
Definition untimed : Timed := (0%Z, metrics_default).
Definition timed : M Timed := gets (fun s => (elapsed_since (world s), get_stat (world s))).

Definition complain (msg : string) (r : result unit Error) : M unit :=
  match r with Ok _ => mret tt | Err e => print (Failed msg e) end.

(** The principal as a component: one clause of one principal. *)
Definition principal_component (principal : list string) : Component :=
  DCFormula {[ {[ principal ]} ]}.

Fixpoint send_lines (addr : string) (path : PbPath) (principal : list string)
    (ls : list (option string)) : M unit :=
  match ls with
  | [] => mret tt
  | None :: _ => panic
  | Some line :: ls =>
      label ← on_world get_current_label;
      let request := invoke_to_vec path line (buckle_to_pblabel label)
                       (component_to_pbcomponent (principal_component principal)) in
      c ← on_net (dial addr);
      c ← unwrap c;
      let '(w, c) := write_u8 request c in
      match w with
      | Val (Ok _) =>
          match (read_u8 c).1 with
          | Val (Ok buf) =>
              response ← unwrap (from_utf8 buf);
              _ ← print (ResponseLine response);
              send_lines addr path principal ls
          | NoFuel => nofuel
          | _ => panic
          end
      | NoFuel => nofuel
      | _ => panic
      end
  end.

Definition invoke_command (principal : list string) (m : Values) : M (option Timed) :=
  addr ← unwrap (value_of "server address" m);
  path ← path_of "path" m;
  e ← old (utils_read_path path);
  gate ← match e with
         | Ok (DirEntry.Gate g) =>
             r ← old (fs_invoke_gate g);
             mret (match r with Ok _ => true | Err _ => false end)
         | _ => mret false
         end;
  if negb gate then _ ← print (Complaint "Gate does not exist."); mret None
  else _ ← send_lines addr path principal stdin_lines; mret (Some untimed).

Definition newgate_command (m : Values) : M (option Timed) :=
  function ← unwrap (value_of "function" m);
  name ← unwrap (value_of "gate-name" m);
  policy ← unwrap (value_of "policy" m);
  match buckle_parse policy with
  | None => _ ← print (Complaint "Bad gate policy."); mret None
  | Some policy =>
      base_dir ← path_of "base-dir" m;
      r ← old (utils_create_gate base_dir name policy function);
      _ ← complain "Cannot create the gate" r;
      mret (Some untimed)
  end.

(** Prints what was read if the current label may flow to the clearance. *)
Definition release (clearance : Buckle) (msg : string) (os : list (Out Error Metrics)) : M unit :=
  cur ← on_world get_current_label;
  if can_flow_to cur clearance
  then modify (fun s => MkClient (world s) (net s) (output s ++ os))
  else print (Tainted msg cur).

Definition taint_with_own_privilege : M unit :=
  p ← on_world get_privilege;
  _ ← on_world (taint_with_label (Buckle_new p dc_true)); mret tt.

Definition read_command (clearance : Buckle) (m : Values) : M (option Timed) :=
  _ ← taint_with_own_privilege;
  path ← path_of "path" m;
  r ← old (utils_read path);
  match r with
  | Ok data =>
      t ← timed;
      _ ← release clearance "Failed to read. Too tainted." [Written data];
      mret (Some t)
  | Err e => _ ← print (Failed "Failed to read." e); mret (Some untimed)
  end.

Definition write_command (m : Values) : M (option Timed) :=
  path ← path_of "path" m;
  buf ← unwrap stdin_all;
  r ← old (utils_write path buf);
  _ ← complain "Failed to write." r;
  t ← timed; mret (Some t).

Definition ls_command (clearance : Buckle) (m : Values) : M (option Timed) :=
  path ← path_of "path" m;
  r ← old (utils_list path);
  _ ← match r with
      | Ok entries => release clearance "Failed to list. Too tainted." (Entry <$> entries)
      | Err e => print (Failed "Failed to list." e)
      end;
  t ← timed; mret (Some t).

Definition facetedls_command (clearance : Buckle) (m : Values) : M (option Timed) :=
  _ ← taint_with_own_privilege;
  path ← path_of "path" m;
  r ← old (utils_faceted_list path);
  _ ← match r with
      | Ok entries =>
          release clearance "Failed to list. Too tainted."
            ((fun e => FacetEntry e.1 e.2) <$> entries)
      | Err e => print (Failed "Failed to list." e)
      end;
  t ← timed; mret (Some t).

Definition del_command (m : Values) : M (option Timed) :=
  base_dir ← unwrap (values_of "base-dir" m);
  name ← unwrap (value_of "name" m);
  base_dir ← parse_path_vec base_dir;
  r ← old (utils_delete base_dir name);
  _ ← complain "Failed to delete." r;
  t ← timed; mret (Some t).

Definition create_command (m : Values) : M (option Timed) :=
  objtype ← unwrap (value_of "type" m);
  base_dir ← unwrap (values_of "base-dir" m);
  name ← unwrap (value_of "name" m);
  base_dir ← parse_path_vec base_dir;
  let label := value_of "label" m ≫= buckle_parse in
  if decide (objtype = "dir") then
    match label with
    | None => _ ← print (Complaint "Bad label"); mret None
    | Some label =>
        r ← old (utils_create_directory base_dir name label);
        match r with
        | Err e => _ ← print (Failed "Cannot create the directory." e); mret None
        | Ok _ => t ← timed; mret (Some t)
        end
    end
  else if decide (objtype = "faceted") then
    r ← old (utils_create_faceted base_dir name);
    _ ← complain "Cannot create the faceted." r;
    t ← timed; mret (Some t)
  else if decide (objtype = "file") then
    match label with
    | None => _ ← print (Complaint "Bad label"); mret None
    | Some label =>
        r ← old (utils_create_file base_dir name label);
        _ ← complain "Cannot create the file." r;
        t ← timed; mret (Some t)
    end
  else panic.

Fixpoint header_map (hs : list (string * string)) (acc : gmap string bytes) :
    M (gmap string bytes) :=
  match hs with
  | [] => mret acc
  | (n, v) :: hs =>
      n ← unwrap (header_name n); v ← unwrap (header_value v); header_map hs (<[n := v]> acc)
  end.

(** The verb is a method that [HttpVerb] knows, or [into] panics. *)
Definition newservice_command (m : Values) : M (option Timed) :=
  url ← unwrap (u ← value_of "url" m; if url_ok u then Some u else None);
  verb ← unwrap (value_of "verb" m ≫= method_from_bytes);
  name ← unwrap (value_of "service-name" m);
  label ← unwrap (value_of "label" m ≫= buckle_parse);
  policy ← unwrap (value_of "policy" m ≫= buckle_parse);
  headers ← header_map DEFAULT_HEADERS ∅;
  verb ← verb_from_method verb;
  base_dir ← path_of "base-dir" m;
  r ← old (utils_create_service base_dir name policy (MkServiceInfo url verb headers label));
  _ ← complain "Cannot create the service" r;
  mret (Some untimed).

(** ** [main] *)

Definition dispatch (principal : list string) (clearance : Buckle)
    (sub : option (string * Values)) : M (option Timed) :=
  match sub with
  | None => _ ← print Usage; mret (Some untimed)
  | Some (name, m) =>
      if decide (name = "invoke") then invoke_command principal m
      else if decide (name = "newgate") then newgate_command m
      else if decide (name = "read") then read_command clearance m
      else if decide (name = "write") then write_command m
      else if decide (name = "ls") then ls_command clearance m
      else if decide (name = "facetedls") then facetedls_command clearance m
      else if decide (name = "del") then del_command m
      else if decide (name = "create") then create_command m
      else if decide (name = "newservice") then newservice_command m
      else _ ← print Usage; mret (Some untimed)
  end.

Definition write_stat (file : option string) (t : Timed) : M unit :=
  match file with
  | None => mret tt
  | Some file => if can_create file then print (StatFile file t.1 t.2) else panic
  end.

Definition clearance_of (principal : list string) : Buckle :=
  Buckle_new (principal_component principal) dc_true.

(** A command line that [clap] refuses ends the process before anything is done. *)
Definition sfclient (args : list string) : M unit :=
  match get_matches sfclient_app args with
  | None => mret tt
  | Some m =>
      p ← unwrap (value_of "principal" (top m));
      let principal := split "," p in
      _ ← on_world clear_label;
      _ ← on_world (set_my_privilge (principal_component principal));
      t ← dispatch principal (clearance_of principal) (subcommand m);
      match t with
      | None => mret tt
      | Some t => write_stat (value_of "stat" (top m)) t
      end
  end.
End sfclient.

(** ** What is shown *)

(** Contents and names, as opposed to messages and to what the scheduler answers. *)
Definition shown {E M} (o : Out E M) : bool :=
  match o with Written _ | Entry _ | FacetEntry _ _ => true | _ => false end.

Section theorems.
Context {St O C : Type} `{BS : !BackingStore St} `{LW : LabelLaws} `{SD : !SerdeOps}.
Context `{OU : !OldUtils St} `{CL : !ClientLib} `{CN : !Conn C} `{DL : !Dial O C} `{KL : Clap2Laws}.
Context (stdin_lines : list (option string)) (stdin_all : option bytes).
Context (elapsed_since : World St -> Z) (can_create : string -> bool).

Local Abbreviation S := (Client (St := St) (O := O)).
Implicit Types s : S.
Local Abbreviation sfclient := (sfclient stdin_lines stdin_all elapsed_since can_create).
Local Abbreviation dispatch := (dispatch stdin_lines stdin_all elapsed_since).

(** Nothing was shown. *)
Definition mute s s' : Prop :=
  exists new, output s' = output s ++ new /\ Forall (fun o => shown o = false) new.
#[local] Instance mute_preorder : PreOrder mute.
Proof.
  split; [intros s; exists []; by rewrite app_nil_r|].
  intros s1 s2 s3 (n1 & E1 & F1) (n2 & E2 & F2). exists (n1 ++ n2).
  rewrite E2, E1, app_assoc. split; [done|]. by apply Forall_app.
Qed.

(** What was shown may flow to the clearance, at the label of the end. *)
Definition cleared (clearance : Buckle) s s' : Prop :=
  exists new, output s' = output s ++ new /\
    (Exists (fun o => shown o = true) new -> Flows (current_label (world s')) clearance).

Lemma mute_cleared c s s' : mute s s' -> cleared c s s'.
Proof.
  intros (new & E & F). exists new. split; [done|]. intros (o & Ho & Hs)%list.Exists_exists.
  apply list_elem_of_lookup in Ho as [i Hi]. by rewrite (proj1 (Forall_lookup _ _) F i o Hi) in Hs.
Qed.
Lemma cleared_before c s1 s2 s3 : mute s1 s2 -> cleared c s2 s3 -> cleared c s1 s3.
Proof.
  intros (n1 & E1 & F1) (n2 & E2 & H2). exists (n1 ++ n2). rewrite E2, E1, app_assoc.
  split; [done|]. intros [H|H]%Exists_app; [|by apply H2].
  apply list.Exists_exists in H as (o & Ho & Hs). apply list_elem_of_lookup in Ho as [i Hi].
  by rewrite (proj1 (Forall_lookup _ _) F1 i o Hi) in Hs.
Qed.
Lemma cleared_after c s1 s2 s3 :
  cleared c s1 s2 -> mute s2 s3 -> world s3 = world s2 -> cleared c s1 s3.
Proof.
  intros (n1 & E1 & H1) (n2 & E2 & F2) Hw. exists (n1 ++ n2). rewrite E2, E1, app_assoc.
  split; [done|]. rewrite Hw. intros [H|H]%Exists_app; [by apply H1|].
  apply list.Exists_exists in H as (o & Ho & Hs). apply list_elem_of_lookup in Ho as [i Hi].
  by rewrite (proj1 (Forall_lookup _ _) F2 i o Hi) in Hs.
Qed.

(** A mute step, then the rest; and the rest that only looks or complains. *)
Lemma cleared_then {A X} c (m : SM S A) (f : A -> SM S X) s :
  Guar mute m -> (forall a s1, cleared c s1 (f a s1).2) -> cleared c s ((m ≫= f) s).2.
Proof.
  intros Hm Hf. specialize (Hm s). unfold mbind, SM_bind.
  destruct (m s) as [[a| |] s1]; [|by apply mute_cleared..]. eapply cleared_before; [exact Hm|apply Hf].
Qed.
Definition idle s s' : Prop := s' = s.
#[local] Instance idle_preorder : PreOrder idle.
Proof. split; [done|]. unfold idle. intros s1 s2 s3 -> ->. done. Qed.
Lemma cleared_last {A X} c (m : SM S A) (f : A -> SM S X) s :
  cleared c s (m s).2 -> (forall a, Guar idle (f a)) -> cleared c s ((m ≫= f) s).2.
Proof.
  intros Hm Hf. unfold mbind, SM_bind. destruct (m s) as [[a| |] s1]; [|done..].
  by rewrite (Hf a s1).
Qed.

Lemma mute_world {A} (m : SM (World St) A) : Guar mute (on_world (O := O) m).
Proof. intros s. unfold on_world, zoom. destruct (m _). exists []. by rewrite app_nil_r. Qed.
Lemma mute_net {A} (m : SM O A) : Guar mute (on_net (St := St) m).
Proof. intros s. unfold on_net, zoom. destruct (m _). exists []. by rewrite app_nil_r. Qed.
Lemma mute_old {A} (f : World St -> A * World St) : Guar mute (old (O := O) f).
Proof. apply mute_world. Qed.
Lemma mute_print o : shown o = false -> Guar mute (print (St := St) (O := O) o).
Proof. intros Ho s. exists [o]. split; [done|]. by constructor. Qed.
#[local] Hint Resolve mute_world mute_net mute_old : guar.
#[local] Hint Extern 1 (Guar mute (print _)) => by apply mute_print : guar.

Lemma mute_parse_path_vec vs : Guar mute (parse_path_vec (St := St) (O := O) vs).
Proof. unfold parse_path_vec. solve_guar. Qed.
#[local] Hint Resolve mute_parse_path_vec : guar.
Lemma mute_path_of n m : Guar mute (path_of (St := St) (O := O) n m).
Proof. unfold path_of. solve_guar. Qed.
Lemma mute_complain msg r : Guar mute (complain (St := St) (O := O) msg r).
Proof. unfold complain. solve_guar. Qed.
Lemma mute_taint : Guar mute (taint_with_own_privilege (St := St) (O := O)).
Proof. unfold taint_with_own_privilege. solve_guar. Qed.
Lemma mute_timed : Guar mute (timed (O := O) elapsed_since).
Proof. unfold timed. solve_guar. Qed.
#[local] Hint Resolve mute_path_of mute_complain mute_taint mute_timed : guar.
Lemma mute_header_map hs acc : Guar mute (header_map (St := St) (O := O) hs acc).
Proof. revert acc; induction hs as [|[n v] hs IH]; intros acc; cbn [header_map]; solve_guar. Qed.
Lemma mute_send_lines addr path principal ls :
  Guar mute (send_lines (St := St) (O := O) addr path principal ls).
Proof.
  induction ls as [|[line|] ls IH]; cbn [send_lines]; [apply guar_ret| |apply guar_panic].
  apply guar_bind; [solve_guar|]. intros label. apply guar_bind; [solve_guar|]. intros o.
  apply guar_bind; [solve_guar|]. intros c. destruct (write_u8 _ c) as [[[|]| |] c']; solve_guar.
Qed.
#[local] Hint Resolve mute_header_map mute_send_lines : guar.

Lemma release_cleared c msg os s : cleared c s (release (O := O) c msg os s).2.
Proof.
  unfold release. rewrite (bind_step (on_world get_current_label) _ s (current_label (world s)) s)
    by by destruct s.
  destruct (can_flow_to _ c) eqn:Hf; [by exists os|].
  by apply mute_cleared, mute_print.
Qed.
Lemma idle_timed : Guar idle (timed (O := O) elapsed_since).
Proof. done. Qed.

Lemma read_cleared c m s : cleared c s (read_command elapsed_since c m s).2.
Proof.
  unfold read_command. apply cleared_then; [solve_guar|]. intros _ s1.
  apply cleared_then; [solve_guar|]. intros path s2. apply cleared_then; [solve_guar|].
  intros [d|e] s3; [|by apply mute_cleared; apply guar_bind; solve_guar].
  apply cleared_then; [solve_guar|]. intros tm s4.
  apply cleared_last; [apply release_cleared|]. intros _. apply guar_ret.
Qed.
Lemma listing_cleared {A} c (r : result A Error) msg1 msg2 os s :
  cleared c s ((_ ← match r with
                    | Ok x => release (O := O) c msg1 (os x)
                    | Err e => print (Failed msg2 e)
                    end; tm ← timed elapsed_since; mret (Some tm)) s).2.
Proof.
  apply cleared_last; [|intros _; apply guar_bind; [apply idle_timed|intros tm; apply guar_ret]].
  destruct r; [apply release_cleared|]. by apply mute_cleared, mute_print.
Qed.
Lemma ls_cleared c m s : cleared c s (ls_command elapsed_since c m s).2.
Proof.
  unfold ls_command. apply cleared_then; [solve_guar|]. intros path s1.
  apply cleared_then; [solve_guar|]. intros r s2. apply listing_cleared.
Qed.
Lemma facetedls_cleared c m s : cleared c s (facetedls_command elapsed_since c m s).2.
Proof.
  unfold facetedls_command. apply cleared_then; [solve_guar|]. intros _ s0.
  apply cleared_then; [solve_guar|]. intros path s1.
  apply cleared_then; [solve_guar|]. intros r s2. apply listing_cleared.
Qed.

Lemma dispatch_cleared principal c sub s : cleared c s (dispatch principal c sub s).2.
Proof.
  assert (Hg : forall m : SM S (option (Timed (St := St))), Guar mute m -> cleared c s (m s).2)
    by (intros m Hm; apply mute_cleared, Hm).
  unfold Sfclient.dispatch. destruct sub as [[name m]|]; [|apply Hg; solve_guar].
  repeat case_decide; first [apply read_cleared | apply ls_cleared | apply facetedls_cleared | apply Hg].
  - unfold invoke_command. solve_guar.
  - unfold newgate_command. solve_guar.
  - unfold write_command. solve_guar.
  - unfold del_command. solve_guar.
  - unfold create_command. solve_guar.
  - unfold newservice_command, verb_from_method. solve_guar.
  - solve_guar.
Qed.

(** What the client shows has been checked.  Whatever the command line and whatever the
    functions of the file system return, contents of files and names in directories are
    printed only if the label that the thread has then, which is the one it ends with, may flow
    to the clearance of the principal that the command line names. *)
Theorem shown_to_clearance args s :
  let s' := (sfclient args s).2 in
  exists new, output s' = output s ++ new /\
    forall m p, get_matches sfclient_app args = Some m -> value_of "principal" (top m) = Some p ->
      Exists (fun o => shown o = true) new ->
      Flows (current_label (world s')) (clearance_of (split "," p)).
Proof.
  cbv zeta. unfold Sfclient.sfclient.
  assert (Hn : forall P : Prop, Exists (fun o : Out Error Metrics => shown o = true) [] -> P)
    by (intros P H; inversion H).
  destruct (get_matches sfclient_app args) as [m|];
    [|exists []; split; [by rewrite app_nil_r|intros ? ? _ _; apply Hn]].
  destruct (value_of "principal" (top m)) as [p|] eqn:Ep;
    [|exists []; split; [by rewrite app_nil_r|intros ? ? _ _; apply Hn]].
  match goal with |- exists new, output (?k s).2 = _ /\ _ =>
    assert (Hc : cleared (clearance_of (split "," p)) s (k s).2) end.
  { rewrite (bind_step (unwrap (Some p)) _ s p s) by done.
    apply cleared_then; [solve_guar|]. intros _ s1. apply cleared_then; [solve_guar|]. intros _ s2.
    unfold mbind, SM_bind.
    pose proof (dispatch_cleared (split "," p) (clearance_of (split "," p)) (subcommand m) s2) as Hd.
    destruct (Sfclient.dispatch _ _ _ _ _ _ s2) as [[[tm|]| |] s3]; try exact Hd.
    unfold write_stat. destruct (value_of "stat" (top m)) as [file|]; [|exact Hd].
    destruct (can_create file); [|exact Hd].
    eapply cleared_after; [exact Hd|by apply mute_print|done]. }
  destruct Hc as (new & E & H). exists new. split; [exact E|]. intros m' p' [= <-] Hp Hs.
  assert (p' = p) as -> by congruence. by apply H.
Qed.

(** ** Arguments *)

(** A computation that always returns. *)
Definition Total {A} (m : SM S A) : Prop := forall s, exists a s', m s = (Val a, s').
Lemma total_bind {A X} (m : SM S A) (f : A -> SM S X) : Total m -> (forall a, Total (f a)) -> Total (m ≫= f).
Proof.
  intros Hm Hf s. destruct (Hm s) as (a & s1 & E). rewrite (bind_step _ _ _ _ _ E). apply Hf.
Qed.
Lemma total_ret {A} (a : A) : Total (mret a).
Proof. intros s. by exists a, s. Qed.
Lemma total_unwrap {A X} (o : option A) a (f : A -> SM S X) : o = Some a -> Total (f a) -> Total (unwrap o ≫= f).
Proof. intros -> Hf s. apply Hf. Qed.
Lemma total_old {A} (f : World St -> A * World St) : Total (old (O := O) f).
Proof. intros s. unfold old, on_world, zoom. destruct (f (world s)) as [a w']. eauto. Qed.
Lemma total_print o : Total (print (St := St) (O := O) o).
Proof. intros s. unfold print, modify. eauto. Qed.
Lemma total_timed : Total (timed (O := O) elapsed_since).
Proof. intros s. unfold timed, gets. eauto. Qed.
Lemma total_complain msg r : Total (complain (St := St) (O := O) msg r).
Proof. destruct r; [apply total_ret | apply total_print]. Qed.
Lemma total_release c msg os : Total (release (O := O) c msg os).
Proof.
  intros s. unfold release. rewrite (bind_step (on_world get_current_label) _ s (current_label (world s)) s)
    by by destruct s.
  destruct (can_flow_to _ c); unfold print, modify; eauto.
Qed.
Lemma total_taint : Total (taint_with_own_privilege (St := St) (O := O)).
Proof. intros s. unfold taint_with_own_privilege. cbn. eauto. Qed.
Lemma total_path v vs : Total (parse_path_vec (St := St) (O := O) (v :: vs)).
Proof. intros s. unfold parse_path_vec. cbn. destruct (decide (v = "")); eauto. Qed.

#[local] Hint Resolve total_ret total_old total_print total_timed total_complain total_release
  total_taint total_path : total.
Ltac solve_total :=
  repeat match goal with
  | |- Total (_ ≫= _) => apply total_bind; [|intros ?]
  | |- Total (match ?x with _ => _ end) => destruct x
  | |- Total (let _ := _ in _) => cbv zeta
  | |- Total _ => solve [auto with total]
  end.

(** The value of a declared argument, in front of the rest. *)
Lemma total_value {X} specs m (a : Spec) (f : string -> SM S X) :
  declared specs m -> a ∈ specs -> spec_required a = true -> (forall v, Total (f v)) ->
  Total (unwrap (value_of (spec_name a) m) ≫= f).
Proof. intros Hd Ha Hr Hf. destruct (declared_value _ _ _ Hd Ha Hr) as [v E]. by eapply total_unwrap. Qed.
Lemma total_values {X} specs m (a : Spec) (f : list string -> SM S X) :
  declared specs m -> a ∈ specs -> spec_required a = true -> (forall v vs, Total (f (v :: vs))) ->
  Total (unwrap (values_of (spec_name a) m) ≫= f).
Proof.
  intros Hd Ha Hr Hf. destruct (declared_values _ _ _ Hd Ha Hr) as (v & vs & E). by eapply total_unwrap.
Qed.
Lemma total_path_of specs m (a : Spec) :
  declared specs m -> a ∈ specs -> spec_required a = true ->
  Total (path_of (St := St) (O := O) (spec_name a) m).
Proof. intros Hd Ha Hr. unfold path_of. eapply total_values; [done..|]. intros v vs. apply total_path. Qed.

Lemma total_path_argument m :
  declared [path_argument] m -> Total (path_of (St := St) (O := O) "path" m).
Proof. intros Hd. apply (total_path_of _ _ path_argument Hd); [by left | done]. Qed.
#[local] Hint Resolve total_path_argument : total.

Lemma total_read c m : declared [path_argument] m -> Total (read_command (O := O) elapsed_since c m).
Proof. intros Hd. unfold read_command. solve_total. Qed.
Lemma total_ls c m : declared [path_argument] m -> Total (ls_command (O := O) elapsed_since c m).
Proof. intros Hd. unfold ls_command. solve_total. Qed.
Lemma total_facetedls c m :
  declared [path_argument] m -> Total (facetedls_command (O := O) elapsed_since c m).
Proof. intros Hd. unfold facetedls_command. solve_total. Qed.

Lemma total_newgate m : declared newgate_args m -> Total (newgate_command (St := St) (O := O) m).
Proof.
  intros Hd. unfold newgate_command.
  apply (total_value _ _ (valued "function") _ Hd); [set_solver|done|]. intros fn.
  apply (total_value _ _ (valued "gate-name") _ Hd); [set_solver|done|]. intros name.
  apply (total_value _ _ (valued "policy") _ Hd); [set_solver|done|]. intros policy.
  destruct (buckle_parse policy); [|solve_total].
  apply total_bind; [|intros path; solve_total].
  apply (total_path_of _ _ (colon_path "base-dir") Hd); [set_solver | done].
Qed.
Lemma total_del m : declared del_args m -> Total (del_command (O := O) elapsed_since m).
Proof.
  intros Hd. unfold del_command.
  apply (total_values _ _ (colon_path "base-dir") _ Hd); [set_solver|done|]. intros v vs.
  apply (total_value _ _ (valued "name") _ Hd); [set_solver|done|]. intros name. solve_total.
Qed.
Lemma total_create m : declared create_args m -> Total (create_command (O := O) elapsed_since m).
Proof.
  intros Hd. unfold create_command.
  pose proof (proj1 (Forall_lookup _ _) Hd 0%nat _ eq_refl) as (Ht & Hp & _).
  destruct (Ht eq_refl) as [vs Hvs]. destruct (Hp vs Hvs) as [Hne Hin]. cbn in Hin.
  change (values_of "type" m = Some vs) in Hvs.
  destruct vs as [|ty vs]; [done|]. specialize (Hin ltac:(done)). apply Forall_cons in Hin as [Hty _].
  eapply total_unwrap; [unfold value_of; by rewrite Hvs|].
  apply (total_values _ _ (colon_path "base-dir") _ Hd); [set_solver|done|]. intros v vs'.
  apply (total_value _ _ (valued "name") _ Hd); [set_solver|done|]. intros name.
  apply total_bind; [apply total_path|]. intros path. cbv zeta.
  repeat case_decide; [solve_total..|]. exfalso. set_solver.
Qed.

(** The declarations of the arguments are enough.  A command line that the parser accepts, for
    a subcommand that does not read standard input, talk to the scheduler or create a service,
    is never the cause of a panic: every argument that the program unwraps or indexes is there,
    and the type of an object to create is one that it knows.  What is left to fail is the file
    for the statistics. *)
Theorem arguments_suffice args m s :
  get_matches sfclient_app args = Some m ->
  (forall n vs, subcommand m = Some (n, vs) -> n <> "invoke" /\ n <> "write" /\ n <> "newservice") ->
  (forall file, value_of "stat" (top m) = Some file -> can_create file = true) ->
  exists s', sfclient args s = (Val tt, s').
Proof.
  intros Hm Hsub Hstat. unfold Sfclient.sfclient. rewrite Hm.
  assert (Ht : Total (t ← dispatch (split "," (default "" (value_of "principal" (top m))))
    (clearance_of (split "," (default "" (value_of "principal" (top m))))) (subcommand m);
    match t with None => mret tt | Some t => write_stat can_create (value_of "stat" (top m)) t end)).
  { apply total_bind.
    - unfold Sfclient.dispatch. destruct (subcommand m) as [[n vs]|] eqn:Es; [|solve_total].
      destruct (Hsub n vs eq_refl) as (Hi & Hw & Hs).
      destruct (matches_subcommand _ _ _ _ _ Hm Es) as (specs & Hin & Hd).
      unfold sfclient_app in Hin. cbn [app_subcommands] in Hin.
      repeat (apply elem_of_cons in Hin as [[= -> ->]|Hin]; [try done|]);
        try (by apply not_elem_of_nil in Hin);
        repeat (rewrite decide_False by done); rewrite decide_True by done;
        auto using total_newgate, total_ls, total_facetedls, total_read, total_del, total_create.
    - intros [t|]; [|apply total_ret]. unfold write_stat.
      destruct (value_of "stat" (top m)) as [file|]; [|apply total_ret].
      rewrite (Hstat file eq_refl). apply total_print. }
  destruct (declared_value _ _ (valued "principal") (matches_top _ _ _ Hm)) as [p Hp]; [set_solver|done|].
  change (value_of "principal" (top m) = Some p) in Hp. rewrite Hp in *. cbn [default] in Ht.
  destruct (Ht (set_world (set_privilege (principal_component (split "," p))
    (set_label public (world s))) s)) as ([] & s' & E). by exists s'.
Qed.
End theorems.
