(* ===== verification/Sffs.v ===== *)
(** * The file system tool ([snapfaas/bins/sffs/main.rs])

    A wrapper over the module [labeled_fs], with labels of the older kind ([DCLabel]).  The
    program is out of the build and the module is gone, so that the module is the parameter
    [LabeledFs]; what the program makes of its arguments, of labels and of errors is modelled,
    with the operations of [std::path::Path] on Unix that it uses. *)

From Stdlib Require Import Ascii String.
From stdpp Require Import base tactics option list gmap strings.
From S2P Require Import Prelude Paths Clap2 Sfclient.
Local Open Scope string_scope.
Local Open Scope list_scope.

Local Abbreviation chars := list_ascii_of_string.
Local Abbreviation str := string_of_list_ascii.

(** ** [Path::parent] and [Path::file_name]

    A path is cut from its end: empty pieces and pieces [.] are skipped, except a leading [.]. *)

Definition has_root (p : list ascii) : bool :=
  match p with c :: _ => bool_decide (c = "/"%char) | [] => false end.
Definition include_cur_dir (p : list ascii) : bool :=
  match p with
  | [c] => bool_decide (c = "."%char)
  | c :: d :: _ => bool_decide (c = "."%char /\ d = "/"%char)
  | [] => false
  end.
Definition len_before_body (p : list ascii) : nat :=
  if has_root p then 1 else if include_cur_dir p then 1 else 0.

(** [parse_next_component_back]: the last piece, and what is in front of its separator. *)
Fixpoint cut_back (rev_body piece : list ascii) : list ascii * list ascii :=
  match rev_body with
  | [] => ([], piece)
  | c :: body => if decide (c = "/"%char) then (rev body, piece) else cut_back body (c :: piece)
  end.
Definition next_component_back (p : list ascii) : list ascii * list ascii :=
  let n := len_before_body p in
  let '(rest, piece) := cut_back (rev (skipn n p)) [] in (take n p ++ rest, piece).

(** The root, the current directory in front, and the pieces of the body. *)
Inductive PathPiece : Type := RootDir | CurDir | ParentDir | Normal (s : list ascii).

Definition parse_single_component (s : list ascii) : option PathPiece :=
  if decide (s = []) then None
  else if decide (s = ["."%char]) then None
  else if decide (s = ["."%char; "."%char]) then Some ParentDir
  else Some (Normal s).

(** [Components::next_back]; each round takes a piece away. *)
Fixpoint next_back (fuel : nat) (p : list ascii) : option (PathPiece * list ascii) :=
  match fuel with
  | O => None
  | S fuel =>
      if decide (len_before_body p < length p) then
        let '(rest, piece) := next_component_back p in
        match parse_single_component piece with
        | Some c => Some (c, rest)
        | None => next_back fuel rest
        end
      else if has_root p then Some (RootDir, [])
      else if include_cur_dir p then Some (CurDir, [])
      else None
  end.
(** [Components::as_path]: what is skipped at the end is cut off. *)
Fixpoint trim_right (fuel : nat) (p : list ascii) : list ascii :=
  match fuel with
  | O => p
  | S fuel =>
      if decide (len_before_body p < length p) then
        let '(rest, piece) := next_component_back p in
        match parse_single_component piece with Some _ => p | None => trim_right fuel rest end
      else p
  end.

Definition components_back (p : list ascii) : option (PathPiece * list ascii) :=
  next_back (S (length p)) p.
Definition parent (path : string) : option string :=
  match components_back (chars path) with
  | Some (RootDir, _) | None => None
  | Some (_, rest) => Some (str (trim_right (length rest) rest))
  end.
Definition file_name (path : string) : option string :=
  match components_back (chars path) with Some (Normal s, _) => Some (str s) | _ => None end.

Example parent_examples :
  parent <$> ["/a/b"; "/a"; "a"; "a/b/"; "a//./b/."; "./a"; "/"; ""; ".."; "a/.."] =
    [Some "/a"; Some "/"; Some ""; Some "a"; Some "a"; Some "."; None; None; Some ""; Some "a"] /\
  file_name <$> ["/a/b"; "a/b/"; "a/."; "."; "a/.."; "/"] =
    [Some "b"; Some "b"; Some "a"; None; None; None].
Proof. split; reflexivity. Qed.

(** ** What the program calls *)

(** [labeled_fs::Error] *)
Inductive LfsError : Set := BadPath | Unauthorized | BadTargetLabel.

(** [dclabel]: components from a truth value and from clauses, and labels; and
    [str::to_lowercase], by the tables of Unicode. *)
Class DcLabelLib := {
  DcComponent : Type;
  DCLabel : Type;
  dc_bool : bool -> DcComponent;
  dc_clauses : list (list string) -> DcComponent;
  dclabel_new : DcComponent -> DcComponent -> DCLabel;
  dclabel_public : DCLabel;
  to_lowercase : string -> string;
}.

(** [labeled_fs]: each operation takes the current label and may change it. *)
Class LabeledFs (F : Type) `{!DcLabelLib} := {
  lfs_read : string -> DCLabel -> F -> result bytes LfsError * DCLabel * F;
  lfs_list : string -> DCLabel -> F -> result (list string) LfsError * DCLabel * F;
  lfs_create_dir : string -> string -> DCLabel -> DCLabel -> F -> result unit LfsError * DCLabel * F;
  lfs_create_file : string -> string -> DCLabel -> DCLabel -> F -> result unit LfsError * DCLabel * F;
  lfs_write : string -> bytes -> DCLabel -> F -> result unit LfsError * DCLabel * F;
}.

Inductive FsOut : Type :=
  | Shown (data : bytes)
  | Listed (line : string)
  | Message (msg : string)
  | HelpText.

(** ** Arguments *)

Definition path_spec : Spec := required true (index 1 (with_name "PATH")).
Definition endorse_spec : Spec :=
  takes_value (required true (long "endorse" (short "e" (with_name "endorse")))).
Definition clauses_spec (n : string) (c : ascii) : Spec :=
  required true (require_delimiter true (value_delimiter ";" (multiple (long n (short c (with_name n)))))).
Definition mk_args : list Spec :=
  [path_spec; clauses_spec "secrecy" "s"; clauses_spec "integrity" "i"; endorse_spec].
Definition write_args : list Spec :=
  [path_spec; takes_value (long "file" (short "f" (with_name "FILE"))); endorse_spec].
Definition sffs_app : AppSpec :=
  MkAppSpec [] [("ls", [path_spec]); ("cat", [path_spec]); ("mkdir", mk_args); ("mkfile", mk_args);
                ("write", write_args)].

Section sffs.
Context {F : Type} `{DC : !DcLabelLib} `{LF : !LabeledFs F} `{K : !Clap2}.
(** Standard input, and [std::fs::read]. *)
Context (stdin_all : option bytes) (local_read : string -> option bytes).

Record Sffs : Type := MkSffs { lfs : F; cur_label : DCLabel; printed : list FsOut }.

Local Abbreviation M := (SM Sffs).

Definition say (o : FsOut) : M unit := modify (fun s => MkSffs (lfs s) (cur_label s) (printed s ++ [o])).
Definition set_cur_label (l : DCLabel) : M unit := modify (fun s => MkSffs (lfs s) l (printed s)).
(** With [&mut cur_label]. *)
Definition with_label {A} (f : DCLabel -> F -> A * DCLabel * F) : M A :=
  fun s => let '(a, l, x) := f (cur_label s) (lfs s) in (Val a, MkSffs x l (printed s)).

(** [clauses[0]] panics on an empty vector. *)
Definition input_to_component (clauses : list string) : M DcComponent :=
  match clauses with
  | [] => panic
  | c :: _ =>
      mret (if decide (to_lowercase c = "true") then dc_bool true
            else if decide (to_lowercase c = "false") then dc_bool false
            else dc_clauses ((fun clause => to_lowercase <$> split "," clause) <$> clauses))
  end.
Definition input_to_dclabel (s_clauses i_clauses : list string) : M DCLabel :=
  secrecy ← input_to_component s_clauses;
  integrity ← input_to_component i_clauses;
  mret (dclabel_new secrecy integrity).

Definition input_to_endorsement (endorse : string) : DCLabel :=
  if decide (to_lowercase endorse = "false") then dclabel_new (dc_bool true) (dc_bool false)
  else if decide (to_lowercase endorse = "true") then dclabel_new (dc_bool true) (dc_bool true)
  else dclabel_new (dc_bool true) (dc_clauses [[to_lowercase endorse]]).

Definition lfs_message (r : result unit LfsError) (bad_target : string) : M unit :=
  match r with
  | Err BadPath => say (Message "Invalid path.")
  | Err Unauthorized => say (Message "Bad endorsement.")
  | Err BadTargetLabel => say (Message bad_target)
  | Ok _ => mret tt
  end.

(** ** The subcommands *)

Definition cat_command (m : Values) : M unit :=
  path ← unwrap (value_of "PATH" m);
  r ← with_label (lfs_read path);
  match r with Ok data => say (Shown data) | Err _ => say (Message "Invalid path.") end.

Definition tab : string := String "009" "".
Definition ls_command (m : Values) : M unit :=
  path ← unwrap (value_of "PATH" m);
  r ← with_label (lfs_list path);
  match r with
  | Ok entries => say (Listed (String.concat tab entries))
  | Err _ => say (Message "Invalid path.")
  end.

(** [mkdir] and [mkfile], which differ in the operation that they call: the endorsement is the
    current label before the target label is read, and the arguments are evaluated in order. *)
Definition mk_command
    (op : string -> string -> DCLabel -> DCLabel -> F -> result unit LfsError * DCLabel * F)
    (m : Values) : M unit :=
  path ← unwrap (value_of "PATH" m);
  s_clauses ← unwrap (values_of "secrecy" m);
  i_clauses ← unwrap (values_of "integrity" m);
  endorse ← unwrap (value_of "endorse" m);
  _ ← set_cur_label (input_to_endorsement endorse);
  dir ← unwrap (parent path);
  name ← unwrap (file_name path);
  target ← input_to_dclabel s_clauses i_clauses;
  r ← with_label (op dir name target);
  lfs_message r "Bad target label.".
Definition mkdir_command : Values -> M unit := mk_command lfs_create_dir.
Definition mkfile_command : Values -> M unit := mk_command lfs_create_file.

Definition write_command (m : Values) : M unit :=
  data ← unwrap (match value_of "FILE" m with Some p => local_read p | None => stdin_all end);
  endorse ← unwrap (value_of "endorse" m);
  _ ← set_cur_label (input_to_endorsement endorse);
  path ← unwrap (value_of "PATH" m);
  r ← with_label (lfs_write path data);
  lfs_message r "write should not reach here.".

Definition sffs (args : list string) : M unit :=
  match get_matches sffs_app args with
  | None => mret tt
  | Some m =>
      _ ← set_cur_label dclabel_public;
      match subcommand m with
      | None => say HelpText
      | Some (name, m) =>
          if decide (name = "cat") then cat_command m
          else if decide (name = "ls") then ls_command m
          else if decide (name = "mkdir") then mkdir_command m
          else if decide (name = "mkfile") then mkfile_command m
          else if decide (name = "write") then write_command m
          else say HelpText
      end
  end.
End sffs.

(** ** What is done with the arguments *)

Section theorems.
Context {F : Type} `{DC : !DcLabelLib} `{LF : !LabeledFs F} `{KL : Clap2Laws}.
Context (stdin_all : option bytes) (local_read : string -> option bytes).
Local Abbreviation S := (Sffs (F := F)).
Implicit Types s : S.

(** A component is true or false by its first clause alone, whatever clauses follow. *)
Theorem first_clause_decides c cs s :
  (to_lowercase c = "true" -> input_to_component (c :: cs) s = (Val (dc_bool true), s)) /\
  (to_lowercase c = "false" -> input_to_component (c :: cs) s = (Val (dc_bool false), s)) /\
  (to_lowercase c <> "true" -> to_lowercase c <> "false" ->
   input_to_component (c :: cs) s =
     (Val (dc_clauses ((fun x => to_lowercase <$> split "," x) <$> c :: cs)), s)).
Proof.
  split_and!.
  - intros E. cbn. by rewrite E.
  - intros E. cbn. by rewrite E.
  - intros H1 H2. unfold input_to_component. by rewrite !decide_False by done.
Qed.

(** What is said of the outcome of an operation. *)
Definition outcome_message (r : result unit LfsError) (bad_target : string) : list FsOut :=
  match r with
  | Ok _ => []
  | Err BadPath => [Message "Invalid path."]
  | Err Unauthorized => [Message "Bad endorsement."]
  | Err BadTargetLabel => [Message bad_target]
  end.
Lemma lfs_message_run r msg s :
  lfs_message r msg s = (Val tt, MkSffs (lfs s) (cur_label s) (printed s ++ outcome_message r msg)).
Proof. destruct r as [|[]], s; cbn; by rewrite ?app_nil_r. Qed.

Lemma input_to_component_value c cs s : exists x, input_to_component (c :: cs) s = (Val x, s).
Proof. eexists. reflexivity. Qed.

(** Making a directory or a file.  Whatever arguments the parser accepts, either the path has a
    parent and a name, and the operation is called once, with the endorsement as the current
    label and with nothing else; or the program panics before it touches the file system. *)
Theorem mk_command_spec op m s :
  declared mk_args m ->
  exists path endorse target,
    value_of "PATH" m = Some path /\ value_of "endorse" m = Some endorse /\
    match parent path, file_name path with
    | Some dir, Some name =>
        let '(r, l, x) := op dir name target (input_to_endorsement endorse) (lfs s) in
        mk_command op m s =
          (Val tt, MkSffs x l (printed s ++ outcome_message r "Bad target label."))
    | _, _ => (mk_command op m s).1 = Panic /\ lfs (mk_command op m s).2 = lfs s
    end.
Proof.
  intros Hd.
  destruct (declared_value _ _ path_spec Hd) as [path Hp]; [by left|done|].
  destruct (declared_values _ _ (clauses_spec "secrecy" "s") Hd) as (sc & scs & Hs);
    [by right; left|done|].
  destruct (declared_values _ _ (clauses_spec "integrity" "i") Hd) as (ic & ics & Hi);
    [by right; right; left|done|].
  destruct (declared_value _ _ endorse_spec Hd) as [e He]; [by right; right; right; left|done|].
  change (value_of "PATH" m = Some path) in Hp. change (values_of "secrecy" m = Some (sc :: scs)) in Hs.
  change (values_of "integrity" m = Some (ic :: ics)) in Hi. change (value_of "endorse" m = Some e) in He.
  set (s1 := MkSffs (lfs s) (input_to_endorsement e) (printed s)).
  destruct (input_to_component_value sc scs s1) as [sx Es].
  destruct (input_to_component_value ic ics s1) as [ix Ei].
  exists path, e, (dclabel_new sx ix). split; [done|]. split; [done|].
  unfold mk_command. rewrite Hp, Hs, Hi, He.
  rewrite (bind_step (unwrap (Some path)) _ s path s) by done.
  rewrite (bind_step (unwrap (Some (sc :: scs))) _ s (sc :: scs) s) by done.
  rewrite (bind_step (unwrap (Some (ic :: ics))) _ s (ic :: ics) s) by done.
  rewrite (bind_step (unwrap (Some e)) _ s e s) by done.
  rewrite (bind_step (set_cur_label _) _ s tt s1) by done.
  destruct (parent path) as [dir|]; [|done].
  rewrite (bind_step (unwrap (Some dir)) _ s1 dir s1) by done.
  destruct (file_name path) as [name|]; [|done].
  rewrite (bind_step (unwrap (Some name)) _ s1 name s1) by done.
  assert (Et : input_to_dclabel (sc :: scs) (ic :: ics) s1 = (Val (dclabel_new sx ix), s1)).
  { unfold input_to_dclabel. by rewrite (bind_step _ _ _ _ _ Es), (bind_step _ _ _ _ _ Ei). }
  rewrite (bind_step _ _ _ _ _ Et). destruct (op dir name _ _ (lfs s)) as [[r l] x] eqn:Eo.
  rewrite (bind_step (with_label _) _ s1 r (MkSffs x l (printed s))).
  - by rewrite lfs_message_run.
  - unfold with_label. subst s1. cbn. by rewrite Eo.
Qed.
End theorems.
