(* ===== verification/Webhook.v ===== *)
(** * The GitHub webhook ([frontends/webhook/src/app.rs])

    An event is checked against the secret shared with GitHub, given its type, and sent to the
    gate [gh_repo].  The keyed hash ([ring::hmac]), JSON ([serde_json]) and the request module
    of [snapfaas], which this version of the repository no longer has, are parameters. *)

From Stdlib Require Import Ascii String.
From stdpp Require Import base tactics option list gmap strings.
From S2P Require Import Prelude HttpServer.
Local Open Scope list_scope.

(** ** Libraries *)

Inductive RequestStatus : Type :=
  | ResourceExhausted
  | GateNotExist
  | FunctionNotExist
  | LaunchFailed
  | Dropped
  | ProcessRequestFailed
  | SentToVM (response : bytes).

Class HookLib := {
  Json : Type;
  json_string : string -> Json;
  (** [serde_json::from_slice] of an object *)
  json_object : bytes -> option (gmap string Json);
  (** [hmac::verify] with the key of a secret *)
  hmac_verify : bytes -> bytes -> bytes -> bool;
  (** [HeaderValue::to_str] *)
  header_to_str : bytes -> option string;
  (** [Request { gate, payload }.to_vec()] *)
  request_to_vec : string -> gmap string Json -> bytes;
  (** the status in a [Response] *)
  response_from_slice : bytes -> option RequestStatus;
}.

(** A pooled connection. *)
Class Snapfaas (N : Type) := {
  write_u8 : bytes -> SM N (result unit string);
  read_u8 : SM N (result bytes string);
}.

(** [StatusCode], by number *)
Definition BAD_REQUEST : Z := 400.
Definition UNAUTHORIZED : Z := 401.
Definition TOO_MANY_REQUESTS : Z := 429.
Definition INTERNAL_SERVER_ERROR : Z := 500.

(** ** Hexadecimal *)

Definition from_digit (digit : Z) : result Z Z :=
  if decide (48 <= digit <= 57)%Z then Ok (digit - 48)%Z
  else if decide (65 <= digit <= 70)%Z then Ok (10 + digit - 65)%Z
  else if decide (97 <= digit <= 102)%Z then Ok (10 + digit - 97)%Z
  else Err BAD_REQUEST.

(** The [for] loop over [chunks(2)]; a last chunk of one byte would be indexed past its end. *)
Fixpoint from_chunks {S} (l : bytes) : SM S (result bytes Z) :=
  match l with
  | [] => mret (Ok [])
  | [_] => panic
  | a :: b :: l =>
      hi ?← mret (from_digit (Z_of_byte a));
      lo ?← mret (from_digit (Z_of_byte b));
      rest ?← from_chunks l;
      mret (Ok (byte_of_Z (Z.lor (Z.shiftl hi 4) lo) :: rest))
  end.
Definition from_hex {S} (hex_str : bytes) : SM S (result bytes Z) :=
  if decide (Z.land (Z.of_nat (length hex_str)) 1 = 0)%Z then from_chunks hex_str
  else mret (Err BAD_REQUEST).

(** [&s[n..]]: panics past the end and inside a character. *)
Definition is_char_boundary (n : nat) (s : bytes) : bool :=
  match decide (n = length s), s !! n with
  | left _, _ => true
  | _, Some b => negb (bool_decide (128 <= Z_of_byte b < 192)%Z)
  | _, None => false
  end.
Definition slice_from {S} (n : nat) (s : bytes) : SM S bytes :=
  if is_char_boundary n s then mret (skipn n s) else panic.

(** ** [App] *)

Section webhook.
Context {N : Type} `{HK : !HookLib} `{SN : !Snapfaas N}.
(** [App.secret] *)
Context (secret : option bytes).

(** The state is the connection that [self.conn.get()] gives, if it gives one. *)
Local Abbreviation M := (SM (option N)).

Definition verify_github_request {S} (payload : bytes) (tag : option bytes) : SM S (result unit Z) :=
  match secret with
  | None => mret (Ok tt)
  | Some secret =>
      match tag with
      | None => mret (Err UNAUTHORIZED)
      | Some tag =>
          let tag := from_utf8_lossy tag in
          hex ← slice_from 5 tag;
          tagbytes ?← from_hex hex;
          if decide (take 5 tag = raw "sha1=") then
            mret (if hmac_verify secret payload tagbytes then Ok tt else Err UNAUTHORIZED)
          else mret (Err BAD_REQUEST)
      end
  end.

Definition with_conn {A} (m : SM N A) : M A := fun s =>
  match s with
  | None => (Panic, None)
  | Some c => let '(a, c') := m c in (a, Some c')
  end.

Definition status_reply (st : RequestStatus) : result bytes Z :=
  match st with
  | ResourceExhausted => Err TOO_MANY_REQUESTS
  | GateNotExist | FunctionNotExist | Dropped => Err BAD_REQUEST
  | LaunchFailed => Err INTERNAL_SERVER_ERROR
  | SentToVM response => Ok response
  | ProcessRequestFailed => Err INTERNAL_SERVER_ERROR
  end.

(** An event other than [ping], once verified. *)
Definition send_event (etype : string) (body : bytes) : M (result bytes Z) :=
  match json_object body with
  | None => mret (Err BAD_REQUEST)
  | Some event_body =>
      let req := request_to_vec "gh_repo" (<["event" := json_string etype]> event_body) in
      w ← with_conn (write_u8 req);
      match w with
      | Err _ => mret (Err INTERNAL_SERVER_ERROR)
      | Ok _ =>
          r ← with_conn read_u8;
          match r with
          | Err _ => mret (Err INTERNAL_SERVER_ERROR)
          | Ok buf => st ← unwrap (response_from_slice buf); mret (status_reply st)
          end
      end
  end.

Definition handle_github_event (request : HttpRequest) : M (result bytes Z) :=
  match get_header "x-github-event" (parts request) with
  | None => mret (Err BAD_REQUEST)
  | Some event_type =>
      match header_to_str event_type with
      | None => mret (Err BAD_REQUEST)
      | Some etype =>
          _ ?← verify_github_request (req_body request) (get_header "x-hub-signature" (parts request));
          if decide (etype = "ping"%string) then mret (Ok [])
          else send_event etype (req_body request)
      end
  end.

(** [impl Handler for App] *)
Definition handle_request (request : HttpRequest) : M HttpResponse :=
  r ← handle_github_event request;
  mret (match r with
        | Ok body => MkHttpResponse 200 [] body
        | Err status_code => MkHttpResponse status_code [] []
        end).
End webhook.

(** ** Hexadecimal text *)

Definition hex_digit (d : Z) : byte :=
  byte_of_Z (if decide (d < 10)%Z then d + 48 else d + 87)%Z.
(** The text of a byte, in lower case. *)
Definition hex_of_byte (b : byte) : bytes :=
  [hex_digit (Z_of_byte b / 16); hex_digit (Z_of_byte b mod 16)].
Definition to_hex (l : bytes) : bytes := concat (hex_of_byte <$> l).
Definition lower_hex (b : byte) : byte :=
  if decide (65 <= Z_of_byte b <= 70)%Z then byte_of_Z (Z_of_byte b + 32) else b.

Definition byte_values : list byte := byte_of_Z <$> seqZ 0 256.
Lemma all_bytes (P : byte -> bool) : forallb P byte_values = true -> forall b, P b = true.
Proof.
  intros H b. apply (proj1 (forallb_forall P byte_values) H).
  apply list_elem_of_In, list_elem_of_fmap. exists (Z_of_byte b).
  rewrite byte_of_Z_of_byte. split; [done|]. apply elem_of_seqZ. pose proof (Z_of_byte_range b). lia.
Qed.

Lemma digits_below (P : Z -> bool) :
  forallb P (seqZ 0 16) = true -> forall d, (0 <= d < 16)%Z -> P d = true.
Proof.
  intros H d Hd. apply (proj1 (forallb_forall P (seqZ 0 16)) H).
  apply list_elem_of_In, elem_of_seqZ. lia.
Qed.

Definition digit_checked (b : byte) : bool :=
  match from_digit (Z_of_byte b) with
  | Ok d => bool_decide (0 <= d < 16)%Z && bool_decide (lower_hex b = hex_digit d)
  | Err e => bool_decide (e = BAD_REQUEST) &&
             forallb (fun d => bool_decide (lower_hex b <> hex_digit d)) (seqZ 0 16)
  end.
Lemma digits_checked b : digit_checked b = true.
Proof. apply all_bytes. vm_compute. reflexivity. Qed.

(** A digit that is accepted is the text of its value, and no other text is. *)
Lemma from_digit_spec b :
  match from_digit (Z_of_byte b) with
  | Ok d => (0 <= d < 16)%Z /\ lower_hex b = hex_digit d
  | Err e => e = BAD_REQUEST /\ forall d, (0 <= d < 16)%Z -> lower_hex b <> hex_digit d
  end.
Proof.
  pose proof (digits_checked b) as H. unfold digit_checked in H.
  destruct (from_digit (Z_of_byte b)) as [d|e]; apply andb_true_iff in H as [H1 H2];
    apply bool_decide_eq_true in H1; (split; [done|]).
  - by apply bool_decide_eq_true in H2.
  - intros d Hd. pose proof (digits_below _ H2 d Hd) as H. by apply bool_decide_eq_true in H.
Qed.

(** The bytes of two digits, and the digits of two bytes. *)
Definition pair_checked (hi lo : Z) : bool :=
  bool_decide (hex_of_byte (byte_of_Z (Z.lor (Z.shiftl hi 4) lo)) = [hex_digit hi; hex_digit lo]) &&
  (bool_decide (hi = lo) || negb (bool_decide (hex_digit hi = hex_digit lo))).
Lemma pairs_checked hi lo :
  (0 <= hi < 16)%Z -> (0 <= lo < 16)%Z -> pair_checked hi lo = true.
Proof.
  intros Hh Hl.
  assert (H : forallb (fun hi => forallb (pair_checked hi) (seqZ 0 16)) (seqZ 0 16) = true)
    by (vm_compute; reflexivity).
  pose proof (digits_below _ H hi Hh) as H'. by apply (digits_below _ H' lo Hl).
Qed.

Lemma hex_of_digits hi lo :
  (0 <= hi < 16)%Z -> (0 <= lo < 16)%Z ->
  hex_of_byte (byte_of_Z (Z.lor (Z.shiftl hi 4) lo)) = [hex_digit hi; hex_digit lo].
Proof.
  intros Hh Hl. pose proof (pairs_checked hi lo Hh Hl) as [H _]%andb_true_iff.
  by apply bool_decide_eq_true in H.
Qed.

Lemma digit_text_inj d d' :
  (0 <= d < 16)%Z -> (0 <= d' < 16)%Z -> hex_digit d = hex_digit d' -> d = d'.
Proof.
  intros Hd Hd' E. pose proof (pairs_checked d d' Hd Hd') as [_ H]%andb_true_iff.
  apply orb_true_iff in H as [H|H]; [by apply bool_decide_eq_true in H|].
  by rewrite bool_decide_true in H.
Qed.

Lemma byte_digits b : (0 <= Z_of_byte b / 16 < 16)%Z /\ (0 <= Z_of_byte b mod 16 < 16)%Z.
Proof.
  pose proof (Z_of_byte_range b). split; [|by apply Z.mod_pos_bound].
  split; [apply Z.div_pos|apply Z.div_lt_upper_bound]; lia.
Qed.

Lemma hex_of_byte_inj b b' : hex_of_byte b = hex_of_byte b' -> b = b'.
Proof.
  pose proof (byte_digits b). pose proof (byte_digits b'). intros [= E1 E2].
  apply digit_text_inj in E1; [|easy..]. apply digit_text_inj in E2; [|easy..].
  rewrite <- (byte_of_Z_of_byte b), <- (byte_of_Z_of_byte b').
  by rewrite (Z.div_mod (Z_of_byte b) 16), (Z.div_mod (Z_of_byte b') 16), E1, E2 by done.
Qed.

Lemma even_land n : (Z.land (Z.of_nat n) 1 = 0)%Z <-> Nat.Even n.
Proof.
  change 1%Z with (Z.ones 1). rewrite Z.land_ones by done. change (2 ^ 1)%Z with 2%Z. split.
  - intros H. exists (Z.to_nat (Z.of_nat n / 2)). pose proof (Z.div_mod (Z.of_nat n) 2). lia.
  - intros [k ->]. rewrite Nat2Z.inj_mul, Z.mul_comm. apply Z.mod_mul. done.
Qed.

(** What decoding answers: the bytes whose text it is, whatever the case of the letters. *)
Definition decodes (l : bytes) (r : result bytes Z) : Prop :=
  (forall d, r = Ok d <-> lower_hex <$> l = to_hex d) /\ (forall e, r = Err e -> e = BAD_REQUEST).

Lemma decodes_err l : (forall d, lower_hex <$> l <> to_hex d) -> decodes l (Err BAD_REQUEST).
Proof. intros H. split; [|by intros ? [= <-]]. intros d. split; [done|]. intros E. by destruct (H d). Qed.

Lemma decodes_cons a b l hi lo r :
  (0 <= hi < 16)%Z -> lower_hex a = hex_digit hi -> (0 <= lo < 16)%Z -> lower_hex b = hex_digit lo ->
  decodes l r ->
  decodes (a :: b :: l)
    (match r with Ok d => Ok (byte_of_Z (Z.lor (Z.shiftl hi 4) lo) :: d) | Err e => Err e end).
Proof.
  intros Hhi Ha Hlo Hb [Hr He]. split.
  - intros d. cbn [fmap list_fmap]. rewrite Ha, Hb. split.
    + destruct r as [d'|]; [|done]. intros [= <-]. unfold to_hex. cbn [fmap list_fmap concat].
      rewrite hex_of_digits by done. cbn. do 2 f_equal. by apply Hr.
    + destruct d as [|x d]; [done|]. unfold to_hex. cbn [fmap list_fmap concat].
      intros E. change (hex_digit hi :: hex_digit lo :: (lower_hex <$> l)) with
        ([hex_digit hi; hex_digit lo] ++ (lower_hex <$> l)) in E.
      apply app_inj_1 in E as [Ex E]; [|done]. rewrite (proj2 (Hr d) E).
      rewrite <- hex_of_digits in Ex by done. by rewrite (hex_of_byte_inj _ _ Ex).
  - destruct r; [done|]. intros e' [= <-]. by apply He.
Qed.

Lemma to_hex_cons a b l d :
  a :: b :: l = to_hex d -> exists hi lo, (0 <= hi < 16)%Z /\ (0 <= lo < 16)%Z /\
    a = hex_digit hi /\ b = hex_digit lo.
Proof.
  destruct d as [|x d]; [done|]. intros [= -> -> _]. pose proof (byte_digits x).
  eexists _, _. split_and!; [..|done|done]; easy.
Qed.

Lemma from_chunks_spec {S} n l (s : S) :
  length l <= n -> Nat.Even (length l) -> exists r, from_chunks l s = (Val r, s) /\ decodes l r.
Proof.
  revert l. induction n as [|n IH]; intros l Hn He.
  all: destruct l as [|a [|b l]]; [|by destruct He as [[|?] ?]; cbn in *; lia|].
  all: try (exists (Ok []); split; [done|]; split; [|done];
    intros d; split; [by intros [= <-]|]; by destruct d).
  - cbn in Hn. lia.
  - cbn [from_chunks]. unfold try_bind. rewrite (bind_step (mret _) _ s _ s eq_refl).
    pose proof (from_digit_spec a) as Ha. destruct (from_digit (Z_of_byte a)) as [hi|e].
    2:{ destruct Ha as [-> Ha]. exists (Err BAD_REQUEST). split; [done|]. apply decodes_err.
        intros d (hi & lo & Hh & Hl & E & _)%to_hex_cons. by apply (Ha hi). }
    rewrite (bind_step (mret _) _ s _ s eq_refl).
    pose proof (from_digit_spec b) as Hb. destruct (from_digit (Z_of_byte b)) as [lo|e].
    2:{ destruct Hb as [-> Hb]. exists (Err BAD_REQUEST). split; [done|]. apply decodes_err.
        intros d (hi' & lo & Hh & Hl & _ & E)%to_hex_cons. by apply (Hb lo). }
    destruct (IH l) as (r & E & Hr).
    { cbn in Hn. lia. } { destruct He as [k Hk]. exists (k - 1). cbn in Hk. lia. }
    rewrite (bind_step _ _ _ _ _ E). destruct Ha as [Hhi Ha], Hb as [Hlo Hb].
    pose proof (decodes_cons a b l hi lo r Hhi Ha Hlo Hb Hr) as Hd.
    destruct r; eexists; split; [done|exact Hd|done|exact Hd].
Qed.

(** Hexadecimal text.  Decoding never panics; it answers the bytes whose text, apart from the
    case of the letters, it was given, and refuses every other text as a bad request. *)
Theorem from_hex_spec {S} l (s : S) : exists r, from_hex l s = (Val r, s) /\ decodes l r.
Proof.
  unfold from_hex. case_decide as He.
  - by apply (from_chunks_spec (length l)); [|apply even_land].
  - exists (Err BAD_REQUEST). split; [done|]. apply decodes_err. intros d E.
    apply He, even_land. rewrite <- (length_fmap lower_hex), E. exists (length d).
    clear E He. unfold to_hex. induction d as [|x d IH]; [done|]. cbn in *. lia.
Qed.

(** ** Verification *)

Section verification.
Context {N : Type} `{HK : !HookLib} `{SN : !Snapfaas N}.
Implicit Types secret tag payload : bytes.

(** The tag of a payload: the prefix and the text of a signature that verifies. *)
Definition signed secret payload tag : Prop :=
  exists t h, from_utf8_lossy tag = raw "sha1=" ++ h /\ lower_hex <$> h = to_hex t /\
    hmac_verify secret payload t = true.

Lemma verify_signed {S} secret payload tag (s s' : S) :
  verify_github_request (Some secret) payload (Some tag) s = (Val (Ok tt), s') ->
  s' = s /\ signed secret payload tag.
Proof.
  unfold verify_github_request, slice_from, try_bind. set (l := from_utf8_lossy tag).
  destruct (is_char_boundary 5 l); [|done].
  rewrite (bind_step (mret _) _ s _ s eq_refl).
  destruct (from_hex_spec (skipn 5 l) s) as (r & E & Hr & _). rewrite (bind_step _ _ _ _ _ E).
  destruct r as [t|]; [|done]. case_decide as Hp; [|done].
  destruct (hmac_verify secret payload t) eqn:Ev; [|done]. intros [= <-]. split; [done|].
  exists t, (skipn 5 l). split_and!; [|by apply Hr|done].
  fold l. by rewrite <- Hp, take_drop.
Qed.

(** The verification leaves the state alone. *)
Lemma verify_same {S} key payload sig (s : S) : (verify_github_request key payload sig s).2 = s.
Proof.
  unfold verify_github_request, slice_from, try_bind. destruct key as [k|]; [|done].
  destruct sig as [t|]; [|done]. destruct (is_char_boundary _ _); [|done].
  rewrite (bind_step (mret _) _ s _ s eq_refl).
  destruct (from_hex_spec (skipn 5 (from_utf8_lossy t)) s) as (r & E & _).
  rewrite (bind_step _ _ _ _ _ E). destruct r; [|done]. by case_decide.
Qed.

(** C40: authenticity.  When a secret is shared, an event is accepted, or anything at all done
    with the connection to the scheduler, only for a request that carries the signature of its
    own body under that secret. *)
Theorem webhook_authentic secret request (s : option N) o s' :
  handle_github_event (Some secret) request s = (o, s') ->
  s' <> s \/ (exists body, o = Val (Ok body)) ->
  exists tag, get_header "x-hub-signature" (parts request) = Some tag /\
    signed secret (req_body request) tag.
Proof.
  unfold handle_github_event, try_bind. intros H Hs.
  destruct (get_header "x-github-event" _); [|injection H as <- <-; by destruct Hs as [|[? ?]]].
  destruct (header_to_str _); [|injection H as <- <-; by destruct Hs as [|[? ?]]].
  destruct (verify_github_request (Some secret) (req_body request)
    (get_header "x-hub-signature" (parts request)) s) as [a s1] eqn:Ev.
  pose proof (verify_same (Some secret) (req_body request)
    (get_header "x-hub-signature" (parts request)) s) as Hv. rewrite Ev in Hv. cbn in Hv. subst s1.
  destruct (get_header "x-hub-signature" _) as [tag|].
  - exists tag. split; [done|]. destruct a as [[[]|e]| |].
    + by apply (verify_signed secret (req_body request) tag s s).
    + rewrite (bind_step _ _ _ _ _ Ev) in H. injection H as <- <-. by destruct Hs as [|[? ?]].
    + unfold mbind, SM_bind in H. rewrite Ev in H. injection H as <- <-. by destruct Hs as [|[? ?]].
    + unfold mbind, SM_bind in H. rewrite Ev in H. injection H as <- <-. by destruct Hs as [|[? ?]].
  - injection Ev as <-. injection H as <- <-. by destruct Hs as [|[? ?]].
Qed.

(** The signature is cut at its fifth byte before its prefix is looked at: with a secret, a header
    that is shorter than that, or has a character across it, ends the thread of the connection. *)
Theorem signature_panics {S} key payload sig (s : S) :
  (verify_github_request key payload sig s).1 = Panic <->
  exists k t, key = Some k /\ sig = Some t /\ is_char_boundary 5 (from_utf8_lossy t) = false.
Proof.
  unfold verify_github_request, slice_from, try_bind. split.
  - destruct key as [k|]; [|done]. destruct sig as [t|]; [|done].
    destruct (is_char_boundary _ _) eqn:E; [|eauto].
    rewrite (bind_step (mret _) _ s _ s eq_refl).
    destruct (from_hex_spec (skipn 5 (from_utf8_lossy t)) s) as (r & E' & _).
    rewrite (bind_step _ _ _ _ _ E'). destruct r; [|done]. by case_decide.
  - intros (k & t & -> & -> & ->). done.
Qed.
End verification.
