(* ===== verification/WebhookMain.v ===== *)
(** * The process of the webhook ([frontends/webhook/src/main.rs])

    Its command line, and the server it becomes: [HttpServer.v] with the handler of
    [Webhook.v], on every connection that it accepts. *)

From Stdlib Require Import Ascii String.
From stdpp Require Import base tactics option list gmap strings.
From S2P Require Import Prelude HttpServer Clap2 Webhook.
Local Open Scope string_scope.
Local Open Scope list_scope.

Section main.
Context `{K : !Clap2}.
(** [TcpListener::bind], and the pool of connections to the address. *)
Context (can_listen : string -> bool) (pool_builds : string -> bool).

Definition webhook_app : AppSpec :=
  MkAppSpec
    [required true (takes_value (long "snapfaas_address" (short "p" (with_name "snapfaas address"))));
     required false (takes_value (long "secret" (short "s" (with_name "secret"))));
     required true (takes_value (short "l" (long "listen" (with_name "listen"))))] [].

(** The secret of the application; [None]: the command line is refused. *)
Definition webhook_main (args : list string) : option (outcome (option bytes)) :=
  m ← get_matches webhook_app args;
  let secret := raw <$> value_of "secret" (top m) in
  Some (match value_of "snapfaas address" (top m) with
        | None => Panic
        | Some addr =>
            if pool_builds addr then
              match value_of "listen" (top m) with
              | None => Panic
              | Some listen => if can_listen listen then Val secret else Panic
              end
            else Panic
        end).

(** Once its arguments are accepted the process serves, unless an address is of no use; without
    [--secret] it serves without one, and every event is accepted. *)
Theorem webhook_started `{KL : !Clap2Laws} args m :
  get_matches webhook_app args = Some m ->
  exists addr listen,
    value_of "snapfaas address" (top m) = Some addr /\ value_of "listen" (top m) = Some listen /\
    webhook_main args =
      Some (if pool_builds addr && can_listen listen
            then Val (raw <$> value_of "secret" (top m)) else Panic).
Proof.
  intros Hm. pose proof (matches_top _ _ _ Hm) as Hd.
  destruct (declared_value _ _ (required true (takes_value (long "snapfaas_address" (short "p"
    (with_name "snapfaas address"))))) Hd) as [addr Ha]; [by left|done|].
  destruct (declared_value _ _ (required true (takes_value (short "l" (long "listen"
    (with_name "listen"))))) Hd) as [listen Hl]; [by right; right; left|done|].
  exists addr, listen. split; [exact Ha|]. split; [exact Hl|].
  unfold webhook_main. rewrite Hm. cbn [mbind option_bind].
  change (value_of "snapfaas address" (top m) = Some addr) in Ha.
  change (value_of "listen" (top m) = Some listen) in Hl. rewrite Ha, Hl.
  by destruct (pool_builds addr), (can_listen listen).
Qed.
End main.
