(* ===== verification/Mains.v ===== *)
(** * The remaining programs

    [main] of [snapfaas/bins/scheduler], [snapfaas/bins/garbage-collector] and
    [frontends/webhook]: what they make of their command lines, and what they start or repeat.
    [FS::collect_garbage] no longer exists and is a parameter, as is whether an address can be
    listened at. *)

From Stdlib Require Import Ascii String.
From stdpp Require Import base tactics option list gmap strings pretty.
From S2P Require Import Prelude Labels Store FsTypes Objects Fs CommandLine.
From S2P Require Import SchedRM Scheduler.
Local Open Scope string_scope.
Local Open Scope list_scope.

(** ** The scheduler *)

Section scheduler.
Context `{K : !Clap} (can_listen : string -> bool).

Definition scheduler_args : list Arg :=
  [MkArg "listen" TakesValue true None; MkArg "qcap" TakesValue false None].

(** [None]: the command line is refused.  A queue of capacity zero hands tasks over only to a
    waiting scheduling thread; [Scheduler.v] has it always full. *)
Definition scheduler_main (args : list string) : option (outcome System) :=
  ms ← clap_parse scheduler_args [] args;
  listen ← value_of "listen" ms;
  qcap ← number_of "qcap" (2 ^ 32) 1000000 ms;
  Some (if can_listen listen then Val (initial (Z.to_nat qcap)) else Panic).

(** [set_ctrlc_handler]: every node is removed, its idle workers are told to terminate, and the
    process ends.  [nodes] are the keys of the map of idle workers, in its order. *)
Definition handle_ctrlc (nodes : list Node) (m : ResourceManager) : list Z := (remove_nodes nodes m).2.

(** The scheduler starts with the capacity on its command line, or with a million. *)
Theorem scheduler_started `{KL : !ClapLaws} addr (n : option Z) :
  can_listen addr = true -> head (list_ascii_of_string addr) <> Some "-"%char ->
  (forall c, n = Some c -> 0 <= c < 2 ^ 32)%Z ->
  scheduler_main (["--listen"; addr] ++ match n with Some c => ["--qcap"; pretty c] | None => [] end) =
    Some (Val (initial (Z.to_nat (default 1000000 n)%Z))).
Proof.
  intros Hl Ha Hn.
  set (ms := [("listen", Some addr)] ++ match n with Some c => [("qcap", Some (pretty c))] | None => [] end).
  assert (Hp : clap_parse scheduler_args [] (["--listen"; addr] ++
    match n with Some c => ["--qcap"; pretty c] | None => [] end) = Some ms).
  { apply clap_accepts.
    - apply occurrences_app.
      + apply (occ_value _ (MkArg "listen" TakesValue true None)); [by left|done|done|constructor].
      + destruct n as [c|]; [|constructor].
        apply (occ_value _ (MkArg "qcap" TakesValue false None)); [by right; left|done| |constructor].
        destruct (pretty_Z_head c) as (d & t & Hd & ->); [by destruct (Hn c eq_refl)|].
        cbn. intros [= E]. pose proof (digit_of_pretty d Hd) as H. by rewrite E in H.
    - subst ms. destruct n; cbn; (split_and!; [|repeat constructor; set_solver..]);
        repeat (apply list.NoDup_cons; split; [set_solver|]); apply list.NoDup_nil; done. }
  unfold scheduler_main. rewrite Hp. subst ms. destruct n as [c|]; cbn -[Z.pow Z.to_nat].
  - unfold number_of. cbn -[Z.pow]. rewrite decimal_parse_pretty by (by apply Hn). cbn -[Z.to_nat].
    by rewrite Hl.
  - by rewrite Hl.
Qed.
End scheduler.

(** ** The garbage collector *)

Section collector.
Context {St : Type} `{L : !LabelOps} {Garbage : Type}.
Context (collect_garbage : World St -> result Garbage unit * World St) (buckle_top : Buckle).

(** The seconds slept so far are kept with the thread. *)
Local Abbreviation S := (World St * list Z)%type.

Definition collect_once : SM S unit := fun s =>
  let '(_, w) := collect_garbage s.1 in (Val tt, (w, s.2)).

(** [fuel] bounds the rounds, which nothing else does without [--once]. *)
Fixpoint collect_loop (fuel : nat) (once : bool) (interval : Z) : SM S unit :=
  match fuel with
  | O => nofuel
  | Datatypes.S fuel =>
      _ ← collect_once;
      if once then mret tt
      else _ ← modify (fun s : S => (s.1, s.2 ++ [interval])); collect_loop fuel once interval
  end.

Definition collector_main (fuel : nat) (tikv : option (list string)) (lmdb : option string)
    (once : bool) (interval : Z) : SM S unit :=
  match tikv, lmdb with
  | Some _, _ => panic
  | None, Some _ =>
      _ ← modify (fun s : S => ((taint_with_label buckle_top s.1).2, s.2));
      collect_loop fuel once interval
  | None, None => mret tt
  end.

(** The state after [n] collections. *)
Fixpoint collected (n : nat) (w : World St) : World St :=
  match n with O => w | Datatypes.S n => collected n (collect_garbage w).2 end.

(** With [--once] the garbage is collected once, as a thread that everything may flow to; without
    it, again and again with pauses of the same length. *)
Theorem collector_rounds fuel path interval (w : World St) :
  let tainted := (taint_with_label buckle_top w).2 in
  collector_main (Datatypes.S fuel) None (Some path) true interval (w, []) =
    (Val tt, (collected 1 tainted, [])) /\
  collector_main fuel None (Some path) false interval (w, []) =
    (NoFuel, (collected fuel tainted, replicate fuel interval)).
Proof.
  cbv zeta. set (t := (taint_with_label buckle_top w).2).
  assert (H : forall n s l, collect_loop n false interval (s, l) =
    (NoFuel, (collected n s, l ++ replicate n interval))).
  { induction n as [|n IH]; intros s l; cbn [collect_loop collected replicate]; [by rewrite app_nil_r|].
    unfold collect_once, mbind, SM_bind. cbn [fst snd modify].
    destruct (collect_garbage s) as [r s1]. cbn. rewrite IH. by rewrite <- app_assoc. }
  split.
  - unfold collector_main. rewrite (bind_step (modify _) _ (w, []) tt (t, [])) by done.
    cbn [collect_loop collected]. unfold collect_once, mbind, SM_bind. cbn [fst snd].
    by destruct (collect_garbage t).
  - unfold collector_main. rewrite (bind_step (modify _) _ (w, []) tt (t, [])) by done. by rewrite H.
Qed.
End collector.
