(* ===== verification/Instances.v ===== *)
(** * Concrete instances of the external interfaces

    The theorems of the development hold for every label crate, codec and store that satisfies
    the interfaces.  This file exhibits one of each, so that the interfaces are known to be
    satisfiable and theorems can be applied to concrete runs: labels as conjunctions of
    disjunctions of principals (without delegation), values encoded through stdpp's [encode],
    and the finite map of [Store.v]. None of this is a model of the crates' code. *)

From Stdlib Require Import Strings.Ascii.
From stdpp Require Import base tactics option list gmap strings countable.
From S2P Require Import Prelude Labels Store FsTypes Objects Syscalls Blobstore.
From S2P Require Import Message SysServer LocalRM SchedRM Scheduler.

(** ** Labels *)

Definition cnf_implies (a b : Component) : bool :=
  match a, b with
  | DCFalse, _ => true
  | DCFormula _, DCFalse => false
  | DCFormula a, DCFormula b =>
      forallb (fun c : Clause => existsb (fun d : Clause => bool_decide (d ⊆ c)) (elements a))
        (elements b)
  end.

Definition cnf_conj (a b : Component) : Component :=
  match a, b with
  | DCFormula a, DCFormula b => DCFormula (a ∪ b)
  | _, _ => DCFalse
  end.

Definition cnf_disj (a b : Component) : Component :=
  match a, b with
  | DCFalse, c | c, DCFalse => c
  | DCFormula a, DCFormula b =>
      DCFormula (list_to_set (c ← elements a; d ← elements b; [c ∪ d]))
  end.

Definition cnf_downgrade_secrecy (s p : Component) : Component :=
  match s with
  | DCFalse => match p with DCFalse => DCFormula ∅ | _ => DCFalse end
  | DCFormula s =>
      DCFormula (list_to_set (List.filter (fun c => negb (cnf_implies p (DCFormula {[c]})))
                                (elements s)))
  end.

(** A fragment of Buckle's concrete syntax, enough for examples: ["s,i"], each side ["T"],
    ["F"] or one principal. *)
Definition cnf_parse_component (s : string) : Component :=
  if decide (s = "T") then DCFormula ∅
  else if decide (s = "F") then DCFalse
  else DCFormula {[ {[ [s] ]} ]}.
Fixpoint cnf_parse_from (acc s : string) : option Buckle :=
  match s with
  | EmptyString => None
  | String a rest =>
      if decide (a = ","%char)
      then Some (MkBuckle (cnf_parse_component acc) (cnf_parse_component rest))
      else cnf_parse_from (acc +:+ String a EmptyString) rest
  end.

#[global] Instance cnf_labels : LabelOps := {
  dc_true := DCFormula ∅;
  dc_false := DCFalse;
  implies := cnf_implies;
  conj := cnf_conj;
  public := MkBuckle (DCFormula ∅) (DCFormula ∅);
  lub a b := MkBuckle (cnf_conj (secrecy a) (secrecy b)) (cnf_disj (integrity a) (integrity b));
  can_flow_to a b :=
    cnf_implies (secrecy b) (secrecy a) && cnf_implies (integrity a) (integrity b);
  can_flow_to_with_privilege a b p :=
    cnf_implies (cnf_conj (secrecy b) p) (secrecy a) &&
    cnf_implies (cnf_conj (integrity a) p) (integrity b);
  downgrade a p := MkBuckle (cnf_downgrade_secrecy (secrecy a) p) (cnf_conj (integrity a) p);
  buckle_parse := cnf_parse_from "";
  buckle_iter := elements;
  clause_iter := elements;
  principal_iter := elements;
}.

(** Implication as a relation on the clause sets. *)
Lemma cnf_implies_spec a b :
  cnf_implies a b = true <->
  match a, b with
  | DCFalse, _ => True
  | DCFormula _, DCFalse => False
  | DCFormula a, DCFormula b => forall c, c ∈ b -> exists d, d ∈ a /\ d ⊆ c
  end.
Proof.
  destruct a as [|a], b as [|b]; simpl; [by split..|].
  rewrite forallb_forall. split; intros H c Hc.
  - apply elem_of_elements, list_elem_of_In, H, existsb_exists in Hc as (d & Hd & Hs).
    apply bool_decide_eq_true in Hs. apply list_elem_of_In, elem_of_elements in Hd. eauto.
  - apply list_elem_of_In, elem_of_elements, H in Hc as (d & Hd & Hs).
    apply existsb_exists. exists d. rewrite <- list_elem_of_In, elem_of_elements.
    by rewrite bool_decide_eq_true.
Qed.

Lemma cnf_disj_spec (a b : gset Clause) (c : Clause) : c ∈ (list_to_set (x ← elements a; y ← elements b; [x ∪ y]) : gset Clause)
  <-> exists x y : Clause, x ∈ a /\ y ∈ b /\ c = x ∪ y.
Proof.
  rewrite elem_of_list_to_set, list_elem_of_bind. setoid_rewrite list_elem_of_bind.
  setoid_rewrite list_elem_of_singleton. setoid_rewrite elem_of_elements. naive_solver.
Qed.

Lemma cnf_conj_implies a b c :
  cnf_implies a (cnf_conj b c) = cnf_implies a b && cnf_implies a c.
Proof.
  apply eq_true_iff_eq. rewrite andb_true_iff, !cnf_implies_spec.
  destruct a, b, c; simpl; try naive_solver. setoid_rewrite elem_of_union. naive_solver.
Qed.

Lemma cnf_disj_implies a b c :
  cnf_implies (cnf_disj a b) c = cnf_implies a c && cnf_implies b c.
Proof.
  apply eq_true_iff_eq. rewrite andb_true_iff, !cnf_implies_spec.
  destruct a as [|a], b as [|b], c as [|c]; try naive_solver. unfold cnf_disj. split.
  - intros H. split; intros k Hk; destruct (H k Hk) as (d & Hd & Hs);
      apply cnf_disj_spec in Hd as (x & y & ? & ? & ->); set_solver.
  - intros [H1 H2] k Hk. destruct (H1 k Hk) as (x & ? & ?), (H2 k Hk) as (y & ? & ?).
    exists (x ∪ y). rewrite cnf_disj_spec. set_solver.
Qed.

Lemma cnf_downgrade_implies s p :
  cnf_implies (cnf_conj (cnf_downgrade_secrecy s p) p) s = true.
Proof.
  apply cnf_implies_spec.
  destruct s as [|s], p as [|p]; cbn [cnf_conj cnf_downgrade_secrecy]; try done.
  intros c Hc.
  destruct (cnf_implies (DCFormula p) (DCFormula {[c]})) eqn:E.
  - apply (proj1 (cnf_implies_spec _ _)) in E. destruct (E c) as (d & ? & ?); set_solver.
  - exists c. split; [|done]. apply elem_of_union_l.
    apply elem_of_list_to_set, list_elem_of_In, filter_In.
    rewrite <- list_elem_of_In, elem_of_elements. by rewrite E.
Qed.

Lemma cnf_downgrade_le s p : cnf_implies s (cnf_downgrade_secrecy s p) = true.
Proof.
  apply cnf_implies_spec. destruct s as [|s]; [done|]. simpl. intros c Hc. exists c.
  split; [|done]. apply elem_of_list_to_set, list_elem_of_In, filter_In in Hc as [Hc _].
  by apply list_elem_of_In, elem_of_elements in Hc.
Qed.

#[global] Instance cnf_laws : LabelLaws.
Proof.
  assert (Hrefl : forall c, cnf_implies c c = true).
  { intros c. apply cnf_implies_spec. destruct c; naive_solver. }
  split; cbn -[cnf_implies cnf_conj cnf_disj cnf_downgrade_secrecy].
  - done.
  - intros a b c. rewrite !cnf_implies_spec. destruct a, b, c; try naive_solver.
    intros H1 H2 k Hk. destruct (H2 k Hk) as (d & Hd & ?), (H1 d Hd) as (e & ? & ?).
    exists e. set_solver.
  - intros c. apply cnf_implies_spec. destruct c; set_solver.
  - done.
  - apply cnf_conj_implies.
  - intros a b. apply cnf_implies_spec. destruct a, b; simpl; try done. set_solver.
  - intros a b. apply cnf_implies_spec. destruct a, b; simpl; try done. set_solver.
  - done.
  - intros a b c. rewrite cnf_conj_implies, cnf_disj_implies.
    destruct (cnf_implies (secrecy c) (secrecy a)), (cnf_implies (secrecy c) (secrecy b)),
      (cnf_implies (integrity a) (integrity c)); done.
  - done.
  - intros a p. by rewrite cnf_downgrade_implies, Hrefl.
  - intros a p. rewrite cnf_downgrade_le. simpl. apply cnf_implies_spec.
    destruct (integrity a), p; simpl; try done. set_solver.
  - done.
  - done.
  - done.
  - done.
Qed.

(** ** Codec *)

#[global] Program Instance ObjectRef_countable t : Countable (ObjectRef t) :=
  inj_countable' uid ObjRef _.
Next Obligation. by intros t []. Qed.
Definition direntry_code (e : DirEntry) : Z * Z :=
  match e with
  | DirEntry.Directory r => (0%Z, uid r) | DirEntry.File r => (1%Z, uid r)
  | DirEntry.FacetedDirectory r => (2%Z, uid r) | DirEntry.Gate r => (3%Z, uid r)
  | DirEntry.Service r => (4%Z, uid r) | DirEntry.Blob r => (5%Z, uid r)
  end.
Definition direntry_decode (p : Z * Z) : DirEntry :=
  match p.1 with
  | 0%Z => DirEntry.Directory (ObjRef p.2) | 1%Z => DirEntry.File (ObjRef p.2)
  | 2%Z => DirEntry.FacetedDirectory (ObjRef p.2) | 3%Z => DirEntry.Gate (ObjRef p.2)
  | 4%Z => DirEntry.Service (ObjRef p.2) | _ => DirEntry.Blob (ObjRef p.2)
  end.
#[global] Instance DirEntry_countable : Countable DirEntry.
Proof.
  refine (inj_countable' direntry_code direntry_decode _).
  by intros [[]|[]|[]|[]|[]|[]].
Defined.
#[global] Program Instance Directory_countable : Countable Directory :=
  inj_countable' entries MkDirectory _.
Next Obligation. by intros []. Qed.
#[global] Program Instance Faceted_countable : Countable FacetedDirectory :=
  inj_countable' facets MkFaceted _.
Next Obligation. by intros []. Qed.
#[global] Instance HttpVerb_countable : Countable HttpVerb.
Proof.
  refine (inj_countable'
    (fun v => match v with HEAD => 0 | GET => 1 | POST => 2 | PUT => 3 | DELETE => 4 end%Z)
    (fun z => match z with 0 => HEAD | 1 => GET | 2 => POST | 3 => PUT | _ => DELETE end%Z) _).
  by intros [].
Defined.
#[global] Program Instance Service_countable : Countable Service :=
  inj_countable'
    (fun s => (svc_privilege s, svc_invoker_integrity_clearance s, taint s, url s, verb s,
               headers s))
    (fun '(p, i, t, u, v, h) => MkService p i t u v h) _.
Next Obligation. by intros []. Qed.
#[global] Program Instance DirectGate_countable : Countable DirectGate :=
  inj_countable'
    (fun g => (privilege g, invoker_integrity_clearance g, declassify g, function g))
    (fun '(p, i, d, f) => MkDirectGate p i d f) _.
Next Obligation. by intros []. Qed.
#[global] Program Instance RedirectGate_countable : Countable RedirectGate :=
  inj_countable'
    (fun g => (rd_privilege g, rd_invoker_integrity_clearance g, rd_declassify g, rd_gate g))
    (fun '(p, i, d, f) => MkRedirectGate p i d f) _.
Next Obligation. by intros []. Qed.
#[global] Program Instance Gate_countable : Countable Gate :=
  inj_countable' (fun g => match g with Gate.Direct d => inl d | Gate.Redirect r => inr r end)
    (fun s => match s with inl d => Gate.Direct d | inr r => Gate.Redirect r end) _.
Next Obligation. by intros []. Qed.
#[global] Program Instance Labeled_countable `{Countable T} : Countable (Labeled T) :=
  inj_countable' (fun x => (label x, data x)) (fun p => MkLabeled p.1 p.2) _.
Next Obligation. by intros T ? ? []. Qed.

#[global] Instance obj_data_eq_dec t : EqDecision (obj_data t).
Proof. destruct t; simpl; apply _. Defined.
#[global] Instance obj_data_countable t : Countable (obj_data t).
Proof. destruct t; simpl; apply _. Defined.

Fixpoint bits_of_pos (p : positive) : bytes :=
  match p with xH => [x02] | xO p => x00 :: bits_of_pos p | xI p => x01 :: bits_of_pos p end.
Fixpoint pos_of_bits (l : bytes) : option positive :=
  match l with
  | [x02] => Some xH
  | x00 :: l => xO <$> pos_of_bits l
  | x01 :: l => xI <$> pos_of_bits l
  | _ => None
  end.

Lemma pos_of_bits_of_pos p : pos_of_bits (bits_of_pos p) = Some p.
Proof. induction p as [p IH|p IH|]; simpl; rewrite ?IH; done. Qed.

Definition ty_tag (t : ObjTy) : byte :=
  match t with
  | TDirectory => x00 | TFile => x01 | TFaceted => x02 | TGate => x03 | TService => x04
  | TBlob => x05
  end.

#[global] Instance bit_serde : SerdeOps := {
  to_vec t x := ty_tag t :: bits_of_pos (encode x);
  from_slice t l :=
    match l with
    | b :: l => if decide (b = ty_tag t) then pos_of_bits l ≫= countable.decode else None
    | [] => None
    end;
}.

#[global] Instance bit_serde_laws : SerdeLaws.
Proof.
  split.
  - intros t x. cbn -[ty_tag]. rewrite decide_True, pos_of_bits_of_pos by done.
    apply decode_encode.
  - intros t t' x y. cbn -[ty_tag]. case_decide as E; [|done]. by destruct t, t'.
  - done.
Qed.

(** ** Worlds over the map store *)

Abbreviation map_world := (World (gmap bytes bytes)).

(** A store whose root directory holds the given entries, at the label [FS::initialize] gives
    it, and the given other objects. *)
Definition root_store (es : gmap string DirEntry) : gmap bytes bytes :=
  {[ ukey ROOT_REF := to_vec (t := TDirectory)
       (MkLabeled (Buckle_new dc_true dc_false) (MkDirectory es)) ]}.

Definition start (m : gmap bytes bytes) (rnd : list Z) (l : Buckle) (p : Component) : map_world :=
  MkWorld m [] rnd l p.

(** ** Codecs of the other external libraries *)

(** A digest that is the input itself, behind one byte; hexadecimal as [hex::encode] prints it;
    an uninformative codec for the theorems that need no law of one, and the identity codec for
    those that do; task numbers in a notation of their own. *)
#[global] Instance identity_digest : DigestOps :=
  {| Digest := bytes; d_new := []; d_update d l := d ++ l; d_finalize d := x00 :: d |}.
#[global] Instance identity_digest_laws : DigestLaws.
Proof. split; cbn; [intros d a b; by rewrite app_assoc | by intros d; rewrite app_nil_r | done]. Qed.

Definition hex_digit (b3 b2 b1 b0 : bool) : ascii :=
  match b3, b2, b1, b0 with
  | false, false, false, false => "0" | false, false, false, true => "1"
  | false, false, true, false => "2" | false, false, true, true => "3"
  | false, true, false, false => "4" | false, true, false, true => "5"
  | false, true, true, false => "6" | false, true, true, true => "7"
  | true, false, false, false => "8" | true, false, false, true => "9"
  | true, false, true, false => "a" | true, false, true, true => "b"
  | true, true, false, false => "c" | true, true, false, true => "d"
  | true, true, true, false => "e" | true, true, true, true => "f"
  end%char.
Definition hex_byte (b : byte) : ascii * ascii :=
  let '(b0, (b1, (b2, (b3, (b4, (b5, (b6, b7))))))) := Byte.to_bits b in
  (hex_digit b7 b6 b5 b4, hex_digit b3 b2 b1 b0).
Fixpoint hex_string (l : bytes) : string :=
  match l with
  | [] => EmptyString
  | b :: l => let '(h, d) := hex_byte b in String h (String d (hex_string l))
  end.
#[global] Instance hex_codec : HexOps := {| hex_encode := hex_string |}.

Lemma hex_digit_inj a b c d a' b' c' d' :
  hex_digit a b c d = hex_digit a' b' c' d' -> (a, b, c, d) = (a', b', c', d').
Proof. by destruct a, b, c, d, a', b', c', d'. Qed.
Lemma hex_byte_inj x y : hex_byte x = hex_byte y -> x = y.
Proof.
  unfold hex_byte. intros E. rewrite <- (Byte.of_bits_to_bits x), <- (Byte.of_bits_to_bits y).
  destruct (Byte.to_bits x) as (?&?&?&?&?&?&?&?), (Byte.to_bits y) as (?&?&?&?&?&?&?&?).
  injection E as [= -> -> -> ->]%hex_digit_inj [= -> -> -> ->]%hex_digit_inj. done.
Qed.
Lemma hex_digit_ascii a b c d : (Ascii.nat_of_ascii (hex_digit a b c d) < 128)%nat.
Proof. destruct a, b, c, d; vm_compute; lia. Qed.

#[global] Instance hex_laws : HexLaws.
Proof.
  split; cbn.
  - induction l as [|b l IH]; [done|]. cbn. destruct (hex_byte b). cbn. rewrite IH. lia.
  - intros l a. induction l as [|b l IH]; cbn; [by intros ?%elem_of_nil|].
    destruct (hex_byte b) as [h d] eqn:E. cbn. unfold hex_byte in E.
    destruct (Byte.to_bits b) as (?&?&?&?&?&?&?&?). injection E as <- <-.
    rewrite !elem_of_cons. intros [->|[->|?]]; [apply hex_digit_ascii..|auto].
  - induction l as [|x l IH]; intros [|y l']; cbn.
    + done.
    + by destruct (hex_byte y).
    + by destruct (hex_byte x).
    + destruct (hex_byte x) as [h d] eqn:Ex, (hex_byte y) as [h' d'] eqn:Ey.
      intros [= -> -> El]. f_equal; [apply hex_byte_inj; congruence | by apply IH].
Qed.

Definition uninformative (T : Type) : Message T :=
  {| encode_to_vec _ := []; Message.decode _ := None |}.
#[global] Instance bytes_message : Message bytes :=
  {| encode_to_vec l := l; Message.decode l := Some l |}.
#[global] Instance bytes_message_laws : MessageLaws bytes.
Proof. by split. Qed.

Fixpoint uuid_digits (p : positive) : string :=
  match p with
  | xH => EmptyString
  | xO p => String "0" (uuid_digits p)
  | xI p => String "1" (uuid_digits p)
  end.
Fixpoint uuid_value (s : string) : positive :=
  match s with
  | EmptyString => xH
  | String a s => if decide (a = "1"%char) then xI (uuid_value s) else xO (uuid_value s)
  end.
#[global] Instance binary_uuid : UuidOps :=
  {| uuid_to_string u := uuid_digits (encode u); uuid_parse s := countable.decode (uuid_value s) |}.
#[global] Instance binary_uuid_laws : UuidLaws.
Proof.
  split. intros u. cbn. rewrite <- (decode_encode u). f_equal.
  generalize (encode u). induction p as [p IH|p IH|]; cbn; by rewrite ?IH.
Qed.

(** The key that the enumeration of a finite map puts first. *)
Definition first_of (m : gmap Node (list Worker)) : option Node := fst <$> head (map_to_list m).
Lemma first_of_some m n : first_of m = Some n -> is_Some (m !! n).
Proof.
  unfold first_of. destruct (map_to_list m) as [|[k v] l] eqn:E; [done|]. intros [= <-].
  exists v. apply elem_of_map_to_list. rewrite E. by left.
Qed.
Lemma first_of_none m : first_of m = None -> m = ∅.
Proof.
  unfold first_of. destruct (map_to_list m) eqn:E; [|done]. intros _.
  by apply map_to_list_empty_iff.
Qed.

(** Network and channel: pipes, and a network without servers. *)
#[global] Instance no_http : HttpClient unit := {|
  strfmt s _ := Some s; header_name_ok _ := true; header_value_ok _ := true;
  http_execute _ _ _ _ := mret None;
|}.

(** ** Client libraries of the backing stores, over a map that never fails *)

Definition map_lmdb : LmdbLib (gmap bytes bytes) := {|
  open_db _ := true; begin_ro_txn _ := true; begin_rw_txn _ := true; commit _ := true;
  txn_get m k := m !! k;
  txn_put m k v no_overwrite :=
    if no_overwrite && bool_decide (is_Some (m !! k)) then (false, m) else (true, <[k:=v]> m);
  txn_del m k := (bool_decide (is_Some (m !! k)), delete k m);
|}.
Definition map_lmdb_laws : @LmdbLaws _ map_lmdb.
Proof.
  refine (@Build_LmdbLaws _ map_lmdb (fun _ => True) (fun m => m) _ _ _ _ _ _ _ _);
    cbn; try (by eauto).
  intros m k v _ _. destruct (m !! k) as [x|]; by eexists.
Defined.

Definition map_tikv : TikvLib (gmap bytes bytes) := {|
  raw_get m k := Some (m !! k);
  raw_put m k v := Some (<[k:=v]> m);
  raw_delete m k := Some (delete k m);
  raw_compare_and_swap m k old v :=
    Some (m !! k, bool_decide (m !! k = old),
      if decide (m !! k = old) then <[k:=v]> m else m);
|}.
Definition map_tikv_laws : @TikvLaws _ map_tikv.
Proof.
  refine (@Build_TikvLaws _ map_tikv (fun _ => True) (fun m => m) _ _ _ _);
    cbn; intros; by eauto.
Defined.
