(* ===== verification/FsWitness.v ===== *)
(** * The file system theorems at a concrete store

    A store with a file, a directory, a faceted directory and a gate behind a redirect, over the
    instances of [Instances.v], and each theorem of [FsTheorems.v], [StoreRefinement.v] and
    [Paths.v] that has hypotheses applied to it. *)

From Stdlib Require Import Strings.Ascii.
From stdpp Require Import base tactics option list gmap strings countable.
From S2P Require Import Prelude Labels Store StoreRefinement FsTypes Objects Fs.
From S2P Require Import FsGuarantee FsMediation FsReads FsDirs FsGates FsTheorems.
From S2P Require Import FsTyping FsTyped.
From S2P Require Import Paths Instances.

(** ** The store *)

Definition ex_file : Labeled File := MkLabeled public [x2a].
Definition ex_faceted : FacetedDirectory := MkFaceted [(public, ObjRef 2)].
Definition ex_function : Function := MkFunction 128 "app" "python" "vmlinux".
Definition ex_direct : DirectGate := MkDirectGate dc_true dc_true dc_true ex_function.
Definition ex_redirect : RedirectGate := MkRedirectGate dc_false dc_true dc_true (ObjRef 5).
(** Only the holder of every privilege may call this one. *)
Definition ex_locked : DirectGate := MkDirectGate dc_true dc_false dc_true ex_function.
Definition ex_service : Service := MkService dc_true dc_true public "http://a" GET ∅.

Definition ex_root : Labeled Directory :=
  MkLabeled (Buckle_new dc_true dc_false)
    (MkDirectory (<["file" := DirEntry.File (ObjRef 1)]>
                 (<["dir" := DirEntry.Directory (ObjRef 2)]>
                 (<["faceted" := DirEntry.FacetedDirectory (ObjRef 3)]>
                 {["gate" := DirEntry.Gate (ObjRef 4)]})))).
Definition ex_dir : Labeled Directory := MkLabeled public (MkDirectory ∅).

Definition ex_store : gmap bytes bytes :=
  <[ukey ROOT_REF := to_vec (t := TDirectory) ex_root]>
  (<[ukey (ObjRef (t := TFile) 1) := to_vec (t := TFile) ex_file]>
  (<[ukey (ObjRef (t := TDirectory) 2) := to_vec (t := TDirectory) ex_dir]>
  (<[ukey (ObjRef (t := TFaceted) 3) := to_vec (t := TFaceted) ex_faceted]>
  (<[ukey (ObjRef (t := TGate) 4) :=
       to_vec (t := TGate) (MkLabeled public (Gate.Redirect ex_redirect))]>
  (<[ukey (ObjRef (t := TGate) 5) :=
       to_vec (t := TGate) (MkLabeled public (Gate.Direct ex_direct))]>
  (<[ukey (ObjRef (t := TGate) 6) :=
       to_vec (t := TGate) (MkLabeled public (Gate.Direct ex_locked))]>
  {[ukey (ObjRef (t := TService) 7) :=
       to_vec (t := TService) (MkLabeled public ex_service)]})))))).

Definition ex_world : map_world := start ex_store [8%Z] public dc_true.

Lemma ex_quiet : quiet ex_world.
Proof. done. Qed.
Lemma ex_free : Exists (uid_free ex_world) (entropy ex_world).
Proof. left. reflexivity. Qed.

Lemma ex_object {t} (r : ObjectRef t) (x : obj_data t) :
  ex_store !! ukey r = Some (to_vec x) -> object_at (view ex_world) r = Some x.
Proof. intros E. unfold object_at. change (view ex_world) with ex_store. rewrite E. apply from_to_vec. Qed.

Lemma ex_root_at : object_at (view ex_world) ROOT_REF = Some ex_root.
Proof. exact (ex_object (t := TDirectory) ROOT_REF ex_root eq_refl). Qed.
Lemma ex_file_at : object_at (view ex_world) (ObjRef 1 : ObjectRef TFile) = Some ex_file.
Proof. exact (ex_object (t := TFile) (ObjRef 1) ex_file eq_refl). Qed.
Lemma ex_dir_at : object_at (view ex_world) (ObjRef 2 : ObjectRef TDirectory) = Some ex_dir.
Proof. exact (ex_object (t := TDirectory) (ObjRef 2) ex_dir eq_refl). Qed.
Lemma ex_faceted_at : object_at (view ex_world) (ObjRef 3 : ObjectRef TFaceted) = Some ex_faceted.
Proof. exact (ex_object (t := TFaceted) (ObjRef 3) ex_faceted eq_refl). Qed.

(** Looking up a name in the root. *)
Lemma ex_lookup s e :
  entries (data ex_root) !! s = Some e ->
  lookup_path (view ex_world) [PathComponent.Dscrp s] = Some ([label ex_root], Ok e).
Proof. intros E. unfold lookup_path. rewrite ex_root_at.
  change (default empty_root (Some ex_root)) with ex_root. cbn zeta. by rewrite E. Qed.

(** The gate in the root redirects to the direct gate. *)
Lemma ex_chain :
  gate_chain (view ex_world) (ObjRef 4) [(public, ex_redirect)] (public, ex_direct).
Proof. eapply chain_redirect; [by apply (ex_object (t := TGate) (ObjRef 4))|].
  apply chain_direct. by apply (ex_object (t := TGate) (ObjRef 5)). Qed.
Lemma ex_locked_chain :
  gate_chain (view ex_world) (ObjRef 6) [] (public, ex_locked).
Proof. apply chain_direct. by apply (ex_object (t := TGate) (ObjRef 6)). Qed.

Lemma ex_benign : benign (ObjRef 2) ex_world.
Proof. split; [done|]. split; [exists ex_dir; reflexivity | constructor]. Qed.

(** Another thread replaces the directory between two accesses of this one. *)
Definition ex_other : gmap bytes bytes -> gmap bytes bytes :=
  <[ukey (ObjRef (t := TDirectory) 2) := to_vec (t := TDirectory)
      (MkLabeled public (MkDirectory {["x" := DirEntry.File (ObjRef 1)]}))]>.
Definition ex_busy : map_world := MkWorld ex_store [id; ex_other] [8%Z] public dc_true.
Lemma ex_busy_benign : benign (ObjRef 2) ex_busy.
Proof.
  split; [done|]. split; [exists ex_dir; reflexivity|].
  repeat constructor; [done|]. eexists. unfold dir_at. apply lookup_insert_eq.
Qed.

(** ** Typing *)

Definition ex_new : map_world := (fs_initialize (start ∅ [1; 1; 2]%Z public dc_true)).2.
Lemma ex_new_sound : sound ex_new.
Proof.
  pose proof (initialize_well_formed (start ∅ [1; 1; 2]%Z public dc_true)) as H.
  unfold ex_new. destruct (fs_initialize _). by apply H.
Qed.
Lemma ex_new_root : alive (view ex_new) ROOT_REF.
Proof. apply ex_new_sound. Qed.

Lemma store_stays_typed_witness :
  let '(r, w') := fs_calls [Link [] "self" (DirEntry.Directory ROOT_REF);
                            CreateOrUpdateFile [] "f" public [x2a]; CreateFaceted [] "d";
                            ReadFile [PathComponent.Dscrp "self"; PathComponent.Dscrp "f"]] ex_new in
  well_formed (view w') /\ grows (view ex_new) (view w') /\ r <> Panic.
Proof.
  apply (store_stays_typed [Link [] "self" (DirEntry.Directory ROOT_REF);
    CreateOrUpdateFile [] "f" public [x2a]; CreateFaceted [] "d";
    ReadFile [PathComponent.Dscrp "self"; PathComponent.Dscrp "f"]] ex_new).
  - exact (proj1 ex_new_sound).
  - exact (proj2 ex_new_sound).
  - repeat constructor. exact ex_new_root.
Defined.

(** ** Confinement *)

Lemma fs_label_rises_witness :
  let w' := (fs_calls [ReadFile [PathComponent.Dscrp "file"]; Rm [] "dir"] ex_world).2 in
  Flows public (current_label w') /\ thread_privilege w' = dc_true.
Proof. apply (fs_label_rises [ReadFile [PathComponent.Dscrp "file"]; Rm [] "dir"] ex_world). Defined.

Lemma fs_writes_mediated_witness :
  quiet ex_world /\
  let w' := (fs_calls [WriteFile [PathComponent.Dscrp "file"] []; CreateFile public] ex_world).2 in
  quiet w' /\ store_ok public dc_true ex_store (view w').
Proof.
  split; [exact ex_quiet|].
  exact (fs_writes_mediated [WriteFile [PathComponent.Dscrp "file"] []; CreateFile public]
    ex_world ex_quiet).
Defined.

Lemma reads_taint_witness :
  let w' := (read_file [PathComponent.Dscrp "file"] ex_world).2 in
  quiet ex_world /\
  (forall d, read_file [PathComponent.Dscrp "file"] ex_world = (Val (Ok d), w') ->
     exists (r : ObjectRef TFile) l, object_at (view w') r = Some (MkLabeled l d) /\
       Flows l (current_label w')).
Proof.
  intros w'. split; [exact ex_quiet|].
  exact (proj1 (reads_taint [PathComponent.Dscrp "file"] ex_world w' ex_quiet)).
Defined.

Lemma read_path_refines_witness :
  read_path [PathComponent.Dscrp "file"] ex_world =
    (Val (Ok (DirEntry.File (ObjRef 1))),
     set_label (taints [label ex_root] public) ex_world).
Proof.
  apply (read_path_refines [PathComponent.Dscrp "file"] ex_world [label ex_root]).
  - exact ex_quiet.
  - apply ex_lookup. reflexivity.
Defined.

Lemma write_file_spec_witness :
  exists w', write_file [PathComponent.Dscrp "file"] [x00] ex_world =
      (Val (Ok tt), w') /\
    view w' = <[ukey (ObjRef (t := TFile) 1) :=
                  to_vec (t := TFile) (MkLabeled public [x00])]> ex_store.
Proof.
  destruct (write_file_spec [PathComponent.Dscrp "file"] [x00] ex_world [label ex_root]
    (ObjRef 1) ex_file) as (w' & E & _ & _ & Hv);
    [exact ex_quiet | apply ex_lookup; reflexivity | exact ex_file_at |].
  exists w'. split; [exact E | exact Hv].
Defined.

(** ** Directories *)

Lemma link_linearizable_witness :
  benign (ObjRef 2) ex_busy /\
  exists res w', dir_link (ObjRef 2) "y" (DirEntry.File (ObjRef 1)) ex_busy = (Val res, w').
Proof.
  split; [exact ex_busy_benign|].
  destruct (link_linearizable (ObjRef 2) "y" (DirEntry.File (ObjRef 1)) ex_busy ex_busy_benign)
    as (res & w' & E & _).
  exists res, w'. exact E.
Defined.

Lemma unlink_linearizable_witness :
  benign (ObjRef 2) ex_busy /\
  exists res w', dir_unlink (ObjRef 2) "x" ex_busy = (Val res, w').
Proof.
  split; [exact ex_busy_benign|].
  destruct (unlink_linearizable (ObjRef 2) "x" ex_busy ex_busy_benign) as (res & w' & E & _).
  exists res, w'. exact E.
Defined.

Lemma link_outcomes_witness :
  exists w', link [PathComponent.Dscrp "dir"] "y" (DirEntry.File (ObjRef 1)) ex_world =
      (Val (Ok tt), w') /\
    view w' = <[ukey (ObjRef (t := TDirectory) 2) :=
                  with_entries ex_dir {["y" := DirEntry.File (ObjRef 1)]}]> ex_store.
Proof.
  destruct (link_outcomes [PathComponent.Dscrp "dir"] "y" (DirEntry.File (ObjRef 1)) ex_world
    [label ex_root] (ObjRef 2) ex_dir) as (w' & E & _ & _ & Hv);
    [exact ex_quiet | apply ex_lookup; reflexivity | reflexivity |].
  exists w'. split; [exact E | exact Hv].
Defined.

(** ** New objects and facets *)

Lemma set_new_id_fresh_witness :
  exists (r : ObjectRef TFile) w', set_new_id (ex_file : obj_data TFile) ex_world = (Val r, w') /\
    view ex_world !! ukey r = None.
Proof.
  destruct (set_new_id_fresh (t := TFile) ex_file ex_world ex_quiet ex_free)
    as (r & w' & E & Hn & _).
  exists r, w'. split; [exact E | exact Hn].
Defined.

Definition ex_facet : Buckle := MkBuckle dc_false dc_true.
Lemma faceted_open_find_or_create_witness :
  find_facet ex_facet (facets ex_faceted) = None /\
  exists d w', faceted_open (ObjRef 3) ex_facet ex_world = (Val d, w') /\
    view ex_world !! ukey d = None.
Proof.
  split; [reflexivity|].
  destruct (faceted_open_find_or_create (ObjRef 3) ex_facet ex_world ex_faceted ex_quiet eq_refl
    ex_free) as (d & w' & E & _ & Hn & _).
  exists d, w'. split; [exact E | exact Hn].
Defined.

Lemma faceted_list_exact_witness :
  exists m, faceted_list (ObjRef 3) public ex_world =
      (Val m, set_label (lub public public) ex_world) /\
    m !! public = Some (ObjRef 2).
Proof.
  destruct (faceted_list_exact (ObjRef 3) public ex_world ex_faceted) as (m & E & Hm);
    [exact ex_quiet | exact ex_faceted_at | apply list.NoDup_singleton |].
  exists m. split; [exact E|]. apply Hm. split; [by left | reflexivity].
Defined.

(** ** Gates *)

Lemma resolve_gate_clearance_witness :
  exists p w', resolve_gate_with_clearance_check 2 [PathComponent.Dscrp "gate"] ex_world =
    (Val (Ok (ex_function, p)), w').
Proof.
  destruct (resolve_gate_clearance 2 [PathComponent.Dscrp "gate"] ex_world [label ex_root]
    (ObjRef 4) [(public, ex_redirect)] public ex_direct) as (res & E & Hc & _);
    [exact ex_quiet | apply ex_lookup; reflexivity | exact ex_chain | repeat constructor |].
  destruct Hc as (p & -> & _); [split; [constructor; [reflexivity | constructor] | reflexivity]|].
  eexists p, _. exact E.
Defined.

(** ** Backing stores *)

Definition ex_calls : list StoreCall :=
  [CallAdd (to_be 8 1) [x00]; CallAdd (to_be 8 1) [x01];
   CallCas (to_be 8 1) (Some [x00]) [x02]; CallGet (to_be 8 1); CallDel (to_be 8 1)].
Lemma ex_calls_ok : Forall (fun c => key_ok (call_key c)) ex_calls.
Proof. repeat constructor. Qed.

Lemma lmdb_refines_map_witness :
  exists rs e', session (BS := @lmdb_store _ map_lmdb) ex_calls ∅ = (Val rs, e').
Proof.
  destruct (lmdb_refines_map (H := map_lmdb_laws) ex_calls ∅ I ex_calls_ok)
    as (rs & e' & E & _).
  exists rs, e'. exact E.
Defined.

Lemma tikv_refines_map_witness :
  exists rs e', session (BS := @tikv_store _ map_tikv) ex_calls ∅ = (Val rs, e').
Proof.
  destruct (tikv_refines_map (H := map_tikv_laws) ex_calls ∅ I ex_calls_ok)
    as (rs & e' & E & _).
  exists rs, e'. exact E.
Defined.

(** ** Paths *)

Lemma Path_parse_join_witness :
  Path_parse "::dir:<T,F>:%:" ex_world =
    (Val (Ok [PathComponent.Dscrp "dir"; PathComponent.Facet (MkBuckle dc_true dc_false);
              PathComponent.Facet public]), ex_world).
Proof.
  change "::dir:<T,F>:%:" with
    (str (repeat colon 2 ++ join colon (chars <$> ["dir"; "<T,F>"; "%"]) ++ repeat colon 1)).
  apply (Path_parse_join ex_world (chars <$> ["dir"; "<T,F>"; "%"])
    [PathComponent.Dscrp "dir"; PathComponent.Facet (MkBuckle dc_true dc_false);
     PathComponent.Facet public] 2 1); try done.
  - repeat constructor; set_solver.
  - constructor; [apply (token_name _ (chars "dir")); [done|by intros l (? & _)]|].
    constructor; [apply (token_label _ _ (chars "T,F")); [split_and!; [done..|set_solver]|done]|].
    constructor; [apply token_current | constructor].
Defined.
