(* ===== verification/SysWitness.v ===== *)
(** * The system call and blob theorems at concrete states

    A system call processor over the store of [FsWitness.v], connected to pipes. *)

From stdpp Require Import base tactics option list gmap strings countable.
From S2P Require Import Prelude Labels Store FsTypes Objects Fs FsGuarantee.
From S2P Require Import FsMediation FsReads FsDirs FsGates Syscalls Blobstore Message.
From S2P Require Import SysServer SysGuarantee SysTheorems SysSafety SysCalls.
From S2P Require Import FsTyping SysTyping Observer FsSecure SysSecure Noninterference.
From S2P Require Import Instances FsWitness.

#[global] Instance reply_codec : Message pb.Reply := uninformative _.
#[global] Instance request_codec : Message Request := uninformative _.
#[global] Instance return_codec : Message TaskReturn := uninformative _.
#[global] Instance syscall_codec : Message (option pb.Syscall) := uninformative _.
#[global] Instance pipe_channel : SyscallChannel Pipe := vm_channel.

Definition ex_pipe : Pipe := MkPipe [] [].

(** The root is open as 0, the gate behind the redirect as 1, the gate for the holder of every
    privilege as 2. *)
Definition ex_sys : SysState (gmap bytes bytes) Pipe unit Pipe :=
  MkSys ex_world (MkBlobstore ∅ []) (Some ex_pipe) tt ex_pipe ∅ ∅
    (<[0%Z := DirEntry.Directory ROOT_REF]>
    (<[1%Z := DirEntry.Gate (ObjRef 4)]> {[2%Z := DirEntry.Gate (ObjRef 6)]})) 1 3.

(** ** Safety *)

Lemma syscall_writes_mediated_witness :
  let s' := (do_syscall 2 (pb.SysDentUnlink 0 "file") ex_sys).2 in
  quiet (fs s') /\ thread_privilege (fs s') = dc_true /\
  store_ok public dc_true ex_store (view (fs s')).
Proof. exact (syscall_writes_mediated 2 (pb.SysDentUnlink 0 "file") ex_sys ex_quiet). Defined.

Lemma run_confined_witness :
  let s' := (run 3 2 [] [] ∅ (DCFormula ∅) ex_sys).2 in
  thread_privilege (fs s') = dc_true.
Proof. exact (proj1 (run_confined 3 2 [] [] ∅ (DCFormula ∅) ex_sys ex_quiet)). Defined.

Lemma syscall_label_rises_witness :
  declassifying ex_sys (pb.SysDentUnlink 0 "file") = false /\
  Flows public (current_label (fs (do_syscall 2 (pb.SysDentUnlink 0 "file") ex_sys).2)).
Proof.
  split; [reflexivity|].
  exact (proj1 (syscall_label_rises 2 (pb.SysDentUnlink 0 "file") ex_sys eq_refl)).
Defined.

Lemma response_label_witness :
  exists l s', do_syscall 2 (pb.SysResponse (pb.MkResponse None 200)) ex_sys =
      (Val (Ok (Some (sched.MkTaskReturn 4 (Some (pb.MkResponse None 200))
                        (Some (buckle_from l))))), s') /\ current_label (fs s') = l.
Proof.
  destruct (response_label 2 (pb.MkResponse None 200) ex_sys) as (l & s' & E & Hl & _).
  exists l, s'. split; [exact E | exact Hl].
Defined.

Lemma descriptors_never_dangle_witness :
  let s := new (C := Pipe) (N := unit) ex_new (MkBlobstore ∅ []) (Some ex_pipe) tt ex_pipe public dc_true in
  typed s /\ typed (run 3 2 [] [] ∅ (DCFormula ∅) s).2.
Proof.
  exact (proj2 (descriptors_never_dangle (C := Pipe) (N := unit) (Ch := Pipe)) 3 2 [] [] ∅
    (DCFormula ∅) ex_new (MkBlobstore ∅ []) (Some ex_pipe) tt ex_pipe public dc_true ex_new_sound).
Defined.

Lemma ex_fds_ok : fds_ok ex_sys.
Proof.
  split; [cbn; lia|]. intros fd. cbn. intros [e He].
  destruct (decide (0%Z = fd)); [lia|]. rewrite lookup_insert_ne in He by done.
  destruct (decide (1%Z = fd)); [lia|]. rewrite lookup_insert_ne in He by done.
  apply lookup_singleton_Some in He as [<- _]. lia.
Qed.

Lemma descriptors_never_reused_witness :
  let s' := (do_syscall 2 (pb.SysDentClose 1) ex_sys).2 in
  fds_ok ex_sys /\ fds_ok s' /\ (3 <= max_dent_id s' <= 4)%Z.
Proof.
  split; [exact ex_fds_ok|].
  destruct (descriptors_never_reused 2 (pb.SysDentClose 1) ex_sys ex_fds_ok) as (H1 & H2 & _);
    [reflexivity|].
  split; [exact H1 | exact H2].
Defined.

(** ** Noninterference

    A store with one file, secret of alice's, in its root; a function that lists the root, opens
    the file and reads it; an observer whom nothing secret may flow to. *)

Definition ex_alice : Buckle := MkBuckle (DCFormula {[ {[ ["alice"] ]} ]}) dc_true.
Definition ex_secret_root : Labeled Directory :=
  MkLabeled (Buckle_new dc_true dc_false)
    (MkDirectory {["secret" := DirEntry.File (ObjRef 1)]}).
Definition ex_secret_store (contents : bytes) : gmap bytes bytes :=
  <[ukey ROOT_REF := to_vec (t := TDirectory) ex_secret_root]>
  {[ukey (ObjRef (t := TFile) 1) := to_vec (t := TFile) (MkLabeled ex_alice contents)]}.
Definition ex_secret_world (contents : bytes) : map_world :=
  start (ex_secret_store contents) [8; 9]%Z public dc_true.

(** The function's requests, whatever it is told. *)
#[local] Instance ex_script_channel : SyscallChannel (list pb.Syscall) := {
  send _ := mret (Ok tt);
  wait := fun script => match script with
                        | [] => (Val (Err SyscallChannelError.Read), [])
                        | sc :: script => (Val (Ok (Some sc)), script)
                        end;
}.
Definition ex_reader : list pb.Syscall :=
  [pb.SysDentList 0; pb.SysDentOpen 0 (Some (pb.Name "secret")); pb.SysDentRead 1].

Definition ex_known : Knowledge :=
  fun e => e = DirEntry.Directory ROOT_REF \/ e = DirEntry.File (ObjRef 1).
Lemma ex_secret_alike a b :
  alike dc_true public ex_known (ex_secret_store a) (ex_secret_store b).
Proof.
  intros t r [He|He]; destruct t; try discriminate He; cbn in He; injection He as ->.
  - exists ex_secret_root, ex_secret_root. split_and!; [reflexivity|reflexivity|by split|].
    intros _ e [n Hn]. cbn in Hn. apply lookup_singleton_Some in Hn as [_ <-]. by right.
  - exists (MkLabeled ex_alice a), (MkLabeled ex_alice b).
    split_and!; [reflexivity|reflexivity| |by intros _ e []].
    split; [reflexivity|]. intros Hs. vm_compute in Hs. discriminate Hs.
Qed.
Lemma ex_secret_observable a : observable dc_true [8; 9]%Z (ex_secret_world a).
Proof.
  split_and!; [done| |done|].
  - intros k v Hk s Hs. change (view (ex_secret_world a)) with (ex_secret_store a) in Hk.
    unfold ex_secret_store in Hk. apply lookup_insert_Some in Hk as [[_ <-]|[_ Hk]].
    + by apply (from_slice_ty TDirectory) in Hs.
    + apply lookup_singleton_Some in Hk as [_ <-]. by apply (from_slice_ty TFile) in Hs.
  - split.
    + apply list.NoDup_cons. split; [|apply list.NoDup_singleton].
      intros H. apply list_elem_of_singleton in H. discriminate H.
    + intros u Hu. apply elem_of_cons in Hu as [->|Hu]; [reflexivity|].
      apply list_elem_of_singleton in Hu as ->. reflexivity.
Qed.

Lemma run_noninterference_witness :
  let run_in w := run 4 2 [] [] ∅ (DCFormula ∅)
    (new (C := Pipe) (N := unit) (Ch := list pb.Syscall) w (MkBlobstore ∅ []) (Some ex_pipe) tt
       ex_reader public dc_true) in
  let '(r1, s1) := run_in (ex_secret_world [x00]) in
  let '(r2, s2) := run_in (ex_secret_world [x01]) in
  (r1 = r2 /\ s2 = set_fs (fs s2) s1 /\ current_label (fs s2) = current_label (fs s1) /\
   exists K', learns ex_known K' /\ alike dc_true public K' (view (fs s1)) (view (fs s2))) \/
  (~ seen dc_true public (current_label (fs s1)) /\ ~ seen dc_true public (current_label (fs s2)) /\
   alike_but_facets dc_true public ex_known (view (fs s1)) (view (fs s2))).
Proof.
  exact (run_noninterference (C := Pipe) (N := unit) (Ch := list pb.Syscall)
    dc_true public ex_known [8; 9]%Z (ex_secret_world [x00])
    (ex_secret_world [x01]) (MkBlobstore ∅ []) (Some ex_pipe) tt ex_reader public dc_true 4 2 [] []
    ∅ (DCFormula ∅) (implies_refl dc_true) (ex_secret_observable [x00]) (ex_secret_observable [x01])
    (or_introl eq_refl) (ex_secret_alike [x00] [x01])).
Defined.

Definition ex_untrusted : Buckle := MkBuckle dc_true dc_false.
Lemma facet_covert_channel_witness :
  exists m m', faceted_list (ObjRef 3) public (set_label public ex_world) =
      (Val m, set_label (lub public public) ex_world) /\ m !! ex_untrusted = None /\
    faceted_list (ObjRef 3) public
      (set_label public (faceted_open (ObjRef 3) ex_untrusted (set_label ex_alice ex_world)).2) =
      (Val m', set_label (lub public public)
         (faceted_open (ObjRef 3) ex_untrusted (set_label ex_alice ex_world)).2) /\
    is_Some (m' !! ex_untrusted).
Proof.
  apply (facet_covert_channel (ObjRef 3) ex_untrusted public (set_label ex_alice ex_world)
    ex_faceted public); [exact ex_quiet|reflexivity|exact ex_free|apply list.NoDup_singleton
    |reflexivity|reflexivity].
Defined.

(** ** Invocations *)

Lemma invoke_gate_clearance_witness :
  dent_invoke 1 2 [x00] true false ∅ ex_sys = (Val no_invocation, tainted [public] ex_sys).
Proof.
  apply (invoke_gate_clearance 1 2 (ObjRef 6) [] public ex_locked [x00] true false ∅ ex_sys);
    [exact ex_quiet | reflexivity | exact ex_locked_chain | repeat constructor | discriminate].
Defined.

Lemma invoke_gate_sends_witness :
  dent_invoke 2 1 [x00] false false ∅ ex_sys =
    (Val (pb.MkDentInvokeResult true None (Some []) ∅),
     set_sched_conn (Some (MkPipe [] (replicate 8 x00))) (tainted [public; public] ex_sys)).
Proof.
  apply (invoke_gate_sends 2 1 (ObjRef 4) [(public, ex_redirect)] public ex_direct [x00] false ∅
    ex_sys ex_pipe);
    [exact ex_quiet | reflexivity | exact ex_chain | repeat constructor | reflexivity
    | reflexivity | reflexivity].
Defined.

Lemma invoke_service_label_witness :
  match invoke_service (ObjRef 7) [] false ∅ ex_sys with
  | (Val _, s') =>
      current_label (fs s') = lub (downgrade (lub public public) dc_true) public
  | _ => True
  end.
Proof.
  generalize (invoke_service_label (ObjRef 7) [] false ∅ ex_sys (MkLabeled public ex_service)
    ex_quiet (ex_object (t := TService) (ObjRef 7) (MkLabeled public ex_service) eq_refl)).
  destruct (invoke_service _ _ _ _ ex_sys) as [[] s']; [intros H; exact H | done | done].
Defined.

(** ** Wire formats *)

Lemma wire_roundtrip_witness :
  buckle_into (buckle_from (MkBuckle dc_false (DCFormula {[ {[ ["alice"]; ["bob"; "carol"] ]} ]}))) tt =
    (Val (MkBuckle dc_false (DCFormula {[ {[ ["alice"]; ["bob"; "carol"] ]} ]})), tt).
Proof. exact (proj1 wire_roundtrip _ tt). Defined.

Lemma messages_roundtrip_witness :
  exists wire, write_list [[x00]; []; [x01; x02]] (MkPipe [] []) = (Val (Ok tt), MkPipe [] wire) /\
    read_list 3 (MkPipe (wire ++ [xff]) []) = (Val (Ok [[x00]; []; [x01; x02]]), MkPipe [xff] []).
Proof.
  apply (messages_roundtrip [[x00]; []; [x01; x02]] [] [xff] []). repeat constructor.
Defined.

(** ** Blobs *)

Definition ex_blobs : Blobstore := MkBlobstore ∅ [].
Definition ex_blob : NewBlob := MkNewBlob (d_update d_new [x61]) 1 [x61].

Lemma save_open_roundtrip_witness :
  open "0061" (MkBlobstore {[("00", "61") := [x61]]} []) =
    (Val (Ok (MkBlob "0061" [x61])), MkBlobstore {[("00", "61") := [x61]]} []).
Proof.
  apply (save_open_roundtrip ex_blobs (MkNewBlob d_new 0 []) ex_blobs [[x61]] ex_blob ex_blobs
    (MkBlob "0061" [x61]) (MkBlobstore {[("00", "61") := [x61]]} []) 1); reflexivity.
Defined.

Lemma save_preserves_witness : addressed (save ex_blob ex_blobs).2.
Proof.
  apply (save_preserves ex_blobs ex_blob).
  - split; reflexivity.
  - intros d n c Hc. change (disk ex_blobs) with (∅ : gmap (string * string) bytes) in Hc.
    by rewrite lookup_empty in Hc.
Defined.

Lemma read_at_spec_witness :
  exists r, read_at (MkBlob "0061" [x61]) 4 0 ex_blobs = (Val (Ok r), ex_blobs).
Proof.
  destruct (read_at_spec (MkBlob "0061" [x61]) 4 0 ex_blobs) as (r & E & _);
    [done | done | done |].
  exists r. exact E.
Defined.
