(* ===== verification/SchedWitness.v ===== *)
(** * The resource manager and scheduler theorems at concrete states *)

From stdpp Require Import base tactics option list gmap strings countable.
From S2P Require Import Prelude Labels Store FsTypes Syscalls Message LocalRM SchedRM.
From S2P Require Import Scheduler SchedProgress Instances FsWitness SysWitness.

(** ** The local resource manager *)

(** A machine with 512 MB and a connection to nowhere. *)
Definition ex_machine : LocalRM.ResourceManager Pipe := rm_new 512 ex_pipe.
Definition ex_stats (i : ResourceInfo) : bytes := [].

Lemma ex_accounted : accounted ex_machine 0.
Proof.
  unfold accounted. change (cache ex_machine) with (∅ : gmap Function (list Vm)).
  split; [intros f l Hl; by rewrite lookup_empty in Hl|].
  unfold cache_memory. rewrite map_fold_empty. cbn. unfold u64_mod. lia.
Qed.

Lemma memory_conserved_witness :
  exists s v, rtc (rm_step ex_stats) (ex_machine, []) (s, [v]) /\
    (free_mem s + cache_memory (cache s) + vms_memory [v])%Z = 512%Z.
Proof.
  assert (Hr : exists s v, new_vm ex_stats 1 ex_function ex_machine = (Val (Some v), s))
    by (eexists _, _; reflexivity).
  destruct Hr as (s & v & E).
  assert (H : rtc (rm_step ex_stats) (ex_machine, []) (s, [v])).
  { apply rtc_once. by apply (rm_new_vm ex_stats 1 ex_function). }
  exists s, v. split; [exact H|].
  apply (memory_conserved ex_stats 512 ex_pipe s [v]); [unfold u64_mod; lia | exact H].
Defined.

Lemma try_allocate_memory_spec_witness :
  (try_allocate_memory 0 128 ex_machine).1 = Val true /\
  try_allocate_memory 0 1024 ex_machine = (Val false, ex_machine).
Proof.
  assert (Ha : accounted ex_machine 0) by exact ex_accounted.
  split.
  - apply (try_allocate_memory_spec 128 ex_machine 0 Ha); [unfold u64_mod; lia | done |].
    left. cbn. lia.
  - apply (try_allocate_memory_spec 1024 ex_machine 0 Ha); [unfold u64_mod; lia | reflexivity..].
Defined.

(** ** The scheduler's resource manager *)

(** Node 1 has one idle worker, on connection 7. *)
Definition ex_manager : SchedRM.ResourceManager := add_idle 1 7 manager_new.
Lemma ex_manager_ok : manager_ok ex_manager.
Proof. apply add_idle_ok. split; apply map_Forall_empty. Qed.

Lemma find_idle_never_panics_witness :
  exists o, (find_idle first_of ex_function ex_manager).1 = Val o.
Proof.
  apply (find_idle_never_panics first_of first_of_some ex_function ex_manager).
  apply rtc_once, step_add_idle.
Defined.

Lemma find_idle_hands_out_witness :
  exists o s', find_idle first_of ex_function ex_manager = (Val o, s') /\ is_Some o.
Proof.
  destruct (find_idle_hands_out first_of first_of_some first_of_none ex_function ex_manager
    ex_manager_ok) as (o & s' & E & _ & _ & H).
  exists o, s'. split; [exact E|]. apply H; [reflexivity|].
  apply (insert_non_empty (M := gmap Node)).
Defined.

Lemma remove_forgets_witness :
  info (remove 1 ex_manager).1 !! 1%Z = None /\ idle (remove 1 ex_manager).1 !! 1%Z = None /\
  (remove 1 ex_manager).2 ≡ₚ [7%Z].
Proof.
  destruct (remove_forgets 1 ex_manager ex_manager_ok) as (_ & H1 & H2 & _ & H3).
  split; [exact H1|]. split; [exact H2|]. exact H3.
Defined.

Definition ex_report : ResourceInfo := LocalRM.MkResourceInfo {[ex_function := 3%Z]} 512 128.
Lemma ex_report_counts : map_Forall (fun _ k => 0 <= k < u64_mod)%Z (stats ex_report).
Proof. apply map_Forall_singleton. unfold u64_mod. lia. Qed.

Lemma update_reports_witness :
  exists v, cached (update 1 ex_report ex_manager) !! ex_function = Some v /\ (1%Z, 3%Z) ∈ v.
Proof.
  apply (update_reports 1 ex_report ex_manager ex_manager_ok ex_report_counts).
  - apply lookup_singleton_eq.
  - lia.
Defined.

(** ** The scheduler *)

Definition no_report (b : bytes) : option ResourceInfo := None.
Lemma no_report_counts b i :
  no_report b = Some i -> map_Forall (fun _ k => 0 <= k < u64_mod)%Z (stats i).
Proof. discriminate. Qed.
Definition all_ok (conn : Z) : bool := true.

Definition ex_invoke : LabeledInvoke :=
  sched.MkLabeledInvoke (Some (function_into_message ex_function)) None None [] ∅ ∅ true None.

(** A synchronous invocation is accepted, registered and taken off the queue. *)
Definition ex_system : System :=
  MkSystem
    (MkScheduler (set_wait_list {[1%Z := 9%Z]} manager_new) [] 1 [] false)
    (Some (Invoke 1 ex_invoke)) [Invoke 1 ex_invoke] [] {[1%Z := 9%Z]} (delete 1%Z {[1%Z := 9%Z]})
    [] [].

Lemma ex_reachable : rtc (sched_step first_of no_report all_ok) (initial 1) ex_system.
Proof.
  eapply rtc_l; [eapply (step_enqueue first_of no_report all_ok 1 9 ex_invoke);
    [done | reflexivity | reflexivity]|].
  eapply rtc_l; [apply (step_register first_of no_report all_ok 1 9); apply lookup_insert_eq|].
  apply rtc_once. apply (step_take first_of no_report all_ok (Invoke 1 ex_invoke) []); reflexivity.
Qed.


Definition ex_result : TaskReturn := sched.MkTaskReturn 0 None None.
(** Connection 9 waits, and is written the result when it is reported. *)
Lemma replies_routed_witness :
  map_Forall (fun u c => origin ex_system !! u = Some c) (wait_list (manager (state ex_system))) /\
  sent (handle_finish_task all_ok (uuid_to_string 1) (Some ex_result) (state ex_system)).2 =
    [(9%Z, SentReturn ex_result)].
Proof.
  destruct (replies_routed first_of first_of_some no_report no_report_counts all_ok 1 ex_system)
    as (H & _ & _ & _ & Hw); [exact ex_reachable|]. split; [exact H|].
  apply (Hw 1%Z ex_result 9%Z); [discriminate|reflexivity].
Defined.

Lemma dispatch_terminates_witness :
  exists o s', dispatch first_of all_ok 2 (Invoke 1 ex_invoke)
      (MkScheduler ex_manager [] 1 [] false) = (Val o, s').
Proof.
  destruct (dispatch_terminates first_of first_of_some all_ok 2 1 ex_invoke
    (function_into_message ex_function) (MkScheduler ex_manager [] 1 [] false))
    as (o & s' & E & _).
  - exact ex_manager_ok.
  - reflexivity.
  - vm_compute. lia.
  - exists o, s'. exact E.
Defined.

(** ** Progress *)

(** Node 5 has reported a cached VM of the function, but has no worker.  A worker on connection
    8 asks for a task, then one whose connection, 7, is broken, and an invocation is queued. *)
Definition not_seven (conn : Z) : bool := bool_decide (conn <> 7%Z).
Definition ex_one_vm : ResourceInfo := LocalRM.MkResourceInfo {[ex_function := 1%Z]} 512 128.
Definition reports_one (b : bytes) : option ResourceInfo := Some ex_one_vm.
Lemma reports_one_counts b i :
  reports_one b = Some i -> map_Forall (fun _ k => 0 <= k < u64_mod)%Z (stats i).
Proof. intros [= <-]. apply map_Forall_singleton. unfold u64_mod. lia. Qed.

Definition ex_stale : Scheduler :=
  MkScheduler (add_idle 1 7 (add_idle 1 8 (update 5 ex_one_vm manager_new))) [Invoke 1 ex_invoke] 1
    [] false.
Definition ex_waiting : System :=
  MkSystem ex_stale None [Invoke 1 ex_invoke] [] {[1%Z := 9%Z]} {[1%Z := 9%Z]} [] [].

Lemma ex_waiting_reachable : rtc (sched_step first_of reports_one not_seven) (initial 1) ex_waiting.
Proof.
  eapply rtc_l; [apply (step_update_resource first_of reports_one not_seven 5 [])|].
  eapply rtc_l; [apply (step_get_task first_of reports_one not_seven 1 8)|].
  eapply rtc_l; [apply (step_get_task first_of reports_one not_seven 1 7)|].
  apply rtc_once. apply (step_enqueue first_of reports_one not_seven 1 9 ex_invoke);
    [done | reflexivity | reflexivity].
Qed.


(** Left alone the thread parks; five turns and one wake-up start the task. *)
Example parks_then_starts :
  parked (state (Nat.iter 5 (schedule_next first_of not_seven) ex_waiting)) = true /\
  started (run_woken first_of not_seven 1 5 ex_waiting) = [Invoke 1 ex_invoke].
Proof. by vm_compute. Qed.

(** The thread parked beside the idle worker on connection 8. *)
Lemma parked_beside_idle_witness :
  exists y, rtc (sched_step first_of reports_one all_ok) (initial 1) y /\ parked (state y) = true /\
    idle (manager (state y)) = {[1%Z := [MkWorker 1 8]]} /\
    forall n, Nat.iter n (schedule_next first_of all_ok) y = y.
Proof.
  destruct (parked_beside_idle first_of reports_one reports_one_counts
    all_ok 5 1 8 9 [] ex_one_vm ex_invoke (function_into_message ex_function) 1)
    as (y & Hr & Hp & _ & Hi & Hn); try reflexivity; [discriminate|].
  exists y. split; [exact Hr|]. split; [exact Hp|]. split; [exact Hi|exact Hn].
Defined.
