(* ===== verification/ClusterWitness.v ===== *)
(** * Runs of the scheduler with its workers

    A run in which the theorems of [Cluster.v] apply, and one in which the condition they have
    (no asynchronous invocation meets a full queue) fails, and with it what they say. *)

From stdpp Require Import base tactics option list gmap strings countable.
From S2P Require Import Prelude Labels Store FsTypes Syscalls Message LocalRM SchedRM.
From S2P Require Import Scheduler SchedProgress Cluster Instances FsWitness SysWitness SchedWitness.

Definition ex_cast : LabeledInvoke :=
  sched.MkLabeledInvoke (Some (function_into_message ex_function)) None None [] ∅ ∅ false None.
Definition ex_return : TaskReturn := sched.MkTaskReturn 4 None None.

(** Two workers, on the connections 7 and 8.  A client, on connection 9, asks for task 1; worker 7
    gets it and makes a synchronous invocation, task 2, which worker 8 gets and reports. *)
Definition script_call : list Action :=
  [Ask 7 1; Client 1 9 ex_invoke; Registered 1; Schedule; Schedule; Read 7; Ask 8 1;
   Submit 7 2 ex_invoke; Registered 2; Schedule; Schedule; Read 8; Report 8 ex_return].
Definition ex_called : Cluster :=
  default (cluster_initial 1 [7; 8]%Z)
    (perform_all first_of all_ok false script_call (cluster_initial 1 [7; 8]%Z)).

Lemma ex_called_reachable :
  rtc (cluster_step first_of no_report all_ok false) (cluster_initial 1 [7; 8]%Z) ex_called.
Proof. apply (perform_all_steps _ _ _ _ script_call). vm_compute. reflexivity. Qed.

Lemma tasks_in_custody_witness :
  holds ex_called 7 1 /\ (forall c, holds ex_called c 1 -> c = 7%Z) /\ 1%Z ∉ (results ex_called).*1.
Proof.
  destruct (tasks_in_custody first_of first_of_some no_report no_report_counts all_ok 1 [7; 8]%Z
    ex_called ex_called_reachable) as (H1 & H2 & _).
  assert (Hh : carries (phases ex_called) (inbox ex_called) 7 1 ex_invoke) by (vm_compute; done).
  split; [by exists ex_invoke|]. split.
  - intros c Hc. apply (H1 c 7%Z 1%Z Hc). by exists ex_invoke.
  - by apply (H2 7%Z 1%Z ex_invoke).
Defined.

Lemma conversations_in_step_witness :
  exists r, ex_return = r /\ ((2%Z, r) ∈ results ex_called \/ r = queue_full).
Proof.
  destruct (receive 7 (inbox ex_called)) as [[m l]|] eqn:E; [|by vm_compute in E].
  assert (Hm : m = SentReturn ex_return) by (vm_compute in E; injection E as <- _; reflexivity).
  assert (Hp : phases ex_called !! 7%Z = Some (Calling 1 ex_invoke 2)) by reflexivity.
  pose proof (conversations_in_step first_of first_of_some no_report no_report_counts all_ok 1
    [7; 8]%Z ex_called 7 m l ex_called_reachable E) as H.
  rewrite Hp in H. destruct H as (r & Hr & H). exists r. split; [congruence|exact H].
Defined.

(** One worker, on connection 7, and a queue of one.  While the worker runs task 1 the queue fills
    up with task 2, and the function invokes task 3 asynchronously: the reply that the queue is
    full stays unread until the worker asks for a task, gets that reply, and asks again.  Now the
    scheduler counts it twice, and sends it task 4 while it runs task 2; task 2 makes an
    invocation, and reads task 4 in place of the result. *)
Definition script_overflow : list Action :=
  [Ask 7 1; Client 1 9 ex_cast; Schedule; Schedule; Read 7; Client 2 9 ex_cast; Submit 7 3 ex_cast;
   Report 7 ex_return; Ask 7 1; Read 7; Ask 7 1; Schedule; Schedule; Read 7;
   Client 4 9 ex_cast; Schedule; Schedule; Submit 7 5 ex_invoke; Read 7].

(** C24: an asynchronous invocation that meets a full queue can make a task disappear.  The
    scheduler answers it with [QueueFull], which the worker does not read; from then on the
    worker is one message behind.  In this run task 4 has been given to a worker that is alive,
    and it is neither reported, nor with any worker. *)
Theorem full_queue_loses_task :
  exists x, rtc (cluster_step first_of no_report all_ok true) (cluster_initial 1 [7]%Z) x /\
    Invoke 4 ex_cast ∈ started (sched x) /\ 4%Z ∉ (results x).*1 /\
    (forall c, ~ holds x c 4) /\ (forall c, phases x !! c <> Some Gone) /\
    unread 7 (inbox x) = [].
Proof.
  destruct (perform_all first_of all_ok true script_overflow (cluster_initial 1 [7]%Z)) as [x|] eqn:E;
    [|vm_compute in E; discriminate].
  exists x. split; [by apply (perform_all_steps _ _ _ _ script_overflow)|].
  vm_compute in E. injection E as <-.
  assert (Hp : forall c p, (list_to_map [(7%Z, Busy 2 ex_cast)] : gmap Z Phase) !! c = Some p ->
    p = Busy 2 ex_cast).
  { intros c p H. apply elem_of_list_to_map_2, list_elem_of_singleton in H. by injection H. }
  split_and!.
  - do 2 apply list_elem_of_further. apply list_elem_of_here.
  - set_solver.
  - intros c [li Hc]. revert Hc. unfold carries. cbn [phases inbox].
    destruct (_ !! c) as [p|] eqn:Ep; [|by intros []].
    rewrite (Hp c p Ep). by intros [? _].
  - intros c Hc. by apply Hp in Hc.
  - reflexivity.
Qed.
