(* ===== verification/WorkerWitness.v ===== *)
(** * The worker's theorems at a concrete machine

    One worker with the file system of [FsWitness.v] on the machine of [SchedWitness.v].  Its
    VMs are scripts: the calls the function will make. *)

From stdpp Require Import base tactics option list gmap strings countable.
From S2P Require Import Prelude Labels Store FsTypes Objects Fs Syscalls Message.
From S2P Require Import Blobstore SysServer LocalRM Worker Conversation Instances.
From S2P Require Import FsWitness SysWitness SchedWitness.

#[global] Instance response_codec : Message Response := uninformative _.

Abbreviation Script := (list pb.Syscall).
#[global] Instance script_channel : SyscallChannel Script := {|
  send _ := mret (Ok tt);
  wait s := match s with [] => (Val (Err SyscallChannelError.Read), []) | c :: s => (Val (Ok (Some c)), s) end;
|}.
(** Processes start if there is a script for them. *)
#[global] Instance script_launcher : Launcher (list Script) Script := {|
  spawn _ s := (Val (match s with [] => Err "no such file"%string | _ => Ok tt end), s);
  accept s := match s with [] => (Panic, s) | c :: s => (Val (Ok c), s) end;
|}.

Abbreviation ex_state := (Worker (gmap bytes bytes) Pipe unit Script (list Script)).
Definition ex_worker (scripts : list Script) : ex_state :=
  MkWorker ex_machine ex_world (MkBlobstore ∅ []) (Some ex_pipe) tt ∅ scripts.

Definition ex_invoke : LabeledInvoke :=
  sched.MkLabeledInvoke (Some (sched.MkFunction 128 "app" "python" "vmlinux"))
    (Some (buckle_from public)) (Some (component_from dc_true)) [] ∅ ∅ true
    (Some (component_from dc_true)).
(** The function answers at once. *)
Definition ex_answer : Script := [pb.SysResponse (pb.MkResponse None 200)].

Lemma ex_task : exists s',
  process_task ex_stats 1 2 1 1 3 "t" (Some ex_invoke) (ex_worker [ex_answer]) = (Val tt, s').
Proof.
  assert (E : (process_task ex_stats 1 2 1 1 3 "t" (Some ex_invoke) (ex_worker [ex_answer])).1 = Val tt)
    by reflexivity.
  destruct (process_task _ _ _ _ _ _ _ _ _) as [r s']. cbn in E. subst r. by exists s'.
Qed.

Lemma task_reported_witness :
  exists (s' s1 : ex_state) c r ret c',
    process_task ex_stats 1 2 1 1 3 "t" (Some ex_invoke) (ex_worker [ex_answer]) = (Val tt, s') /\
    finish "t" ret c = (Val r, c') /\ env_conn s' = Some c' /\ env_conn s1 = Some c /\
    sched.return_code ret <> sched.code sched.LaunchFailed.
Proof.
  destruct ex_task as [s' E].
  destruct (task_reported ex_stats 1 2 1 1 3 "t" ex_invoke (ex_worker [ex_answer]) s' E)
    as (s1 & c & r & ret & c' & H1 & H2 & H3 & H4 & _).
  exists s', s1, c, r, ret, c'. split; [exact E|]. split; [exact H2|].
  split; [rewrite H3; reflexivity|]. split; [exact H1|exact H4].
Defined.

(** A scheduler that hands out the same task whatever it is asked. *)
Definition one_task : Message Response := {|
  encode_to_vec _ := [];
  decode _ := Some (MkResponse (Some (ProcessTask "t" (Some ex_invoke))));
|}.
Definition ex_asking : ex_state :=
  set_env_conn (Some (MkPipe (replicate 8 x00) [])) (ex_worker [ex_answer]).

Lemma turn_follows_protocol_witness :
  exists c1 c2 ret r c3, rtc invocation c1 c2 /\ finish "t" ret c2 = (Val r, c3) /\
    env_conn (turn (MS := one_task) ex_stats 1 2 1 1 7 3 ex_asking).2 = Some c3.
Proof.
  assert (E : (turn (MS := one_task) ex_stats 1 2 1 1 7 3 ex_asking).1 = Val true) by reflexivity.
  destruct (turn (MS := one_task) ex_stats 1 2 1 1 7 3 ex_asking) as [o s'] eqn:Et.
  cbn in E. subst o.
  destruct (turn_follows_protocol (MS := one_task) ex_stats 1 2 1 1 7 3 ex_asking true s'
    (MkPipe (replicate 8 x00) []) Et eq_refl) as (answer & c1 & Hg & H).
  vm_compute in Hg. injection Hg as <- _.
  destruct H as (_ & c2 & ret & r & c3 & H1 & H2 & H3).
  exists c1, c2, ret, r, c3. split; [exact H1|]. split; [exact H2|exact H3].
Defined.

Lemma task_returns_vm_witness :
  exists s', process_task ex_stats 1 2 1 1 3 "t" (Some ex_invoke) (ex_worker [ex_answer]) =
      (Val tt, s') /\
    rtc (rm_step ex_stats) (ex_machine, []) (localrm s', []).
Proof.
  destruct ex_task as [s' E]. exists s'. split; [exact E|].
  exact (task_returns_vm ex_stats 1 2 1 1 3 "t" ex_invoke (ex_worker [ex_answer]) s' [] E).
Defined.

Definition ex_vm (l : bool) : Vm := MkVm 1 ex_function public l.
Definition ex_failed : TaskReturn :=
  sched.MkTaskReturn (sched.code sched.ProcessRequestFailed) None None.

Lemma attempts_bounded_witness :
  retry ex_stats 2 1 (5 + 100) 3 0 ex_invoke public dc_true ex_failed (ex_vm true) (ex_worker []) =
  retry ex_stats 2 1 5 3 0 ex_invoke public dc_true ex_failed (ex_vm true) (ex_worker []).
Proof.
  exact (attempts_bounded ex_stats 2 1 100 3 ex_invoke public dc_true ex_failed (ex_vm true)
    (ex_worker []) eq_refl).
Defined.

(** A machine on which no process starts. *)
#[global] Instance no_launcher : Launcher unit Script := {|
  spawn _ := mret (Err "no such file"%string); accept := panic;
|}.
Definition ex_broken : Worker (gmap bytes bytes) Pipe unit Script unit :=
  MkWorker ex_machine ex_world (MkBlobstore ∅ []) (Some ex_pipe) tt ∅ tt.

Lemma launch_failure_spins_witness :
  (retry ex_stats 2 1 1000 3 0 ex_invoke public dc_true ex_failed (ex_vm false) ex_broken).1 = NoFuel.
Proof.
  apply (launch_failure_spins ex_stats 2 1 1000 3 0 ex_invoke public dc_true ex_failed
    (ex_vm false) ex_broken eq_refl).
  - intros args o. exists "no such file"%string, o. reflexivity.
  - intros s. eexists. split; reflexivity.
Defined.

(** The machine after a VM has been made, launched and released: it is handed out again to a
    task that holds no secrets, after any other. *)
Definition ex_used : LocalRM.ResourceManager Pipe :=
  (release ex_stats (ex_vm true) (new_vm ex_stats 1 ex_function ex_machine).2).2.
Definition ex_reuser : ex_state :=
  MkWorker ex_used ex_world (MkBlobstore ∅ []) (Some ex_pipe) tt ∅ [].

Lemma ex_used_reachable : rtc (rm_step ex_stats) (rm_new 512 ex_pipe, []) (ex_used, []).
Proof.
  set (r := (new_vm ex_stats 1 ex_function ex_machine).2).
  eapply rtc_l; [apply (rm_new_vm ex_stats 1 ex_function (ex_vm false) ex_machine r []); done|].
  eapply rtc_l; [apply (rm_launch ex_stats (ex_vm false) r [] [])|].
  apply rtc_once. by apply (rm_release ex_stats (ex_vm true) r ex_used [] []).
Qed.

Lemma vm_reuse_ignores_taint_witness :
  (try_allocate ex_stats 1 ex_function public ex_reuser).1 = Val (Some (ex_vm true)).
Proof.
  apply (vm_reuse_ignores_taint ex_stats 1 512 ex_pipe ex_reuser [] ex_function [] (ex_vm true)
    public ex_used_reachable); reflexivity.
Defined.
