(* ===== verification/MachineWitness.v ===== *)
(** * The pool of workers at a concrete machine

    Two workers on a machine of 256 MB, each of which has made a VM. *)

From stdpp Require Import base tactics option list gmap strings countable.
From S2P Require Import Prelude Labels Store FsTypes Objects Fs Syscalls Message.
From S2P Require Import Blobstore SysServer LocalRM Worker Machine Conversation TaskRun Instances.
From S2P Require Import FsWitness SysWitness SchedWitness WorkerWitness.

Abbreviation ex_pool_state := (Machine Pipe Script).
Definition ex_manager_of : LocalRM.ResourceManager Pipe := set_total_mem 256 (rm_new 1024 ex_pipe).
Definition ex_pool : ex_pool_state := new_workerpool ex_manager_of.

Definition allocated (m : ex_pool_state) (w : Z) : ex_pool_state :=
  match allocate ex_stats 1 ex_function public (rm m) with
  | (Val o, r) => MkMachine r (conns m) (<[w := o]> (workers m))
  | (_, _) => m
  end.
Definition ex_both : ex_pool_state := allocated (allocated ex_pool 100) 101.

Lemma ex_allocated (m : ex_pool_state) w :
  workers m !! w = Some None ->
  match (allocate ex_stats 1 ex_function public (rm m)).1 with Val _ => true | _ => false end = true ->
  machine_step ex_stats 1 m (allocated m w).
Proof.
  intros Hw H. unfold allocated. destruct (allocate _ _ _ _ _) as [[o| |] r] eqn:E; try done.
  apply (m_work _ _ w ex_function public). by apply m_allocate.
Qed.

Lemma ex_both_steps : nsteps (machine_step ex_stats 1) 2 ex_pool ex_both.
Proof.
  eapply nsteps_l; [apply (ex_allocated ex_pool 100); reflexivity|].
  eapply nsteps_l; [apply (ex_allocated (allocated ex_pool 100) 101); reflexivity|]. constructor.
Qed.

Example ex_both_held : length (held_vms (workers ex_both)) = 2.
Proof. vm_compute. reflexivity. Qed.

Lemma vm_exclusive_witness :
  NoDup (vm_id <$> all_vms ex_both) /\
  (cache_memory (cache (rm ex_both)) + vms_memory (held_vms (workers ex_both)) <= 256)%Z.
Proof.
  destruct (vm_exclusive ex_stats 1 1024 256 ex_pipe 2 ex_both) as (H1 & _ & _ & _ & H2).
  - split; [lia|reflexivity].
  - lia.
  - reflexivity.
  - exact ex_both_steps.
  - split; [exact H1|exact H2].
Defined.

Lemma task_served_witness :
  exists s' c1 ret r c', process_task ex_stats 1 2 1 1 3 "t" (Some ex_invoke) (ex_worker [ex_answer]) =
      (Val tt, s') /\
    rtc (machine_step ex_stats 1) (MkMachine ex_machine ∅ {[ 100%Z := None ]})
      (MkMachine (localrm s') (handles s') {[ 100%Z := None ]}) /\
    finish "t" ret c1 = (Val r, c') /\ env_conn s' = Some c'.
Proof.
  destruct ex_task as [s' E].
  assert (Hw : ({[ 100%Z := None ]} : gmap Z (option Vm)) !! 100%Z = Some None) by reflexivity.
  destruct (task_served ex_stats 1 2 1 100 1 3 "t" ex_invoke (ex_worker [ex_answer]) s' _ Hw E) as (f & label & c1 & ret & r & c' & _ & Hs & Hf & Hc).
  exists s', c1, ret, r, c'. split; [exact E|]. split; [exact (serves_machine _ _ _ _ _ _ _ Hs)|].
  split; [exact Hf|exact Hc].
Defined.
