(* ===== verification/DeploymentWitness.v ===== *)
(** * A concrete deployment

    A scheduler with a queue of one, two workers on one machine of 256 MB, and a client's task,
    from its arrival to the report of its result. *)

From stdpp Require Import base tactics option list gmap strings countable.
From S2P Require Import Prelude Labels Store FsTypes Objects Fs Syscalls Message.
From S2P Require Import Blobstore SysServer LocalRM SchedRM Scheduler SchedProgress Worker.
From S2P Require Import Machine Conversation TaskRun Cluster Deployment Instances.
From S2P Require Import FsWitness SysWitness SchedWitness ClusterWitness WorkerWitness MachineWitness.

Abbreviation ex_deployment := (Deployment Pipe Script).
(** The workers 100 and 101 of machine 1 have the connections 7 and 8. *)
Definition ex_place (c : Z) : Z * Z := (1, c + 93)%Z.
Definition ex_managers : gmap Z (LocalRM.ResourceManager Pipe) := {[ 1%Z := ex_manager_of ]}.
Definition ex_start : ex_deployment := deployment_initial 1 [7; 8]%Z ex_managers.

Lemma ex_managers_fresh : map_Forall (fun _ r => accounted r 0) ex_managers.
Proof.
  intros n r H. unfold ex_managers in H. apply lookup_singleton_Some in H as [_ <-].
  by apply (manager_fresh 1024 256 ex_pipe).
Qed.

Local Abbreviation ex_step :=
  (deployment_step (C := Pipe) (Ch := Script) first_of no_report all_ok false ex_stats 1 ex_place).

Definition said (l : list Action) (d : ex_deployment) : ex_deployment :=
  MkDeployment (default (cluster d) (perform_all first_of all_ok false l (cluster d))) (machines d).

(** Talk while no VM is at work. *)
Lemma ex_said l d :
  (forall m, machines d !! 1%Z = Some m -> held_vms (workers m) = []) ->
  bool_decide (is_Some (perform_all first_of all_ok false l (cluster d))) = true ->
  rtc ex_step d (said l d).
Proof.
  intros Hh Hl. apply bool_decide_eq_true in Hl as [x E]. unfold said. rewrite E.
  apply talk_steps; [|by apply (perform_all_steps _ _ _ _ l)].
  intros c. unfold holding. cbn [ex_place fst]. destruct (machines d !! 1%Z) as [m|] eqn:Em; [|done].
  cbn. destruct (workers m !! (c + 93)%Z) as [[v|]|] eqn:Ew; try done. exfalso.
  assert (Hv : v ∈ held_vms (workers m)).
  { apply list_elem_of_omap. exists ((c + 93)%Z, Some v). split; [|done]. by apply elem_of_map_to_list. }
  rewrite (Hh m eq_refl) in Hv. by apply not_elem_of_nil in Hv.
Qed.

Definition on_first (f : Machine Pipe Script -> Machine Pipe Script) (d : ex_deployment) : ex_deployment :=
  match machines d !! 1%Z with
  | Some m => MkDeployment (cluster d) (<[1%Z := f m]> (machines d))
  | None => d
  end.

Lemma ex_works f (d : ex_deployment) m :
  phases (cluster d) !! 7%Z = Some (Busy 1 ex_invoke) -> machines d !! 1%Z = Some m ->
  worker_step ex_stats 1 100 ex_function public m (f m) -> ex_step d (on_first f d).
Proof.
  intros Hp Hm Hs. unfold on_first. rewrite Hm.
  exact (d_work first_of no_report all_ok false ex_stats 1 ex_place 7%Z 1%Z ex_invoke
    (sched.MkFunction 128 "app" "python" "vmlinux") public m (f m) d Hp eq_refl Hm Hs).
Qed.

(** The VM of the task, until it is released. *)
Definition ex_allocate (m : Machine Pipe Script) : Machine Pipe Script := allocated m 100.
Definition ex_vm_of (m : Machine Pipe Script) : Vm :=
  match workers m !! 100%Z with Some (Some v) => v | _ => MkVm 0 ex_function public false end.
Definition ex_launch (m : Machine Pipe Script) : Machine Pipe Script :=
  let v := ex_vm_of m in
  MkMachine (rm m) (<[vm_id v := ex_answer]> (conns m)) (<[100%Z := Some (Vm_started v)]> (workers m)).
Definition ex_release (m : Machine Pipe Script) : Machine Pipe Script :=
  MkMachine (release ex_stats (ex_vm_of m) (rm m)).2 (conns m) (<[100%Z := None]> (workers m)).

Definition ex_given : ex_deployment :=
  said [Ask 7 1; Client 1 9 ex_invoke; Registered 1; Schedule; Schedule; Read 7] ex_start.
Definition ex_running : ex_deployment := on_first ex_allocate ex_given.
Definition ex_served : ex_deployment := on_first ex_release (on_first ex_launch ex_running).
Definition ex_reported : ex_deployment := said [Report 7 ex_return] ex_served.

Lemma ex_given_reachable : rtc ex_step ex_start ex_given.
Proof.
  apply ex_said; [|by vm_compute]. intros m Hm. unfold ex_start, deployment_initial in Hm. cbn [machines] in Hm.
  unfold ex_managers in Hm. rewrite map_fmap_singleton, lookup_singleton_eq in Hm.
  injection Hm as <-. apply new_workerpool_held.
Qed.

Lemma ex_running_reachable : rtc ex_step ex_start ex_running.
Proof.
  eapply rtc_r; [exact ex_given_reachable|].
  eapply ex_works; [reflexivity|reflexivity|].
  unfold ex_allocate, allocated. 
  destruct (allocate ex_stats 1 ex_function public _) as [[o| |] r] eqn:E; [|vm_compute in E; discriminate E..].
  by apply m_allocate.
Qed.

Lemma ex_served_reachable : rtc ex_step ex_start ex_served.
Proof.
  eapply rtc_r; [eapply rtc_r; [exact ex_running_reachable|]|].
  - apply (ex_works ex_launch _ (ex_allocate (new_workerpool ex_manager_of))); [reflexivity|reflexivity|].
    by apply m_launch.
  - apply (ex_works ex_release _ (ex_launch (ex_allocate (new_workerpool ex_manager_of))));
      [reflexivity|reflexivity|]. by eapply m_release.
Qed.

Lemma ex_reported_reachable : rtc ex_step ex_start ex_reported.
Proof.
  etrans; [exact ex_served_reachable|]. apply ex_said; [|by vm_compute].
  intros m Hm. assert (E : machines ex_served !! 1%Z = Some m) by exact Hm.
  assert (Hh : (held_vms ∘ workers) <$> machines ex_served !! 1%Z = Some []) by (vm_compute; reflexivity).
  rewrite E in Hh. by injection Hh.
Qed.

Lemma vm_serves_task_witness :
  exists m v u li f, machines ex_running !! 1%Z = Some m /\ workers m !! 100%Z = Some (Some v) /\
    task_of (phases (cluster ex_running) !! 7%Z) = Some (u, li) /\
    sched.li_function li = Some f /\ vm_function v = function_from_message f /\
    u ∉ (results (cluster ex_running)).*1.
Proof.
  destruct (machines ex_running !! 1%Z) as [m|] eqn:Em; [|vm_compute in Em; discriminate Em].
  destruct (workers m !! 100%Z) as [[v|]|] eqn:Ew.
  2-3: (exfalso; assert (H : bool_decide (is_Some (m ← machines ex_running !! 1%Z; mjoin (workers m !! 100%Z))) = true)
    by (vm_compute; reflexivity); rewrite Em in H; cbn in H; rewrite Ew in H; discriminate H).
  destruct (vm_serves_task first_of first_of_some no_report no_report_counts all_ok ex_stats 1 ex_place
    1 [7; 8]%Z ex_managers ex_running 1 m 100 v ex_managers_fresh ex_running_reachable Em Ew)
    as (c & u & li & f & Hc & Ht & Hf & Hv & _ & Hn).
  assert (c = 7%Z) as -> by (injection Hc; lia).
  exists m, v, u, li, f. split_and!; first [assumption | reflexivity].
Defined.

Lemma memory_comes_back_witness :
  exists m, machines ex_reported !! 1%Z = Some m /\ held_vms (workers m) = [] /\
    (free_mem (rm m) + cache_memory (cache (rm m)))%Z = 256%Z.
Proof.
  destruct (machines ex_reported !! 1%Z) as [m|] eqn:Em; [|vm_compute in Em; discriminate Em].
  exists m. split; [reflexivity|].
  refine (proj2 (memory_comes_back first_of first_of_some no_report no_report_counts all_ok ex_stats 1 ex_place
    1 [7; 8]%Z ex_managers ex_reported 1 m ex_manager_of ex_managers_fresh ex_reported_reachable Em
    eq_refl _) _).
  - intros c _ H. apply elem_of_map_to_list in H.
    assert (Hp : map_to_list (phases (cluster ex_reported)) = [(7, Ready); (8, Ready)]%Z)
      by (vm_compute; reflexivity).
    rewrite Hp in H. apply elem_of_cons in H as [H|H%list_elem_of_singleton]; discriminate H.
  - intros u li. assert (Hs : started (sched (cluster ex_reported)) = [Invoke 1 ex_invoke]) by (vm_compute; reflexivity).
    assert (Hr : (results (cluster ex_reported)).*1 = [1%Z]) by (vm_compute; reflexivity).
    rewrite Hs, Hr. intros H%list_elem_of_singleton. injection H as -> _. apply list_elem_of_here.
Defined.
