(* ===== verification/VmWitness.v ===== *)
(** * The command line theorems at concrete inputs

    A parser of command lines that satisfies what is assumed of [clap], a monitor that records
    what it is told, and the theorems of [Firerunner.v] applied to the VM of a function. *)

From Stdlib Require Import Ascii String.
From stdpp Require Import base tactics option list gmap strings pretty countable.
From S2P Require Import Prelude Labels Store FsTypes Paths CommandLine Worker Firerunner.
From S2P Require Import Instances FsWitness.

(** ** A parser *)

Definition is_plain (v : string) : bool := bool_decide (head (chars v) <> Some "-"%char).
Definition declared_as (k : Arity) (x : string) (specs : list Arg) : option Arg :=
  List.find (fun a => String.eqb (dashed (long a)) x &&
    match arity a, k with TakesValue, TakesValue | IsFlag, IsFlag => true | _, _ => false end) specs.

Fixpoint scan (specs : list Arg) (args : list string) : option Matches :=
  let flag_case x rest :=
    match declared_as IsFlag x specs with
    | Some a => ms ← scan specs rest; Some ((long a, None) :: ms)
    | None => None
    end in
  match args with
  | [] => Some []
  | x :: rest =>
      match rest with
      | v :: rest' =>
          match declared_as TakesValue x specs with
          | Some a =>
              if is_plain v then ms ← scan specs rest'; Some ((long a, Some v) :: ms)
              else flag_case x rest
          | None => flag_case x rest
          end
      | [] => flag_case x rest
      end
  end.

#[global] Instance scanner : Clap := {|
  clap_parse specs clashes args :=
    ms ← scan specs args;
    if decide (satisfies specs clashes ms) then Some ms else None
|}.

Lemma dashed_inj x y : dashed x = dashed y -> x = y.
Proof. unfold dashed. cbn. by intros [=]. Qed.
Lemma declared_as_some k x specs a :
  declared_as k x specs = Some a -> a ∈ specs /\ dashed (long a) = x /\ arity a = k.
Proof.
  intros H. apply List.find_some in H as [Hin H]. apply andb_true_iff in H as [H1 H2].
  apply (proj1 (String.eqb_eq _ _)) in H1. split; [by apply list_elem_of_In|]. split; [done|].
  by destruct (arity a), k.
Qed.
Lemma declared_as_is k specs a :
  a ∈ specs -> arity a = k -> exists b, declared_as k (dashed (long a)) specs = Some b /\ long b = long a.
Proof.
  intros Hin Hk. destruct (declared_as k (dashed (long a)) specs) as [b|] eqn:E.
  - exists b. split; [done|]. apply declared_as_some in E as (_ & H & _). by apply dashed_inj.
  - exfalso. apply list_elem_of_In in Hin. pose proof (List.find_none _ _ E a Hin) as H.
    cbn in H. rewrite String.eqb_refl, Hk in H. by destruct k.
Qed.

Definition scan_as_flag (specs : list Arg) (x : string) (rest : list string) : option Matches :=
  match declared_as IsFlag x specs with
  | Some a => ms ← scan specs rest; Some ((long a, None) :: ms)
  | None => None
  end.
Lemma scan_cons specs x rest :
  scan specs (x :: rest) =
    match rest with
    | v :: rest' =>
        match declared_as TakesValue x specs with
        | Some a =>
            if is_plain v then ms ← scan specs rest'; Some ((long a, Some v) :: ms)
            else scan_as_flag specs x rest
        | None => scan_as_flag specs x rest
        end
    | [] => scan_as_flag specs x rest
    end.
Proof. by destruct rest. Qed.

Lemma scan_flag specs a rest ms :
  a ∈ specs -> arity a = IsFlag -> (match rest with v :: _ => is_plain v = false | [] => True end) ->
  scan specs rest = Some ms -> scan specs (dashed (long a) :: rest) = Some ((long a, None) :: ms).
Proof.
  intros Hin Ha Hv Hs. destruct (declared_as_is IsFlag specs a Hin Ha) as (b & Hb & Hl).
  assert (E : scan_as_flag specs (dashed (long a)) rest = Some ((long a, None) :: ms))
    by (unfold scan_as_flag; by rewrite Hb, Hl, Hs).
  rewrite scan_cons, E. destruct rest as [|v rest]; [done|]. rewrite Hv.
  by destruct (declared_as TakesValue _ specs).
Qed.

Lemma dashed_not_plain n : is_plain (dashed n) = false.
Proof. apply bool_decide_false. intros H. by apply H. Qed.

Lemma scan_occurrences specs args ms : occurrences specs args ms -> scan specs args = Some ms.
Proof.
  induction 1 as [|a rest ms Hin Ha Ho IH|a v rest ms Hin Ha Hv Ho IH]; [done| |].
  - apply scan_flag; [done..| |done]. destruct Ho; [done|apply dashed_not_plain..].
  - destruct (declared_as_is TakesValue specs a Hin Ha) as (b & Hb & Hl).
    rewrite scan_cons, Hb, Hl. unfold is_plain. rewrite bool_decide_true by done. by rewrite IH.
Qed.

Lemma scan_unknown specs args n :
  dashed n ∈ args -> n ∉ long <$> specs -> scan specs args = None.
Proof.
  intros Hin Hn. remember (length args) as k eqn:Hk. revert args Hk Hin.
  induction (lt_wf k) as [k _ IH]. intros args -> Hin.
  assert (Hd : forall k, declared_as k (dashed n) specs = None).
  { intros k. destruct (declared_as k (dashed n) specs) as [a|] eqn:E; [|done].
    apply declared_as_some in E as (Ha & E & _). apply dashed_inj in E. destruct Hn.
    rewrite <- E. by apply list_elem_of_fmap_2. }
  destruct args as [|x rest]; [by apply elem_of_nil in Hin|].
  assert (Hflag : scan_as_flag specs x rest = None).
  { unfold scan_as_flag. apply elem_of_cons in Hin as [<-|Hin]; [by rewrite Hd|].
    destruct (declared_as IsFlag x specs); [|done].
    by rewrite (IH (length rest)) by (done || cbn; lia). }
  rewrite scan_cons, Hflag. destruct rest as [|v rest]; [done|].
  destruct (declared_as TakesValue x specs) as [a|] eqn:Ea; [|done].
  destruct (is_plain v) eqn:Hv; [|done].
  rewrite (IH (length rest)); [done|cbn; lia|done|].
  apply elem_of_cons in Hin as [<-|Hin]; [by rewrite Hd in Ea|].
  apply elem_of_cons in Hin as [<-|Hin]; [by rewrite dashed_not_plain in Hv|done].
Qed.

#[global] Instance scanner_laws : ClapLaws.
Proof.
  split.
  - intros specs clashes args ms Ho Hs. cbn. rewrite (scan_occurrences _ _ _ Ho). cbn.
    by rewrite decide_True.
  - intros specs clashes args n Hin _ _ _ Hn. cbn. by rewrite (scan_unknown _ _ n).
Qed.

(** ** A monitor that records *)

#[global] Instance recorder : Vmm (list BootStep) unit := {|
  file_exists _ := true;
  snapshot_json _ := None;
  mac_ok _ := true;
  vmm_start _ _ := mret (Ok tt);
  channel_send a := _ ← modify (fun l => l ++ [RequestAction a]); mret true;
  event_fd_write := mret true;
  await_outcome := mret (Some true);
  join_monitor := mret true;
  remove_file f := _ ← modify (fun l => l ++ [RemoveFile f]); mret false;
  dump_requested _ := mret true;
  dump_done _ := mret tt;
|}.

(** ** The theorems *)

Definition ex_config : FunctionConfig := config_from ex_function.
(** The same with a network device. *)
Definition ex_networked : FunctionConfig :=
  MkConfig (Some "AA:BB") (Some "tap0") "python" None 1 128 1 None false true "vmlinux" None None
    false false.

Lemma ex_fits : fits 1 100 ex_config None.
Proof. by split; cbn; repeat (constructor; try done). Qed.
Lemma ex_networked_fits : fits 1 100 ex_networked None.
Proof. by split; cbn; repeat (constructor; try done). Qed.

Lemma launch_understood_witness :
  (exists args, launch_args 1 100 ex_config None tt = (Val args, tt) /\
     vm_parse args = Some (args_of 1 100 ex_config None)) /\
  (exists args, launch_args 1 100 ex_networked None tt = (Val args, tt) /\ vm_parse args = None).
Proof.
  split.
  - exact (launch_understood 1 100 ex_config None tt ex_fits).
  - exact (launch_understood 1 100 ex_networked None tt ex_networked_fits).
Defined.

(** It ends with 0, and every step of the start has been taken. *)
Lemma launch_boots_witness :
  exists args, launch_args 1 100 ex_config None tt = (Val args, tt) /\
    firerunner args ([] : list BootStep) = started (args_of 1 100 ex_config None) None [] /\
    firerunner args [] = (Val (Exit 0), boot_steps (args_of 1 100 ex_config None)).
Proof.
  assert (Hf : files_exist (VM := recorder) (args_of 1 100 ex_config None) = true) by reflexivity.
  destruct (launch_boots (VM := recorder) 1 100 ex_config None tt [] ex_fits eq_refl eq_refl Hf)
    as (args & E & F & _ & D & _).
  exists args. split; [exact E|]. split; [exact F|]. apply D.
  exists [], (boot_steps (args_of 1 100 ex_config None)). split; [reflexivity|]. split; [|reflexivity].
  cbn [boot_steps all_done app step_done].
  repeat (eexists; split; [first [eexists _, _; split_and!; reflexivity | eexists; reflexivity]|]).
  vm_compute. reflexivity.
Defined.

(** What the recorder has seen. *)
Example ex_recorded :
  (firerunner ["--kernel"; "vmlinux"; "--rootfs"; "python"; "--vcpu"; "257"] []).2 =
    [RequestAction (SetVmConfiguration 1 128); RequestAction (ConfigureBootSource "vmlinux" None);
     RequestAction (InsertBlockDevice (MkBlock "rootfs" "python" true true true));
     RemoveFile "worker-100.sock";
     RequestAction (InsertVsockDevice "vsock0" 100 "worker-100.sock"); RequestAction StartMicroVm].
Proof. vm_compute. reflexivity. Qed.
