(* ===== verification/WebWitness.v ===== *)
(** * The bootstrapper's and the web frontend's theorems at concrete states

    A frontend over the file system of [FsWitness.v], whose scheduler answers every invocation
    at once, with a public or with a secret response. *)

From stdpp Require Import base tactics option list gmap strings countable.
From S2P Require Import Prelude Labels Store FsTypes Objects Fs FsGuarantee.
From S2P Require Import FsMediation FsReads Observer Syscalls Blobstore Message Paths Bootstrap.
From S2P Require Import Webfront WebTheorems Scheduler Instances FsWitness.

(** ** Bootstrap *)

Definition ex_policy : Buckle := MkBuckle dc_true FAASTEN_PRIV.
Definition ex_home : Labeled Directory :=
  MkLabeled (Buckle_new dc_true dc_false)
    (MkDirectory {["home" := DirEntry.FacetedDirectory (ObjRef 1)]}).
Definition ex_images : Labeled Directory :=
  MkLabeled ex_policy (MkDirectory {["fsutil" := DirEntry.Gate (ObjRef 4)]}).
Definition ex_installed : gmap bytes bytes :=
  <[ukey ROOT_REF := to_vec (t := TDirectory) ex_home]>
  (<[ukey (ObjRef (t := TFaceted) 1) := to_vec (t := TFaceted) (MkFaceted [(ex_policy, ObjRef 2)])]>
  {[ukey (ObjRef (t := TDirectory) 2) := to_vec (t := TDirectory) ex_images]}).

(** A thread that has read a secret. *)
Definition ex_tainted : map_world := start ex_installed [9%Z] (MkBuckle dc_false dc_true) dc_true.

Lemma stale_label_blocks_fsutil_witness :
  exists w', register_user_fsutil dc_true dc_true ex_tainted =
    (Val tt, w') /\ view w' = view ex_tainted.
Proof.
  apply (stale_label_blocks_fsutil dc_true dc_true ex_policy [label ex_home; ex_policy] (ObjRef 4)
    ex_tainted).
  - done.
  - reflexivity.
  - reflexivity.
  - unfold FlowsP. intros H. assert (E : true = false) by (rewrite <- H; reflexivity). discriminate E.
Defined.

Lemma prepare_fs_confined_witness :
  let w1 := (make_home ex_world).2 in quiet w1.
Proof.
  exact (proj1 (prepare_fs_confined (fun _ => None) (fun _ => None) "config" (MkBoot ex_world (MkBlobstore ∅ []))
    Panic (MkBoot ex_world (MkBlobstore ∅ [])) ex_quiet eq_refl)).
Defined.

(** ** The frontend *)

(** The answers [x01], a success, and [x04], a failure, are public, [x02] and [x03] secret. *)
Definition ex_secret : Buckle := MkBuckle dc_false dc_true.
Definition ex_return (code : Z) (l : Buckle) : TaskReturn :=
  sched.MkTaskReturn code (Some (pb.MkResponse (Some [x2a]) 200)) (Some (buckle_from l)).
#[global] Instance answer_codec : Message TaskReturn := {|
  encode_to_vec _ := [x01];
  Message.decode l :=
    match l with
    | [x01] => Some (ex_return 4 public)
    | [x02] => Some (ex_return 4 ex_secret)
    | [x03] => Some (ex_return 2 ex_secret)
    | [x04] => Some (ex_return 2 public)
    | _ => None
    end;
|}.
#[global] Instance web_response_codec : Message Message.Response := uninformative _.
#[global] Instance web_request_codec : Message Message.Request := uninformative _.

(** Tokens that anyone can forge: the claims themselves. *)
#[global] Instance Claims_eq_dec : EqDecision Claims.
Proof. solve_decision. Defined.
#[global] Program Instance Claims_countable : Countable Claims :=
  inj_countable' (fun c => (alg c, iat c, exp c, sub c)) (fun '(a, i, e, s) => MkClaims a i e s) _.
Next Obligation. by intros []. Qed.
#[global] Instance plain_web : WebLib := {|
  verify_with_key t := countable.decode (uuid_value t);
  sign_with_key c := Some (uuid_digits (encode c));
  mime_parse s := Some (s, s);
  json_normalize s := Ok s;
  delegate_from_reader r := Ok (MkDelegate "T" false None);
  percent_decode s := s;
|}.
Lemma uuid_value_digits p : uuid_value (uuid_digits p) = p.
Proof. induction p as [p IH|p IH|]; cbn; by rewrite ?IH. Qed.
#[global] Instance plain_laws : WebLaws.
Proof. split. intros c t. cbn. intros [= <-]. rewrite uuid_value_digits. apply decode_encode. Qed.

#[global] Instance no_providers : Providers unit := {|
  cas_validate _ _ := mret None; github_access_token _ _ _ := mret None;
  github_login _ := mret EmptyString;
|}.

Definition ex_inbox (answer : byte) : bytes := to_be 8 1 ++ [answer].
Definition ex_app (answer : byte) : App (gmap bytes bytes) Pipe unit :=
  MkApp ex_world (MkBlobstore ∅ []) (Some (MkPipe (ex_inbox answer) [])) tt 0.
Definition ex_get (m : string) (path : list string) (auth : option string) : Request :=
  MkRequest m path
    (fun h => if decide (h = "Authorization") then auth
              else if decide (h = "content-type") then Some "application/json" else None)
    [] (fun _ => None) (Some (Ok "{}")) (Err EmptyString) (Err EmptyString).

Lemma handle_confined_witness :
  quiet (fs (ex_app x01)) /\
  exists p l, acts_for "" (ex_app x01) (ex_get "GET" ["me"] None) p /\
    clear_or_left (fs (ex_app x01)) l /\
    let s' := (handle "" "" "" 2 (ex_get "GET" ["me"] None) (ex_app x01)).2 in
    quiet (fs s') /\ store_ok l p ex_store (view (fs s')).
Proof.
  split; [exact ex_quiet|].
  exact (handle_confined "" "" "" 2 (ex_get "GET" ["me"] None) (ex_app x01) ex_quiet).
Defined.

Definition ex_invoke_gate : Request := ex_get "POST" ["faasten"; "invoke"; "gate"] None.

(** A success and a failure of the function, both released; what is secret is not. *)
Definition ex_answers (b : byte) : option (result Response Response) :=
  match (init 2 None "gate" ex_invoke_gate (ex_app b)).1 with Val r => Some r | _ => None end.
Example ex_released :
  match ex_answers x01 with Some (Ok r) => from_function r | _ => False end /\
  match ex_answers x04 with Some (Err r) => from_function r | _ => False end /\
  match ex_answers x02 with Some (Err r) => status_code r = 401%Z | _ => False end /\
  match ex_answers x03 with Some (Err r) => status_code r = 401%Z | _ => False end.
Proof. vm_compute. split_and!; try reflexivity; eexists; reflexivity. Qed.

Lemma ex_failure : exists r s',
  init 2 None "gate" ex_invoke_gate (ex_app x04) = (Val (Err r), s') /\ from_function r.
Proof.
  assert (H : match (init 2 None "gate" ex_invoke_gate (ex_app x04)).1 with
              | Val (Err r) => match resp_body r with Reply _ => true | _ => false end
              | _ => false
              end = true) by (vm_compute; reflexivity).
  destruct (init _ _ _ _ _) as [[[r|r]| |] s']; try discriminate H. exists r, s'.
  split; [reflexivity|]. cbn [fst] in H. destruct (resp_body r) eqn:E; try discriminate H.
  eexists. exact E.
Qed.

(** The failure: one invocation was written, one answer read, and its label is readable. *)
Lemma released_response_witness :
  exists r s' f gp payload blobs hs l,
    init 2 None "gate" ex_invoke_gate (ex_app x04) = (Val (Err r), s') /\ from_function r /\
    conn s' = Some (read_u8 (labeled_invoke (invocation_of f (current_label (fs s')) gp dc_true
      payload blobs hs) (MkPipe (ex_inbox x04) [])).2).2 /\
    FlowsP dc_true l (current_label (fs s')).
Proof.
  destruct ex_failure as (r & s' & E & Hr).
  destruct (released_response 2 None "gate" ex_invoke_gate (ex_app x04) (MkPipe (ex_inbox x04) [])
    (Val (Err r)) s' eq_refl E) as [[_ Ho]|(payload & blobs & label & hs & s1 & path & f & gp & _ & _ & _ & Hw)].
  { destruct (Ho (Err r) eq_refl Hr). }
  exists r, s', f, gp, payload, blobs, hs.
  change (labeled_invoke ?li ?c) with (Val (A := result unit SchedError.Error) (Ok tt), (labeled_invoke li c).2) in Hw.
  destruct Hw as [Hc Hk]. destruct (Hk (Err r) eq_refl Hr) as (bs & tr & lb & l & rep & _ & _ & _ & _ & Hl & _).
  exists l. split; [exact E|]. split; [exact Hr|]. split; [exact Hc|exact Hl].
Defined.

(** A request without a token, with a label. *)
Definition ex_labelled : Request :=
  MkRequest "POST" ["faasten"; "invoke"; "gate"]
    (fun h => if decide (h = "x-faasten-label") then Some "F,T"
              else if decide (h = "content-type") then Some "application/json" else None)
    [] (fun _ => None) (Some (Ok "{}")) (Err EmptyString) (Err EmptyString).

Lemma chosen_label_released_witness :
  match (init 2 None "gate" (ex_get "POST" ["faasten"; "invoke"; "gate"] None) (ex_app x02)).1 with
  | Val (Err r) => status_code r = 401%Z
  | _ => False
  end /\
  exists s, init 2 None "gate" ex_labelled (ex_app x02) =
      (r ← task_return_into_response (ex_return 4 ex_secret);
       mret (if is_success (from_reply r) then Ok (from_reply r) else Err (from_reply r))) s.
Proof.
  split; [vm_compute; reflexivity|].
  assert (E1 : prepare_payload ex_labelled (ex_app x02) =
    (Val (Ok (String.list_byte_of_string "{}", ∅, Some ex_secret, ∅)), ex_app x02)) by reflexivity.
  set (s1 := entered None ex_secret (ex_app x02)).
  set (prepared := prepare_labeled_invoke 2 "gate" ∅ (String.list_byte_of_string "{}") ∅ s1).
  assert (E2 : match prepared.1 with Val (Ok _) => true | _ => false end = true) by (vm_compute; reflexivity).
  assert (E3 : match prepared with
               | (Val (Ok li), s) => (with_conn (submit li) s).1
               | _ => Panic
               end = Val (Ok [x02])) by (vm_compute; reflexivity).
  unfold prepared in E2, E3.
  destruct (prepare_labeled_invoke 2 "gate" ∅ _ ∅ s1) as [[[li|e]| |] s2] eqn:Ep; try discriminate E2.
  destruct (with_conn (submit li) s2) as [r s3] eqn:Ew. cbn [fst] in E3. rewrite E3 in Ew.
  exists s3.
  exact (chosen_label_released 2 None "gate" ex_labelled (ex_app x02) _ _ _ _ _ li s2 [x02] s3
    (ex_return 4 ex_secret) (buckle_from ex_secret) ex_secret E1 Ep Ew eq_refl eq_refl eq_refl eq_refl).
Defined.

(** ** Errors of the path

    Two file systems that differ in a directory that only alice may read. *)

Definition ex_private : Buckle := MkBuckle (DCFormula {[ {[ ["alice"] ]} ]}) dc_true.
Definition probe_root : Labeled Directory :=
  MkLabeled (Buckle_new dc_true dc_false) (MkDirectory {["alice" := DirEntry.Directory (ObjRef 1)]}).
Definition probe_store (d : gmap string DirEntry) : gmap bytes bytes :=
  <[ukey ROOT_REF := to_vec (t := TDirectory) probe_root]>
  {[ukey (ObjRef (t := TDirectory) 1) := to_vec (t := TDirectory) (MkLabeled ex_private (MkDirectory d))]}.
Definition probe_app (d : gmap string DirEntry) : App (gmap bytes bytes) Pipe unit :=
  MkApp (start (probe_store d) [8%Z] public dc_true) (MkBlobstore ∅ []) (Some (MkPipe [] [])) tt 0.
Definition probe_known : Knowledge :=
  fun e => e = DirEntry.Directory ROOT_REF \/ e = DirEntry.Directory (ObjRef 1).

Lemma probe_alike d1 d2 : alike dc_true public probe_known (probe_store d1) (probe_store d2).
Proof.
  intros t r [He|He]; destruct t; try discriminate He; cbn in He; injection He as ->.
  - exists probe_root, probe_root. split_and!; [reflexivity|reflexivity|by split|].
    intros _ e [n Hn]. cbn in Hn. apply lookup_singleton_Some in Hn as [_ <-]. by right.
  - assert (Hs : ~ seen dc_true public ex_private) by (intros Hs; vm_compute in Hs; discriminate Hs).
    exists (MkLabeled ex_private (MkDirectory d1)), (MkLabeled ex_private (MkDirectory d2)).
    split_and!; [reflexivity|reflexivity| |].
    + split; [reflexivity|]. intros Hl. destruct (Hs Hl).
    + intros Hl. destruct (Hs Hl).
Qed.

(** The errors of a path are answered to whoever asks.  Two frontends are alike but for the
    contents of a directory that only alice may read; a request without a token for a gate in
    that directory is answered differently by the two.  No label is compared before an error
    is returned, though the thread has been tainted by then with what it may not tell. *)
Theorem path_errors_tell :
  exists (s1 s2 : App (gmap bytes bytes) Pipe unit) request r1 r2,
    s2 = set_app_fs (fs s2) s1 /\
    alike dc_true public probe_known (view (fs s1)) (view (fs s2)) /\
    header request "Authorization" = None /\
    (handle "" "" "" 2 request s1).1 = Val r1 /\ (handle "" "" "" 2 request s2).1 = Val r2 /\
    resp_body r1 <> resp_body r2 /\
    ~ seen dc_true public (current_label (fs (handle "" "" "" 2 request s1).2)) /\
    ~ seen dc_true public (current_label (fs (handle "" "" "" 2 request s2).2)).
Proof.
  exists (probe_app ∅), (probe_app {["x" := DirEntry.File (ObjRef 2)]}),
    (ex_get "POST" ["faasten"; "invoke"; ":alice:x"] None). eexists _, _.
  split_and!; [reflexivity|exact (probe_alike _ _)|reflexivity|vm_compute; reflexivity|vm_compute; reflexivity
    |discriminate|..]; intros Hs; vm_compute in Hs; discriminate Hs.
Qed.

Definition ex_li : LabeledInvoke := sched.MkLabeledInvoke None None None [] ∅ ∅ true None.

Lemma unreadable_hidden_witness :
  (wait_for_completion ex_li (ex_app x02)).1 = (wait_for_completion ex_li (ex_app x03)).1.
Proof.
  apply (unreadable_hidden ex_li (ex_app x02) (ex_app x03) [x02] [x03] (ex_return 4 ex_secret)
    (ex_return 2 ex_secret) (buckle_from ex_secret) ex_secret); try reflexivity.
  unfold FlowsP. intros H. assert (E : true = false) by (rewrite <- H; reflexivity). discriminate E.
Defined.

(** The holder of every privilege asks for a token without any. *)
Definition ex_token : string := uuid_digits (encode (MkClaims "" 0 0 dc_false)).
Definition ex_ask : Request := ex_get "POST" ["faasten"; "delegate"] (Some ex_token).
Lemma ex_login : verify_jwt 0 ex_ask = Ok dc_false.
Proof. vm_compute. reflexivity. Qed.

Lemma ex_delegates : delegates (St := gmap bytes bytes) (C := Pipe) (N := unit) dc_false dc_true.
Proof.
  set (t := uuid_digits (encode (MkClaims "ES256" 0 600 dc_true))).
  exists ex_ask, (ex_app x01), (ex_app x01), t, (MkClaims "ES256" 0 600 dc_true).
  split; [exact ex_login|]. split; [|split; [|done]].
  - unfold delegate, try_bind.
    rewrite (bind_step (jwt ex_ask) _ (ex_app x01) (Ok dc_false) (ex_app x01))
      by (change (jwt ex_ask (ex_app x01)) with
            (@Val (result Component Response) (verify_jwt 0 ex_ask), ex_app x01);
          by rewrite ex_login).
    reflexivity.
  - cbn. unfold t. rewrite uuid_value_digits. apply decode_encode.
Qed.

Lemma delegation_attenuates_witness :
  exists c c', rtc (delegates (St := gmap bytes bytes) (C := Pipe) (N := unit)) c c' /\ Implies c c'.
Proof.
  exists dc_false, dc_true.
  assert (H : rtc (delegates (St := gmap bytes bytes) (C := Pipe) (N := unit)) dc_false dc_true)
    by exact (rtc_once _ _ ex_delegates).
  split; [exact H|]. exact (delegation_attenuates dc_false dc_true H).
Defined.
