(* ===== verification/AuthorityWitness.v ===== *)
(** * Integrity at a concrete system

    A file that is alice's to write, a gate that gives bob what is bob's, and a request, a
    function and its system calls that act for bob. *)

From stdpp Require Import base tactics option list gmap strings countable.
From S2P Require Import Prelude Labels Store FsTypes Objects Fs FsGuarantee.
From S2P Require Import FsMediation FsReads Syscalls Blobstore Message SysServer LocalRM Worker.
From S2P Require Import Authority AuthoritySys AuthorityTask Webfront WebTheorems AuthorityWeb.
From S2P Require Import WebServer Integrity Instances FsWitness SysWitness SchedWitness WorkerWitness WebWitness.

(** ** A connection that records what is written to it *)

Record Tap : Type := MkTap { tap_inbox : bytes; tap_body : bool; tap_log : list Message.Request }.

Section tap.
Context `{MQ : !Message Message.Request}.

(** Headers and bodies alternate; a body that decodes is a request. *)
#[global] Instance tap_conn : Conn Tap := {|
  conn_write_all l t :=
    (Val (Ok tt),
     if tap_body t
     then MkTap (tap_inbox t) false
            (tap_log t ++ match Message.decode l with Some q => [q] | None => [] end)
     else MkTap (tap_inbox t) true (tap_log t));
  conn_read_exact n t :=
    if bool_decide (n <= Z.of_nat (length (tap_inbox t)))%Z
    then (Val (Ok (take (Z.to_nat n) (tap_inbox t))),
          MkTap (skipn (Z.to_nat n) (tap_inbox t)) (tap_body t) (tap_log t))
    else (Val (Err "unexpected end of file"%string), MkTap [] (tap_body t) (tap_log t));
|}.

Hypothesis faithful : forall q, Message.decode (encode_to_vec q) = Some q \/ Message.decode (encode_to_vec q) = None.

Definition tap_heard : Heard Tap.
Proof.
  refine {| heard := tap_log; settled t := tap_body t = false |}.
  - intros q [i b log] Ht. cbn in Ht. subst b. cbn. split; [done|].
    destruct (faithful q) as [-> | ->]; [by right|]. left. apply app_nil_r.
  - intros n t Ht. cbn. by case_bool_decide.
Defined.
End tap.

(** A codec that knows one request: one for the invocation [li]. *)
#[local] Instance pb_kind_eq_dec : EqDecision pb.component_kind.
Proof. solve_decision. Defined.
#[local] Instance pb_component_eq_dec : EqDecision pb.Component.
Proof. solve_decision. Defined.
#[local] Instance pb_buckle_eq_dec : EqDecision pb.Buckle.
Proof. solve_decision. Defined.
#[local] Instance pb_response_eq_dec : EqDecision pb.Response.
Proof. solve_decision. Defined.
#[local] Instance sched_function_eq_dec : EqDecision sched.Function.
Proof. solve_decision. Defined.
#[local] Instance task_return_eq_dec : EqDecision TaskReturn.
Proof. solve_decision. Defined.
#[local] Instance labeled_invoke_eq_dec : EqDecision LabeledInvoke.
Proof. solve_decision. Defined.
#[local] Instance request_kind_eq_dec : EqDecision request_kind.
Proof. solve_decision. Defined.
#[local] Instance request_eq_dec : EqDecision Message.Request.
Proof. solve_decision. Defined.

Definition invoke_request (li : LabeledInvoke) : Message.Request :=
  Message.MkRequest (Some (LabeledInvokeReq li)).
Definition one_request (li : LabeledInvoke) : Message Message.Request := {|
  encode_to_vec q := if decide (q = invoke_request li) then [x01] else [];
  Message.decode l := match l with [x01] => Some (invoke_request li) | _ => None end;
|}.
Lemma one_request_faithful li (M := one_request li) (q : Message.Request) :
  Message.decode (encode_to_vec q) = Some q \/ Message.decode (encode_to_vec q) = None.
Proof. cbn. case_decide as E; [left; by rewrite E | by right]. Qed.

(** ** Alice's file and bob's gate *)

Definition bob : Component := DCFormula {[ {[ ["bob"] ]} ]}.
Definition alices : Buckle := MkBuckle dc_true (DCFormula {[ {[ ["alice"] ]} ]}).
Definition notes : Labeled File := MkLabeled alices [x2a].
Definition bobs_gate : Labeled Gate :=
  MkLabeled public (Gate.Direct (MkDirectGate bob bob dc_true ex_function)).
Definition shared_root : Labeled Directory :=
  MkLabeled (Buckle_new dc_true dc_false)
    (MkDirectory (<["notes" := DirEntry.File (ObjRef 1)]> {["gate" := DirEntry.Gate (ObjRef 2)]})).
Definition shared_store : gmap bytes bytes :=
  <[ukey ROOT_REF := to_vec (t := TDirectory) shared_root]>
  (<[ukey (ObjRef (t := TFile) 1) := to_vec (t := TFile) notes]>
  {[ukey (ObjRef (t := TGate) 2) := to_vec (t := TGate) bobs_gate]}).

Lemma shared_closed : closed bob shared_store.
Proof.
  intros k v Hk. unfold shared_store in Hk.
  apply lookup_insert_Some in Hk as [[_ <-]|[_ Hk]]; [by apply granted_closed, granted_other|].
  apply lookup_insert_Some in Hk as [[_ <-]|[_ Hk]]; [by apply granted_closed, granted_other|].
  apply lookup_singleton_Some in Hk as [_ <-]. apply granted_closed, granted_gate.
  apply implies_refl.
Qed.
Lemma notes_guarded : guarded bob (to_vec (t := TFile) notes).
Proof. exists TFile, notes, alices. split_and!; [done|done|]. intros H. vm_compute in H. discriminate H. Qed.

(** One token is good. *)
#[local] Instance bobs_web : WebLib := {
  verify_with_key t := if decide (t = "token"%string) then Some (MkClaims "ES256" 0 600 bob) else None;
  sign_with_key _ := None;
  mime_parse s := Some (s, s);
  json_normalize s := Ok s;
  delegate_from_reader r := Ok (MkDelegate "T" false None);
  percent_decode s := s;
}.
Definition bobs_request : Request :=
  ex_get "POST" ["faasten"; "invoke"; "gate"] (Some "Bearer token"%string).
Definition front : App (gmap bytes bytes) Tap unit :=
  MkApp (start shared_store [8%Z] public dc_true) (MkBlobstore ∅ []) (Some (MkTap [] false [])) tt 0.

(** The invocation that the frontend makes of the request. *)
Definition bobs_invoke : LabeledInvoke :=
  match prepare_labeled_invoke 2 "gate" ∅ (String.list_byte_of_string "{}") ∅
          (set_app_fs (set_privilege bob (fs front)) front) with
  | (Val (Ok li), _) => li
  | _ => ex_invoke
  end.
#[local] Instance bobs_codec : Message Message.Request := one_request bobs_invoke.
#[local] Instance bobs_tap : Heard Tap := tap_heard (one_request_faithful bobs_invoke).

Lemma bobs_authority (s : App (gmap bytes bytes) Tap unit) : request_of_authority "" bob s bobs_request.
Proof.
  intros p [->|(ticket & _ & _ & E & _)]; [|discriminate E].
  assert (Hs : subject bobs_request = bob) by reflexivity.
  rewrite Hs. apply implies_refl.
Qed.

(** Two requests on two threads of the server. *)
Definition bobs_server : Server (St := gmap bytes bytes) (C := Tap) (N := unit) := MkServer front ∅.
Definition bobs_session : list (nat * Request) := [(0%nat, bobs_request); (1%nat, bobs_request)].

Lemma frontend_sessions_within_witness :
  let s' := (serve_requests "" "" "" 2 (Webfront.empty 500) bobs_session bobs_server).2 in
  quiet (fs (shared s')) /\ within bob shared_store (view (fs (shared s'))) /\
  told bob (conn front) (conn (shared s')).
Proof.
  destruct (frontend_sessions_within "" "" "" 2 (Webfront.empty 500) bob bobs_session bobs_server)
    as (H1 & H2 & H3);
    [done|exact shared_closed|apply map_Forall_empty|split; [apply bobs_authority|]; split;
      [apply bobs_authority|done]|].
  split; [exact H1|]. split; [exact H2|exact H3].
Defined.

(** ** The run: bob's request, the function it starts, and its attempt on alice's file *)

Abbreviation bobs_system :=
  (System (St := gmap bytes bytes) (C := Tap) (N := unit) (Ch := Script) (P := unit)).
Abbreviation bobs_function := (SysState (gmap bytes bytes) Tap unit Script).

Definition system0 : bobs_system := MkSystem shared_store [] [] [front].

Definition front1 : App (gmap bytes bytes) Tap unit :=
  (handle "" "" "" 2 bobs_request (resume_front shared_store front)).2.
Definition system1 : bobs_system :=
  MkSystem (backing (fs front1)) (submitted (conn front) (conn front1)) [] [front1].

Definition invoke_label : Buckle :=
  match sched.li_label bobs_invoke with
  | Some l => match buckle_into l tt with (Val l, _) => l | _ => public end
  | None => public
  end.
Definition function2 : bobs_function :=
  new (at_store (store system1) (start ∅ [9%Z] public dc_true)) (MkBlobstore ∅ [])
    (Some (MkTap [] false [])) tt [] invoke_label bob.
Definition system2 : bobs_system :=
  MkSystem (store system1) (accepted system1) [function2] [front1].

Definition called (sc : pb.Syscall) (y : bobs_system) (s : bobs_function) : bobs_system :=
  let '(o, s') := do_syscall 2 sc (resume (store y) s) in
  MkSystem (backing (SysServer.fs s')) (accepted y ++ submitted (sched_conn s) (sched_conn s'))
    (goes_on 0 s' o (functions y)) (fronts y).
Definition system3 : bobs_system :=
  called (pb.SysDentOpen 0 (Some (pb.Name "notes"))) system2 function2.
Definition function3 : bobs_function := default function2 (functions system3 !! 0%nat).
Definition system4 : bobs_system :=
  called (pb.SysDentUpdate (Some (pb.UpdateFile [x00])) 1) system3 function3.

Lemma called_own (sc : pb.Syscall) (y : bobs_system) (s : bobs_function) :
  functions y !! 0%nat = Some s -> own "" "" "" 2 bob y (called sc y s).
Proof.
  intros Hi. unfold called. destruct (do_syscall 2 sc (resume (store y) s)) as [o s'] eqn:E.
  by eapply (own_call _ _ _ _ _ y 0 s).
Qed.

Lemma system0_sound : sound bob system0.
Proof.
  split; cbn; [done|exact shared_closed|constructor|constructor|].
  constructor; [|constructor]. split; [by apply modest_public | done].
Qed.

Definition starts_check (li : LabeledInvoke) (label : Buckle) (privilege : Component) : bool :=
  match sched.li_label li, sched.li_gate_privilege li with
  | Some lb, Some pb =>
      match buckle_into lb tt, component_into pb tt with
      | (Val l, tt), (Val p, tt) => bool_decide (l = label) && bool_decide (p = privilege)
      | _, _ => false
      end
  | _, _ => false
  end.
Lemma starts_checked li label privilege :
  starts_check li label privilege = true -> starts li label privilege.
Proof.
  unfold starts_check, starts. destruct (sched.li_label li) as [lb|]; [|done].
  destruct (sched.li_gate_privilege li) as [pb|]; [|done].
  destruct (buckle_into lb tt) as [[l| |] []] eqn:El; try done.
  destruct (component_into pb tt) as [[p| |] []] eqn:Ep; try done.
  intros [->%bool_decide_eq_true ->%bool_decide_eq_true]%andb_true_iff. by exists lb, pb.
Qed.

Lemma bobs_invoke_authorized : authorized_invoke bob bobs_invoke.
Proof. apply (invoke_authorized bob bobs_invoke bob); [vm_compute; reflexivity | apply implies_refl]. Qed.

Lemma system4_reached : rtc (own "" "" "" 2 bob) system0 system4.
Proof.
  assert (H1 : own "" "" "" 2 bob system0 system1).
  { exact (own_request _ _ _ _ _ system0 0 front bobs_request front1 eq_refl (bobs_authority front) eq_refl). }
  assert (Hin : bool_decide (bobs_invoke ∈ accepted system1) = true) by (vm_compute; reflexivity).
  apply bool_decide_eq_true in Hin.
  assert (Hs : starts bobs_invoke invoke_label bob) by (apply starts_checked; vm_compute; reflexivity).
  assert (H2 : own "" "" "" 2 bob system1 system2) 
    by exact (own_start "" "" "" 2 bob system1 bobs_invoke invoke_label bob _ _ (Some (MkTap [] false [])) _ _ Hin Hs eq_refl).
  assert (H3 : own "" "" "" 2 bob system2 system3) by by apply called_own.
  assert (E3 : functions system3 !! 0%nat = Some function3) by reflexivity.
  assert (H4 : own "" "" "" 2 bob system3 system4) by by apply called_own.
  eapply rtc_l; [exact H1|]. eapply rtc_l; [exact H2|]. eapply rtc_l; [exact H3|]. by apply rtc_once.
Qed.

Lemma integrity_end_to_end_witness :
  rtc (own "" "" "" 2 bob) system0 system4 /\ dents function3 !! 1%Z = Some (DirEntry.File (ObjRef 1)) /\
  bs_view (store system4) !! ukey (ObjRef (t := TFile) 1) = Some (to_vec (t := TFile) notes) /\
  sound bob system4.
Proof.
  assert (Hr : rtc (step_sparing "" "" "" 2 bob (ukey (ObjRef (t := TFile) 1))) system0 system4).
  { eapply rtc_subrel; [|exact system4_reached]. intros y y' H. by left. }
  split; [exact system4_reached|]. split; [reflexivity|].
  exact (integrity_end_to_end "" "" "" 2 bob system0 system4 (ukey (ObjRef (t := TFile) 1))
    (to_vec (t := TFile) notes) system0_sound Hr eq_refl notes_guarded).
Defined.

(** ** A worker that is given bob's invocation *)

Definition bobs_task : Message Message.Response := {|
  encode_to_vec _ := [];
  Message.decode _ := Some (Message.MkResponse (Some (ProcessTask "t" (Some bobs_invoke))));
|}.
Definition bobs_worker : Worker (gmap bytes bytes) Tap unit Script (list Script) :=
  Worker.MkWorker (rm_new 512 (MkTap [] false [])) (start shared_store [8%Z] public dc_true)
    (MkBlobstore ∅ []) (Some (MkTap (replicate 8 x00) false [])) tt ∅
    [[pb.SysDentOpen 0 (Some (pb.Name "notes")); pb.SysDentUpdate (Some (pb.UpdateFile [x00])) 1]].

Lemma turn_within_witness :
  let s' := (turn (MS := bobs_task) ex_stats 1 4 2 1 7 3 bobs_worker).2 in
  quiet (env_fs s') /\ within bob shared_store (view (env_fs s')).
Proof.
  destruct (turn_within (MS := bobs_task) ex_stats 1 4 2 bob 1 7 3 bobs_worker
    (MkTap (replicate 8 x00) false [])) as (H1 & H2 & _);
    [done|exact shared_closed|reflexivity| |split; [exact H1|exact H2]].
  intros id li c' E.
  assert (Hg : get (Message1 := bobs_task) 7 (MkTap (replicate 8 x00) false []) =
    (Val (Ok (Message.MkResponse (Some (ProcessTask "t" (Some bobs_invoke))))), MkTap [] false []))
    by reflexivity.
  rewrite Hg in E. clear Hg. revert E. generalize bobs_invoke_authorized. generalize bobs_invoke.
  intros invoke Ha E. by injection E as _ <- _.
Defined.
