(* ===== verification/AdminWitness.v ===== *)
(** * The administrator's tool at concrete states

    Over the store of [FsWitness.v] and the tokens of [WebWitness.v]: an upload that the disk
    cuts short, a key and a token. *)

From Stdlib Require Import Ascii.
From stdpp Require Import base tactics option list gmap strings countable.
From S2P Require Import Prelude Labels Store FsTypes Objects Fs FsGuarantee.
From S2P Require Import FsMediation Paths Blobstore Bootstrap Webfront AdminTools.
From S2P Require Import Instances FsWitness WebWitness.
Local Open Scope list_scope.

(** Every local file holds four bytes; one that is a key is the frontend's. *)
Definition ex_local (path : string) : option bytes := Some [x01; x02; x03; x04].
Definition ex_pem (pem : bytes) : option (Claims -> option string) := Some sign_with_key.

Definition ex_boot (io : list Io) : Boot (gmap bytes bytes) := MkBoot ex_world (MkBlobstore ∅ io).

Lemma admin_confined_witness :
  quiet (boot_fs (ex_boot [])) /\ Action.Delete "dir:x" <> Action.Bootstrap "yaml" /\
  within (ex_boot [])
    (run_action ex_local (fun _ => None) 2 public None ex_pem 0 (Action.Delete "dir:x") (ex_boot [])).2.
Proof.
  split; [exact ex_quiet|]. split; [done|].
  apply (admin_confined ex_local (fun _ => None) 2 public None ex_pem 0 (Action.Delete "dir:x")
    (ex_boot []) ex_quiet). intros yaml. done.
Defined.

(** The second buffer fails: two bytes are installed, and the tool says [true]. *)
Definition ex_full : list Io := [Done; Done; Fail "no space left"].

Definition ex_upload := create_blob_action ex_local 2 "src" "dir:x" "T,T" (ex_boot ex_full).
Example ex_truncated :
  ex_upload.1 = Val (Ok (Printed true)) /\
  map_to_list (disk (boot_blobs ex_upload.2)) = [(("00", "0102"), [x01; x02])].
Proof. split; vm_compute; reflexivity. Qed.

Lemma create_blob_installs_witness :
  let w := set_privilege FAASTEN_PRIV ex_world in
  exists k bs, (ex_full = [] -> take k [x01; x02; x03; x04] = [x01; x02; x03; x04]) /\
    ((ex_full <> [] /\ ex_upload = (Panic, MkBoot w bs)) \/
     exists p, split_at_2 (blob_name (take k [x01; x02; x03; x04])) bs = (Val p, bs) /\
       disk bs = <[p := take k [x01; x02; x03; x04]]> (disk (MkBlobstore ∅ ex_full)) /\
       ex_upload =
         (r ← in_fs (create_or_update_blob [PathComponent.Dscrp "dir"] "x" (MkBuckle (DCFormula ∅) (DCFormula ∅))
                       (blob_name (take k [x01; x02; x03; x04])));
          mret (Ok (Printed (is_ok r)))) (MkBoot w bs)).
Proof.
  apply (create_blob_installs ex_local 2 "src" "dir:x" "T,T" [x01; x02; x03; x04]
    [PathComponent.Dscrp "dir"; PathComponent.Dscrp "x"] [PathComponent.Dscrp "dir"] "x"
    (MkBuckle (DCFormula ∅) (DCFormula ∅)) (ex_boot ex_full)).
  - lia.
  - reflexivity.
  - reflexivity.
  - reflexivity.
  - reflexivity.
  - reflexivity.
Defined.

Lemma admin_token_accepted_witness :
  exists t l s', jwt_action ex_local ex_pem 5 "T" "key" ex_world = (Val (Ok (Token t)), s') /\
    s' = ex_world /\ buckle_parse "T,T" = Some l.
Proof.
  destruct (jwt_action ex_local ex_pem 5 "T" "key" ex_world) as [[[o|]| |] s'] eqn:E;
    [|discriminate E..].
  destruct (admin_token_accepted ex_local ex_pem 5 "T" "key" [x01; x02; x03; x04] ex_world s' o
    eq_refl eq_refl E) as (t & l & Ho & Hs & Hl & _).
  exists t, l, s'. rewrite Ho. split; [reflexivity|]. split; [exact Hs|exact Hl].
Defined.
