(* ===== verification/HookWitness.v ===== *)
(** * The HTTP server and the webhook at concrete states

    A head is one line, the stated length of the body; a signature is the secret and the body. *)

From Stdlib Require Import Ascii String.
From stdpp Require Import base tactics option list gmap strings.
From S2P Require Import Prelude HttpServer Webhook.
Local Open Scope list_scope.

(** The bytes up to the first line feed, with it. *)
Fixpoint first_line (l : bytes) : option bytes :=
  match l with
  | [] => None
  | b :: l => if decide (b = x0a) then Some [b] else (fun x => b :: x) <$> first_line l
  end.
#[global] Instance line_http : HttpLib := {|
  httparse l := Ok (x ← first_line l;
    Some (length x, MkHead (Some "POST"%string) None [("content-length"%string, take (length x - 1) x)]));
  head_parts h := Some (MkParts "POST" "/" (raw_headers h));
  canonical_reason _ := Some "OK"%string;
|}.

Definition sized (size : bytes) : Parts := MkParts "POST" "/" [("content-length"%string, size)].
Definition five : bytes := [x35; x0a].

Lemma five_is_head : is_head five (sized [x35]).
Proof.
  exists (MkHead (Some "POST"%string) None [("content-length"%string, [x35])]).
  split; [reflexivity|]. split; [intros rest; reflexivity|].
  intros [|a [|b [|c l]]] k E Hk; try done; injection E; intros; subst; done.
Qed.

Definition ex_tcp : Tcp := MkTcp [] None [].
(** The last piece belongs to the next request. *)
Definition ex_pieces : list bytes := [[x35]; [x0a; x01; x02]; [x03]; [x04; x05; x37]].

Lemma read_body_witness :
  exists pre : bytes, length pre < READ_SIZE /\
    (length pre <= 5 ->
      exists chunks', read 20 (arriving ex_pieces ex_tcp) =
          (Val (Ok (MkHttpRequest (sized [x35]) [x01; x02; x03; x04; x05])), arriving chunks' ex_tcp) /\
        concat chunks' = [x37]).
Proof.
  destruct (read_body 20 five (sized [x35]) 5 [x01; x02; x03; x04; x05] [x37] ex_pieces ex_tcp)
    as (pre & Hl & _ & _ & Hok & _).
  - exact five_is_head.
  - done.
  - reflexivity.
  - reflexivity.
  - lia.
  - repeat constructor; done.
  - reflexivity.
  - vm_compute. lia.
  - exists pre. split; [exact Hl|]. intros Hp.
    destruct (Hok Hp) as (chunks' & E & Hc & _). exists chunks'. split; [exact E|exact Hc].
Defined.

(** A handler that counts. *)
Definition counting (r : HttpRequest) : SM nat HttpResponse :=
  fun n => (Val (MkHttpResponse 200 [] (req_body r)), Datatypes.S n).
Definition ex_sent (b : byte) : Sent :=
  MkSent five (sized [x35]) [b; b; b; b; b] [[x35; x0a; b]; [b; b; b; b]].

Lemma ex_well_sent b : well_sent (ex_sent b).
Proof.
  split; [exact five_is_head|]. split; [done|]. split; [reflexivity|]. split; [cbn; lia|].
  split; [repeat constructor; done|reflexivity].
Qed.

Definition ex_answers : bytes :=
  render (MkHttpResponse 200 [] [x01; x01; x01; x01; x01]) ++
  render (MkHttpResponse 200 [] [x02; x02; x02; x02; x02]) ++ [].

Lemma serve_in_order_witness :
  serve_connection counting 3 20
      (arriving (concat (sent_pieces <$> [ex_sent x01; ex_sent x02])) ex_tcp, 0) =
    (Val tt, (wrote ex_answers (arriving [] ex_tcp), 2)).
Proof.
  apply (serve_in_order counting 20 0 [ex_sent x01; ex_sent x02] 2 ex_answers ex_tcp).
  - constructor; [apply ex_well_sent|]. constructor; [apply ex_well_sent|constructor].
  - eapply answered_cons; [reflexivity|]. eapply answered_cons; [reflexivity|]. constructor.
  - reflexivity.
  - vm_compute. lia.
Defined.

(** ** The webhook *)

#[global] Instance plain_hook : HookLib := {|
  Json := string;
  json_string s := s;
  json_object _ := Some ∅;
  hmac_verify secret payload tag := bool_decide (tag = secret ++ payload);
  header_to_str b := Some (text b);
  request_to_vec gate _ := raw gate;
  response_from_slice b := Some (SentToVM b);
|}.
#[global] Instance echo_snapfaas : Snapfaas bytes := {|
  write_u8 b := fun _ => (Val (Ok tt), b);
  read_u8 := fun s => (Val (Ok s), s);
|}.

Definition ex_event : HttpRequest :=
  MkHttpRequest (MkParts "POST" "/" [("x-github-event"%string, raw "push"); ("x-hub-signature"%string, raw "sha1=2A")]) [].

Lemma webhook_authentic_witness :
  handle_github_event (Some [x2a]) ex_event (Some []) = (Val (Ok (raw "gh_repo")), Some (raw "gh_repo")) /\
  exists tag, get_header "x-hub-signature" (parts ex_event) = Some tag /\ signed [x2a] [] tag.
Proof.
  assert (E : handle_github_event (Some [x2a]) ex_event (Some []) =
    (Val (Ok (raw "gh_repo")), Some (raw "gh_repo"))) by (vm_compute; reflexivity).
  split; [exact E|].
  apply (webhook_authentic [x2a] ex_event (Some []) _ _ E). right. by eexists.
Defined.
