(* ===== verification/ToolsWitness.v ===== *)
(** * The theorems of the tools and of the start of the processes at concrete inputs

    The LMDB environment is a finite map, listed in the order of its keys. *)

From Stdlib Require Import Sorted.
From stdpp Require Import base tactics option list gmap strings sorting countable.
From S2P Require Import Prelude Store Blobstore HttpServer Tools LocalRM Machine Startup Metrics.
From S2P Require Import Instances.

(** ** A map with a cursor *)

Lemma bytes_le_total a b : bytes_le a b = true \/ bytes_le b a = true.
Proof.
  revert b. induction a as [|x a IH]; intros [|y b]; cbn; try by (left + right).
  destruct (decide (Z_of_byte x < Z_of_byte y)%Z); [by left|].
  destruct (decide (Z_of_byte y < Z_of_byte x)%Z); [by right|].
  rewrite !decide_True by lia. apply IH.
Qed.
Lemma bytes_le_trans a b c : bytes_le a b = true -> bytes_le b c = true -> bytes_le a c = true.
Proof.
  revert b c. induction a as [|x a IH]; intros [|y b] [|z c]; cbn; try done.
  destruct (decide (Z_of_byte x < Z_of_byte y)%Z), (decide (Z_of_byte y < Z_of_byte z)%Z);
    repeat case_decide; try done; try lia. by apply IH.
Qed.
Lemma bytes_le_antisym a b : bytes_le a b = true -> bytes_le b a = true -> a = b.
Proof.
  revert b. induction a as [|x a IH]; intros [|y b]; cbn; try done.
  repeat case_decide; try done; try lia. intros Ha Hb. rewrite (IH b Ha Hb). f_equal.
  rewrite <- (byte_of_Z_of_byte x), <- (byte_of_Z_of_byte y). by f_equal.
Qed.

Definition entry_le (p q : bytes * bytes) : Prop := bytes_le p.1 q.1 = true.
#[global] Instance entry_le_dec p q : Decision (entry_le p q).
Proof. unfold entry_le. apply _. Defined.
#[global] Instance entry_le_total : Total entry_le.
Proof. intros p q. apply bytes_le_total. Qed.
#[global] Instance entry_le_trans : Transitive entry_le.
Proof. intros p q r. apply bytes_le_trans. Qed.

Definition entries (m : gmap bytes bytes) : list (bytes * bytes) := merge_sort entry_le (map_to_list m).

Lemma entries_perm m : entries m ≡ₚ map_to_list m.
Proof. apply merge_sort_Permutation. Qed.
Lemma entries_sorted m : StronglySorted key_lt (entries m).
Proof.
  assert (Hs : StronglySorted entry_le (entries m)) by apply (StronglySorted_merge_sort entry_le).
  assert (Hn : NoDup (entries m).*1) by (rewrite entries_perm; apply NoDup_fst_map_to_list).
  induction Hs as [|p l Hl IH Hp]; [constructor|]. cbn in Hn. apply list.NoDup_cons in Hn as [Hx Hn].
  constructor; [by apply IH|]. rewrite list.Forall_forall in Hp |- *. intros q Hq. unfold key_lt.
  destruct (bytes_le q.1 p.1) eqn:E; [|done]. exfalso. apply Hx.
  rewrite (bytes_le_antisym p.1 q.1 (Hp q Hq) E). by apply list_elem_of_fmap_2.
Qed.

#[global] Instance lmdb_on_maps : LmdbLib (gmap bytes bytes) := map_lmdb.
#[global] Instance lmdb_laws_on_maps : LmdbLaws (gmap bytes bytes) := map_lmdb_laws.
#[global] Instance map_cursor : LmdbCursor (gmap bytes bytes) := {|
  create_db _ _ := true;
  open_ro_cursor _ := true;
  iter_from m k := Ok <$> List.filter (fun p => bytes_le k p.1) (entries m);
|}.
#[global] Instance map_cursor_laws : LmdbCursorLaws (gmap bytes bytes).
Proof.
  split; cbn; try done.
  - intros m k v _ _. by exists (<[k:=v]> m).
  - intros m k _. eexists. split; [done|]. split.
    + pose proof (entries_sorted m) as H. induction H as [|p l Hl IH Hp]; [constructor|]. cbn.
      destruct (bytes_le k p.1); [|done]. constructor; [done|].
      rewrite list.Forall_forall in Hp |- *. intros q [Hq _]%elem_of_filtered. by apply Hp.
    + intros k' v. rewrite elem_of_filtered, entries_perm, elem_of_map_to_list. done.
Qed.

Definition ex_db : gmap bytes bytes := {[ raw "ab" := [x01]; raw "abc" := []; raw "b" := [x02] ]}.
Lemma scan_lists_prefix_witness :
  exists ps, sfdb (MkArgs None false true false "ab" None) [] ex_db = (Val (entry_line <$> ps), ex_db) /\
    (raw "abc", []) ∈ ps.
Proof.
  destruct (scan_lists_prefix (MkArgs None false true false "ab" None) [] ex_db) as (ps & E & _ & H).
  - exact I.
  - reflexivity.
  - reflexivity.
  - exists ps. split; [exact E|]. apply H. split; [reflexivity|]. exists [x63]. reflexivity.
Defined.

Lemma int_roundtrip_witness :
  exists e', sfdb (MkArgs None true false false "k" None) [] e' = (Val [Line "300"], e').
Proof.
  destruct (int_roundtrip None false false "k" 300 [] [] (∅ : gmap bytes bytes)) as (e' & _ & _ & E).
  - exact I.
  - cbn. lia.
  - lia.
  - exists e'. exact E.
Defined.

Lemma sfblob_roundtrip_witness :
  exists n s1 out r s2,
    sfblob 8 false [] [Ok [x61]; Ok [x62]] (MkBlobstore ∅ []) = (Val ([Line n], Ok tt), s1) /\
    sfblob 8 true [Ok n] [] s1 = (Val (out, r), s2) /\
    (r = Ok tt -> printed out = [x61; x62]).
Proof.
  destruct (sfblob 8 false [] [Ok [x61]; Ok [x62]] (MkBlobstore ∅ [])) as [o s1] eqn:E.
  assert (Ho : exists n, o = Val ([Line n], Ok tt)).
  { vm_compute in E. injection E as <- _. by eexists. }
  destruct Ho as [n ->].
  destruct (sfblob_roundtrip 8 ltac:(lia) [Ok [x61]; Ok [x62]] (MkBlobstore ∅ []) n s1 E)
    as (data & Hd & _ & out & r & s2 & E2 & _ & Hr).
  assert (Hc : concat data = [x61; x62]).
  { destruct data as [|a [|b [|c data]]]; try discriminate. cbn in Hd.
    injection Hd as <- <-. reflexivity. }
  exists n, s1, out, r, s2. split; [reflexivity|]. split; [exact E2|]. rewrite <- Hc. exact Hr.
Defined.

Lemma timed_flush_logs_witness :
  exists m t, log_file (timed_flush (push t m)) = [t].
Proof.
  set (t := MkTimestamps 0 0 0 0 0 0). exists (metrics_new []), t.
  assert (Hr : rtc metrics_step (metrics_new [], []) (timed_flush (push t (metrics_new [])), [t])).
  { eapply rtc_l; [apply (m_push t)|]. apply rtc_once, m_timed. }
  destruct (timed_flush_logs [] _ _ Hr) as [_ H]. specialize (H eq_refl). exact H.
Defined.

(** ** Starting *)

Lemma machine_memory_read_witness :
  get_machine_memory [Ok "MemFree: 1 kB"; Ok "MemTotal:   2097152 kB"] = Val 2048%Z.
Proof.
  apply (machine_memory_read ["MemFree: 1 kB"] 3 2097152 []).
  - constructor; [|constructor]. vm_compute. discriminate.
  - lia.
Defined.

Lemma pool_started_witness :
  exists m : Machine nat nat, multivm 1024 [Ok "MemTotal: 2097152 kB"] [None; Some 7] = Val m /\
    total_mem (rm m) = 1024%Z /\ workers m !! 107%Z = Some None.
Proof.
  destruct (pool_started (Ch := nat) 1024 [Ok "MemTotal: 2097152 kB"] [None; Some 7] 2048 7)
    as (m & E & Ht & _ & _ & Hw & _).
  - vm_compute. reflexivity.
  - reflexivity.
  - lia.
  - lia.
  - exists m. split; [exact E|]. split; [rewrite Ht; reflexivity|].
    apply Hw. split; [reflexivity|]. vm_compute. split; [discriminate|reflexivity].
Defined.
